(** * The inference gateway: a shallow embedding of its request pipeline

    The development follows the source files of the gateway one module at a
    time: tenant manager and auth middleware, bandit engine, rate-limit
    middleware, circuit breaker, semantic cache, classifier, router and the
    streaming handler of the orchestrator.

    Conventions of the embedding.
    - JavaScript numbers are modelled by exact rationals [Q] (and by [Z] where
      the code only ever holds integers: millisecond clocks, counters).
      In the classifier, whose score is rounded to an integer, the
      arithmetic is that of IEEE 754 doubles: every operation rounds its
      exact result to the nearest double ([JS.double]).  Elsewhere rounding
      is not modelled; comparisons of a ratio of two small integers against
      the constants of the code agree with the exact ones.
    - [Date.now()] is an explicit argument of every operation that reads it,
      one argument per read (a function of the position for a read inside a
      loop); an event of the streaming handler carries the reading of its
      turn of the event loop.
    - Objects used as dictionaries and [Map]s are [gmap]s with string keys;
      where a key comes from a request, the members that an object literal
      inherits from [Object.prototype] are taken into account.
    - A prompt is the sequence of its UTF-16 code units ([JS.str]), as
      [String.prototype.length] counts them; other strings (keys, names,
      texts that are only passed on) are byte strings.  The
      regular-expression engine of the runtime is a parameter of the
      classifier.
    - Mutation is explicit state passing; exceptions and divergence are
      [option]. *)

From Stdlib Require Import ZArith QArith Qround Qminmax Qabs Qpower Lqa Lia List String Ascii Bool.
From Stdlib Require Import Floats.PrimFloat Floats.FloatOps Floats.SpecFloat.
From stdpp Require Import base gmap strings list.

Open Scope Q_scope.

(** ** JavaScript primitives shared by the modules *)

Module JS.

(** [x < y] on numbers. *)
Definition Qltb (x y : Q) : bool := negb (Qle_bool y x).

(** [x >= y] on numbers. *)
Definition Qgeb (x y : Q) : bool := Qle_bool y x.

(** [Math.round]: the nearest integer, ties towards plus infinity. *)
Definition round (x : Q) : Z := Qfloor (x + (1 # 2)).

(** [Math.ceil]. *)
Definition ceil (x : Q) : Z := Qceiling x.

(** [Math.round(x * 1000) / 1000], the rounding to three decimals used for
    every reported score. *)
Definition round3 (x : Q) : Q := inject_Z (round (x * 1000)) / 1000.

(** Truthiness of a string: only the empty string is falsy. *)
Definition truthy_string (s : string) : bool :=
  match s with EmptyString => false | _ => true end.

(** Truthiness of a number held in [Q]: only zero is falsy. *)
Definition truthy_num (x : Q) : bool := negb (Qeq_bool x 0).

(** [x || d] for an optional number. *)
Definition num_or (x : option Q) (d : Q) : Q :=
  match x with
  | Some v => if truthy_num v then v else d
  | None => d
  end.

(** ASCII part of the white space stripped by [String.prototype.trim]. *)
Definition is_space (c : ascii) : bool :=
  let n := nat_of_ascii c in
  ((9 <=? n)%nat && (n <=? 13)%nat) || (n =? 32)%nat.

Fixpoint trim_left (s : string) : string :=
  match s with
  | String c rest => if is_space c then trim_left rest else s
  | EmptyString => EmptyString
  end.

Definition string_rev (s : string) : string :=
  string_of_list_ascii (rev (list_ascii_of_string s)).

(** [s.trim()]. *)
Definition trim (s : string) : string :=
  string_rev (trim_left (string_rev (trim_left s))).

(** [s.slice(n)] for a non-negative [n]. *)
Fixpoint slice_from (n : nat) (s : string) : string :=
  match n, s with
  | O, _ => s
  | S k, String _ rest => slice_from k rest
  | S _, EmptyString => EmptyString
  end.

(** [s.startsWith(p)]. *)
Fixpoint startsWith (s p : string) : bool :=
  match p with
  | EmptyString => true
  | String c p' =>
      match s with
      | String d s' => Ascii.eqb c d && startsWith s' p'
      | EmptyString => false
      end
  end.

(** [s.includes(t)]. *)
Fixpoint includes (s t : string) : bool :=
  startsWith s t ||
  match s with
  | String _ rest => includes rest t
  | EmptyString => false
  end.

(** A natural number as a JavaScript number. *)
Definition qnat (n : nat) : Q := inject_Z (Z.of_nat n).

(** [parseInt(s)] in base 10 on an unsigned digit string: the value of the
    leading digits, [None] ([NaN]) when there is none. *)
Definition digit_of (c : ascii) : option Z :=
  let n := nat_of_ascii c in
  if (48 <=? n)%nat && (n <=? 57)%nat then Some (Z.of_nat (n - 48)) else None.

Fixpoint parse_digits (acc : Z) (s : string) : Z :=
  match s with
  | String c rest =>
      match digit_of c with
      | Some d => parse_digits (acc * 10 + d) rest
      | None => acc
      end
  | EmptyString => acc
  end.

Definition parseInt (s : string) : option Z :=
  match trim_left s with
  | String c _ as t =>
      match digit_of c with
      | Some _ => Some (parse_digits 0 t)
      | None => None
      end
  | EmptyString => None
  end.

(** [array.sort((a, b) => key(b) - key(a))]: descending, stable. *)
Fixpoint insert_desc {A} (key : A -> Q) (x : A) (l : list A) : list A :=
  match l with
  | [] => [x]
  | y :: rest =>
      if Qltb (key x) (key y) then y :: insert_desc key x rest else x :: l
  end.

Definition sort_desc {A} (key : A -> Q) (l : list A) : list A :=
  foldr (insert_desc key) [] l.

(** *** Double-precision arithmetic

    A finite double is held by its value.  An operation on doubles returns
    the double nearest to its exact result, the one with the even
    significand of two that are equally near (IEEE 754 binary64, 53 bits of
    precision, least exponent -1074).  Overflow is not modelled: the
    numbers of the classifier are counts of code units of a string, which
    are below 2^53, and quotients and weighted sums of them. *)

(** The integer nearest to [x], the even one of two that are equally
    near. *)
Definition round_half_even (x : Q) : Z :=
  let f := Qfloor x in
  match Qcompare (x - inject_Z f) (1 # 2) with
  | Lt => f
  | Gt => (f + 1)%Z
  | Eq => if Z.even f then f else (f + 1)%Z
  end.

(** The exponent of the leading bit of a positive rational:
    [2 ^ ilog2 x <= x < 2 ^ (ilog2 x + 1)]. *)
Definition ilog2 (x : Q) : Z :=
  let k := (Z.log2 (Qnum x) - Z.log2 (Zpos (Qden x)))%Z in
  if Qle_bool (2 ^ k) x then k else (k - 1)%Z.

(** The double nearest to [x]. *)
Definition double (x : Q) : Q :=
  let x := Qred x in
  if Qeq_bool x 0 then 0
  else
    let e := Z.max (ilog2 (Qabs x) - 52) (-1074) in
    Qred (inject_Z (round_half_even (x / 2 ^ e)) * 2 ^ e).

(** [x + y], [x * y] and [x / y] on doubles, and the number that a decimal
    literal of the source denotes. *)
Definition fadd (x y : Q) : Q := double (x + y).
Definition fmul (x y : Q) : Q := double (x * y).
Definition fdiv (x y : Q) : Q := double (x / y).
Definition literal (x : Q) : Q := double x.

(** The value of a double of the kernel, for comparison. *)
Definition binary64 (x : float) : option Q :=
  match Prim2SF x with
  | S754_zero _ => Some 0
  | S754_finite s m e =>
      Some (Qred ((if s then -1 else 1) * inject_Z (Zpos m) * 2 ^ e))
  | _ => None
  end.

(** [Math.min(x, y)] on doubles of the kernel that are numbers. *)
Definition min64 (x y : float) : float :=
  if PrimFloat.ltb y x then y else x.

(** *** Strings by their code units

    The value of a string of the runtime is the sequence of its UTF-16
    code units; [s.length] is the length of that sequence. *)
Definition str := list N.

(** A string literal of the source all of whose characters are ASCII. *)
Definition lit (s : string) : str :=
  map N_of_ascii (list_ascii_of_string s).

(** White space and line terminators, which [trim] and [parseInt] strip. *)
Definition is_white (c : N) : bool :=
  ((9 <=? c) && (c <=? 13) || (c =? 32) || (c =? 160) || (c =? 5760)
   || (8192 <=? c) && (c <=? 8202) || (c =? 8232) || (c =? 8233)
   || (c =? 8239) || (c =? 8287) || (c =? 12288) || (c =? 65279))%N.

Fixpoint trimStart16 (s : str) : str :=
  match s with
  | c :: rest => if is_white c then trimStart16 rest else s
  | [] => []
  end.

(** [s.trim()]. *)
Definition trim16 (s : str) : str :=
  rev (trimStart16 (rev (trimStart16 s))).

(** [s.startsWith(p)] and [s.includes(t)]. *)
Fixpoint startsWith16 (s p : str) : bool :=
  match p with
  | [] => true
  | c :: p' =>
      match s with
      | d :: s' => N.eqb c d && startsWith16 s' p'
      | [] => false
      end
  end.

Fixpoint includes16 (s t : str) : bool :=
  startsWith16 s t ||
  match s with
  | _ :: rest => includes16 rest t
  | [] => false
  end.

(** [parseInt(s)] without a radix: white space is skipped, a sign is read,
    the prefix [0x] or [0X] selects base 16, and the longest run of digits
    of the base is converted; [None] ([NaN]) when there is no digit.  The
    result is the integer the digits denote: the number that [parseInt]
    returns is the double nearest to it, which lies on the same side of
    every integer below 2^53 as the integer itself. *)
Definition digit16 (c : N) : option Z :=
  if ((48 <=? c) && (c <=? 57))%N then Some (Z.of_N c - 48)%Z
  else if ((97 <=? c) && (c <=? 122))%N then Some (Z.of_N c - 87)%Z
  else if ((65 <=? c) && (c <=? 90))%N then Some (Z.of_N c - 55)%Z
  else None.

Definition digitIn (radix : Z) (c : N) : option Z :=
  match digit16 c with
  | Some d => if (d <? radix)%Z then Some d else None
  | None => None
  end.

Fixpoint parseDigits (radix acc : Z) (s : str) : Z :=
  match s with
  | c :: rest =>
      match digitIn radix c with
      | Some d => parseDigits radix (acc * radix + d) rest
      | None => acc
      end
  | [] => acc
  end.

Definition parseInt16 (s : str) : option Z :=
  let s1 := trimStart16 s in
  let '(sign, s2) :=
    match s1 with
    | c :: rest =>
        if (c =? 45)%N then ((-1)%Z, rest)
        else if (c =? 43)%N then (1%Z, rest)
        else (1%Z, s1)
    | [] => (1%Z, s1)
    end in
  let '(radix, s3) :=
    match s2 with
    | c0 :: c1 :: rest =>
        if ((c0 =? 48) && ((c1 =? 120) || (c1 =? 88)))%N then (16%Z, rest)
        else (10%Z, s2)
    | _ => (10%Z, s2)
    end in
  match s3 with
  | c :: _ =>
      match digitIn radix c with
      | Some _ => Some (sign * parseDigits radix 0 s3)%Z
      | None => None
      end
  | [] => None
  end.

(** [array.sort(compare)] for a comparator that orders the array
    consistently: an insertion sort, stable as the sort of the runtime is.
    [after x y] tells that [compare(x, y) > 0]; a comparator that returns
    [NaN] is taken to have returned 0. *)
Fixpoint insert_by {A} (after : A -> A -> bool) (x : A) (l : list A)
  : list A :=
  match l with
  | [] => [x]
  | y :: rest => if after x y then y :: insert_by after x rest else x :: l
  end.

Definition sort_by {A} (after : A -> A -> bool) (l : list A) : list A :=
  foldr (insert_by after) [] l.

(** The names every object literal inherits from [Object.prototype].  On a
    plain object used as a dictionary, [table[key]] finds the inherited
    member (a function, or [Object.prototype] itself for [__proto__]) when
    [key] is one of these names and no own property: a truthy value that is
    none of the values the dictionary was filled with. *)
Definition objectPrototypeMembers : list string :=
  [ "constructor"; "__defineGetter__"; "__defineSetter__"; "hasOwnProperty";
    "__lookupGetter__"; "__lookupSetter__"; "isPrototypeOf";
    "propertyIsEnumerable"; "toString"; "valueOf"; "__proto__";
    "toLocaleString" ]%string.

Definition inherited (key : string) : bool :=
  bool_decide (key ∈ objectPrototypeMembers).

(** Case analysis on the condition of a conditional of the goal. *)
Ltac case_if :=
  match goal with
  | |- context [if ?b then _ else _] => destruct b eqn:?
  end.

Lemma pow2_pos e : 0 < 2 ^ e.
Proof. apply Qpower_0_lt. reflexivity. Qed.

Lemma round_half_even_le x n :
  x <= inject_Z n -> (round_half_even x <= n)%Z.
Proof.
  intros Hx. unfold round_half_even.
  pose proof (Qfloor_le x) as Hf.
  assert (Hfn : (Qfloor x <= n)%Z).
  { rewrite <- (Qfloor_Z n). apply Qfloor_resp_le, Hx. }
  destruct (Z.eq_dec (Qfloor x) n) as [E|E].
  - assert (Hfrac : x - inject_Z (Qfloor x) <= 0) by (rewrite E; lra).
    destruct (Qcompare_spec (x - inject_Z (Qfloor x)) (1 # 2)) as [H|H|H];
      [lra | lia | lra].
  - destruct (Qcompare (x - inject_Z (Qfloor x)) (1 # 2));
      [destruct (Z.even (Qfloor x))|..]; lia.
Qed.

Lemma round_half_even_nonneg x : 0 <= x -> (0 <= round_half_even x)%Z.
Proof.
  intros Hx. unfold round_half_even.
  assert (Hf : (0 <= Qfloor x)%Z).
  { change 0%Z with (Qfloor 0). apply Qfloor_resp_le, Hx. }
  destruct (Qcompare (x - inject_Z (Qfloor x)) (1 # 2));
    [destruct (Z.even (Qfloor x))|..]; lia.
Qed.

(** Equal rationals round to the same double. *)
Lemma double_comp x y : x == y -> double x = double y.
Proof.
  intros H. unfold double. rewrite (Qred_complete x y H). reflexivity.
Qed.

Lemma double_nonneg x : 0 <= x -> 0 <= double x.
Proof.
  intros Hx. unfold double.
  destruct (Qeq_bool (Qred x) 0); [lra|].
  rewrite Qred_correct.
  set (e := Z.max _ _). pose proof (pow2_pos e) as He.
  assert (Hq : 0 <= Qred x / 2 ^ e).
  { apply Qle_shift_div_l; [exact He|]. rewrite Qred_correct. lra. }
  apply round_half_even_nonneg in Hq.
  assert (Hm : 0 <= inject_Z (round_half_even (Qred x / 2 ^ e))).
  { change 0 with (inject_Z 0). rewrite <- Zle_Qle. exact Hq. }
  nra.
Qed.

Lemma ilog2_le_0 x : 0 < x -> x <= 1 -> (ilog2 x <= 0)%Z.
Proof.
  intros H0 H1. unfold ilog2.
  assert (Hk : (Z.log2 (Qnum x) - Z.log2 (Z.pos (Qden x)) <= 0)%Z).
  { assert (Hle : (Qnum x <= Z.pos (Qden x))%Z).
    { unfold Qle in H1. cbn in H1. lia. }
    pose proof (Z.log2_le_mono _ _ Hle). lia. }
  destruct (Qle_bool _ x); lia.
Qed.

(** 1 is a double: what is at most 1 rounds to at most 1. *)
Lemma double_le_1 x : 0 <= x -> x <= 1 -> double x <= 1.
Proof.
  intros H0 H1. unfold double.
  destruct (Qeq_bool (Qred x) 0) eqn:E0; [lra|].
  apply Qeq_bool_neq in E0. rewrite Qred_correct in E0.
  rewrite Qred_correct.
  assert (Hpos : 0 < Qred x) by (rewrite Qred_correct; lra).
  assert (Hle : Qred x <= 1) by (rewrite Qred_correct; exact H1).
  assert (Habs : Qabs (Qred x) = Qred x).
  { destruct (Qred x) as [n d]. unfold Qabs. f_equal. apply Z.abs_eq.
    unfold Qlt in Hpos. cbn in Hpos. lia. }
  rewrite Habs.
  pose proof (ilog2_le_0 (Qred x) Hpos Hle) as Hil.
  set (e := Z.max (ilog2 (Qred x) - 52) (-1074)).
  assert (He : (e <= 0)%Z) by (unfold e; lia).
  pose proof (pow2_pos e) as Hp.
  assert (Hinv : 2 ^ e * inject_Z (2 ^ (- e)) == 1).
  { rewrite Zpower_Qpower by lia. change (inject_Z 2) with 2.
    rewrite <- Qpower_plus by (intros H; discriminate).
    replace (e + - e)%Z with 0%Z by lia. reflexivity. }
  assert (Hq : Qred x / 2 ^ e <= inject_Z (2 ^ (- e))).
  { apply Qle_shift_div_r; [exact Hp|]. rewrite Qmult_comm, Hinv. exact Hle. }
  apply round_half_even_le in Hq. rewrite Zle_Qle in Hq.
  set (m := inject_Z (round_half_even (Qred x / 2 ^ e))) in *.
  rewrite <- Hinv. rewrite (Qmult_comm (2 ^ e)).
  apply Qmult_le_compat_r; [exact Hq | lra].
Qed.

Lemma ilog2_le x k :
  0 < x -> (0 <= k)%Z -> x <= inject_Z (2 ^ k) -> (ilog2 x <= k)%Z.
Proof.
  intros H0 Hk H1. unfold ilog2.
  assert (Hl : (Z.log2 (Qnum x) - Z.log2 (Z.pos (Qden x)) <= k)%Z).
  { assert (Hle : (Qnum x <= Z.pos (Qden x) * 2 ^ k)%Z).
    { unfold Qle, inject_Z in H1. cbn [Qnum Qden] in H1. lia. }
    pose proof (Z.log2_le_mono _ _ Hle) as Hm.
    rewrite Z.log2_mul_pow2 in Hm by lia. lia. }
  destruct (Qle_bool _ x); lia.
Qed.

(** The integers up to 2^52 are doubles: what is at most such an integer
    rounds to at most that integer. *)
Lemma double_le_Z x n :
  0 <= x -> x <= inject_Z n -> (n <= 2 ^ 52)%Z -> double x <= inject_Z n.
Proof.
  intros H0 H1 Hn. unfold double.
  assert (Hn0 : 0 <= inject_Z n) by lra.
  destruct (Qeq_bool (Qred x) 0) eqn:E0; [exact Hn0|].
  apply Qeq_bool_neq in E0. rewrite Qred_correct in E0.
  rewrite Qred_correct.
  assert (Hpos : 0 < Qred x) by (rewrite Qred_correct; lra).
  assert (Hle : Qred x <= inject_Z n) by (rewrite Qred_correct; exact H1).
  assert (Habs : Qabs (Qred x) = Qred x).
  { destruct (Qred x) as [a d]. unfold Qabs. f_equal. apply Z.abs_eq.
    unfold Qlt in Hpos. cbn in Hpos. lia. }
  rewrite Habs.
  assert (Hil : (ilog2 (Qred x) <= 52)%Z).
  { apply ilog2_le; [exact Hpos | lia |].
    eapply Qle_trans; [exact Hle|]. rewrite <- Zle_Qle. exact Hn. }
  set (e := Z.max (ilog2 (Qred x) - 52) (-1074)).
  assert (He : (e <= 0)%Z) by (unfold e; lia).
  pose proof (pow2_pos e) as Hp.
  assert (Hinv : 2 ^ e * inject_Z (2 ^ (- e)) == 1).
  { rewrite Zpower_Qpower by lia. change (inject_Z 2) with 2.
    rewrite <- Qpower_plus by (intros H; discriminate).
    replace (e + - e)%Z with 0%Z by lia. reflexivity. }
  assert (Hq : Qred x / 2 ^ e <= inject_Z (n * 2 ^ (- e))).
  { apply Qle_shift_div_r; [exact Hp|]. rewrite inject_Z_mult.
    rewrite <- Qmult_assoc, (Qmult_comm (inject_Z (2 ^ (- e)))), Hinv.
    rewrite Qmult_1_r. exact Hle. }
  apply round_half_even_le in Hq. rewrite Zle_Qle, inject_Z_mult in Hq.
  set (m := inject_Z (round_half_even (Qred x / 2 ^ e))) in *.
  assert (Hm : m * 2 ^ e <= inject_Z n * inject_Z (2 ^ (- e)) * 2 ^ e).
  { apply Qmult_le_compat_r; [exact Hq | lra]. }
  rewrite <- Qmult_assoc, (Qmult_comm (inject_Z (2 ^ (- e)))), Hinv in Hm.
  rewrite Qmult_1_r in Hm. exact Hm.
Qed.

(** The rounding agrees with that of the kernel's doubles, here on the
    weight 0.10, on a quotient, on a product and a sum of rounded numbers,
    on a tie, and below the least normal number. *)
Example double_is_binary64 :
  Some (literal (1 # 10)) = binary64 (1 / 10)%float /\
  Some (fdiv 163 5000) = binary64 (163 / 5000)%float /\
  Some (fmul (fdiv 163 5000) (literal (1 # 10)))
  = binary64 (163 / 5000 * (1 / 10))%float /\
  Some (fadd (literal (1 # 10)) (literal (2 # 10)))
  = binary64 (1 / 10 + 2 / 10)%float /\
  Some (double (9007199254740993 # 1))
  = binary64 (9007199254740992 + 1)%float /\
  Some (fdiv (- 7) 3) = binary64 (- (7) / 3)%float /\
  Some (fmul (2 ^ (-1074)) (3 # 2))
  = binary64 (Z.ldexp 1 (-1074)%Z * (3 / 2))%float.
Proof. vm_compute. repeat split; reflexivity. Qed.

Lemma startsWith_head s c p :
  startsWith s (String c p) = true -> exists s', s = String c s'.
Proof.
  destruct s as [|d s']; cbn [startsWith]; [discriminate|].
  intros H. apply andb_true_iff in H as [H _].
  apply Ascii.eqb_eq in H. subst d. exists s'. reflexivity.
Qed.

Lemma Qltb_lt x y : Qltb x y = true <-> x < y.
Proof.
  unfold Qltb. rewrite negb_true_iff. split.
  - intros H. apply Qnot_le_lt. intros Hle.
    apply Qle_bool_iff in Hle. congruence.
  - intros H. destruct (Qle_bool y x) eqn:E; [|reflexivity].
    apply Qle_bool_iff in E. lra.
Qed.

Lemma Qltb_ge x y : Qltb x y = false <-> y <= x.
Proof.
  unfold Qltb. rewrite negb_false_iff. apply Qle_bool_iff.
Qed.

Lemma Qgeb_ge x y : Qgeb x y = true <-> y <= x.
Proof. unfold Qgeb. apply Qle_bool_iff. Qed.

Lemma Qgeb_lt x y : Qgeb x y = false <-> x < y.
Proof.
  unfold Qgeb. split.
  - intros H. apply Qnot_le_lt. intros Hle.
    apply Qle_bool_iff in Hle. congruence.
  - intros H. destruct (Qle_bool y x) eqn:E; [|reflexivity].
    apply Qle_bool_iff in E. lra.
Qed.


Lemma truthy_num_false x : truthy_num x = false <-> x == 0.
Proof.
  unfold truthy_num. rewrite negb_false_iff. apply Qeq_bool_iff.
Qed.

End JS.

(** ** Tenant manager and auth middleware
    ([services/tenantManager.js], [middleware/auth.js]) *)

Module Tenant.

(** A row of the [tenants] table as [authenticate] returns it.  The SQL
    columns [budget_limit_monthly] and [usage_this_month] are nullable
    reals; [allowedModels] is the parsed JSON column. *)
Record Tenant := mkTenant {
  id : string;
  name : string;
  strategy : string;
  allowedModels : option (list string);
  budget_limit_monthly : option Q;
  rate_limit_rpm : Z;
  usage_this_month : option Q
}.

(** The manager: the [tenants] table indexed by [api_key_hash], and the
    in-process cache of authenticated tenants. *)
Record TenantManager := mkManager {
  db_tenants : gmap string Tenant;
  tenantCache : gmap string Tenant
}.

Section WithHash.

(** [_hashKey]: hex SHA-256 digest of the key, computed by the runtime's
    crypto library. *)
Variable hashKey : string -> string.

(** [authenticate(apiKey)]: cache first, then the table; a table hit is
    cached. *)
Definition authenticate (tm : TenantManager) (apiKey : string)
  : option Tenant * TenantManager :=
  if negb (JS.truthy_string apiKey) then (None, tm)
  else
    let hash := hashKey apiKey in
    match tenantCache tm !! hash with
    | Some t => (Some t, tm)
    | None =>
        match db_tenants tm !! hash with
        | Some t =>
            (Some t, {| db_tenants := db_tenants tm;
                        tenantCache := <[hash := t]> (tenantCache tm) |})
        | None => (None, tm)
        end
    end.

(** [isWithinBudget(tenant)]. *)
Definition isWithinBudget (tenant : option Tenant) : bool :=
  match tenant with
  | None => true
  | Some t =>
      match budget_limit_monthly t with
      | None => true
      | Some limit =>
          if negb (JS.truthy_num limit) then true
          else JS.Qltb (JS.num_or (usage_this_month t) 0) limit
      end
  end.

(** [isModelAllowed(tenant, modelId)]. *)
Definition isModelAllowed (tenant : option Tenant) (modelId : string) : bool :=
  match tenant with
  | None => true
  | Some t =>
      match allowedModels t with
      | None => true
      | Some l => if decide (modelId ∈ l) then true else false
      end
  end.

(** The two request headers the middleware reads. *)
Record Headers := mkHeaders {
  authorization : option string;
  x_api_key : option string
}.

(** What the middleware does with the request: call [next()] with
    [req.tenant] set, or answer with a status and an error code. *)
Inductive AuthOutcome :=
| Next (tenant : option Tenant)
| Reject (status : Z) (code : string).

(** The key extraction at the head of the middleware. *)
Definition extractApiKey (h : Headers) : option string :=
  let fromBearer :=
    match authorization h with
    | Some a =>
        if JS.truthy_string a && JS.startsWith a "Bearer "
        then Some (JS.trim (JS.slice_from 7 a))
        else None
    | None => None
    end in
  let bearerTruthy :=
    match fromBearer with Some k => JS.truthy_string k | None => false end in
  if bearerTruthy then fromBearer
  else
    match x_api_key h with
    | Some x => if JS.truthy_string x then Some (JS.trim x) else fromBearer
    | None => fromBearer
    end.

(** The middleware returned by [createAuthMiddleware(tenantManager)]. *)
Definition createAuthMiddleware (tm : TenantManager) (h : Headers)
  : AuthOutcome * TenantManager :=
  match extractApiKey h with
  | None => (Next None, tm)
  | Some apiKey =>
      if negb (JS.truthy_string apiKey) then (Next None, tm)
      else if JS.startsWith apiKey "sk-" || JS.startsWith apiKey "ant-"
      then (Next None, tm)
      else if JS.startsWith apiKey "fra_" then
        match authenticate tm apiKey with
        | (None, tm') => (Reject 401%Z "invalid_api_key", tm')
        | (Some t, tm') =>
            if negb (isWithinBudget (Some t))
            then (Reject 429%Z "budget_exceeded", tm')
            else (Next (Some t), tm')
        end
      else (Next None, tm)
  end.





End WithHash.



Definition zero_limit_headers : Headers :=
  {| authorization := Some "Bearer fra_abc"%string; x_api_key := None |}.

(** With a limit of 0.01 and a usage of 0.02 the same key is refused. *)
Example budget_exceeded :
  (createAuthMiddleware (fun k => k)
     {| db_tenants :=
          {[ "fra_abc"%string :=
               {| id := "t-2"; name := "over"; strategy := "balanced";
                  allowedModels := None;
                  budget_limit_monthly := Some (1 # 100);
                  rate_limit_rpm := 60%Z;
                  usage_this_month := Some (2 # 100) |} ]};
        tenantCache := ∅ |}
     zero_limit_headers).1
  = Reject 429%Z "budget_exceeded".
Proof. reflexivity. Qed.


End Tenant.

(** ** Bandit engine ([services/rlEngine.js]) *)

Module RLEngine.

(** A Beta posterior [{ alpha, beta }]. *)
Record Posterior := mkPosterior { alpha : Q; beta : Q }.

(** The constructor's [options] object; an absent field is [None]. *)
Record Options := mkOptions {
  opt_explorationFloor : option Q;
  opt_dampeningFactor : option Q;
  opt_recomputeIntervalMs : option Q;
  opt_maxWindowSize : option Q
}.

Definition no_options : Options := mkOptions None None None None.

Record Engine := mkEngine {
  modelIds : list string;
  explorationFloor : Q;
  dampeningFactor : Q;
  recomputeIntervalMs : Q;
  maxWindowSize : Q;
  tenantWeights : gmap string (gmap string Posterior);
  globalWeights : gmap string Posterior
}.

(** [_initWeights()]: the prior [alpha = beta = 1] for every model id. *)
Definition _initWeights (ids : list string) : gmap string Posterior :=
  foldl (fun w modelId => <[modelId := mkPosterior 1 1]> w) ∅ ids.

(** [new RLEngine(modelIds, options)]. *)
Definition new (ids : list string) (options : Options) : Engine :=
  {| modelIds := ids;
     explorationFloor := JS.num_or (opt_explorationFloor options) (5 # 100);
     dampeningFactor := JS.num_or (opt_dampeningFactor options) (1 # 10);
     recomputeIntervalMs :=
       JS.num_or (opt_recomputeIntervalMs options) 300000;
     maxWindowSize := JS.num_or (opt_maxWindowSize options) 200;
     tenantWeights := ∅;
     globalWeights := _initWeights ids |}.

(** A tenant id as the callers pass it: [null] or a string, of which the
    empty one is falsy. *)
Definition tenantKey (tenantId : option string) : option string :=
  match tenantId with
  | Some t => if JS.truthy_string t then Some t else None
  | None => None
  end.

(** [_getTenantWeights(tenantId)]: the table to work on, created lazily for
    a tenant seen for the first time (the creation is part of the new engine
    state). *)
Definition _getTenantWeights (tenantId : option string) (e : Engine)
  : gmap string Posterior * Engine :=
  match tenantKey tenantId with
  | None => (globalWeights e, e)
  | Some t =>
      match tenantWeights e !! t with
      | Some w => (w, e)
      | None =>
          let w := _initWeights (modelIds e) in
          (w, {| modelIds := modelIds e;
                 explorationFloor := explorationFloor e;
                 dampeningFactor := dampeningFactor e;
                 recomputeIntervalMs := recomputeIntervalMs e;
                 maxWindowSize := maxWindowSize e;
                 tenantWeights := <[t := w]> (tenantWeights e);
                 globalWeights := globalWeights e |})
      end
  end.

(** Writing the table back to where [_getTenantWeights] took it from: the
    JavaScript code mutates the table in place. *)
Definition putWeights (tenantId : option string) (w : gmap string Posterior)
  (e : Engine) : Engine :=
  match tenantKey tenantId with
  | None =>
      {| modelIds := modelIds e;
         explorationFloor := explorationFloor e;
         dampeningFactor := dampeningFactor e;
         recomputeIntervalMs := recomputeIntervalMs e;
         maxWindowSize := maxWindowSize e;
         tenantWeights := tenantWeights e;
         globalWeights := w |}
  | Some t =>
      {| modelIds := modelIds e;
         explorationFloor := explorationFloor e;
         dampeningFactor := dampeningFactor e;
         recomputeIntervalMs := recomputeIntervalMs e;
         maxWindowSize := maxWindowSize e;
         tenantWeights := <[t := w]> (tenantWeights e);
         globalWeights := globalWeights e |}
  end.

(** The body of [recordFeedback] on one posterior: dampened update, then
    proportional rescaling when the sum exceeds the window size. *)
Definition updatePosterior (damp window reward : Q) (w : Posterior)
  : Posterior :=
  let dampedReward := reward * damp in
  let a := alpha w + dampedReward in
  let b := beta w + (1 - reward) * damp in
  let total := a + b in
  if JS.Qltb window total then
    let scale := window / total in
    mkPosterior (a * scale) (b * scale)
  else mkPosterior a b.

(** [recordFeedback(modelId, reward, tenantId)]. *)
Definition recordFeedback (modelId : string) (reward : Q)
  (tenantId : option string) (e : Engine) : Engine :=
  let '(weights, e1) := _getTenantWeights tenantId e in
  match weights !! modelId with
  | None => e1
  | Some w =>
      putWeights tenantId
        (<[modelId :=
             updatePosterior (dampeningFactor e1) (maxWindowSize e1) reward w]>
           weights) e1
  end.

(** A feedback call, and a run of calls. *)
Record Call := mkCall {
  call_model : string;
  call_reward : Q;
  call_tenant : option string
}.

Definition runCalls (calls : list Call) (e : Engine) : Engine :=
  foldl (fun e c => recordFeedback (call_model c) (call_reward c)
                      (call_tenant c) e) e calls.

(** The value of [row.success] as JavaScript sees it. *)
Inductive Flag :=
| FlagUndefined
| FlagNull
| FlagNumber (n : Q)
| FlagBoolean (b : bool).

Definition flag_present (f : Flag) : bool :=
  match f with FlagUndefined => false | _ => true end.

Definition flag_truthy (f : Flag) : bool :=
  match f with
  | FlagUndefined | FlagNull => false
  | FlagNumber n => JS.truthy_num n
  | FlagBoolean b => b
  end.

(** A row of [routing_feedback] as [_computeReward] reads it; [None] is
    [null] or [undefined]. *)
Record Feedback := mkFeedback {
  model_id : string;
  success : Flag;
  quality_score : option Q;
  latency_ms : option Q;
  cost : option Q
}.

(** [_computeReward(feedback)], threading the pair [(reward, factors)]. *)
Definition _computeReward (feedback : Feedback) : Q :=
  let s0 : Q * nat := (0, O) in
  let s1 :=
    if flag_present (success feedback)
    then (s0.1 + (if flag_truthy (success feedback) then 4 # 10 else 0),
          S s0.2)
    else s0 in
  let s2 :=
    match quality_score feedback with
    | Some q => (s1.1 + Qmin (q / 10) 1 * (3 # 10), S s1.2)
    | None => s1
    end in
  let s3 :=
    match latency_ms feedback with
    | Some l =>
        let latencyScore := Qmax 0 (1 - l / 30000) in
        (s2.1 + latencyScore * (2 # 10), S s2.2)
    | None => s2
    end in
  let s4 :=
    match cost feedback with
    | Some c =>
        let costScore := Qmax 0 (1 - c / (1 # 100)) in
        (s3.1 + costScore * (1 # 10), S s3.2)
    | None => s3
    end in
  if (0 <? s4.2)%nat then Qmin s4.1 1 else 1 # 2.

(** [array.slice(-n)] for a number [n], which is truncated to an integer:
    the last [n] elements; the whole array when the integer is 0; the array
    without its first [-n] elements when [n] is negative. *)
Definition slice_last {A} (n : Q) (l : list A) : list A :=
  let k := if Qle_bool 0 n then Qfloor n else Qceiling n in
  if (k =? 0)%Z then l
  else if (0 <? k)%Z then skipn (length l - Z.to_nat k) l
  else skipn (Z.to_nat (- k)) l.

(** The grouping loop of [recomputeFromDB]: [grouped] is a plain object,
    held here by its own properties.  A model id that has no own property
    yet and names a member of [Object.prototype] finds that member, which is
    truthy and has no [push]: the call [grouped[row.model_id].push(row)]
    throws a [TypeError] ([None]). *)
Fixpoint groupByModel (rows : list Feedback)
  (grouped : gmap string (list Feedback))
  : option (gmap string (list Feedback)) :=
  match rows with
  | [] => Some grouped
  | row :: rest =>
      match grouped !! model_id row with
      | Some feedbacks =>
          groupByModel rest (<[model_id row := feedbacks ++ [row]]> grouped)
      | None =>
          if JS.inherited (model_id row) then None
          else groupByModel rest (<[model_id row := [row]]> grouped)
      end
  end.

(** [recomputeFromDB(feedbackRows)]: [None] when the grouping loop throws,
    which happens before anything of the engine is written.  Otherwise the
    global posteriors are rebuilt from the prior: the loop over the entries
    of [grouped] updates, for each group whose model id the engine knows,
    the posterior of that model alone, from the newest [maxWindowSize] rows
    of the group in their order; no rescaling takes place here. *)
Definition recomputeFromDB (feedbackRows : list Feedback) (e : Engine)
  : option Engine :=
  match feedbackRows with
  | [] => Some e
  | _ :: _ =>
      match groupByModel feedbackRows ∅ with
      | None => None
      | Some grouped =>
          let recompute (modelId : string) (prior : Posterior) : Posterior :=
            match grouped !! modelId with
            | None => prior
            | Some feedbacks =>
                let recent := slice_last (maxWindowSize e) feedbacks in
                foldl (fun w fb =>
                         let reward := _computeReward fb in
                         mkPosterior (alpha w + reward * dampeningFactor e)
                           (beta w + (1 - reward) * dampeningFactor e))
                      prior recent
            end in
          Some {| modelIds := modelIds e;
                  explorationFloor := explorationFloor e;
                  dampeningFactor := dampeningFactor e;
                  recomputeIntervalMs := recomputeIntervalMs e;
                  maxWindowSize := maxWindowSize e;
                  tenantWeights := tenantWeights e;
                  globalWeights :=
                    map_imap
                      (fun modelId prior => Some (recompute modelId prior))
                      (_initWeights (modelIds e)) |}
      end
  end.

(** The reward as the specification words it: one term per factor, counted
    only when the factor is present. *)
Definition successTerm (fb : Feedback) : Q :=
  if flag_present (success fb)
  then (if flag_truthy (success fb) then 1 else 0) * (4 # 10) else 0.

Definition qualityTerm (fb : Feedback) : Q :=
  match quality_score fb with
  | Some q => Qmin (q / 10) 1 * (3 # 10)
  | None => 0
  end.

Definition latencyTerm (fb : Feedback) : Q :=
  match latency_ms fb with
  | Some l => Qmax 0 (1 - l / 30000) * (2 # 10)
  | None => 0
  end.

Definition costTerm (fb : Feedback) : Q :=
  match cost fb with
  | Some c => Qmax 0 (1 - c / (1 # 100)) * (1 # 10)
  | None => 0
  end.

Definition rewardTerms (fb : Feedback) : Q :=
  successTerm fb + qualityTerm fb + latencyTerm fb + costTerm fb.

(** [x !== undefined && x !== null]. *)
Definition present (x : option Q) : bool :=
  match x with Some _ => true | None => false end.

Definition anyFactor (fb : Feedback) : bool :=
  flag_present (success fb) || present (quality_score fb)
  || present (latency_ms fb) || present (cost fb).

Definition nonnegative (x : option Q) : Prop :=
  match x with Some v => 0 <= v | None => True end.

(** *** Posterior bounds *)

(** A posterior within the window [W]. *)
Definition post_ok (W : Q) (w : Posterior) : Prop :=
  0 < alpha w /\ 0 < beta w /\ alpha w + beta w <= W.

Definition table_ok (W : Q) (t : gmap string Posterior) : Prop :=
  forall modelId w, t !! modelId = Some w -> post_ok W w.

(** Every posterior of the engine, global and per tenant. *)
Definition engine_ok (e : Engine) : Prop :=
  table_ok (maxWindowSize e) (globalWeights e) /\
  forall t tw, tenantWeights e !! t = Some tw ->
               table_ok (maxWindowSize e) tw.

Lemma updatePosterior_ok damp W reward w :
  0 <= damp -> 0 < W -> 0 <= reward <= 1 ->
  post_ok W w -> post_ok W (updatePosterior damp W reward w).
Proof.
  intros Hd HW [Hr0 Hr1] (Ha & Hb & Hs). unfold updatePosterior.
  set (a := alpha w + reward * damp).
  set (b := beta w + (1 - reward) * damp).
  assert (Ha' : 0 < a) by (unfold a; nra).
  assert (Hb' : 0 < b) by (unfold b; nra).
  destruct (JS.Qltb W (a + b)) eqn:E; unfold post_ok; cbn [alpha beta].
  - assert (Ht : 0 < a + b) by lra.
    assert (Hne : ~ a + b == 0) by lra.
    set (scale := W / (a + b)).
    assert (Hsc : (a + b) * scale == W) by (apply Qmult_div_r; exact Hne).
    assert (Hpos : 0 < scale).
    { unfold scale. apply Qlt_shift_div_l; lra. }
    repeat split; nra.
  - apply JS.Qltb_ge in E. auto.
Qed.

Lemma table_ok_insert W t modelId w :
  table_ok W t -> post_ok W w -> table_ok W (<[modelId := w]> t).
Proof.
  intros Ht Hw k v. rewrite lookup_insert.
  case_decide; [intros [= <-]; exact Hw | apply Ht].
Qed.

Lemma _initWeights_ok W ids : 2 <= W -> table_ok W (_initWeights ids).
Proof.
  intros HW. unfold _initWeights.
  assert (Hgen : forall acc : gmap string Posterior, table_ok W acc ->
            table_ok W
              (foldl (fun w modelId => <[modelId := mkPosterior 1 1]> w)
                     acc ids)).
  { induction ids as [|i ids IH]; intros acc Hacc; [exact Hacc|].
    apply IH. apply table_ok_insert; [exact Hacc|].
    unfold post_ok; cbn; lra. }
  apply Hgen. intros k v. rewrite lookup_empty. discriminate.
Qed.

Lemma _getTenantWeights_ok tenantId e :
  2 <= maxWindowSize e -> engine_ok e ->
  let '(w, e1) := _getTenantWeights tenantId e in
  table_ok (maxWindowSize e) w /\ engine_ok e1 /\
  maxWindowSize e1 = maxWindowSize e /\
  dampeningFactor e1 = dampeningFactor e /\ modelIds e1 = modelIds e.
Proof.
  intros HW [Hg Ht]. unfold _getTenantWeights.
  destruct (tenantKey tenantId) as [t|].
  - destruct (tenantWeights e !! t) as [w|] eqn:E.
    + split; [exact (Ht t w E)|]. split; [split; assumption|]. auto.
    + split; [apply _initWeights_ok, HW|]. split; [|auto].
      split; cbn; [exact Hg|].
      intros t' tw. rewrite lookup_insert. case_decide.
      * intros [= <-]. apply _initWeights_ok, HW.
      * apply Ht.
  - split; [exact Hg|]. split; [split; assumption|]. auto.
Qed.

Lemma putWeights_ok tenantId w e :
  engine_ok e -> table_ok (maxWindowSize e) w ->
  engine_ok (putWeights tenantId w e) /\
  maxWindowSize (putWeights tenantId w e) = maxWindowSize e /\
  dampeningFactor (putWeights tenantId w e) = dampeningFactor e /\
  modelIds (putWeights tenantId w e) = modelIds e.
Proof.
  intros [Hg Ht] Hw. unfold putWeights.
  destruct (tenantKey tenantId) as [t|].
  - split; [|auto]. split; cbn; [exact Hg|].
    intros t' tw. rewrite lookup_insert. case_decide.
    + intros [= <-]. exact Hw.
    + apply Ht.
  - split; [|auto]. split; cbn; assumption.
Qed.

Lemma recordFeedback_ok modelId reward tenantId e :
  0 <= dampeningFactor e -> 2 <= maxWindowSize e -> 0 <= reward <= 1 ->
  engine_ok e ->
  engine_ok (recordFeedback modelId reward tenantId e) /\
  maxWindowSize (recordFeedback modelId reward tenantId e)
    = maxWindowSize e /\
  dampeningFactor (recordFeedback modelId reward tenantId e)
    = dampeningFactor e.
Proof.
  intros Hd HW Hr Hok. unfold recordFeedback.
  pose proof (_getTenantWeights_ok tenantId e HW Hok) as H.
  destruct (_getTenantWeights tenantId e) as [weights e1].
  destruct H as (Hw & Hok1 & EW & Ed & _).
  destruct (weights !! modelId) as [w|] eqn:E; [|auto].
  destruct (putWeights_ok tenantId
              (<[modelId := updatePosterior (dampeningFactor e1)
                              (maxWindowSize e1) reward w]> weights) e1)
    as (H1 & H2 & H3 & _).
  - exact Hok1.
  - rewrite EW. apply table_ok_insert; [exact Hw|].
    rewrite Ed. apply updatePosterior_ok; try assumption; [lra|].
    apply (Hw modelId w E).
  - rewrite H2, H3. auto.
Qed.

Lemma runCalls_ok calls : forall e,
  0 <= dampeningFactor e -> 2 <= maxWindowSize e ->
  Forall (fun c => 0 <= call_reward c <= 1) calls ->
  engine_ok e ->
  engine_ok (runCalls calls e) /\
  maxWindowSize (runCalls calls e) = maxWindowSize e.
Proof.
  induction calls as [|c calls IH]; intros e Hd HW Hall Hok; [auto|].
  assert (Hc : 0 <= call_reward c <= 1)
    by (eapply (Forall_inv Hall)).
  assert (Hrest : Forall (fun c => 0 <= call_reward c <= 1) calls)
    by (eapply (Forall_inv_tail Hall)).
  destruct (recordFeedback_ok (call_model c) (call_reward c) (call_tenant c)
              e Hd HW Hc Hok) as (H1 & H2 & H3).
  unfold runCalls in *. cbn [foldl].
  destruct (IH _ ltac:(rewrite H3; exact Hd) ltac:(rewrite H2; exact HW)
              Hrest H1) as [H4 H5].
  split; [exact H4 | rewrite H5; exact H2].
Qed.

Lemma new_ok ids options :
  2 <= maxWindowSize (new ids options) -> engine_ok (new ids options).
Proof.
  intros HW. split.
  - apply _initWeights_ok, HW.
  - intros t tw. cbn. rewrite lookup_empty. discriminate.
Qed.

(** C5: starting from the prior [alpha = beta = 1], after any sequence of
    [recordFeedback] calls with rewards in [0,1] every posterior of the
    engine (global or per tenant) has [alpha > 0], [beta > 0] and
    [alpha + beta <= W], where [W] is the engine's [maxWindowSize] (200 by
    default) and the dampening factor is not negative (0.1 by default).  In
    exact arithmetic the rescaled pair sums to [W] exactly, so no epsilon is
    needed. *)
Theorem C5_posteriors_stay_in_window (ids : list string) (options : Options)
  (calls : list Call) :
  0 <= dampeningFactor (new ids options) ->
  2 <= maxWindowSize (new ids options) ->
  Forall (fun c => 0 <= call_reward c <= 1) calls ->
  let e := runCalls calls (new ids options) in
  let W := maxWindowSize (new ids options) in
  (forall modelId w, globalWeights e !! modelId = Some w ->
     0 < alpha w /\ 0 < beta w /\ alpha w + beta w <= W) /\
  (forall tenant tw modelId w,
     tenantWeights e !! tenant = Some tw -> tw !! modelId = Some w ->
     0 < alpha w /\ 0 < beta w /\ alpha w + beta w <= W).
Proof.
  intros Hd HW Hall e W.
  destruct (runCalls_ok calls (new ids options) Hd HW Hall
              (new_ok ids options HW)) as [[Hg Ht] EW].
  fold e in Hg, Ht, EW. rewrite EW in Hg, Ht. split.
  - intros modelId w Hl. exact (Hg modelId w Hl).
  - intros tenant tw modelId w Htw Hl. exact (Ht tenant tw Htw modelId w Hl).
Qed.

(** The rescaling at work: at window size 2 the first update already
    exceeds the window and is scaled back onto it. *)
Example recordFeedback_rescales :
  globalWeights
    (recordFeedback "m" 1 None
       (new ["m"%string] (mkOptions None None None (Some 2))))
    !! "m"%string
  = Some (updatePosterior (1 # 10) 2 1 (mkPosterior 1 1)) /\
  alpha (updatePosterior (1 # 10) 2 1 (mkPosterior 1 1))
  + beta (updatePosterior (1 # 10) 2 1 (mkPosterior 1 1)) == 2.
Proof. split; reflexivity. Qed.

(** Two calls on the default engine, one global and one for a tenant. *)
Definition sample_calls : list Call :=
  [ mkCall "gpt-4o" 1 None; mkCall "gpt-4o" (7 # 10) (Some "tenant-a"%string) ].

Lemma C5_posteriors_stay_in_window_witness :
  let e := runCalls sample_calls (new ["gpt-4o"%string] no_options) in
  (forall modelId w, globalWeights e !! modelId = Some w ->
     0 < alpha w /\ 0 < beta w /\ alpha w + beta w <= 200) /\
  (forall tenant tw modelId w,
     tenantWeights e !! tenant = Some tw -> tw !! modelId = Some w ->
     0 < alpha w /\ 0 < beta w /\ alpha w + beta w <= 200).
Proof.
  apply (C5_posteriors_stay_in_window ["gpt-4o"%string] no_options
           sample_calls).
  - vm_compute. discriminate.
  - vm_compute. discriminate.
  - repeat constructor; vm_compute; discriminate.
Defined.

(** *** The reward of a stored feedback row *)

Lemma Qmin_le_r_bound x y : Qmin x y <= y.
Proof. apply Q.le_min_r. Qed.

Lemma Qmax0_le_1 x : 0 <= x -> Qmax 0 (1 - x) <= 1.
Proof. intros H. apply Q.max_lub; lra. Qed.

Lemma successTerm_le fb : successTerm fb <= 4 # 10.
Proof.
  unfold successTerm.
  destruct (flag_present (success fb)), (flag_truthy (success fb)); lra.
Qed.

Lemma qualityTerm_le fb : qualityTerm fb <= 3 # 10.
Proof.
  unfold qualityTerm. destruct (quality_score fb) as [q|]; [|lra].
  pose proof (Qmin_le_r_bound (q / 10) 1). lra.
Qed.

Lemma latencyTerm_le fb :
  nonnegative (latency_ms fb) -> latencyTerm fb <= 2 # 10.
Proof.
  unfold latencyTerm, nonnegative. destruct (latency_ms fb) as [l|]; [|lra].
  intros Hl. assert (H : 0 <= l / 30000).
  { apply Qle_shift_div_l; lra. }
  pose proof (Qmax0_le_1 _ H). lra.
Qed.

Lemma costTerm_le fb : nonnegative (cost fb) -> costTerm fb <= 1 # 10.
Proof.
  unfold costTerm, nonnegative. destruct (cost fb) as [c|]; [|lra].
  intros Hc. assert (H : 0 <= c / (1 # 100)).
  { apply Qle_shift_div_l; lra. }
  pose proof (Qmax0_le_1 _ H). lra.
Qed.

(** The code and the wording agree on the accumulated sum. *)
Lemma _computeReward_unfold fb :
  _computeReward fb ==
  if anyFactor fb then Qmin (rewardTerms fb) 1 else 1 # 2.
Proof.
  unfold _computeReward, anyFactor, rewardTerms, successTerm, qualityTerm,
    latencyTerm, costTerm.
  destruct (flag_present (success fb)), (flag_truthy (success fb)),
    (quality_score fb), (latency_ms fb), (cost fb);
    cbn [fst snd Nat.ltb Nat.leb orb present];
    try reflexivity; (apply Q.min_compat; [ring | reflexivity]).
Qed.

(** C8, as amended: the reward recomputed from a stored feedback row is the
    sum of the four weighted terms (success 0.4, min(quality/10, 1) 0.3,
    max(0, 1 - latency/30000) 0.2, max(0, 1 - cost/0.01) 0.1), a term being
    counted only when its factor is present, capped at 1; with no factor
    present at all the reward is the neutral 0.5.  The cap is not reached
    when latency and cost are not negative, and the reward is then the sum
    itself. *)
Theorem C8_reward_is_sum_of_present_terms (fb : Feedback) :
  (anyFactor fb = false -> _computeReward fb == 1 # 2) /\
  (anyFactor fb = true -> _computeReward fb == Qmin (rewardTerms fb) 1) /\
  (anyFactor fb = true ->
   nonnegative (latency_ms fb) -> nonnegative (cost fb) ->
   _computeReward fb == rewardTerms fb).
Proof.
  pose proof (_computeReward_unfold fb) as H. repeat split.
  - intros E. rewrite E in H. exact H.
  - intros E. rewrite E in H. exact H.
  - intros E Hl Hc. rewrite E in H. rewrite H. apply Q.min_l.
    pose proof (successTerm_le fb). pose proof (qualityTerm_le fb).
    pose proof (latencyTerm_le fb Hl). pose proof (costTerm_le fb Hc).
    unfold rewardTerms. lra.
Qed.

(** A stored row: success, quality 8, 1.5 s, 0.002 dollars. *)
Definition sample_feedback : Feedback :=
  {| model_id := "gpt-4o"; success := FlagNumber 1;
     quality_score := Some 8; latency_ms := Some 1500;
     cost := Some (2 # 1000) |}.

Lemma C8_reward_is_sum_of_present_terms_witness :
  _computeReward sample_feedback == rewardTerms sample_feedback.
Proof.
  destruct (C8_reward_is_sum_of_present_terms sample_feedback)
    as (_ & _ & H).
  apply H.
  - reflexivity.
  - vm_compute. discriminate.
  - vm_compute. discriminate.
Defined.

Example sample_feedback_reward : _computeReward sample_feedback == 91 # 100.
Proof. reflexivity. Qed.

(** One stored row moves the global posterior of its model from the prior
    (1, 1) to (1.091, 1.009). *)
Example recompute_one_row :
  match recomputeFromDB [sample_feedback] (new ["gpt-4o"%string] no_options)
  with
  | Some e =>
      match globalWeights e !! "gpt-4o"%string with
      | Some w => alpha w == 1091 # 1000 /\ beta w == 1009 # 1000
      | None => False
      end
  | None => False
  end.
Proof. vm_compute. split; reflexivity. Qed.

(** A row with a negative latency, as the feedback endpoint stores it when
    a client posts one. *)
Definition negative_latency_feedback : Feedback :=
  {| model_id := "gpt-4o"; success := FlagNumber 1;
     quality_score := Some 10; latency_ms := Some (-30000);
     cost := Some (1 # 1000) |}.

(** The claim as first stated fails on that row: the four terms add up to
    1.19, the reward is 1. *)
Lemma C8_counterexample :
  rewardTerms negative_latency_feedback == 119 # 100 /\
  _computeReward negative_latency_feedback == 1 /\
  ~ _computeReward negative_latency_feedback
    == rewardTerms negative_latency_feedback.
Proof.
  split; [reflexivity|]. split; [reflexivity|].
  intros H. vm_compute in H. discriminate.
Qed.

End RLEngine.

(** ** Rate-limit middleware ([middleware/rateLimit.js]) *)

Module RateLimit.

(** [class TokenBucket]. *)
Record TokenBucket := mkBucket {
  rate : Q;
  capacity : Q;
  tokens : Q;
  lastRefill : Z
}.

(** [new TokenBucket(rate, capacity)] at clock reading [now]. *)
Definition newBucket (now : Z) (rate capacity : Q) : TokenBucket :=
  mkBucket rate capacity capacity now.

(** [_refill()]. *)
Definition _refill (now : Z) (b : TokenBucket) : TokenBucket :=
  let elapsed := inject_Z (now - lastRefill b) / 1000 in
  mkBucket (rate b) (capacity b)
    (Qmin (capacity b) (tokens b + elapsed * rate b)) now.

(** [consume(count)]. *)
Definition consume (now : Z) (count : Q) (b : TokenBucket)
  : bool * TokenBucket :=
  let b1 := _refill now b in
  if JS.Qgeb (tokens b1) count
  then (true, mkBucket (rate b1) (capacity b1) (tokens b1 - count)
                (lastRefill b1))
  else (false, b1).

(** The [remaining] getter. *)
Definition remaining (now : Z) (b : TokenBucket) : Z * TokenBucket :=
  let b1 := _refill now b in (Qfloor (tokens b1), b1).

(** Module state: the bucket registry and the in-flight counter. *)
Record Limiter := mkLimiter {
  buckets : gmap string TokenBucket;
  activeRequests : Z
}.

Definition MAX_CONCURRENT : Z := 100.

(** [getBucket(tenantId, rpmLimit)]. *)
Definition getBucket (now : Z) (tenantId : string) (rpmLimit : Q)
  (l : Limiter) : TokenBucket * Limiter :=
  match buckets l !! tenantId with
  | Some b => (b, l)
  | None =>
      let b := newBucket now (rpmLimit / 60) rpmLimit in
      (b, mkLimiter (<[tenantId := b]> (buckets l)) (activeRequests l))
  end.

(** The events of a response object that matter here. *)
Inductive ResEvent := Finish | Close | OtherEvent (name : string).

Definition is_completion (ev : ResEvent) : bool :=
  match ev with Finish | Close => true | OtherEvent _ => false end.

Definition same_event (a b : ResEvent) : bool :=
  match a, b with
  | Finish, Finish | Close, Close => true
  | OtherEvent x, OtherEvent y => String.eqb x y
  | _, _ => false
  end.

(** The one listener the middleware registers: [() => { activeRequests--; }]. *)
Inductive Listener := DecrementActive.

(** The response object as far as the middleware touches it: the listeners
    registered with [res.on], and the closure variable [decremented] of the
    wrapper installed over [res.emit] ([None] before it is installed). *)
Record Response := mkResponse {
  listeners : list (ResEvent * Listener);
  decremented : option bool
}.

Definition freshResponse : Response := mkResponse [] None.

(** [res.on(ev, listener)]. *)
Definition on (ev : ResEvent) (f : Listener) (res : Response) : Response :=
  mkResponse (listeners res ++ [(ev, f)]) (decremented res).

Definition runListener (f : Listener) (l : Limiter) : Limiter :=
  match f with
  | DecrementActive => mkLimiter (buckets l) (activeRequests l - 1)
  end.

(** The original [emit]: every listener of the event, in registration
    order. *)
Definition origEmit (ev : ResEvent) (res : Response) (l : Limiter) : Limiter :=
  foldl (fun l p => if same_event (fst p) ev then runListener (snd p) l else l)
        l (listeners res).

(** [res.emit(ev)] after the middleware has replaced it: the wrapper sets
    [decremented] on the first completion event and then calls the original
    [emit]; the flag is read nowhere else. *)
Definition emit (ev : ResEvent) (s : Limiter * Response) : Limiter * Response :=
  let '(l, res) := s in
  let res1 :=
    match decremented res with
    | Some d =>
        if is_completion ev && negb d
        then mkResponse (listeners res) (Some true) else res
    | None => res
    end in
  (origEmit ev res1 l, res1).

(** What the middleware does with the request. *)
Inductive Outcome :=
| Rejected (status : Z) (code : string)
| Accepted (rateLimitHeaders : option (Z * Z)).

(** The middleware returned by [createRateLimitMiddleware()].  [tenant] is
    [req.tenant]; the three clock readings are
    those of the bucket constructor, of [consume] and of [remaining]. *)
Definition createRateLimitMiddleware (nowNew nowConsume nowRemaining : Z)
  (tenant : option Tenant.Tenant) (l : Limiter) (res : Response)
  : Outcome * Limiter * Response :=
  if (MAX_CONCURRENT <=? activeRequests l)%Z
  then (Rejected 429 "concurrency_limit", l, res)
  else
    let limited :=
      match tenant with
      | Some t =>
          let rpm := inject_Z (Tenant.rate_limit_rpm t) in
          let '(b, l1) :=
            getBucket nowNew (Tenant.id t)
              (if JS.truthy_num rpm then rpm else 60) l in
          let '(ok, b1) := consume nowConsume 1 b in
          if ok then
            let '(rem, b2) := remaining nowRemaining b1 in
            inr (Some (Tenant.rate_limit_rpm t, rem),
                 mkLimiter (<[Tenant.id t := b2]> (buckets l1))
                   (activeRequests l1))
          else
            inl (mkLimiter (<[Tenant.id t := b1]> (buckets l1))
                   (activeRequests l1))
      | None => inr (None, l)
      end in
    match limited with
    | inl l1 => (Rejected 429 "rpm_exceeded", l1, res)
    | inr (hdrs, l1) =>
        let l2 := mkLimiter (buckets l1) (activeRequests l1 + 1) in
        let res1 := on Finish DecrementActive res in
        let res2 := on Close DecrementActive res1 in
        let res3 := mkResponse (listeners res2) (Some false) in
        (Accepted hdrs, l2, res3)
    end.

(** [getActiveRequests()]. *)
Definition getActiveRequests (l : Limiter) : Z := activeRequests l.

(** Admission adds one to the counter and registers the same decrement on
    both completion events. *)
Lemma createRateLimitMiddleware_accepts nowNew nowConsume nowRemaining tenant l res
      hdrs l' res' :
  createRateLimitMiddleware nowNew nowConsume nowRemaining tenant l res
    = (Accepted hdrs, l', res') ->
  activeRequests l' = (activeRequests l + 1)%Z /\
  listeners res' = listeners res
                   ++ [(Finish, DecrementActive); (Close, DecrementActive)] /\
  decremented res' = Some false.
Proof.
  unfold createRateLimitMiddleware.
  destruct (MAX_CONCURRENT <=? activeRequests l)%Z; [discriminate|].
  destruct tenant as [t|].
  - unfold getBucket.
    destruct (buckets l !! Tenant.id t) as [b|];
      match goal with
      | |- context [consume ?n ?c ?b] => destruct (consume n c b) as [[|] b1]
      end;
      try discriminate;
      match goal with
      | |- context [remaining ?n ?b] => destruct (remaining n b) as [rem b2]
      end;
      intros [= <- <- <-]; cbn; rewrite <- app_assoc; auto.
  - intros [= <- <- <-]. cbn. rewrite <- app_assoc. auto.
Qed.

Lemma origEmit_activeRequests ev res l :
  activeRequests (origEmit ev res l) =
  (activeRequests l
   - Z.of_nat (length (filter (fun p => same_event (fst p) ev = true)
                              (listeners res))))%Z.
Proof.
  unfold origEmit. generalize (listeners res) as ls. intros ls. revert l.
  induction ls as [|[e f] ls IH]; intros l; cbn [foldl].
  - cbn. lia.
  - rewrite IH. rewrite filter_cons. cbn [fst snd].
    destruct (same_event e ev) eqn:E.
    + rewrite decide_True by reflexivity. destruct f. cbn [length]. cbn. lia.
    + rewrite decide_False by discriminate. reflexivity.
Qed.

(** C6: the counter after completion.  A request admitted on a fresh
    response object raises the counter by one.  When the response completes
    normally, Node emits [finish] and then [close], both decrements run and
    the counter ends one below its value before the request; only when
    [close] alone is emitted (or [finish] alone) does it return to that
    value.  The [decremented] flag of the wrapper does not change this. *)
Theorem C6_counter_after_completion nowNew nowConsume nowRemaining tenant l
        hdrs l' res' :
  createRateLimitMiddleware nowNew nowConsume nowRemaining tenant l freshResponse
    = (Accepted hdrs, l', res') ->
  activeRequests l' = (activeRequests l + 1)%Z /\
  activeRequests (emit Close (emit Finish (l', res'))).1
    = (activeRequests l - 1)%Z /\
  activeRequests (emit Close (l', res')).1 = activeRequests l /\
  activeRequests (emit Finish (l', res')).1 = activeRequests l.
Proof.
  intros H. apply createRateLimitMiddleware_accepts in H as (Ha & Hl & Hd).
  destruct res' as [ls d]. cbn in Hl, Hd. subst ls d.
  split; [exact Ha|]. cbn. lia.
Qed.

(** An anonymous request on an idle server. *)
Definition idle : Limiter := mkLimiter ∅ 0.

Lemma C6_counter_after_completion_witness :
  let '(_, l', res') := createRateLimitMiddleware 0 0 0 None idle freshResponse in
  activeRequests l' = 1%Z /\
  activeRequests (emit Close (emit Finish (l', res'))).1 = (-1)%Z /\
  activeRequests (emit Close (l', res')).1 = 0%Z /\
  activeRequests (emit Finish (l', res')).1 = 0%Z.
Proof.
  exact (C6_counter_after_completion 0 0 0 None idle None _ _ eq_refl).
Defined.

End RateLimit.

(** ** Circuit breaker ([services/circuitBreaker.js]) *)

Module CircuitBreaker.

Inductive State := CLOSED | OPEN | HALF_OPEN.

(** An entry of the sliding window. *)
Record Event := mkEvent {
  timestamp : Z;
  success : bool;
  latencyMs : Q;
  timedOut : bool
}.

(** [lastOpenReason]: the code builds one of three messages, each naming
    the observed value and the threshold it reached. *)
Inductive OpenReason :=
| ErrorRateReason (observed threshold : Q)
| TimeoutRateReason (observed threshold : Q)
| P95LatencyReason (observed threshold : Q).

(** The constructor's [options]; an absent field is [None]. *)
Record Options := mkOptions {
  opt_errorRateThreshold : option Q;
  opt_timeoutRateThreshold : option Q;
  opt_p95LatencyThreshold : option Q;
  opt_minSamples : option Q;
  opt_windowMs : option Q;
  opt_baseCooldownMs : option Q;
  opt_maxCooldownMs : option Q
}.

Definition no_options : Options :=
  mkOptions None None None None None None None.

Record Breaker := mkBreaker {
  name : string;
  state : State;
  errorRateThreshold : Q;
  timeoutRateThreshold : Q;
  p95LatencyThreshold : Q;
  minSamples : Q;
  windowMs : Q;
  baseCooldownMs : Q;
  maxCooldownMs : Q;
  events : list Event;
  consecutiveFailures : Z;
  cooldownMs : Q;
  openedAt : option Z;
  lastOpenReason : option OpenReason
}.

(** [new CircuitBreaker(name, options)]. *)
Definition new (name : string) (options : Options) : Breaker :=
  let base := JS.num_or (opt_baseCooldownMs options) 10000 in
  {| name := name;
     state := CLOSED;
     errorRateThreshold := JS.num_or (opt_errorRateThreshold options) (5 # 10);
     timeoutRateThreshold :=
       JS.num_or (opt_timeoutRateThreshold options) (3 # 10);
     p95LatencyThreshold := JS.num_or (opt_p95LatencyThreshold options) 30000;
     minSamples := JS.num_or (opt_minSamples options) 5;
     windowMs := JS.num_or (opt_windowMs options) 60000;
     baseCooldownMs := base;
     maxCooldownMs := JS.num_or (opt_maxCooldownMs options) 120000;
     events := [];
     consecutiveFailures := 0;
     cooldownMs := base;
     openedAt := None;
     lastOpenReason := None |}.

Definition with_events (evs : list Event) (b : Breaker) : Breaker :=
  {| name := name b; state := state b;
     errorRateThreshold := errorRateThreshold b;
     timeoutRateThreshold := timeoutRateThreshold b;
     p95LatencyThreshold := p95LatencyThreshold b;
     minSamples := minSamples b; windowMs := windowMs b;
     baseCooldownMs := baseCooldownMs b; maxCooldownMs := maxCooldownMs b;
     events := evs;
     consecutiveFailures := consecutiveFailures b;
     cooldownMs := cooldownMs b; openedAt := openedAt b;
     lastOpenReason := lastOpenReason b |}.

Definition with_state (st : State) (b : Breaker) : Breaker :=
  {| name := name b; state := st;
     errorRateThreshold := errorRateThreshold b;
     timeoutRateThreshold := timeoutRateThreshold b;
     p95LatencyThreshold := p95LatencyThreshold b;
     minSamples := minSamples b; windowMs := windowMs b;
     baseCooldownMs := baseCooldownMs b; maxCooldownMs := maxCooldownMs b;
     events := events b;
     consecutiveFailures := consecutiveFailures b;
     cooldownMs := cooldownMs b; openedAt := openedAt b;
     lastOpenReason := lastOpenReason b |}.

Definition with_failures (n : Z) (b : Breaker) : Breaker :=
  {| name := name b; state := state b;
     errorRateThreshold := errorRateThreshold b;
     timeoutRateThreshold := timeoutRateThreshold b;
     p95LatencyThreshold := p95LatencyThreshold b;
     minSamples := minSamples b; windowMs := windowMs b;
     baseCooldownMs := baseCooldownMs b; maxCooldownMs := maxCooldownMs b;
     events := events b;
     consecutiveFailures := n;
     cooldownMs := cooldownMs b; openedAt := openedAt b;
     lastOpenReason := lastOpenReason b |}.

Definition with_cooldown (c : Q) (b : Breaker) : Breaker :=
  {| name := name b; state := state b;
     errorRateThreshold := errorRateThreshold b;
     timeoutRateThreshold := timeoutRateThreshold b;
     p95LatencyThreshold := p95LatencyThreshold b;
     minSamples := minSamples b; windowMs := windowMs b;
     baseCooldownMs := baseCooldownMs b; maxCooldownMs := maxCooldownMs b;
     events := events b;
     consecutiveFailures := consecutiveFailures b;
     cooldownMs := c; openedAt := openedAt b;
     lastOpenReason := lastOpenReason b |}.

(** [state = OPEN; openedAt = now], with or without a new reason. *)
Definition open_at (now : Z) (reason : option OpenReason) (b : Breaker)
  : Breaker :=
  {| name := name b; state := OPEN;
     errorRateThreshold := errorRateThreshold b;
     timeoutRateThreshold := timeoutRateThreshold b;
     p95LatencyThreshold := p95LatencyThreshold b;
     minSamples := minSamples b; windowMs := windowMs b;
     baseCooldownMs := baseCooldownMs b; maxCooldownMs := maxCooldownMs b;
     events := events b;
     consecutiveFailures := consecutiveFailures b;
     cooldownMs := cooldownMs b; openedAt := Some now;
     lastOpenReason :=
       match reason with Some r => Some r | None => lastOpenReason b end |}.

(** The window that [_pruneOldEvents] keeps at clock reading [now]. *)
Definition pruned (now : Z) (window : Q) (evs : list Event) : list Event :=
  List.filter (fun e => JS.Qltb (inject_Z now - window)
                                (inject_Z (timestamp e))) evs.

(** [_pruneOldEvents()]. *)
Definition _pruneOldEvents (now : Z) (b : Breaker) : Breaker :=
  with_events (pruned now (windowMs b) (events b)) b.

(** [array.sort((a, b) => a - b)] on numbers. *)
Fixpoint insert_sorted (x : Q) (l : list Q) : list Q :=
  match l with
  | [] => [x]
  | y :: rest =>
      if Qle_bool x y then x :: l else y :: insert_sorted x rest
  end.

Definition sort_numeric (l : list Q) : list Q := foldr insert_sorted [] l.

(** The local constants of [_evaluate], as functions of the window. *)
Definition total (evs : list Event) : Z := Z.of_nat (length evs).

Definition failures (evs : list Event) : Z :=
  Z.of_nat (length (List.filter (fun e => negb (success e)) evs)).

Definition timeouts (evs : list Event) : Z :=
  Z.of_nat (length (List.filter (fun e => timedOut e) evs)).

Definition errorRate (evs : list Event) : Q :=
  inject_Z (failures evs) / inject_Z (total evs).

Definition timeoutRate (evs : list Event) : Q :=
  inject_Z (timeouts evs) / inject_Z (total evs).

Definition p95Latency (evs : list Event) : Q :=
  let latencies := sort_numeric (map latencyMs evs) in
  let p95Index := (JS.ceil (inject_Z (total evs) * (95 # 100)) - 1)%Z in
  nth (Z.to_nat (Z.min p95Index (Z.of_nat (length latencies) - 1)))
      latencies 0.

(** The [if / else if / else if] chain choosing the reason. *)
Definition breachReason (b : Breaker) (evs : list Event) : option OpenReason :=
  if JS.Qgeb (errorRate evs) (errorRateThreshold b)
  then Some (ErrorRateReason (errorRate evs) (errorRateThreshold b))
  else if JS.Qgeb (timeoutRate evs) (timeoutRateThreshold b)
  then Some (TimeoutRateReason (timeoutRate evs) (timeoutRateThreshold b))
  else if JS.Qgeb (p95Latency evs) (p95LatencyThreshold b)
  then Some (P95LatencyReason (p95Latency evs) (p95LatencyThreshold b))
  else None.

(** [_evaluate()].  With an empty window (possible only when [minSamples]
    is not positive) the rates are [NaN] and the percentile is [undefined],
    so that no comparison holds. *)
Definition _evaluate (nowPrune nowOpen : Z) (b : Breaker) : Breaker :=
  let b1 := _pruneOldEvents nowPrune b in
  if JS.Qltb (inject_Z (total (events b1))) (minSamples b1) then b1
  else
    match events b1 with
    | [] => b1
    | _ =>
        match breachReason b1 (events b1) with
        | Some reason => open_at nowOpen (Some reason) b1
        | None => b1
        end
    end.

(** [recordResult(success, latencyMs, timedOut)].  The clock is read for the
    event's timestamp, for the pruning cutoff and for [openedAt]. *)
Definition recordResult (nowEvent nowPrune nowOpen : Z)
  (succeeded : bool) (latency : Q) (timeout : bool) (b : Breaker) : Breaker :=
  let event := mkEvent nowEvent succeeded latency timeout in
  let b1 := with_events (events b ++ [event]) b in
  match state b1 with
  | HALF_OPEN =>
      if succeeded then
        with_cooldown (baseCooldownMs b1)
          (with_failures 0 (with_state CLOSED b1))
      else
        with_cooldown (Qmin (cooldownMs b1 * 2) (maxCooldownMs b1))
          (open_at nowOpen None b1)
  | _ =>
      let b2 :=
        if succeeded then with_failures 0 b1
        else with_failures (consecutiveFailures b1 + 1) b1 in
      _evaluate nowPrune nowOpen b2
  end.

(** [canExecute()]: the answer and the new state. *)
Definition canExecute (nowPrune nowCheck : Z) (b : Breaker)
  : bool * string * Breaker :=
  let b1 := _pruneOldEvents nowPrune b in
  match state b1 with
  | CLOSED => (true, "circuit closed"%string, b1)
  | OPEN =>
      let elapsed :=
        inject_Z (nowCheck - match openedAt b1 with Some t => t | None => 0 end)
      in
      if JS.Qgeb elapsed (cooldownMs b1)
      then (true, "half-open probe"%string, with_state HALF_OPEN b1)
      else (false, "circuit open"%string, b1)
  | HALF_OPEN => (false, "half-open — waiting for probe result"%string, b1)
  end.

(** *** Opening from the closed state *)

(** A threshold is reached on a window that is large enough. *)
Definition breached (b : Breaker) (window : list Event) : Prop :=
  minSamples b <= inject_Z (total window) /\
  (errorRateThreshold b <= errorRate window \/
   timeoutRateThreshold b <= timeoutRate window \/
   p95LatencyThreshold b <= p95Latency window).

(** The reason names a threshold of the breaker that the window reaches,
    together with the observed value. *)
Definition names_breach (r : OpenReason) (b : Breaker) (window : list Event)
  : Prop :=
  match r with
  | ErrorRateReason o t =>
      o = errorRate window /\ t = errorRateThreshold b /\ t <= o
  | TimeoutRateReason o t =>
      o = timeoutRate window /\ t = timeoutRateThreshold b /\ t <= o
  | P95LatencyReason o t =>
      o = p95Latency window /\ t = p95LatencyThreshold b /\ t <= o
  end.

Lemma breachReason_Some b window r :
  breachReason b window = Some r -> names_breach r b window.
Proof.
  unfold breachReason.
  destruct (JS.Qgeb (errorRate window) (errorRateThreshold b)) eqn:E1.
  { intros [= <-]. apply JS.Qgeb_ge in E1. cbn. auto. }
  destruct (JS.Qgeb (timeoutRate window) (timeoutRateThreshold b)) eqn:E2.
  { intros [= <-]. apply JS.Qgeb_ge in E2. cbn. auto. }
  destruct (JS.Qgeb (p95Latency window) (p95LatencyThreshold b)) eqn:E3.
  { intros [= <-]. apply JS.Qgeb_ge in E3. cbn. auto. }
  discriminate.
Qed.

Lemma breachReason_None b window :
  breachReason b window = None <->
  errorRate window < errorRateThreshold b /\
  timeoutRate window < timeoutRateThreshold b /\
  p95Latency window < p95LatencyThreshold b.
Proof.
  unfold breachReason.
  destruct (JS.Qgeb (errorRate window) (errorRateThreshold b)) eqn:E1.
  { apply JS.Qgeb_ge in E1. split; [discriminate|]. intros (H & _). lra. }
  destruct (JS.Qgeb (timeoutRate window) (timeoutRateThreshold b)) eqn:E2.
  { apply JS.Qgeb_ge in E2. split; [discriminate|]. intros (_ & H & _). lra. }
  destruct (JS.Qgeb (p95Latency window) (p95LatencyThreshold b)) eqn:E3.
  { apply JS.Qgeb_ge in E3. split; [discriminate|]. intros (_ & _ & H). lra. }
  apply JS.Qgeb_lt in E1, E2, E3. split; auto.
Qed.

(** [_evaluate] on a breaker whose sample minimum is positive. *)
Lemma _evaluate_spec nowPrune nowOpen b :
  0 < minSamples b ->
  let window := pruned nowPrune (windowMs b) (events b) in
  let b' := _evaluate nowPrune nowOpen b in
  (breached b window ->
   state b' = OPEN /\ openedAt b' = Some nowOpen /\
   exists r, lastOpenReason b' = Some r /\ names_breach r b window) /\
  (~ breached b window ->
   state b' = state b /\ openedAt b' = openedAt b /\
   lastOpenReason b' = lastOpenReason b).
Proof.
  intros Hmin. cbv zeta. unfold _evaluate, _pruneOldEvents.
  cbn [events minSamples with_events].
  generalize (pruned nowPrune (windowMs b) (events b)). intros window.
  destruct (JS.Qltb (inject_Z (total window)) (minSamples b)) eqn:Emin.
  - apply JS.Qltb_lt in Emin. split.
    + intros [H _]. lra.
    + intros _. cbn. auto.
  - apply JS.Qltb_ge in Emin.
    destruct window as [|e w] eqn:Ew.
    { change (inject_Z (total [])) with 0 in Emin. lra. }
    cbv iota. rewrite <- Ew in *. clear Ew e w.
    destruct (breachReason (with_events window b) window) as [r|] eqn:Er.
    + pose proof (breachReason_Some _ _ _ Er) as Hr. split.
      * intros _. cbn. split; [reflexivity|]. split; [reflexivity|].
        exists r. split; [reflexivity|]. destruct r; exact Hr.
      * intros Hn. exfalso. apply Hn. split; [exact Emin|].
        destruct r; cbn in Hr; destruct Hr as (-> & -> & Hle); cbn in Hle;
          auto.
    + apply breachReason_None in Er as (H1 & H2 & H3). cbn in H1, H2, H3.
      split.
      * intros (_ & [H | [H | H]]); lra.
      * intros _. cbn. auto.
Qed.

Lemma recordResult_closed nowEvent nowPrune nowOpen succeeded latency timeout b :
  state b = CLOSED -> 0 < minSamples b ->
  let event := mkEvent nowEvent succeeded latency timeout in
  let window := pruned nowPrune (windowMs b) (events b ++ [event]) in
  let b' := recordResult nowEvent nowPrune nowOpen succeeded latency timeout b
  in
  (breached b window ->
   state b' = OPEN /\ openedAt b' = Some nowOpen /\
   exists r, lastOpenReason b' = Some r /\ names_breach r b window) /\
  (~ breached b window ->
   state b' = CLOSED /\ openedAt b' = openedAt b /\
   lastOpenReason b' = lastOpenReason b).
Proof.
  intros Hst Hmin event window b'. subst b'. unfold recordResult.
  cbn [state with_events]. rewrite Hst. fold event.
  set (b2 := if succeeded then _ else _).
  assert (Hb2 : state b2 = CLOSED /\ openedAt b2 = openedAt b /\
                lastOpenReason b2 = lastOpenReason b /\
                minSamples b2 = minSamples b /\ windowMs b2 = windowMs b /\
                events b2 = events b ++ [event] /\
                errorRateThreshold b2 = errorRateThreshold b /\
                timeoutRateThreshold b2 = timeoutRateThreshold b /\
                p95LatencyThreshold b2 = p95LatencyThreshold b).
  { subst b2. destruct succeeded; cbn; rewrite Hst; auto 10. }
  destruct Hb2 as (H1 & H2 & H3 & H4 & H5 & H6 & H7 & H8 & H9).
  pose proof (_evaluate_spec nowPrune nowOpen b2) as He.
  rewrite H4, H5, H6 in He. specialize (He Hmin). cbn zeta in He.
  fold window in He.
  assert (Hbr : breached b2 window <-> breached b window).
  { unfold breached. rewrite H4, H7, H8, H9. reflexivity. }
  assert (Hnm : forall r, names_breach r b2 window <-> names_breach r b window).
  { intros []; cbn; rewrite ?H7, ?H8, ?H9; reflexivity. }
  destruct He as [Hopen Hstay]. split.
  - intros Hb. apply Hbr in Hb.
    destruct (Hopen Hb) as (Ho1 & Ho2 & r & Ho3 & Ho4).
    split; [exact Ho1|]. split; [exact Ho2|].
    exists r. split; [exact Ho3 | apply Hnm, Ho4].
  - intros Hn. rewrite <- Hbr in Hn.
    destruct (Hstay Hn) as (Hs1 & Hs2 & Hs3).
    rewrite Hs1, Hs2, Hs3. auto.
Qed.

(** C2: a result recorded in the CLOSED state, on a breaker with the
    default thresholds.  The breaker goes to OPEN exactly when the pruned
    window (which includes the result just recorded) holds at least 5 events
    and the error rate is at least 0.5, or the timeout rate at least 0.3, or
    the p95 latency at least 30000 ms; otherwise it stays CLOSED.  On
    opening, [openedAt] is the clock reading and [lastOpenReason] names a
    threshold that the window reaches. *)
Theorem C2_closed_opens_exactly_on_breach
    nowEvent nowPrune nowOpen succeeded latency timeout b :
  state b = CLOSED ->
  minSamples b = 5 -> errorRateThreshold b = 5 # 10 ->
  timeoutRateThreshold b = 3 # 10 -> p95LatencyThreshold b = 30000 ->
  let event := mkEvent nowEvent succeeded latency timeout in
  let window := pruned nowPrune (windowMs b) (events b ++ [event]) in
  let breach :=
    (5 <= length window)%nat /\
    (5 # 10 <= errorRate window \/ 3 # 10 <= timeoutRate window \/
     30000 <= p95Latency window) in
  let b' := recordResult nowEvent nowPrune nowOpen succeeded latency timeout b
  in
  (state b' = OPEN <-> breach) /\
  (state b' = CLOSED <-> ~ breach) /\
  (breach ->
   openedAt b' = Some nowOpen /\
   exists r, lastOpenReason b' = Some r /\ names_breach r b window) /\
  (~ breach ->
   openedAt b' = openedAt b /\ lastOpenReason b' = lastOpenReason b).
Proof.
  intros Hst Hmin He Ht Hp event window breach b'.
  assert (Hpos : 0 < minSamples b) by (rewrite Hmin; reflexivity).
  destruct (recordResult_closed nowEvent nowPrune nowOpen succeeded latency
              timeout b Hst Hpos) as [Hopen Hstay].
  fold event window b' in Hopen, Hstay.
  assert (Hbr : breached b window <-> breach).
  { assert (Hlen : 5 <= inject_Z (total window) <-> (5 <= length window)%nat).
    { unfold total. change 5 with (inject_Z 5). rewrite <- Zle_Qle. lia. }
    unfold breached, breach. rewrite Hmin, He, Ht, Hp, Hlen. reflexivity. }
  assert (Hdec : breach \/ ~ breach).
  { rewrite <- Hbr. unfold breached.
    destruct (Qlt_le_dec (inject_Z (total window)) (minSamples b)) as [H|H].
    { right. intros [H' _]. lra. }
    destruct (Qlt_le_dec (errorRate window) (errorRateThreshold b)) as [H1|H1];
      [|left; auto].
    destruct (Qlt_le_dec (timeoutRate window) (timeoutRateThreshold b))
      as [H2|H2]; [|left; auto].
    destruct (Qlt_le_dec (p95Latency window) (p95LatencyThreshold b))
      as [H3|H3]; [|left; auto].
    right. intros (_ & [H' | [H' | H']]); lra. }
  split; [|split; [|split]].
  - split.
    + intros Ho. destruct Hdec as [Hb | Hn]; [exact Hb|].
      rewrite Hbr in Hstay.
      destruct (Hstay Hn) as (Hc & _). congruence.
    + intros Hb. apply Hbr in Hb. apply (Hopen Hb).
  - split.
    + intros Hc Hb. apply Hbr in Hb. destruct (Hopen Hb) as (Ho & _).
      congruence.
    + intros Hn. rewrite Hbr in Hstay. apply (Hstay Hn).
  - intros Hb. apply Hbr in Hb. destruct (Hopen Hb) as (_ & Ho & Hr).
    auto.
  - intros Hn. rewrite Hbr in Hstay. destruct (Hstay Hn) as (_ & H1 & H2).
    auto.
Qed.

(** Four failures in the window, the fifth arriving: the breaker opens on
    the error rate. *)
Definition failing_event (t : Z) : Event := mkEvent t false 120 false.

Definition four_failures : Breaker :=
  with_failures 4
    (with_events (map failing_event [1000; 2000; 3000; 4000]%Z)
       (new "openai" no_options)).

Lemma C2_closed_opens_exactly_on_breach_witness :
  let b' := recordResult 5000 5000 5000 false 120 false four_failures in
  state b' = OPEN /\ openedAt b' = Some 5000%Z /\
  match lastOpenReason b' with
  | Some (ErrorRateReason observed threshold) =>
      observed == 1 /\ threshold == 5 # 10
  | _ => False
  end.
Proof.
  destruct (C2_closed_opens_exactly_on_breach 5000 5000 5000 false 120 false
              four_failures eq_refl eq_refl eq_refl eq_refl eq_refl)
    as (Hopen & _ & Hrec & _).
  assert (Hb : (5 <= length (pruned 5000 (windowMs four_failures)
                     (events four_failures ++ [mkEvent 5000 false 120 false])))%nat
               /\ (5 # 10 <= errorRate (pruned 5000 (windowMs four_failures)
                     (events four_failures ++ [mkEvent 5000 false 120 false]))
                   \/ 3 # 10 <= timeoutRate (pruned 5000 (windowMs four_failures)
                     (events four_failures ++ [mkEvent 5000 false 120 false]))
                   \/ 30000 <= p95Latency (pruned 5000 (windowMs four_failures)
                     (events four_failures ++ [mkEvent 5000 false 120 false])))).
  { split; [vm_compute; lia | left; vm_compute; discriminate]. }
  split; [apply Hopen, Hb|]. split; [apply (Hrec Hb)|].
  vm_compute. split; reflexivity.
Defined.

(** Five slow successes open the breaker on the p95 latency, and two
    timeouts out of five on the timeout rate when the error rate stays below
    its threshold. *)
Example slow_successes_open_on_p95 :
  let b' :=
    recordResult 5000 5000 5000 true 31000 false
      (with_events (map (fun t => mkEvent t true 31000 false)
                        [1000; 2000; 3000; 4000]%Z)
         (new "groq" no_options)) in
  state b' = OPEN /\
  match lastOpenReason b' with
  | Some (P95LatencyReason observed _) => observed == 31000
  | _ => False
  end.
Proof. vm_compute. split; reflexivity. Qed.

Example timeouts_open_on_timeout_rate :
  let b' :=
    recordResult 5000 5000 5000 false 60000 true
      (with_events [ mkEvent 1000 true 100 false; mkEvent 2000 true 100 false;
                     mkEvent 3000 true 100 false;
                     mkEvent 4000 false 60000 true ]
         (new "cohere" no_options)) in
  state b' = OPEN /\
  match lastOpenReason b' with
  | Some (TimeoutRateReason observed _) => observed == 4 # 10
  | _ => False
  end.
Proof. vm_compute. split; reflexivity. Qed.

(** An event that has left the window does not count. *)
Example old_failure_is_pruned :
  state (recordResult 70000 70000 70000 false 120 false four_failures)
  = CLOSED.
Proof. reflexivity. Qed.

(** Below the sample minimum nothing opens, whatever the rates. *)
Example three_failures_stay_closed :
  state (recordResult 3000 3000 3000 false 120 false
           (with_events (map failing_event [1000; 2000]%Z)
              (new "openai" no_options))) = CLOSED.
Proof. reflexivity. Qed.

End CircuitBreaker.

(** ** Semantic cache ([services/cache.js]) *)

Module SemanticCache.

Inductive Source := exact | semantic.

Section WithPayload.

(** The cached completion, an arbitrary JavaScript value. *)
Variable Response : Type.

(** A value of [exactMatchMap]. *)
Record Entry := mkEntry {
  response : Response;
  model : string;
  timestamp : Z;
  hitCount : Z
}.

(** An element of [embeddingEntries]. *)
Record EmbeddingEntry := mkEmbeddingEntry {
  emb_hash : string;
  emb_embedding : list Q;
  emb_response : Response;
  emb_model : string;
  emb_timestamp : Z;
  emb_hitCount : Z
}.

Record Stats := mkStats {
  totalLookups : Z;
  exactHits : Z;
  semanticHits : Z;
  misses : Z;
  embeddingsComputed : Z;
  embeddingsSkipped : Z
}.

(** The constructor's [options]; an absent field is [None]. *)
Record Options := mkOptions {
  opt_maxSize : option Q;
  opt_ttlMs : option Q;
  opt_similarityThreshold : option Q;
  opt_minEntriesForEmbedding : option Q;
  opt_minHitRateForEmbedding : option Q
}.

Definition no_options : Options := mkOptions None None None None None.

Record Cache := mkCache {
  maxSize : Q;
  ttlMs : Q;
  similarityThreshold : Q;
  minEntriesForEmbedding : Q;
  minHitRateForEmbedding : Q;
  exactMatchMap : gmap string Entry;
  embeddingEntries : list EmbeddingEntry;
  accessOrder : list string;
  stats : Stats
}.

(** [new SemanticCache(options)]. *)
Definition new (options : Options) : Cache :=
  {| maxSize := JS.num_or (opt_maxSize options) 10000;
     ttlMs := JS.num_or (opt_ttlMs options) 3600000;
     similarityThreshold :=
       JS.num_or (opt_similarityThreshold options) (92 # 100);
     minEntriesForEmbedding :=
       JS.num_or (opt_minEntriesForEmbedding options) 100;
     minHitRateForEmbedding :=
       JS.num_or (opt_minHitRateForEmbedding options) (15 # 100);
     exactMatchMap := ∅;
     embeddingEntries := [];
     accessOrder := [];
     stats := mkStats 0 0 0 0 0 0 |}.

(** The mutable part of the cache, replaced as a whole. *)
Definition with_store (m : gmap string Entry) (embs : list EmbeddingEntry)
  (order : list string) (st : Stats) (c : Cache) : Cache :=
  {| maxSize := maxSize c; ttlMs := ttlMs c;
     similarityThreshold := similarityThreshold c;
     minEntriesForEmbedding := minEntriesForEmbedding c;
     minHitRateForEmbedding := minHitRateForEmbedding c;
     exactMatchMap := m; embeddingEntries := embs; accessOrder := order;
     stats := st |}.

(** [_shouldUseEmbedding()]; it counts the skips in the statistics. *)
Definition _shouldUseEmbedding (c : Cache) : bool * Cache :=
  if JS.Qltb (inject_Z (Z.of_nat (size (exactMatchMap c))))
             (minEntriesForEmbedding c)
  then (false, c)
  else
    let st := stats c in
    let totalHits := (exactHits st + semanticHits st)%Z in
    let hitRate :=
      if (50 <? totalLookups st)%Z
      then inject_Z totalHits / inject_Z (totalLookups st) else 1 in
    if JS.Qltb hitRate (minHitRateForEmbedding c)
    then (false,
          with_store (exactMatchMap c) (embeddingEntries c) (accessOrder c)
            (mkStats (totalLookups st) (exactHits st) (semanticHits st)
               (misses st) (embeddingsComputed st) (embeddingsSkipped st + 1))
            c)
    else (true, c).

Fixpoint dotProduct (a b : list Q) : Q :=
  match a, b with
  | x :: a', y :: b' => x * y + dotProduct a' b'
  | _, _ => 0
  end.

(** [_cosineSimilarity(a, b)].  The code returns
    [dot / (sqrt normA * sqrt normB)], which is irrational in general; the
    embedding carries the similarity [s] by its signed square [s * |s|],
    a rational.  The map [s -> s * |s|] is strictly increasing, so every
    comparison of the code is a comparison of signed squares (see
    [signedSquare] for the threshold). *)
Definition _cosineSimilarity (a b : list Q) : Q :=
  if negb (length a =? length b)%nat then 0
  else
    let dot := dotProduct a b in
    let normA := dotProduct a a in
    let normB := dotProduct b b in
    if Qeq_bool normA 0 || Qeq_bool normB 0 then 0
    else dot * Qabs dot / (normA * normB).

Definition signedSquare (s : Q) : Q := s * Qabs s.

(** [_touchLRU(hash)]: drop the first occurrence, append. *)
Fixpoint remove_first (h : string) (l : list string) : list string :=
  match l with
  | [] => []
  | x :: rest => if String.eqb x h then rest else x :: remove_first h rest
  end.

Definition _touchLRU (h : string) (order : list string) : list string :=
  remove_first h order ++ [h].

(** An entry stamped [ts] is expired at [now]: [now - ts > ttlMs]. *)
Definition expired (ttl : Q) (now ts : Z) : bool :=
  JS.Qltb ttl (inject_Z (now - ts)).

(** [_evictExpired()]. *)
Definition _evictExpired (now : Z) (c : Cache) : Cache :=
  let gone (h : string) : bool :=
    match exactMatchMap c !! h with
    | Some e => expired (ttlMs c) now (timestamp e)
    | None => false
    end in
  with_store
    (filter (fun kv => expired (ttlMs c) now (timestamp kv.2) = false)
       (exactMatchMap c))
    (List.filter (fun e => negb (expired (ttlMs c) now (emb_timestamp e)))
       (embeddingEntries c))
    (List.filter (fun h => negb (gone h)) (accessOrder c))
    (stats c) c.

(** The scan of [embeddingEntries] in [lookup]: position and entry of the
    best similarity so far.  The clock is read once per entry. *)
Fixpoint scan (ttl : Q) (nowScan : nat -> Z) (embedding : list Q)
  (i : nat) (entries : list EmbeddingEntry)
  (bestSim : Q) (best : option (nat * EmbeddingEntry))
  : Q * option (nat * EmbeddingEntry) :=
  match entries with
  | [] => (bestSim, best)
  | entry :: rest =>
      if expired ttl (nowScan i) (emb_timestamp entry)
      then scan ttl nowScan embedding (S i) rest bestSim best
      else
        let sim := _cosineSimilarity embedding (emb_embedding entry) in
        if JS.Qltb bestSim sim
        then scan ttl nowScan embedding (S i) rest sim (Some (i, entry))
        else scan ttl nowScan embedding (S i) rest bestSim best
  end.

Definition bump (e : EmbeddingEntry) : EmbeddingEntry :=
  mkEmbeddingEntry (emb_hash e) (emb_embedding e) (emb_response e)
    (emb_model e) (emb_timestamp e) (emb_hitCount e + 1).

(** The answer of [lookup]. *)
Inductive LookupResult :=
| Miss
| Hit (r : Response) (m : string) (src : Source).

Definition count_lookup (st : Stats) : Stats :=
  mkStats (totalLookups st + 1) (exactHits st) (semanticHits st) (misses st)
    (embeddingsComputed st) (embeddingsSkipped st).

Definition count_exact (st : Stats) : Stats :=
  mkStats (totalLookups st) (exactHits st + 1) (semanticHits st) (misses st)
    (embeddingsComputed st) (embeddingsSkipped st).

Definition count_semantic (st : Stats) : Stats :=
  mkStats (totalLookups st) (exactHits st) (semanticHits st + 1) (misses st)
    (embeddingsComputed st) (embeddingsSkipped st).

Definition count_miss (st : Stats) : Stats :=
  mkStats (totalLookups st) (exactHits st) (semanticHits st) (misses st + 1)
    (embeddingsComputed st) (embeddingsSkipped st).

Definition count_computed (st : Stats) : Stats :=
  mkStats (totalLookups st) (exactHits st) (semanticHits st) (misses st)
    (embeddingsComputed st + 1) (embeddingsSkipped st).

(** Step 1 of [lookup]: the entry under the hash, if it passes the TTL
    test [Date.now() - exact.timestamp < this.ttlMs]. *)
Definition exactCandidate (nowExact : Z) (promptHash : string) (c : Cache)
  : option Entry :=
  match exactMatchMap c !! promptHash with
  | Some e =>
      if JS.Qltb (inject_Z (nowExact - timestamp e)) (ttlMs c)
      then Some e else None
  | None => None
  end.

(** Step 2 of [lookup]: the best live entry, if its similarity reaches the
    threshold. *)
Definition semanticCandidate (nowScan : nat -> Z) (embedding : list Q)
  (c : Cache) : option (nat * EmbeddingEntry) :=
  let '(bestSim, best) :=
    scan (ttlMs c) nowScan embedding O (embeddingEntries c) 0 None in
  match best with
  | Some hit =>
      if JS.Qgeb bestSim (signedSquare (similarityThreshold c))
      then Some hit else None
  | None => None
  end.

(** [lookup(promptHash, embedding)].  The clock is read by
    [_evictExpired], by the exact test and once per scanned entry. *)
Definition lookup (nowEvict nowExact : Z) (nowScan : nat -> Z)
  (promptHash : string) (embedding : option (list Q)) (c : Cache)
  : LookupResult * Cache :=
  let c0 :=
    with_store (exactMatchMap c) (embeddingEntries c) (accessOrder c)
      (count_lookup (stats c)) c in
  let c1 := _evictExpired nowEvict c0 in
  match exactCandidate nowExact promptHash c1 with
  | Some e =>
      (Hit (response e) (model e) exact,
       with_store
         (<[promptHash :=
              mkEntry (response e) (model e) (timestamp e) (hitCount e + 1)]>
            (exactMatchMap c1))
         (embeddingEntries c1)
         (_touchLRU promptHash (accessOrder c1))
         (count_exact (stats c1)) c1)
  | None =>
      let miss (c : Cache) :=
        (Miss,
         with_store (exactMatchMap c) (embeddingEntries c) (accessOrder c)
           (count_miss (stats c)) c) in
      match embedding with
      | None => miss c1
      | Some emb =>
          let '(use, c2) := _shouldUseEmbedding c1 in
          if use then
            match semanticCandidate nowScan emb c2 with
            | Some (i, bestEntry) =>
                (Hit (emb_response bestEntry) (emb_model bestEntry) semantic,
                 with_store (exactMatchMap c2)
                   (<[i := bump bestEntry]> (embeddingEntries c2))
                   (_touchLRU (emb_hash bestEntry) (accessOrder c2))
                   (count_semantic (stats c2)) c2)
            | None => miss c2
            end
          else miss c2
      end
  end.

(** The [while] loop of [store].  It consumes [accessOrder] from the front;
    when the list is exhausted with the map still at capacity, [shift()]
    returns [undefined] for ever and the loop does not end: [None].  A
    shifted hash is deleted only if it is truthy. *)
Fixpoint evictLRU (limit : Q) (order : list string) (m : gmap string Entry)
  (embs : list EmbeddingEntry)
  : option (list string * gmap string Entry * list EmbeddingEntry) :=
  match order with
  | [] =>
      if JS.Qgeb (inject_Z (Z.of_nat (size m))) limit then None
      else Some (order, m, embs)
  | oldestHash :: rest =>
      if JS.Qgeb (inject_Z (Z.of_nat (size m))) limit then
        if JS.truthy_string oldestHash
        then evictLRU limit rest (delete oldestHash m)
               (List.filter (fun e => negb (String.eqb (emb_hash e) oldestHash))
                  embs)
        else evictLRU limit rest m embs
      else Some (order, m, embs)
  end.

(** [store(promptHash, response, model, embedding)] at clock reading
    [now]. *)
Definition store (now : Z) (promptHash : string) (r : Response)
  (mdl : string) (embedding : option (list Q)) (c : Cache) : option Cache :=
  match evictLRU (maxSize c) (accessOrder c) (exactMatchMap c)
          (embeddingEntries c) with
  | None => None
  | Some (order, m, embs) =>
      let entry := mkEntry r mdl now 0 in
      let m1 := <[promptHash := entry]> m in
      let order1 := _touchLRU promptHash order in
      match embedding with
      | Some emb =>
          Some (with_store m1
                  (embs ++ [mkEmbeddingEntry promptHash emb r mdl now 0])
                  order1 (count_computed (stats c)) c)
      | None => Some (with_store m1 embs order1 (stats c) c)
      end
  end.

(** *** Time to live *)

(** The exact path hands out an entry only when it is strictly younger
    than the TTL. *)
Lemma exactCandidate_fresh nowExact promptHash c e :
  exactCandidate nowExact promptHash c = Some e ->
  exactMatchMap c !! promptHash = Some e /\
  inject_Z (nowExact - timestamp e) < ttlMs c.
Proof.
  unfold exactCandidate. destruct (exactMatchMap c !! promptHash) as [e'|];
    [|discriminate].
  destruct (JS.Qltb (inject_Z (nowExact - timestamp e')) (ttlMs c)) eqn:E;
    [|discriminate].
  intros [= <-]. apply JS.Qltb_lt in E. auto.
Qed.

Lemma expired_false ttl now ts :
  expired ttl now ts = false <-> inject_Z (now - ts) <= ttl.
Proof. unfold expired. apply JS.Qltb_ge. Qed.

Lemma scan_best ttl nowScan embedding all :
  forall entries pre bestSim best s j e,
    all = pre ++ entries ->
    (forall j e, best = Some (j, e) ->
       all !! j = Some e /\ expired ttl (nowScan j) (emb_timestamp e) = false) ->
    scan ttl nowScan embedding (length pre) entries bestSim best
      = (s, Some (j, e)) ->
    all !! j = Some e /\ expired ttl (nowScan j) (emb_timestamp e) = false.
Proof.
  induction entries as [|entry rest IH]; intros pre bestSim best s j e Hall Hb;
    cbn [scan].
  - intros [= <- ->]. apply Hb. reflexivity.
  - assert (Hall' : all = (pre ++ [entry]) ++ rest)
      by (rewrite <- app_assoc; exact Hall).
    assert (Hlen : length (pre ++ [entry]) = S (length pre))
      by (rewrite length_app; cbn; lia).
    destruct (expired ttl (nowScan (length pre)) (emb_timestamp entry)) eqn:Ex.
    + rewrite <- Hlen. apply IH; assumption.
    + destruct (JS.Qltb bestSim
                  (_cosineSimilarity embedding (emb_embedding entry))).
      * rewrite <- Hlen. apply IH; [assumption|].
        intros j' e' [= <- <-]. split; [|exact Ex].
        rewrite Hall. rewrite lookup_app_r by lia.
        rewrite Nat.sub_diag. reflexivity.
      * rewrite <- Hlen. apply IH; assumption.
Qed.

(** The semantic path hands out an entry that is not older than the TTL;
    an entry whose age equals the TTL passes. *)
Lemma semanticCandidate_not_expired nowScan embedding c i e :
  semanticCandidate nowScan embedding c = Some (i, e) ->
  embeddingEntries c !! i = Some e /\
  inject_Z (nowScan i - emb_timestamp e) <= ttlMs c.
Proof.
  unfold semanticCandidate.
  destruct (scan (ttlMs c) nowScan embedding 0 (embeddingEntries c) 0 None)
    as [bestSim [[j e']|]] eqn:Es; [|discriminate].
  destruct (JS.Qgeb bestSim (signedSquare (similarityThreshold c)));
    [|discriminate].
  intros [= <- <-].
  destruct (scan_best (ttlMs c) nowScan embedding (embeddingEntries c)
              (embeddingEntries c) [] 0 None bestSim j e' eq_refl) as [H1 H2].
  - intros ? ? [=].
  - exact Es.
  - split; [exact H1 | apply expired_false, H2].
Qed.

(** After [_evictExpired] no entry is older than the TTL. *)
Lemma _evictExpired_map now c h e :
  exactMatchMap (_evictExpired now c) !! h = Some e <->
  exactMatchMap c !! h = Some e /\ inject_Z (now - timestamp e) <= ttlMs c.
Proof.
  cbn. rewrite map_lookup_filter_Some. cbn. rewrite expired_false.
  reflexivity.
Qed.

Lemma _evictExpired_embeddings now c e :
  In e (embeddingEntries (_evictExpired now c)) <->
  In e (embeddingEntries c) /\ inject_Z (now - emb_timestamp e) <= ttlMs c.
Proof.
  cbn. rewrite filter_In, negb_true_iff, expired_false. reflexivity.
Qed.

(** *** The representation invariant and the eviction loop *)

(** Every key of the map is recorded in [accessOrder], and the empty
    string, which the eviction loop cannot delete, is not a key. *)
Definition cache_inv (c : Cache) : Prop :=
  (forall h, is_Some (exactMatchMap c !! h) -> In h (accessOrder c)) /\
  exactMatchMap c !! ""%string = None.

Lemma truthy_string_false h : JS.truthy_string h = false -> h = ""%string.
Proof. destruct h; [reflexivity | discriminate]. Qed.

Lemma evictLRU_Some limit order : forall m embs,
  1 <= limit ->
  (forall h, is_Some (m !! h) -> In h order) -> m !! ""%string = None ->
  exists order' m' embs',
    evictLRU limit order m embs = Some (order', m', embs') /\
    (forall h, is_Some (m' !! h) -> In h order') /\ m' !! ""%string = None.
Proof.
  induction order as [|oldest rest IH]; intros m embs Hlim Hdom Hemp;
    cbn [evictLRU].
  - assert (Hm : m = ∅).
    { apply map_empty. intros i. destruct (m !! i) eqn:E; [|reflexivity].
      destruct (Hdom i); eauto. }
    subst m. rewrite map_size_empty.
    destruct (JS.Qgeb (inject_Z (Z.of_nat 0)) limit) eqn:E.
    { apply JS.Qgeb_ge in E. change (inject_Z (Z.of_nat 0)) with 0 in E. lra. }
    exists [], ∅, embs. auto.
  - destruct (JS.Qgeb (inject_Z (Z.of_nat (size m))) limit).
    2:{ exists (oldest :: rest), m, embs. auto. }
    destruct (JS.truthy_string oldest) eqn:Et.
    + apply IH; [exact Hlim| |].
      * intros h [e He]. apply lookup_delete_Some in He as [Hne He].
        destruct (Hdom h) as [<- | Hin]; eauto. contradiction.
      * apply lookup_delete_None. auto.
    + apply truthy_string_false in Et. subst oldest.
      apply IH; [exact Hlim| |exact Hemp].
      intros h Hh. destruct (Hdom h Hh) as [<- | Hin]; [|exact Hin].
      rewrite Hemp in Hh. destruct Hh as [? [=]].
Qed.

Lemma In_touchLRU k h order :
  In k order \/ k = h -> In k (_touchLRU h order).
Proof.
  unfold _touchLRU. rewrite in_app_iff. cbn.
  intros [Hin | ->]; [|auto].
  destruct (String.eqb_spec k h) as [->|Hne]; [auto|]. left.
  induction order as [|x rest IH]; [contradiction|]. cbn.
  destruct (String.eqb_spec x h) as [->|Hx].
  - destruct Hin as [<- | Hin]; [contradiction | exact Hin].
  - destruct Hin as [<- | Hin]; [left; reflexivity | right; auto].
Qed.

Lemma new_inv options : cache_inv (new options).
Proof.
  split; cbn.
  - intros h. rewrite lookup_empty. intros [? [=]].
  - apply lookup_empty.
Qed.

Lemma store_inv now h r mdl embedding c c' :
  cache_inv c -> 1 <= maxSize c -> h <> ""%string ->
  store now h r mdl embedding c = Some c' ->
  cache_inv c' /\ maxSize c' = maxSize c.
Proof.
  intros [Hdom Hemp] Hlim Hne. unfold store.
  destruct (evictLRU_Some (maxSize c) (accessOrder c) (exactMatchMap c)
              (embeddingEntries c) Hlim Hdom Hemp)
    as (order & m & embs & -> & Hdom' & Hemp').
  assert (Hinv : forall embs' st,
            cache_inv (with_store (<[h := mkEntry r mdl now 0]> m) embs'
                         (_touchLRU h order) st c)).
  { intros embs' st. split; cbn.
    - intros k Hk. apply In_touchLRU.
      destruct (decide (h = k)) as [<-|Hk']; [auto|].
      rewrite lookup_insert_ne in Hk by exact Hk'. auto.
    - rewrite lookup_insert_ne by exact Hne. exact Hemp'. }
  destruct embedding; intros [= <-]; split; auto.
Qed.

Lemma lookup_inv nowEvict nowExact nowScan h embedding c :
  cache_inv c ->
  cache_inv (lookup nowEvict nowExact nowScan h embedding c).2.
Proof.
  intros [Hdom Hemp].
  set (c0 := with_store (exactMatchMap c) (embeddingEntries c)
               (accessOrder c) (count_lookup (stats c)) c).
  assert (H1 : cache_inv (_evictExpired nowEvict c0)).
  { split.
    - intros k [e He]. apply _evictExpired_map in He as [He Hage].
      cbn in He. cbn. apply filter_In. split; [apply Hdom; eauto|].
      rewrite He. apply negb_true_iff, expired_false. exact Hage.
    - cbn. apply map_lookup_filter_None. left. exact Hemp. }
  unfold lookup. fold c0. set (c1 := _evictExpired nowEvict c0) in *.
  destruct H1 as [Hdom1 Hemp1].
  assert (Hkeep : forall c2 embs order st,
            exactMatchMap c2 = exactMatchMap c1 ->
            (forall k, In k (accessOrder c1) -> In k order) ->
            cache_inv (with_store (exactMatchMap c2) embs order st c2)).
  { intros c2 embs order st Hm Ho. split; cbn; rewrite Hm; auto. }
  destruct (exactCandidate nowExact h c1) as [e|] eqn:Ex.
  - apply exactCandidate_fresh in Ex as [He _]. split; cbn.
    + intros k Hk. apply In_touchLRU.
      destruct (decide (h = k)) as [<-|Hk']; [auto|].
      rewrite lookup_insert_ne in Hk by exact Hk'. left. apply Hdom1, Hk.
    + destruct (decide (h = ""%string)) as [->|Hne].
      * rewrite Hemp1 in He. discriminate.
      * rewrite lookup_insert_ne by exact Hne. exact Hemp1.
  - destruct embedding as [emb|]; cbn [snd].
    2:{ apply Hkeep; auto. }
    assert (Hsh : exactMatchMap (_shouldUseEmbedding c1).2 = exactMatchMap c1
                  /\ accessOrder (_shouldUseEmbedding c1).2 = accessOrder c1).
    { unfold _shouldUseEmbedding.
      repeat JS.case_if; auto. }
    destruct (_shouldUseEmbedding c1) as [use c2]. cbn [snd] in Hsh.
    destruct Hsh as [Hm Ho].
    destruct use; cbn [snd]; [|apply Hkeep; [exact Hm | rewrite Ho; auto]].
    destruct (semanticCandidate nowScan emb c2) as [[i best]|]; cbn [snd].
    + apply Hkeep; [exact Hm|]. intros k Hk. apply In_touchLRU.
      rewrite Ho. auto.
    + apply Hkeep; [exact Hm | rewrite Ho; auto].
Qed.

(** C9: storing and looking up again.  On a cache that satisfies the
    representation invariant and whose [maxSize] is at least 1, [store]
    returns, and a [lookup] of the same hash made before the TTL has
    elapsed (in particular at the same clock reading, for a positive TTL)
    is an exact hit carrying the very response and model just stored. *)
Theorem C9_store_then_lookup_hits
    (c : Cache) (h : string) (r : Response) (mdl : string)
    (embedding embedding' : option (list Q))
    (nowStore nowEvict nowExact : Z) (nowScan : nat -> Z) :
  cache_inv c -> 1 <= maxSize c ->
  inject_Z (nowEvict - nowStore) < ttlMs c ->
  inject_Z (nowExact - nowStore) < ttlMs c ->
  exists c',
    store nowStore h r mdl embedding c = Some c' /\
    (lookup nowEvict nowExact nowScan h embedding' c').1 = Hit r mdl exact.
Proof.
  intros [Hdom Hemp] Hlim Hev Hex. unfold store.
  destruct (evictLRU_Some (maxSize c) (accessOrder c) (exactMatchMap c)
              (embeddingEntries c) Hlim Hdom Hemp)
    as (order & m & embs & -> & _ & _).
  assert (Hhit : forall embs' st,
    (lookup nowEvict nowExact nowScan h embedding'
       (with_store (<[h := mkEntry r mdl nowStore 0]> m) embs'
          (_touchLRU h order) st c)).1 = Hit r mdl exact).
  { intros embs' st. unfold lookup.
    match goal with
    | |- context [exactCandidate nowExact h ?c1] =>
        assert (Hc : exactCandidate nowExact h c1
                     = Some (mkEntry r mdl nowStore 0))
    end.
    { unfold exactCandidate.
      match goal with
      | |- context [exactMatchMap ?c1 !! h] =>
          assert (Hl : exactMatchMap c1 !! h = Some (mkEntry r mdl nowStore 0))
      end.
      { apply _evictExpired_map. cbn. rewrite lookup_insert_eq.
        split; [reflexivity | lra]. }
      rewrite Hl. cbn [timestamp].
      apply JS.Qltb_lt in Hex. cbn [ttlMs _evictExpired with_store].
      rewrite Hex. reflexivity. }
    rewrite Hc. reflexivity. }
  destruct embedding; eexists; (split; [reflexivity | apply Hhit]).
Qed.

End WithPayload.

Arguments Hit {Response}.
Arguments Miss {Response}.
Arguments new {Response}.
Arguments store {Response}.
Arguments lookup {Response}.
Arguments ttlMs {Response}.
Arguments exactMatchMap {Response}.
Arguments embeddingEntries {Response}.
Arguments emb_response {Response}.
Arguments emb_timestamp {Response}.

(** A cache of capacity 1, empty and with its one slot taken: a second
    store evicts the first entry and is found again. *)
Definition one_slot : Cache string :=
  new (mkOptions (Some 1) None None None None).

Definition one_slot_taken : Cache string :=
  match store 5 "a" "first" "gpt-4o-mini" None one_slot with
  | Some c => c
  | None => one_slot
  end.

Lemma C9_store_then_lookup_hits_witness :
  exists c',
    store 10 "b" "second" "gpt-4o" None one_slot_taken = Some c' /\
    (lookup 10 10 (fun _ => 10%Z) "b" None c').1
      = Hit "second"%string "gpt-4o"%string exact.
Proof.
  apply (C9_store_then_lookup_hits string one_slot_taken "b" "second" "gpt-4o"
           None None 10 10 10 (fun _ => 10%Z)).
  - apply (store_inv string 5 "a" "first" "gpt-4o-mini" None one_slot
             one_slot_taken).
    + apply new_inv.
    + vm_compute. discriminate.
    + discriminate.
    + reflexivity.
  - vm_compute. discriminate.
  - vm_compute. reflexivity.
  - vm_compute. reflexivity.
Defined.

Example second_store_evicts_first :
  exists c',
    store 10 "b" "second" "gpt-4o" None one_slot_taken = Some c' /\
    (lookup 10 10 (fun _ => 10%Z) "a" None c').1 = Miss /\
    size (exactMatchMap c') = 1%nat.
Proof. eexists. repeat split; vm_compute; reflexivity. Qed.

(** Without the invariant the loop of [store] need not end: with the empty
    string as the only key of a full cache nothing can be evicted. *)
Example store_diverges_on_empty_key :
  exists c,
    store 0 "" "r" "m" None one_slot = Some c /\
    store 1 "a" "r" "m" None c = None.
Proof. eexists. split; reflexivity. Qed.

(** An exact hit one millisecond before the TTL, a miss at the TTL, and
    the eviction of an entry older than the TTL. *)
Example exact_hit_before_ttl :
  exists c,
    store 0 "h1" "cached" "gpt-4o" None
      (new (mkOptions None (Some 1000) None None None)) = Some c /\
    (lookup 999 999 (fun _ => 999%Z) "h1" None c).1
      = Hit "cached"%string "gpt-4o"%string exact /\
    (lookup 1000 1000 (fun _ => 1000%Z) "h1" None c).1 = Miss /\
    exactMatchMap
      (lookup 1001 1001 (fun _ => 1001%Z) "h1" None c).2 = ∅.
Proof. eexists. repeat split; vm_compute; reflexivity. Qed.

(** *** The TTL boundary on the semantic path *)

(** A cache with a TTL of one second that enables the embedding search
    from the first entry on. *)
Definition short_ttl : Cache string :=
  new (mkOptions None (Some 1000) None (Some 1) None).

(** C3: at the TTL boundary the semantic path returns an expired entry.
    An entry stored with an embedding at time 0 is looked up, under another
    hash and with the same embedding, at time 1000 = TTL: [_evictExpired]
    keeps it, the scan does not skip it, and [lookup] answers with a
    semantic hit although [now - entry.timestamp < ttl] is false.  (The
    exact path of the same [lookup] refuses an entry of that age.) *)
Theorem C3_semantic_hit_at_ttl_boundary :
  exists c e,
    store 0 "h1" "cached" "gpt-4o" (Some [1; 0]) short_ttl = Some c /\
    (lookup 1000 1000 (fun _ => 1000%Z) "h2" (Some [1; 0]) c).1
      = Hit "cached"%string "gpt-4o"%string semantic /\
    embeddingEntries c = [e] /\
    emb_response e = "cached"%string /\
    ~ inject_Z (1000 - emb_timestamp e) < ttlMs c /\
    (lookup 1000 1000 (fun _ => 1000%Z) "h1" None c).1 = Miss.
Proof.
  eexists. eexists. split; [reflexivity|].
  split; [vm_compute; reflexivity|].
  split; [reflexivity|]. split; [reflexivity|].
  split; [|vm_compute; reflexivity].
  cbn. intros H. vm_compute in H. discriminate.
Qed.

End SemanticCache.

(** ** Classifier ([services/classifier.js]) *)

Module Classifier.

Inductive Tier := trivial | simple | moderate | complex | expert.

(** [TIERS]. *)
Definition TIERS : list Tier := [trivial; simple; moderate; complex; expert].

(** A regular-expression literal [/source/flags]. *)
Record Regex := RegExp { source : string; flags : string }.

(** The 15 normalised features. *)
Record Features := mkFeatures {
  charCount : Q;
  wordCount : Q;
  sentenceCount : Q;
  avgWordLength : Q;
  avgSentenceLength : Q;
  typeTokenRatio : Q;
  codeIndicator : Q;
  questionDepth : Q;
  structuralComplexity : Q;
  techDensity : Q;
  reasoningDensity : Q;
  specificity : Q;
  hasPriorReference : Q;
  numericalDensity : Q;
  hasLargeNumbers : Q
}.

(** What [heuristicClassify] and [onnxClassify] return; [None] stands for
    [undefined] (tier) and [NaN] (numbers). *)
Record Classification := mkClassification {
  c_tier : option Tier;
  c_score : option Z;
  c_confidence : option Q
}.

Inductive Method := onnx | heuristic.

(** What [classify] returns. *)
Record Result := mkResult {
  tier : option Tier;
  score : option Z;
  confidence : option Q;
  intent : string;
  intentConfidence : Q;
  intentScores : list (string * Z);
  features : Features;
  method : Method
}.

(** [INTENT_PATTERNS]. *)
Record IntentConfig := mkIntent {
  keywords : list string;
  patterns : list Regex
}.

Definition INTENT_PATTERNS : list (string * IntentConfig) :=
  [ ("code"%string,
     mkIntent
       [ "code"; "function"; "implement"; "debug"; "refactor"; "algorithm";
         "class"; "api"; "javascript"; "python"; "typescript"; "java";
         "rust"; "sql"; "html"; "css"; "compile"; "runtime"; "syntax";
         "variable"; "loop"; "array"; "object"; "import"; "export"; "async";
         "await"; "promise"; "callback"; "regex"; "git"; "docker"; "deploy";
         "test"; "unit test"; "integration" ]%string
       [ RegExp "```[\s\S]*```" ""; RegExp "def\s+\w+" "";
         RegExp "function\s+\w+" ""; RegExp "class\s+\w+" "";
         RegExp "const\s+\w+\s*=" ""; RegExp "=>\s*{" "" ]);
    ("math"%string,
     mkIntent
       [ "calculate"; "equation"; "integral"; "derivative"; "matrix";
         "probability"; "statistics"; "theorem"; "proof"; "algebra";
         "geometry"; "calculus"; "logarithm"; "exponential"; "factorial";
         "permutation"; "combination"; "solve"; "compute"; "formula" ]%string
       [ RegExp "\d+\s*[\+\-\*\/\^]\s*\d+" ""; RegExp "\$.*\$" "";
         RegExp "\\frac" ""; RegExp "\\sum" ""; RegExp "\\int" "" ]);
    ("analysis"%string,
     mkIntent
       [ "analyze"; "compare"; "evaluate"; "assess"; "review"; "critique";
         "pros and cons"; "trade-off"; "tradeoff"; "advantage";
         "disadvantage"; "impact"; "implication"; "consequence";
         "root cause"; "deep dive"; "perspective"; "framework";
         "methodology" ]%string
       [ RegExp "compare\s+.+\s+(and|vs|versus)\s+" "i";
         RegExp "what are the (pros|advantages|benefits)" "i" ]);
    ("creative"%string,
     mkIntent
       [ "write"; "story"; "poem"; "essay"; "creative"; "fiction";
         "narrative"; "character"; "dialogue"; "plot"; "screenplay";
         "lyrics"; "compose"; "brainstorm"; "imagine"; "design"; "invent";
         "generate ideas" ]%string
       [ RegExp "write\s+(a|an|me)\s+(story|poem|essay|song|script)" "i";
         RegExp "once upon a time" "i" ]);
    ("translation"%string,
     mkIntent
       [ "translate"; "translation"; "convert"; "language"; "spanish";
         "french"; "german"; "chinese"; "japanese"; "korean"; "arabic";
         "hindi"; "portuguese"; "italian"; "russian"; "localize";
         "localization" ]%string
       [ RegExp "translate\s+.+\s+(to|into|from)\s+" "i";
         RegExp "in\s+(spanish|french|german|chinese|japanese)" "i" ]);
    ("qa"%string,
     mkIntent
       [ "what is"; "who is"; "when did"; "where is"; "how does";
         "why does"; "explain"; "define"; "describe"; "tell me"; "list";
         "name"; "summarize"; "summary"; "overview"; "brief";
         "short answer" ]%string
       [ RegExp
           "^(what|who|when|where|how|why|can you|could you|is|are|do|does)\s"
           "i" ]) ].

Definition technicalTerms : list string :=
  [ "algorithm"; "architecture"; "implementation"; "optimization";
    "performance"; "scalability"; "concurrency"; "asynchronous";
    "middleware"; "microservice"; "database"; "schema"; "encryption";
    "authentication"; "authorization"; "infrastructure"; "deployment";
    "configuration"; "abstraction"; "inheritance"; "polymorphism";
    "encapsulation"; "normalization"; "denormalization"; "serialization";
    "deserialization" ]%string.

Definition reasoningKeywords : list string :=
  [ "step-by-step"; "explain why"; "reason through"; "think about";
    "consider"; "analyze"; "evaluate"; "compare and contrast";
    "what are the implications"; "how would you approach";
    "design a system" ]%string.

(** The number of [terms] that [text] contains. *)
Definition countIncluded (text : JS.str) (terms : list string) : nat :=
  length (List.filter (fun t => JS.includes16 text (JS.lit t)) terms).

Section WithRuntime.

(** The string and regular-expression engine of the runtime:
    [re.test(s)], [s.match(re) || []] for a global [re], [s.split(re)] and
    [s.toLowerCase()]. *)
Variable regex_test : Regex -> JS.str -> bool.
Variable regex_match : Regex -> JS.str -> list JS.str.
Variable regex_split : Regex -> JS.str -> list JS.str.
Variable toLowerCase : JS.str -> JS.str.

(** The ONNX session, when a model was loaded: it maps the feature tensor
    to the output [probabilities], or throws ([None]). *)
Variable onnxSession : option (Features -> option (list Q)).

(** [extractFeatures(prompt)].  The counts are integers below 2^53 and are
    added exactly; every quotient is rounded to a double. *)
Definition extractFeatures (prompt : JS.str) : Features :=
  let words :=
    List.filter (fun w => (0 <? length w)%nat)
      (regex_split (RegExp "\s+" "") prompt) in
  let sentences :=
    List.filter (fun s => (0 <? length (JS.trim16 s))%nat)
      (regex_split (RegExp "[.!?]+" "") prompt) in
  let lowerPrompt := toLowerCase prompt in
  let charCount := length prompt in
  let wordCount := length words in
  let sentenceCount := length sentences in
  let avgWordLength :=
    if (0 <? wordCount)%nat
    then JS.fdiv (JS.qnat (foldl (fun s w => (s + length w)%nat) O words))
                 (JS.qnat wordCount)
    else 0 in
  let avgSentenceLength :=
    if (0 <? sentenceCount)%nat
    then JS.fdiv (JS.qnat wordCount) (JS.qnat sentenceCount) else 0 in
  let uniqueWords := remove_dups (map toLowerCase words) in
  let typeTokenRatio :=
    if (0 <? wordCount)%nat
    then JS.fdiv (JS.qnat (length uniqueWords)) (JS.qnat wordCount) else 0 in
  let codeBlockCount :=
    JS.fdiv (JS.qnat (length (regex_match (RegExp "```" "g") prompt))) 2 in
  let hasInlineCode := regex_test (RegExp "`[^`]+`" "") prompt in
  let codeIndicator :=
    if JS.Qltb 0 codeBlockCount then 1
    else if hasInlineCode then JS.literal (5 # 10) else 0 in
  let questionMarks := length (regex_match (RegExp "\?" "g") prompt) in
  let questionDepth := Qmin (JS.fdiv (JS.qnat questionMarks) 3) 1 in
  let bulletPoints :=
    length (regex_match (RegExp "^[\s]*[-*•]\s" "gm") prompt) in
  let numberedPoints :=
    length (regex_match (RegExp "^[\s]*\d+[.)]\s" "gm") prompt) in
  let structuralComplexity :=
    Qmin (JS.fdiv (JS.qnat (bulletPoints + numberedPoints)) 5) 1 in
  let techTermCount := countIncluded lowerPrompt technicalTerms in
  let techDensity := Qmin (JS.fdiv (JS.qnat techTermCount) 5) 1 in
  let reasoningCount := countIncluded lowerPrompt reasoningKeywords in
  let reasoningDensity := Qmin (JS.fdiv (JS.qnat reasoningCount) 3) 1 in
  let hasConstraints :=
    regex_test
      (RegExp "\b(must|should|exactly|precisely|no more than|at least|between)\b"
         "i") prompt in
  let hasFormat :=
    regex_test
      (RegExp "\b(json|xml|csv|markdown|table|list|bullet|format as|output as)\b"
         "i") prompt in
  let specificity :=
    JS.fadd (if hasConstraints then JS.literal (5 # 10) else 0)
            (if hasFormat then JS.literal (5 # 10) else 0)
  in
  let hasPriorReference :=
    regex_test
      (RegExp "\b(above|previous|earlier|you said|you mentioned|as I said)\b"
         "i") prompt in
  let numbers := regex_match (RegExp "\d+" "g") prompt in
  let hasLargeNumbers :=
    existsb (fun n => match JS.parseInt16 n with
                      | Some v => (1000 <? v)%Z
                      | None => false
                      end) numbers in
  let numericalDensity := Qmin (JS.fdiv (JS.qnat (length numbers)) 10) 1 in
  {| charCount := Qmin (JS.fdiv (JS.qnat charCount) 5000) 1;
     wordCount := Qmin (JS.fdiv (JS.qnat wordCount) 1000) 1;
     sentenceCount := Qmin (JS.fdiv (JS.qnat sentenceCount) 50) 1;
     avgWordLength := Qmin (JS.fdiv avgWordLength 12) 1;
     avgSentenceLength := Qmin (JS.fdiv avgSentenceLength 40) 1;
     typeTokenRatio := typeTokenRatio;
     codeIndicator := codeIndicator;
     questionDepth := questionDepth;
     structuralComplexity := structuralComplexity;
     techDensity := techDensity;
     reasoningDensity := reasoningDensity;
     specificity := specificity;
     hasPriorReference := if hasPriorReference then 1 else 0;
     numericalDensity := numericalDensity;
     hasLargeNumbers := if hasLargeNumbers then 1 else 0 |}.

(** The score of one intent: one per keyword found, two per pattern
    matched. *)
Definition intentScore (prompt lowerPrompt : JS.str) (config : IntentConfig)
  : Z :=
  (Z.of_nat (countIncluded lowerPrompt (keywords config))
   + 2 * Z.of_nat (length (List.filter (fun re => regex_test re prompt)
                                       (patterns config))))%Z.

(** [detectIntent(prompt)]: the intent, the confidence and the scores. *)
Definition detectIntent (prompt : JS.str) : string * Q * list (string * Z) :=
  let lowerPrompt := toLowerCase prompt in
  let scores :=
    map (fun ic => (fst ic, intentScore prompt lowerPrompt (snd ic)))
        INTENT_PATTERNS in
  let entries := JS.sort_desc (fun e => inject_Z (snd e)) scores in
  match entries with
  | [] => ("general"%string, 0, scores)
  | (bestIntent, bestScore) :: _ =>
      let totalScore := foldl (fun s e => (s + snd e)%Z) 0%Z entries in
      let confidence :=
        if (0 <? totalScore)%Z
        then inject_Z bestScore / inject_Z totalScore else 0 in
      (if (0 <? bestScore)%Z then bestIntent else "general"%string,
       inject_Z (JS.round (confidence * 100)) / 100,
       scores)
  end.

(** The [weights] object of [heuristicClassify], in its key order; each
    weight is the double that its decimal literal denotes. *)
Definition weights : list ((Features -> Q) * Q) :=
  [ (charCount, JS.literal (10 # 100)); (wordCount, JS.literal (8 # 100));
    (sentenceCount, JS.literal (5 # 100));
    (avgWordLength, JS.literal (5 # 100));
    (avgSentenceLength, JS.literal (5 # 100));
    (typeTokenRatio, JS.literal (3 # 100));
    (codeIndicator, JS.literal (15 # 100));
    (questionDepth, JS.literal (8 # 100));
    (structuralComplexity, JS.literal (6 # 100));
    (techDensity, JS.literal (12 # 100));
    (reasoningDensity, JS.literal (10 # 100));
    (specificity, JS.literal (5 # 100));
    (hasPriorReference, JS.literal (2 # 100));
    (numericalDensity, JS.literal (3 # 100));
    (hasLargeNumbers, JS.literal (3 # 100)) ].

(** [heuristicClassify(features)]: the products and the running sum are
    rounded to doubles, and so is [rawScore * 100] before [Math.round]. *)
Definition heuristicClassify (features : Features) : Classification :=
  let rawScore :=
    foldl (fun acc kw =>
             let v := fst kw features in
             JS.fadd acc
               (JS.fmul (if JS.truthy_num v then v else 0) (snd kw)))
          0 weights in
  let score := Z.min (JS.round (JS.fmul rawScore 100)) 100 in
  let tierIndex :=
    if (score <=? 10)%Z then 0%nat
    else if (score <=? 25)%Z then 1%nat
    else if (score <=? 50)%Z then 2%nat
    else if (score <=? 75)%Z then 3%nat
    else 4%nat in
  {| c_tier := TIERS !! tierIndex;
     c_score := Some score;
     c_confidence := Some (JS.literal (65 # 100)) |}.

(** The arg-max loop of [onnxClassify], from index [i] on. *)
Fixpoint argmax (i : nat) (probabilities : list Q) (maxIdx : nat) (maxProb : Q)
  : nat * Q :=
  match probabilities with
  | [] => (maxIdx, maxProb)
  | p :: rest =>
      if JS.Qltb maxProb p then argmax (S i) rest i p
      else argmax (S i) rest maxIdx maxProb
  end.

(** [onnxClassify(features)]: [None] is the [null] returned when no model
    is loaded or the inference throws. *)
Definition onnxClassify (features : Features) : option Classification :=
  match onnxSession with
  | None => None
  | Some run =>
      match run features with
      | None => None
      | Some [] =>
          Some {| c_tier := TIERS !! 0%nat; c_score := None;
                  c_confidence := None |}
      | Some (p0 :: rest) =>
          let '(maxIdx, maxProb) := argmax 1 rest 0 p0 in
          Some {| c_tier := TIERS !! maxIdx;
                  c_score := Some (JS.round (JS.fmul maxProb 100));
                  c_confidence :=
                    Some (JS.fdiv
                            (inject_Z (JS.round (JS.fmul maxProb 100))) 100)
               |}
      end
  end.

(** [classify(prompt)]. *)
Definition classify (prompt : JS.str) : Result :=
  let features := extractFeatures prompt in
  let '(intent, intentConfidence, intentScores) := detectIntent prompt in
  let '(classification, method) :=
    match onnxClassify features with
    | Some c => (c, onnx)
    | None => (heuristicClassify features, heuristic)
    end in
  {| tier := c_tier classification;
     score := c_score classification;
     confidence := c_confidence classification;
     intent := intent;
     intentConfidence := intentConfidence;
     intentScores := intentScores;
     features := features;
     method := method |}.

(** *** Range of the classification *)

Definition in_unit (x : Q) : Prop := 0 <= x <= 1.

(** The 15 feature values, in the order of the weights. *)
Definition featureValues (f : Features) : list Q :=
  map (fun kw => fst kw f) weights.

(** The weighted sum as the specification lists it, computed as the code
    computes it: the products of the features with their weights, added
    up in the order of the table, in double precision. *)
Definition weightedSum (f : Features) : Q :=
  foldl JS.fadd 0
    [ JS.fmul (charCount f) (JS.literal (10 # 100));
      JS.fmul (wordCount f) (JS.literal (8 # 100));
      JS.fmul (sentenceCount f) (JS.literal (5 # 100));
      JS.fmul (avgWordLength f) (JS.literal (5 # 100));
      JS.fmul (avgSentenceLength f) (JS.literal (5 # 100));
      JS.fmul (typeTokenRatio f) (JS.literal (3 # 100));
      JS.fmul (codeIndicator f) (JS.literal (15 # 100));
      JS.fmul (questionDepth f) (JS.literal (8 # 100));
      JS.fmul (structuralComplexity f) (JS.literal (6 # 100));
      JS.fmul (techDensity f) (JS.literal (12 # 100));
      JS.fmul (reasoningDensity f) (JS.literal (10 # 100));
      JS.fmul (specificity f) (JS.literal (5 # 100));
      JS.fmul (hasPriorReference f) (JS.literal (2 # 100));
      JS.fmul (numericalDensity f) (JS.literal (3 # 100));
      JS.fmul (hasLargeNumbers f) (JS.literal (3 # 100)) ].

(** The score of the heuristic: the weighted sum times 100, rounded to the
    nearest integer and capped at 100. *)
Definition scoreOfSum (sum : Q) : Z :=
  Z.min (JS.round (JS.fmul sum 100)) 100.

(** The thresholds as the specification lists them. *)
Definition tierOfScore (s : Z) : Tier :=
  if (s <=? 10)%Z then trivial
  else if (s <=? 25)%Z then simple
  else if (s <=? 50)%Z then moderate
  else if (s <=? 75)%Z then complex
  else expert.

Lemma qnat_nonneg n : 0 <= JS.qnat n.
Proof.
  unfold JS.qnat. change 0 with (inject_Z 0). rewrite <- Zle_Qle. lia.
Qed.

Lemma qnat_le a b : (a <= b)%nat -> JS.qnat a <= JS.qnat b.
Proof. intros H. unfold JS.qnat. rewrite <- Zle_Qle. lia. Qed.

Lemma qnat_pos n : (0 < n)%nat -> 0 < JS.qnat n.
Proof.
  intros H. unfold JS.qnat. change 0 with (inject_Z 0). rewrite <- Zlt_Qlt.
  lia.
Qed.

Lemma div_nonneg a b : 0 <= a -> 0 < b -> 0 <= a / b.
Proof. intros Ha Hb. apply Qle_shift_div_l; lra. Qed.

Lemma div_le_1 a b : a <= b -> 0 < b -> a / b <= 1.
Proof. intros Ha Hb. apply Qle_shift_div_r; lra. Qed.

Lemma fdiv_nonneg a b : 0 <= a -> 0 < b -> 0 <= JS.fdiv a b.
Proof. intros Ha Hb. apply JS.double_nonneg, div_nonneg; assumption. Qed.

Lemma fmul_nonneg a b : 0 <= a -> 0 <= b -> 0 <= JS.fmul a b.
Proof. intros Ha Hb. apply JS.double_nonneg. nra. Qed.

Lemma fadd_nonneg a b : 0 <= a -> 0 <= b -> 0 <= JS.fadd a b.
Proof. intros Ha Hb. apply JS.double_nonneg. lra. Qed.

Lemma literal_nonneg a : 0 <= a -> 0 <= JS.literal a.
Proof. apply JS.double_nonneg. Qed.

Lemma cap_in_unit x : 0 <= x -> in_unit (Qmin x 1).
Proof.
  intros H. split; [apply Q.min_glb; lra | apply Q.le_min_r].
Qed.

Lemma remove_dups_length {A} `{EqDecision A} (l : list A) :
  (length (remove_dups l) <= length l)%nat.
Proof.
  induction l as [|x l IH]; cbn; [lia|].
  destruct (decide_rel elem_of x l); cbn; lia.
Qed.

Lemma or_zero v : (if JS.truthy_num v then v else 0) == v.
Proof.
  destruct (JS.truthy_num v) eqn:E; [reflexivity|].
  apply JS.truthy_num_false in E. symmetry. exact E.
Qed.

Lemma extractFeatures_in_unit prompt :
  Forall in_unit (featureValues (extractFeatures prompt)).
Proof.
  unfold featureValues, weights, extractFeatures.
  cbn [map fst charCount wordCount sentenceCount avgWordLength
         avgSentenceLength typeTokenRatio codeIndicator questionDepth
         structuralComplexity techDensity reasoningDensity specificity
         hasPriorReference numericalDensity hasLargeNumbers].
  repeat apply List.Forall_cons; try apply List.Forall_nil;
    try (apply cap_in_unit; apply fdiv_nonneg; [apply qnat_nonneg | lra]).
  - apply cap_in_unit. apply fdiv_nonneg; [|lra].
    match goal with |- 0 <= (if ?b then _ else _) => destruct b eqn:E end;
      [|lra].
    apply Nat.ltb_lt in E.
    apply fdiv_nonneg; [apply qnat_nonneg | apply qnat_pos, E].
  - apply cap_in_unit. apply fdiv_nonneg; [|lra].
    match goal with |- 0 <= (if ?b then _ else _) => destruct b eqn:E end;
      [|lra].
    apply Nat.ltb_lt in E.
    apply fdiv_nonneg; [apply qnat_nonneg | apply qnat_pos, E].
  - match goal with |- in_unit (if ?b then _ else _) => destruct b eqn:E end;
      [|split; lra].
    apply Nat.ltb_lt in E.
    assert (Hq : 0 <= JS.qnat (length (remove_dups
                   (map toLowerCase
                      (List.filter (fun w => (0 <? length w)%nat)
                         (regex_split (RegExp "\s+" "") prompt)))))
                 / JS.qnat (length
                      (List.filter (fun w => (0 <? length w)%nat)
                         (regex_split (RegExp "\s+" "") prompt))) /\
                 JS.qnat (length (remove_dups
                   (map toLowerCase
                      (List.filter (fun w => (0 <? length w)%nat)
                         (regex_split (RegExp "\s+" "") prompt)))))
                 / JS.qnat (length
                      (List.filter (fun w => (0 <? length w)%nat)
                         (regex_split (RegExp "\s+" "") prompt))) <= 1).
    { split.
      - apply div_nonneg; [apply qnat_nonneg | apply qnat_pos, E].
      - apply div_le_1; [|apply qnat_pos, E]. apply qnat_le.
        etransitivity; [apply remove_dups_length|].
        rewrite length_map. reflexivity. }
    destruct Hq as [Hq0 Hq1]. split.
    + apply JS.double_nonneg, Hq0.
    + apply JS.double_le_1; assumption.
  - repeat match goal with
           | |- in_unit (if ?b then _ else _) => destruct b
           end; split; vm_compute; discriminate.
  - repeat JS.case_if; split; vm_compute; discriminate.
  - match goal with |- in_unit (if ?b then _ else _) => destruct b end;
      split; lra.
  - match goal with |- in_unit (if ?b then _ else _) => destruct b end;
      split; lra.
Qed.

(** The weighted sum of features that are not negative is not negative. *)
Lemma weightedSum_nonneg f :
  Forall in_unit (featureValues f) -> 0 <= weightedSum f.
Proof.
  unfold featureValues, weights. cbn [map fst]. intros H.
  repeat match goal with
         | H : Forall _ (_ :: _) |- _ =>
             let H1 := fresh in let H2 := fresh in
             apply Forall_cons_iff in H as [H1 H2]; unfold in_unit in H1
         end.
  unfold weightedSum. cbn [foldl].
  repeat (apply fadd_nonneg;
          [|apply fmul_nonneg; [tauto | apply literal_nonneg; lra]]).
  lra.
Qed.

Lemma round_range x lo hi :
  inject_Z lo <= x -> x <= inject_Z hi -> (lo <= JS.round x <= hi)%Z.
Proof.
  intros Hlo Hhi. unfold JS.round. split.
  - rewrite <- (Qfloor_Z lo). apply Qfloor_resp_le. lra.
  - assert (H : (Qfloor (x + (1 # 2)) < hi + 1)%Z); [|lia].
    rewrite Zlt_Qlt. eapply Qle_lt_trans; [apply Qfloor_le|].
    rewrite inject_Z_plus. change (inject_Z 1) with 1. lra.
Qed.

Lemma scoreOfSum_range sum : 0 <= sum -> (0 <= scoreOfSum sum <= 100)%Z.
Proof.
  intros H. unfold scoreOfSum.
  assert (H0 : 0 <= JS.fmul sum 100) by (apply fmul_nonneg; lra).
  assert (Hr : (0 <= JS.round (JS.fmul sum 100))%Z).
  { unfold JS.round. change 0%Z with (Qfloor 0). apply Qfloor_resp_le. lra. }
  lia.
Qed.

(** The heuristic classification, spelled out. *)
Lemma heuristicClassify_spec f :
  let s := scoreOfSum (weightedSum f) in
  c_score (heuristicClassify f) = Some s /\
  c_tier (heuristicClassify f) = Some (tierOfScore s) /\
  c_confidence (heuristicClassify f) = Some (JS.literal (65 # 100)).
Proof.
  unfold heuristicClassify, weights, weightedSum, scoreOfSum.
  cbn [foldl fst snd c_score c_tier c_confidence].
  assert (Hterm : forall v w,
            JS.fmul (if JS.truthy_num v then v else 0) w = JS.fmul v w).
  { intros v w. apply JS.double_comp. rewrite or_zero. reflexivity. }
  rewrite !Hterm. cbv zeta.
  split; [reflexivity|]. split; [|reflexivity].
  unfold tierOfScore.
  repeat JS.case_if; reflexivity.
Qed.

Lemma heuristicClassify_range f :
  Forall in_unit (featureValues f) ->
  exists s t, c_score (heuristicClassify f) = Some s /\ (0 <= s <= 100)%Z /\
              c_tier (heuristicClassify f) = Some t.
Proof.
  intros Hf. destruct (heuristicClassify_spec f) as (Hs & Ht & _).
  eexists. eexists. split; [exact Hs|]. split; [|exact Ht].
  apply scoreOfSum_range, weightedSum_nonneg, Hf.
Qed.

Lemma argmax_spec : forall probabilities i maxIdx maxProb j p,
  argmax i probabilities maxIdx maxProb = (j, p) ->
  (maxIdx < i)%nat -> in_unit maxProb -> Forall in_unit probabilities ->
  (j < i + length probabilities)%nat /\ in_unit p.
Proof.
  induction probabilities as [|q rest IH]; intros i maxIdx maxProb j p;
    cbn [argmax length].
  - intros [= <- <-] Hi Hm _. split; [lia | exact Hm].
  - intros H Hi Hm Hall. apply Forall_cons_iff in Hall as [Hq Hrest].
    destruct (JS.Qltb maxProb q).
    + apply IH in H; [|lia|exact Hq|exact Hrest]. destruct H. split; [lia|auto].
    + apply IH in H; [|lia|exact Hm|exact Hrest]. destruct H. split; [lia|auto].
Qed.

(** The contract of a loaded model: a five-way probability distribution. *)
Definition onnxContract : Prop :=
  forall run f probabilities,
    onnxSession = Some run -> run f = Some probabilities ->
    length probabilities = 5%nat /\ Forall in_unit probabilities.

Lemma onnxClassify_range f c :
  onnxContract -> onnxClassify f = Some c ->
  exists s t, c_score c = Some s /\ (0 <= s <= 100)%Z /\ c_tier c = Some t.
Proof.
  unfold onnxClassify. intros Hc.
  destruct onnxSession as [run|] eqn:Es; [|discriminate].
  destruct (run f) as [probs|] eqn:Er; [|discriminate].
  destruct (Hc run f probs Es Er) as [Hlen Hall].
  destruct probs as [|p0 rest]; [discriminate|].
  apply Forall_cons_iff in Hall as [Hp0 Hrest].
  destruct (argmax 1 rest 0 p0) as [maxIdx maxProb] eqn:Ea.
  apply argmax_spec in Ea as [Hidx [Hl Hh]]; [|lia|exact Hp0|exact Hrest].
  cbn [length] in Hlen. intros [= <-]. cbn [c_score c_tier].
  destruct (lookup_lt_is_Some_2 TIERS maxIdx) as [t Ht]; [cbn; lia|].
  exists (JS.round (JS.fmul maxProb 100)), t. split; [reflexivity|].
  split; [|exact Ht].
  apply round_range.
  - change (inject_Z 0) with 0. apply fmul_nonneg; lra.
  - apply JS.double_le_Z; [nra | change (inject_Z 100) with 100; lra | lia].
Qed.

(** C4: for every prompt, [classify] returns the features of the prompt, a
    score in [0,100] and one of the five tiers (a loaded model being
    assumed to return a five-way probability distribution).  The 15
    features of the prompt lie in [0,1].  Where the model gives no answer
    the heuristic path is taken: the score is the weighted sum of the
    features of the prompt with the fixed weights, times 100, rounded and
    capped at 100, the tier follows the thresholds 10 / 25 / 50 / 75, and
    the confidence is the number 0.65.  Where the model answers, its
    classification is returned. *)
Theorem C4_classification_in_range (prompt : JS.str) :
  onnxContract ->
  let res := classify prompt in
  let f := extractFeatures prompt in
  (exists s t, score res = Some s /\ (0 <= s <= 100)%Z /\ tier res = Some t) /\
  features res = f /\
  Forall in_unit (featureValues f) /\
  (onnxClassify f = None ->
   method res = heuristic /\
   score res = Some (scoreOfSum (weightedSum f)) /\
   tier res = Some (tierOfScore (scoreOfSum (weightedSum f))) /\
   confidence res = Some (JS.literal (65 # 100))) /\
  (forall c, onnxClassify f = Some c ->
   method res = onnx /\ score res = c_score c /\ tier res = c_tier c /\
   confidence res = c_confidence c).
Proof.
  intros Hc. unfold classify.
  destruct (detectIntent prompt) as [[i ic] isc].
  pose proof (extractFeatures_in_unit prompt) as Hf.
  destruct (onnxClassify (extractFeatures prompt)) as [c|] eqn:Eo;
    cbn [score tier method features confidence].
  - split; [apply (onnxClassify_range _ _ Hc Eo)|].
    split; [reflexivity|]. split; [exact Hf|].
    split; [discriminate|]. intros c' [= <-]. auto.
  - split; [apply heuristicClassify_range, Hf|].
    split; [reflexivity|]. split; [exact Hf|].
    split; [|discriminate]. intros _.
    destruct (heuristicClassify_spec (extractFeatures prompt))
      as (Hs & Ht & Hconf).
    auto.
Qed.

End WithRuntime.

(** *** Two prompts

    The answers of the runtime on prompts of lower-case letters, spaces and
    the marks [.] and [?]: white space splits the words, runs of marks
    split the sentences, every question mark is a match of its pattern,
    and no other pattern of the classifier matches the prompts below. *)
Definition skips (sep : N -> bool) (s : JS.str) : bool :=
  match s with
  | c :: _ => sep c
  | [] => false
  end.

Fixpoint splitAt (sep : N -> bool) (s : JS.str) : list JS.str :=
  match s with
  | [] => [[]]
  | c :: rest =>
      match splitAt sep rest with
      | piece :: pieces =>
          if sep c then [] :: (if skips sep rest then pieces
                               else piece :: pieces)
          else (c :: piece) :: pieces
      | [] => [[]]
      end
  end.

Definition is_mark (c : N) : bool := ((c =? 46) || (c =? 33) || (c =? 63))%N.

Definition plain_test (re : Regex) (s : JS.str) : bool := false.

Definition plain_match (re : Regex) (s : JS.str) : list JS.str :=
  if String.eqb (source re) "\?"
  then map (fun c => [c]) (List.filter (N.eqb 63) s)
  else [].

Definition plain_split (re : Regex) (s : JS.str) : list JS.str :=
  if String.eqb (source re) "\s+" then splitAt JS.is_white s
  else splitAt is_mark s.

Definition plain_lower (s : JS.str) : JS.str := s.

(** A model that throws on prompts of fewer than 50 code units and answers
    the others with the same distribution. *)
Definition short_prompts_fail : option (Features -> option (list Q)) :=
  Some (fun f =>
          if JS.Qltb (charCount f) (1 # 100) then None
          else Some [1 # 10; 2 # 10; 4 # 10; 2 # 10; 1 # 10]).

Definition database_prompt : JS.str :=
  JS.lit ("the old service updates the small cache in the main database "
          ++ "today. the small cache updates the old service near the main "
          ++ "database here. service updates cache now?").

Definition hello_prompt : JS.str := JS.lit "hello there".

Lemma C4_classification_in_range_witness :
  let classify :=
    classify plain_test plain_match plain_split plain_lower
      short_prompts_fail in
  let extractFeatures :=
    extractFeatures plain_test plain_match plain_split plain_lower in
  let onnxClassify := onnxClassify short_prompts_fail in
  let res := classify hello_prompt in
  let f := extractFeatures hello_prompt in
  (exists s t, score res = Some s /\ (0 <= s <= 100)%Z /\ tier res = Some t) /\
  features res = f /\
  Forall in_unit (featureValues f) /\
  (onnxClassify f = None ->
   method res = heuristic /\
   score res = Some (scoreOfSum (weightedSum f)) /\
   tier res = Some (tierOfScore (scoreOfSum (weightedSum f))) /\
   confidence res = Some (JS.literal (65 # 100))) /\
  (forall c, onnxClassify f = Some c ->
   method res = onnx /\ score res = c_score c /\ tier res = c_tier c /\
   confidence res = c_confidence c).
Proof.
  apply (C4_classification_in_range plain_test plain_match plain_split
           plain_lower short_prompts_fail hello_prompt).
  intros run f probabilities [= <-].
  destruct (JS.Qltb (charCount f) (1 # 100)); [discriminate|].
  intros [= <-]. split; [reflexivity|].
  repeat constructor; vm_compute; discriminate.
Defined.

(** [hello there], for which that model throws, takes the heuristic path:
    score 5, tier trivial.  The longer prompt is answered by the model. *)
Example classify_hello :
  let res := classify plain_test plain_match plain_split plain_lower
               short_prompts_fail hello_prompt in
  method res = heuristic /\ score res = Some 5%Z /\
  tier res = Some trivial /\ confidence res = Some (JS.literal (65 # 100)) /\
  method (classify plain_test plain_match plain_split plain_lower
            short_prompts_fail database_prompt) = onnx.
Proof. vm_compute. auto 6. Qed.

(** A prompt of 163 characters on the heuristic path.  Its weighted sum is
    exactly 0.105 in the rationals, which times 100 would round to 11 and
    give the tier simple.  In double precision the sum times 100 lies just
    below 10.5: the score is 10 and the tier trivial. *)
Example classify_database_prompt :
  let res := classify plain_test plain_match plain_split plain_lower
               None database_prompt in
  length database_prompt = 163%nat /\
  method res = heuristic /\ score res = Some 10%Z /\
  tier res = Some trivial.
Proof. vm_compute. auto. Qed.

(** The same computation on the doubles of the kernel, from the counts of
    that prompt: 163 code units, 28 words of 136 code units in all, 13 of
    them different, 3 sentences, 1 question mark and 1 technical term. *)
Example database_prompt_in_binary64 :
  let raw :=
    (0 + JS.min64 (163 / 5000) 1 * (10 / 100)
     + JS.min64 (28 / 1000) 1 * (8 / 100)
     + JS.min64 (3 / 50) 1 * (5 / 100)
     + JS.min64 (136 / 28 / 12) 1 * (5 / 100)
     + JS.min64 (28 / 3 / 40) 1 * (5 / 100)
     + 13 / 28 * (3 / 100)
     + 0 * (15 / 100)
     + JS.min64 (1 / 3) 1 * (8 / 100)
     + 0 * (6 / 100)
     + JS.min64 (1 / 5) 1 * (12 / 100)
     + 0 * (10 / 100) + 0 * (5 / 100) + 0 * (2 / 100) + 0 * (3 / 100)
     + 0 * (3 / 100))%float in
  JS.binary64 raw
  = Some (weightedSum
            (extractFeatures plain_test plain_match plain_split plain_lower
               database_prompt)) /\
  (raw * 100 <? 21 / 2)%float = true.
Proof. vm_compute. split; reflexivity. Qed.

End Classifier.

(** ** Router ([services/router.js]) *)

Module Router.

(** An entry of the model catalog, with its key as [id]. *)
Record Model := mkModel {
  id : string;
  provider : string;
  input_cost_per_1m : Q;
  output_cost_per_1m : Q;
  avg_latency_ms : Q;
  reliability : Q;
  energy_intensity : Q;
  quality_score : Q;
  strengths : option (list string)
}.

Record Weights := mkWeights {
  w_cost : Q;
  w_quality : Q;
  w_latency : Q;
  w_energy : Q;
  w_reliability : Q;
  w_rl : Q
}.

Definition balanced : Weights :=
  mkWeights (20 # 100) (20 # 100) (15 # 100) (15 # 100) (15 # 100) (15 # 100).

(** [STRATEGY_WEIGHTS]. *)
Definition STRATEGY_WEIGHTS : list (string * Weights) :=
  [ ("cost-first"%string,
     mkWeights (35 # 100) (20 # 100) (10 # 100) (10 # 100) (10 # 100)
       (15 # 100));
    ("green-first"%string,
     mkWeights (10 # 100) (15 # 100) (10 # 100) (35 # 100) (10 # 100)
       (20 # 100));
    ("performance-first"%string,
     mkWeights (5 # 100) (35 # 100) (20 # 100) (5 # 100) (20 # 100)
       (15 # 100));
    ("balanced"%string, balanced) ].

(** The own property [key] of an object literal. *)
Fixpoint assoc {A} (key : string) (table : list (string * A)) : option A :=
  match table with
  | [] => None
  | (k, v) :: rest => if String.eqb k key then Some v else assoc key rest
  end.

(** [STRATEGY_WEIGHTS[strategy] || STRATEGY_WEIGHTS['balanced']].  The
    strategy is whatever the tenant or the request names.  A name that
    [STRATEGY_WEIGHTS] does not hold but inherits from [Object.prototype]
    finds the inherited member, which is truthy and has none of the six
    weights ([None]); any other unknown name gets the balanced weights. *)
Definition weightsFor (strategy : string) : option Weights :=
  match assoc strategy STRATEGY_WEIGHTS with
  | Some w => Some w
  | None => if JS.inherited strategy then None else Some balanced
  end.

Definition MIN_BENCHMARK_SAMPLES : Q := 20.

Definition normalizeMinMax (value min max : Q) : Q :=
  if Qeq_bool max min then 5 # 10
  else Qmax 0 (Qmin 1 ((value - min) / (max - min))).

Definition invertNormalize (value min max : Q) : Q :=
  1 - normalizeMinMax value min max.

Definition blendWithBaseline (observed baseline sampleCount : Q) : Q :=
  let coeff := Qmin (sampleCount / MIN_BENCHMARK_SAMPLES) 1 in
  coeff * observed + (1 - coeff) * baseline.

Definition intentStrengthMap : list (string * list string) :=
  [ ("code", ["code"; "reasoning"]); ("math", ["math"; "reasoning"]);
    ("analysis", ["analysis"; "reasoning"]); ("creative", ["creative"]);
    ("translation", ["translation"]); ("qa", ["qa"; "summarization"]);
    ("general", []) ]%string.

(** [qualityMatchScore(intent, modelStrengths, baseQuality)]. *)
Definition qualityMatchScore (intent : string)
  (modelStrengths : option (list string)) (baseQuality : Q) : Q :=
  match modelStrengths with
  | None => baseQuality / 100
  | Some have =>
      if negb (JS.truthy_string intent) then baseQuality / 100
      else
        let relevantStrengths :=
          match assoc intent intentStrengthMap with
          | Some l => l
          | None => []
          end in
        let matchCount :=
          length (List.filter (fun s => bool_decide (s ∈ have))
                              relevantStrengths) in
        let strengthBonus :=
          if (0 <? length relevantStrengths)%nat
          then JS.qnat matchCount / JS.qnat (length relevantStrengths)
               * (2 # 10)
          else 0 in
        Qmin 1 (baseQuality / 100 + strengthBonus)
  end.

(** [TIER_MIN_QUALITY[tier] || 0]; a tier outside the table is [None]. *)
Definition TIER_MIN_QUALITY (tier : option Classifier.Tier) : Q :=
  match tier with
  | Some Classifier.trivial | Some Classifier.simple | None => 0
  | Some Classifier.moderate => 60
  | Some Classifier.complex => 80
  | Some Classifier.expert => 90
  end.

(** The part of the classification that the router reads; a confidence
    that is not a number is [None]. *)
Record Classification := mkClassification {
  tier : option Classifier.Tier;
  confidence : option Q;
  intent : string
}.

(** A value of [benchmarkMetrics]; [avgLatencyMs] is [null] without
    samples. *)
Record Benchmark := mkBenchmark {
  avgLatencyMs : option Q;
  errorRate : option Q;
  sampleCount : option Q
}.

(** [options], the defaults of the destructuring applied.  Of a value of
    [breakerStates] only the [state] field is read. *)
Record Options := mkOptions {
  rlScores : gmap string Q;
  benchmarkMetrics : gmap string Benchmark;
  breakerStates : gmap string CircuitBreaker.State;
  tenantAllowedModels : option (list string);
  confidenceThreshold : Q
}.

Definition default_options : Options :=
  mkOptions ∅ ∅ ∅ None (5 # 10).

Record Breakdown := mkBreakdown {
  b_cost : Q;
  b_quality : Q;
  b_latency : Q;
  b_energy : Q;
  b_reliability : Q;
  b_rl : Q
}.

(** An element of [scoredCandidates].  A total score that is [NaN] is
    [None]; [weights] is [None] for an inherited member of
    [Object.prototype]. *)
Record Scored := mkScored {
  s_id : string;
  s_provider : string;
  totalScore : option Q;
  breakdown : Breakdown;
  s_weights : option Weights;
  modelData : Model
}.

(** [compare(a, b) > 0] for the comparator [(a, b) => b.totalScore -
    a.totalScore] of the router; a difference that is [NaN] is not. *)
Definition scoredAfter (a b : Scored) : bool :=
  match totalScore a, totalScore b with
  | Some x, Some y => JS.Qltb x y
  | _, _ => false
  end.

Inductive Level := debug | info | warn.

(** What [routeRequest] returns (the [reasoning] text is assembled from
    fields that are all present here). *)
Record Routing := mkRouting {
  selectedModel : Model;
  selectedModelId : string;
  score : option Q;
  scoreBreakdown : Breakdown;
  allCandidates : list Scored;
  r_classification : Classification;
  r_strategy : string
}.

(** The state the circuit filter finds for a model:
    [breakerStates[m.id] || breakerStates[m.provider]]. *)
Definition breakerStateOf (options : Options) (m : Model)
  : option CircuitBreaker.State :=
  match breakerStates options !! id m with
  | Some st => Some st
  | None => breakerStates options !! provider m
  end.

Definition is_open (st : option CircuitBreaker.State) : bool :=
  match st with Some CircuitBreaker.OPEN => true | _ => false end.

(** The circuit filter rejects the model. *)
Definition circuitOpen (options : Options) (m : Model) : bool :=
  is_open (breakerStateOf options m).

(** The provider is in the OPEN set of [breakerStates]. *)
Definition providerOpen (options : Options) (p : string) : bool :=
  is_open (breakerStates options !! p).

Definition allowed (options : Options) (m : Model) : bool :=
  match tenantAllowedModels options with
  | Some l => bool_decide (id m ∈ l)
  | None => true
  end.

(** [Math.min(...values)] and [Math.max(...values)] on a non-empty list. *)
Definition minimum (values : list Q) : Q :=
  match values with
  | [] => 0
  | v :: rest => foldl Qmin v rest
  end.

Definition maximum (values : list Q) : Q :=
  match values with
  | [] => 0
  | v :: rest => foldl Qmax v rest
  end.

(** An optional number where [null] counts as 0 ([Math.min], [Math.max]). *)
Definition null_as_zero (x : option Q) : Q :=
  match x with Some v => v | None => 0 end.

Section WithCatalog.

(** [models.json], in key order.  The file is configuration and not among
    the sources. *)
Variable models : list Model.

(** The candidates that survive the allowlist and the circuit filter. *)
Definition viable (options : Options) : list Model :=
  List.filter (fun m => negb (circuitOpen options m))
    (List.filter (allowed options) models).

(** The candidate list on which the scores are computed, with the
    messages logged on the way. *)
Definition selectCandidates (classification : Classification)
  (options : Options) : list Model * list (Level * string) :=
  let candidates0 := List.filter (allowed options) models in
  let skipped := List.filter (circuitOpen options) candidates0 in
  let log1 := map (fun _ => (debug, "Skipping model — circuit open"%string))
                  skipped in
  let candidates1 :=
    List.filter (fun m => negb (circuitOpen options m)) candidates0 in
  let minQuality := TIER_MIN_QUALITY (tier classification) in
  let qualityCandidates :=
    List.filter (fun m => JS.Qgeb (quality_score m) minQuality) candidates1 in
  let candidates2 :=
    if (0 <? length qualityCandidates)%nat then qualityCandidates
    else candidates1 in
  let lowConfidence :=
    match confidence classification with
    | Some c => JS.Qltb c (confidenceThreshold options)
    | None => false
    end in
  let '(candidates3, log2) :=
    if lowConfidence then
      let adjustedMinQuality := Qmin (minQuality + 15) 95 in
      let safeCandidates :=
        List.filter (fun m => JS.Qgeb (quality_score m) adjustedMinQuality)
                    candidates2 in
      if (0 <? length safeCandidates)%nat
      then (safeCandidates,
            [(debug, "Low confidence — biasing toward capable models"%string)])
      else (candidates2, [])
    else (candidates2, []) in
  if (length candidates3 =? 0)%nat
  then (models,
        log1 ++ log2 ++
        [(warn, "No viable candidates after filtering — using all models"%string)])
  else (candidates3, log1 ++ log2).

Definition avgCostOf (m : Model) : Q :=
  (input_cost_per_1m m + output_cost_per_1m m) / 2.

(** The body of [candidates.map(m => ...)] that scores one candidate.  With
    the weights of an inherited member every [weights.x] is [undefined],
    every product and the weighted sum are [NaN], and so is the rounded
    total. *)
Definition scoreCandidate (classification : Classification)
  (weights : option Weights) (options : Options)
  (costMin costMax latMin latMax energyMin energyMax : Q) (m : Model)
  : Scored :=
  let avgCost := avgCostOf m in
  let bm := benchmarkMetrics options !! id m in
  let sampleCount :=
    match bm with
    | Some b => JS.num_or (sampleCount b) 0
    | None => 0
    end in
  let realLatency :=
    match bm with
    | Some b =>
        match avgLatencyMs b with
        | Some l => blendWithBaseline l (avg_latency_ms m) sampleCount
        | None => avg_latency_ms m
        end
    | None => avg_latency_ms m
    end in
  let realReliability :=
    match bm with
    | Some b =>
        match errorRate b with
        | Some e => blendWithBaseline (1 - e) (reliability m) sampleCount
        | None => reliability m
        end
    | None => reliability m
    end in
  let costScore := invertNormalize avgCost costMin costMax in
  let qualityScore :=
    qualityMatchScore (intent classification) (strengths m) (quality_score m)
  in
  let latencyScore := invertNormalize realLatency latMin latMax in
  let energyScore := invertNormalize (energy_intensity m) energyMin energyMax in
  let reliabilityScore := realReliability in
  let rlScore := JS.num_or (rlScores options !! id m) (5 # 10) in
  let total :=
    match weights with
    | Some w =>
        Some (w_cost w * costScore + w_quality w * qualityScore
              + w_latency w * latencyScore + w_energy w * energyScore
              + w_reliability w * reliabilityScore + w_rl w * rlScore)
    | None => None
    end in
  {| s_id := id m;
     s_provider := provider m;
     totalScore := option_map JS.round3 total;
     breakdown :=
       mkBreakdown (JS.round3 costScore) (JS.round3 qualityScore)
         (JS.round3 latencyScore) (JS.round3 energyScore)
         (JS.round3 reliabilityScore) (JS.round3 rlScore);
     s_weights := weights;
     modelData := m |}.

(** [routeRequest(classification, strategy, options)]: the routing, or
    [None] when [best] is [undefined] and reading [best.id] throws, and the
    messages logged. *)
Definition routeRequest (classification : Classification)
  (strategy : string) (options : Options)
  : option Routing * list (Level * string) :=
  let weights := weightsFor strategy in
  let '(candidates, logs) := selectCandidates classification options in
  let costValues := map avgCostOf candidates in
  let latencyValues :=
    map (fun m => match benchmarkMetrics options !! id m with
                  | Some b => null_as_zero (avgLatencyMs b)
                  | None => avg_latency_ms m
                  end) candidates in
  let energyValues := map energy_intensity candidates in
  let scoredCandidates :=
    JS.sort_by scoredAfter
      (map (scoreCandidate classification weights options
              (minimum costValues) (maximum costValues)
              (minimum latencyValues) (maximum latencyValues)
              (minimum energyValues) (maximum energyValues))
           candidates) in
  match scoredCandidates with
  | [] => (None, logs)
  | best :: _ =>
      (Some {| selectedModel := modelData best;
               selectedModelId := s_id best;
               score := totalScore best;
               scoreBreakdown := breakdown best;
               allCandidates := scoredCandidates;
               r_classification := classification;
               r_strategy := strategy |},
       logs ++ [(info, "Routing decision"%string)])
  end.

(** *** The circuit filter and the ultimate fallback *)

Definition no_candidates_warning : Level * string :=
  (warn, "No viable candidates after filtering — using all models"%string).

Lemma filter_nonempty_length {A} (l : list A) :
  (0 <? length l)%nat = true <-> l <> [].
Proof.
  destruct l; cbn; split; intros H; congruence.
Qed.

(** With a viable model the fallback is not taken and every candidate is
    viable; without one the whole catalog comes back, with the warning. *)
Lemma selectCandidates_spec classification options :
  let '(candidates, logs) := selectCandidates classification options in
  (viable options <> [] ->
   candidates <> [] /\ (forall m, In m candidates -> In m (viable options)) /\
   ~ In warn (map fst logs)) /\
  (viable options = [] ->
   candidates = models /\ In no_candidates_warning logs).
Proof.
  unfold selectCandidates. fold (viable options).
  set (log1 := map _ (List.filter (circuitOpen options) _)).
  assert (Hlog1 : ~ In warn (map fst log1)).
  { subst log1. rewrite map_map. cbn. intros H. apply in_map_iff in H.
    destruct H as (? & [=] & _). }
  set (minQuality := TIER_MIN_QUALITY (tier classification)).
  set (qualityCandidates := List.filter _ (viable options)).
  set (candidates2 := if (0 <? length qualityCandidates)%nat
                      then qualityCandidates else viable options).
  assert (H2 : (forall m, In m candidates2 -> In m (viable options)) /\
               (viable options <> [] -> candidates2 <> [])).
  { subst candidates2. destruct (0 <? length qualityCandidates)%nat eqn:E.
    - split; [|intros _; apply filter_nonempty_length, E].
      intros m Hm. apply filter_In in Hm. tauto.
    - auto. }
  destruct H2 as [Hsub2 Hne2].
  set (lowConfidence := match confidence classification with
                        | Some c => _ | None => false end).
  set (stage3 := if lowConfidence then _ else (candidates2, [])).
  assert (H3 : (forall m, In m stage3.1 -> In m candidates2) /\
               (candidates2 <> [] -> stage3.1 <> []) /\
               ~ In warn (map fst stage3.2)).
  { subst stage3. destruct lowConfidence; [|cbn; auto].
    match goal with
    | |- context [(0 <? length ?l)%nat] =>
        destruct (0 <? length l)%nat eqn:E
    end; cbn [fst snd].
    - split; [|split].
      + intros m Hm. apply filter_In in Hm. tauto.
      + intros _. apply filter_nonempty_length, E.
      + cbn. intros [[=]|[]].
    - cbn. auto. }
  destruct stage3 as [candidates3 log2]. cbn [fst snd] in H3.
  destruct H3 as (Hsub3 & Hne3 & Hlog2).
  destruct (length candidates3 =? 0)%nat eqn:El.
  - apply Nat.eqb_eq, length_zero_iff_nil in El. split.
    + intros Hv. exfalso. apply (Hne3 (Hne2 Hv)). exact El.
    + intros _. split; [reflexivity|].
      rewrite !in_app_iff. right. right. left. reflexivity.
  - apply Nat.eqb_neq in El. split.
    + intros _. split; [|split].
      * intros ->. apply El. reflexivity.
      * auto.
      * rewrite map_app, in_app_iff. tauto.
    + intros Hv. exfalso. apply El.
      destruct candidates3 as [|m ?]; [reflexivity|].
      specialize (Hsub2 m (Hsub3 m (or_introl eq_refl))).
      rewrite Hv in Hsub2. destruct Hsub2.
Qed.

Lemma insert_desc_In {A} (key : A -> Q) x y l :
  In y (JS.insert_desc key x l) <-> y = x \/ In y l.
Proof.
  induction l as [|z l IH]; cbn.
  - intuition congruence.
  - destruct (JS.Qltb (key x) (key z)); cbn; rewrite ?IH; intuition congruence.
Qed.

Lemma sort_desc_In {A} (key : A -> Q) y l :
  In y (JS.sort_desc key l) <-> In y l.
Proof.
  unfold JS.sort_desc. induction l as [|x l IH]; cbn; [tauto|].
  rewrite insert_desc_In, IH. intuition congruence.
Qed.

Lemma insert_by_In {A} (after : A -> A -> bool) x y l :
  In y (JS.insert_by after x l) <-> y = x \/ In y l.
Proof.
  induction l as [|z l IH]; cbn.
  - intuition congruence.
  - destruct (after x z); cbn; rewrite ?IH; intuition congruence.
Qed.

Lemma sort_by_In {A} (after : A -> A -> bool) y l :
  In y (JS.sort_by after l) <-> In y l.
Proof.
  unfold JS.sort_by. induction l as [|x l IH]; cbn; [tauto|].
  rewrite insert_by_In, IH. intuition congruence.
Qed.

(** The routing picks its model among the candidates. *)
Lemma routeRequest_selects classification strategy options :
  let '(candidates, logs) := selectCandidates classification options in
  candidates <> [] ->
  exists r,
    routeRequest classification strategy options
      = (Some r, logs ++ [(info, "Routing decision"%string)]) /\
    In (selectedModel r) candidates.
Proof.
  unfold routeRequest.
  destruct (selectCandidates classification options) as [candidates logs].
  intros Hne.
  match goal with
  | |- context [JS.sort_by scoredAfter (map ?f candidates)] =>
      set (scoreOf := f)
  end.
  remember (JS.sort_by scoredAfter (map scoreOf candidates)) as sorted
    eqn:Es.
  assert (Hin : forall sc, In sc sorted -> In (modelData sc) candidates).
  { intros sc Hsc. rewrite Es in Hsc. apply sort_by_In, in_map_iff in Hsc.
    destruct Hsc as (m & <- & Hm). exact Hm. }
  destruct sorted as [|best rest].
  - exfalso. destruct candidates as [|m ?]; [congruence|].
    assert (Hm : In (scoreOf m)
                    (JS.sort_by scoredAfter (map scoreOf (m :: candidates)))).
    { apply sort_by_In. left. reflexivity. }
    rewrite <- Es in Hm. destruct Hm.
  - eexists. split; [reflexivity|]. cbn. apply Hin. left. reflexivity.
Qed.

Lemma viable_closed options m :
  In m (viable options) <->
  In m models /\ allowed options m = true /\ circuitOpen options m = false.
Proof.
  unfold viable. rewrite !filter_In, negb_true_iff. tauto.
Qed.

Lemma circuitOpen_providerOpen options m :
  breakerStates options !! id m = None ->
  circuitOpen options m = providerOpen options (provider m).
Proof.
  intros H. unfold circuitOpen, providerOpen, breakerStateOf. rewrite H.
  reflexivity.
Qed.

(** C1, as amended: the circuit filter decides the selection whenever it
    leaves a candidate.  If at least one model passes the tenant allowlist
    and the circuit filter, [routeRequest] returns one of those models: the
    breaker state found for it is not OPEN, hence its provider is not in
    the OPEN set when [breakerStates] has no entry under the model's own
    id, and no warning is logged.  If no model passes both filters (which
    is the case when every provider is OPEN, but also when every model the
    tenant allows has an OPEN circuit), all models are reinstated and the
    warning is logged. *)
Theorem C1_selected_model_not_open classification strategy options :
  (viable options <> [] ->
   exists r logs,
     routeRequest classification strategy options = (Some r, logs) /\
     In (selectedModel r) (viable options) /\
     circuitOpen options (selectedModel r) = false /\
     (breakerStates options !! id (selectedModel r) = None ->
      providerOpen options (provider (selectedModel r)) = false) /\
     ~ In warn (map fst logs)) /\
  (viable options = [] ->
   (selectCandidates classification options).1 = models /\
   In no_candidates_warning
      (routeRequest classification strategy options).2 /\
   (models <> [] ->
    exists r, (routeRequest classification strategy options).1 = Some r /\
              In (selectedModel r) models)) /\
  ((forall m, In m models -> circuitOpen options m = true) ->
   viable options = []).
Proof.
  pose proof (selectCandidates_spec classification options) as Hsel.
  pose proof (routeRequest_selects classification strategy options) as Hroute.
  destruct (selectCandidates classification options) as [candidates logs]
    eqn:Ec.
  destruct Hsel as [Hviable Hnone]. split; [|split].
  - intros Hv. destruct (Hviable Hv) as (Hne & Hsub & Hlog).
    destruct (Hroute Hne) as (r & Hr & Hin).
    exists r, (logs ++ [(info, "Routing decision"%string)]).
    split; [exact Hr|].
    pose proof (Hsub _ Hin) as Hrv. split; [exact Hrv|].
    apply viable_closed in Hrv as (_ & _ & Hopen).
    split; [exact Hopen|]. split.
    + intros Hid. rewrite <- circuitOpen_providerOpen by exact Hid.
      exact Hopen.
    + rewrite map_app, in_app_iff. cbn. intros [H | [[=] | []]]. auto.
  - intros Hv. destruct (Hnone Hv) as [-> Hwarn]. cbn [fst].
    split; [reflexivity|].
    assert (Hlogs : forall o l, (o, l) = routeRequest classification strategy
                                         options -> In no_candidates_warning l).
    { unfold routeRequest. rewrite Ec. intros o l.
      match goal with
      | |- context [match ?s with [] => _ | _ :: _ => _ end] => destruct s
      end; intros [= _ ->]; [exact Hwarn|].
      apply in_app_iff. left. exact Hwarn. }
    split.
    + destruct (routeRequest classification strategy options) as [o l] eqn:Er.
      apply (Hlogs o l eq_refl).
    + intros Hne. destruct (Hroute Hne) as (r & Hr & Hin).
      exists r. rewrite Hr. auto.
  - intros Hall. destruct (viable options) as [|m ?] eqn:Ev; [reflexivity|].
    assert (Hm : In m (viable options)) by (rewrite Ev; left; reflexivity).
    apply viable_closed in Hm as (Hin & _ & Hopen).
    rewrite (Hall m Hin) in Hopen. discriminate.
Qed.

End WithCatalog.

(** A catalog of two models on two providers.  The circuit of the first
    provider is OPEN and the tenant allows the first model only. *)
Definition small_model : Model :=
  {| id := "gpt-4o-mini"; provider := "openai";
     input_cost_per_1m := 15 # 100; output_cost_per_1m := 60 # 100;
     avg_latency_ms := 500; reliability := 99 # 100;
     energy_intensity := 2 # 10; quality_score := 75;
     strengths := Some ["qa"; "summarization"]%string |}.

Definition large_model : Model :=
  {| id := "claude-3-opus"; provider := "anthropic";
     input_cost_per_1m := 15; output_cost_per_1m := 75;
     avg_latency_ms := 2500; reliability := 98 # 100;
     energy_intensity := 9 # 10; quality_score := 95;
     strengths := Some ["reasoning"; "analysis"]%string |}.

Definition two_models : list Model := [small_model; large_model].

Definition trivial_prompt : Classification :=
  mkClassification (Some Classifier.trivial) (Some (65 # 100)) "general".

Definition openai_open : gmap string CircuitBreaker.State :=
  {[ "openai"%string := CircuitBreaker.OPEN;
     "anthropic"%string := CircuitBreaker.CLOSED ]}.

Definition only_small_allowed : Options :=
  mkOptions ∅ ∅ openai_open (Some ["gpt-4o-mini"%string]) (5 # 10).

Definition everything_allowed : Options :=
  mkOptions ∅ ∅ openai_open None (5 # 10).

(** The claim as first stated fails on that input: the fallback hands the
    request to the model whose provider is OPEN although the other
    provider is not. *)
Lemma C1_counterexample :
  exists r logs,
    routeRequest two_models trivial_prompt "cost-first" only_small_allowed
      = (Some r, logs) /\
    providerOpen only_small_allowed (provider (selectedModel r)) = true /\
    ~ (forall m, In m two_models ->
                 providerOpen only_small_allowed (provider m) = true) /\
    In no_candidates_warning logs.
Proof.
  eexists. eexists. split; [vm_compute; reflexivity|].
  split; [vm_compute; reflexivity|]. split.
  - intros H. specialize (H large_model (or_intror (or_introl eq_refl))).
    vm_compute in H. discriminate.
  - right. left. reflexivity.
Qed.

Lemma C1_selected_model_not_open_witness :
  exists r logs,
    routeRequest two_models trivial_prompt "cost-first" everything_allowed
      = (Some r, logs) /\
    In (selectedModel r) (viable two_models everything_allowed) /\
    circuitOpen everything_allowed (selectedModel r) = false /\
    (breakerStates everything_allowed !! id (selectedModel r) = None ->
     providerOpen everything_allowed (provider (selectedModel r)) = false) /\
    ~ In warn (map fst logs).
Proof.
  destruct (C1_selected_model_not_open two_models trivial_prompt "cost-first"
              everything_allowed) as (H & _ & _).
  apply H. vm_compute. discriminate.
Defined.

Example route_avoids_open_provider :
  (fun o => match o with Some r => selectedModelId r | None => ""%string end)
    (routeRequest two_models trivial_prompt "cost-first" everything_allowed).1
  = "claude-3-opus"%string.
Proof. vm_compute. reflexivity. Qed.

End Router.

(** ** Streaming handler of the orchestrator ([server.js]) *)

Module Streaming.

(** The [ctx] argument of [handleStreamingRequest], with [req.tenantId]. *)
Record Context := mkContext {
  requestId : string;
  selectedModel : Router.Model;
  classification : Router.Classification;
  strategy : string;
  startTime : Z;
  prompt : string;
  tenantId : option string
}.

(** What [chatCompletionStream] resolves to.  [usage] is what [getUsage()]
    returns at the end of the stream ([None] when the adapter has no
    [getUsage]); [hasDestroy] tells whether the stream has a [destroy]
    method. *)
Record StreamResult := mkStreamResult {
  latencyMs : Q;
  status : Z;
  usage : option (Z * Z);
  hasDestroy : bool
}.

(** The argument of [logRequest]. *)
Record LogRow := mkLogRow {
  log_requestId : string;
  log_tenantId : option string;
  log_prompt : string;
  log_classification : Router.Classification;
  log_model : string;
  log_provider : string;
  log_strategy : string;
  log_inputTokens : Z;
  log_outputTokens : Z;
  log_cost : Q;
  log_energyIntensity : Q;
  log_latencyMs : Z;
  log_status : Z;
  log_cacheHit : bool
}.

(** What the handler does to the response, to the upstream stream and to
    its collaborators, in the order in which it does it. *)
Inductive Effect :=
| Respond503
| SseHeaders
| ClientWrite (chunk : string)
| ClientEnd
| DestroyUpstream
| BreakerResult (success : bool) (latency : Q) (timedOut : bool)
| BenchmarkRecord (modelId : string) (latency : Q) (success timedOut : bool)
| LogRequest (row : LogRow)
| TrackUsage (tenant : string) (cost : Q)
| RecordFeedback (modelId : string) (reward : Q) (tenant : option string).

(** What the event loop delivers while the handler is at work: the [close]
    of the request, the end of the client's connection, the outcome of the
    awaited [chatCompletionStream], and the events of the provider stream.
    Each carries the clock reading of its turn where one is read or told
    about. *)
Inductive Event :=
| ReqClose
| ClientGone (now : Z)
| Resolved (result : StreamResult)
| Rejected (message : string) (timedOut : bool) (now : Z)
| StreamData (chunk : string)
| StreamEnd (now : Z)
| StreamError (message : string) (now : Z)
| StreamClose.

(** Where the [async] function stands. *)
Inductive Phase :=
| Awaiting
| Piping (result : StreamResult)
| Failed.

(** The closure variables [aborted] and [providerStream] (the latter is
    assigned exactly in the phase [Piping]). *)
Record State := mkState {
  aborted : bool;
  phase : Phase
}.

(** [computeAutoReward(latencyMs, cost, success)]. *)
Definition computeAutoReward (latency cost : Q) (success : bool) : Q :=
  if negb success then 0
  else
    let latencyScore := Qmax 0 (1 - latency / 30000) in
    let costScore := Qmax 0 (1 - cost / (1 # 100)) in
    (4 # 10) + latencyScore * (3 # 10) + costScore * (3 # 10).

(** The synchronous head of [handleStreamingRequest]: the breaker permit,
    the SSE headers, the [close] listener, the call of the provider.
    [None] when the request was answered with 503. *)
Definition handleStreamingRequest (allowed : bool)
  : option State * list Effect :=
  if negb allowed then (None, [Respond503])
  else (Some (mkState false Awaiting), [SseHeaders]).

(** The chunk [data: ${JSON.stringify({ error: err.message })}] (without
    the quoting that [JSON.stringify] adds). *)
Definition errorChunk (message : string) : string :=
  ("data: {error: " ++ message ++ "}")%string.

(** The listener of the provider stream's [end]. *)
Definition onEnd (ctx : Context) (result : StreamResult) (now : Z)
  (isAborted : bool) : list Effect :=
  let m := selectedModel ctx in
  let totalLatency := (now - startTime ctx)%Z in
  let '(inputTokens, outputTokens) :=
    match usage result with Some u => u | None => (0, 0)%Z end in
  let cost :=
    inject_Z inputTokens * Router.input_cost_per_1m m / 1000000
    + inject_Z outputTokens * Router.output_cost_per_1m m / 1000000 in
  (if isAborted then [] else [ClientEnd]) ++
  [ BreakerResult true (latencyMs result) false;
    BenchmarkRecord (Router.id m) (inject_Z totalLatency) true false;
    LogRequest
      {| log_requestId := requestId ctx; log_tenantId := tenantId ctx;
         log_prompt := prompt ctx; log_classification := classification ctx;
         log_model := Router.id m; log_provider := Router.provider m;
         log_strategy := strategy ctx;
         log_inputTokens := inputTokens; log_outputTokens := outputTokens;
         log_cost := cost;
         log_energyIntensity := Router.energy_intensity m;
         log_latencyMs := totalLatency; log_status := status result;
         log_cacheHit := false |} ] ++
  match RLEngine.tenantKey (tenantId ctx) with
  | Some t => [TrackUsage t cost]
  | None => []
  end ++
  [ RecordFeedback (Router.id m)
      (computeAutoReward (inject_Z totalLatency) cost true) (tenantId ctx) ].

(** One turn of the event loop.  [ReqClose] runs the listener that the
    handler has put on the request.  The end of the client's connection
    closes the socket and the response, on which the handler has put no
    listener.  An event of the provider stream finds a listener only in the
    phase [Piping]; [close] of the provider stream has no listener at all. *)
Definition onEvent (ctx : Context) (st : State) (ev : Event)
  : State * list Effect :=
  match ev with
  | ReqClose =>
      (mkState true (phase st),
       match phase st with
       | Piping result => if hasDestroy result then [DestroyUpstream] else []
       | _ => []
       end)
  | ClientGone _ => (st, [])
  | Resolved result =>
      match phase st with
      | Awaiting => (mkState (aborted st) (Piping result), [])
      | _ => (st, [])
      end
  | Rejected message timedOut now =>
      match phase st with
      | Awaiting =>
          (mkState (aborted st) Failed,
           [ BreakerResult false (inject_Z (now - startTime ctx)) timedOut;
             BenchmarkRecord (Router.id (selectedModel ctx))
               (inject_Z (now - startTime ctx)) false timedOut ] ++
           (if aborted st then []
            else [ClientWrite (errorChunk message); ClientEnd]))
      | _ => (st, [])
      end
  | StreamData chunk =>
      match phase st with
      | Piping _ => (st, if aborted st then [] else [ClientWrite chunk])
      | _ => (st, [])
      end
  | StreamEnd now =>
      match phase st with
      | Piping result => (st, onEnd ctx result now (aborted st))
      | _ => (st, [])
      end
  | StreamError message now =>
      match phase st with
      | Piping _ =>
          (st,
           (if aborted st then []
            else [ClientWrite (errorChunk message); ClientEnd]) ++
           [ BreakerResult false (inject_Z (now - startTime ctx)) false;
             BenchmarkRecord (Router.id (selectedModel ctx))
               (inject_Z (now - startTime ctx)) false false ])
      | _ => (st, [])
      end
  | StreamClose => (st, [])
  end.

(** A run of the event loop. *)
Fixpoint run (ctx : Context) (st : State) (events : list Event)
  : State * list Effect :=
  match events with
  | [] => (st, [])
  | ev :: rest =>
      let '(st1, out1) := onEvent ctx st ev in
      let '(st2, out2) := run ctx st1 rest in
      (st2, out1 ++ out2)
  end.

Definition is_client_write (e : Effect) : bool :=
  match e with ClientWrite _ | ClientEnd => true | _ => false end.

Definition is_log (e : Effect) : bool :=
  match e with LogRequest _ => true | _ => false end.

Definition is_end (ev : Event) : bool :=
  match ev with StreamEnd _ => true | _ => false end.

Definition is_destroy (e : Effect) : bool :=
  match e with DestroyUpstream => true | _ => false end.

(** *** The runtime

    The gateway runs on Node.js 18 or later (README).  Since Node.js 16 a
    request emits [close] when it has been read to its end, and emits it
    once.  [express.json()] reads the body of the request before the route
    handler is called, so that the [close] of the request has been emitted
    when [handleStreamingRequest] puts its listener on it: the listener is
    never called, and no trace that the runtime delivers to the handler
    holds a [ReqClose].  A client that goes away is seen as [ClientGone]. *)
Definition delivered (events : list Event) : Prop :=
  List.Forall (fun ev => ev <> ReqClose) events.

(** What the handler writes to the response on an event while it pipes and
    [aborted] is not set. *)
Definition writesOf (ev : Event) : list Effect :=
  match ev with
  | StreamData chunk => [ClientWrite chunk]
  | StreamEnd _ => [ClientEnd]
  | StreamError message _ => [ClientWrite (errorChunk message); ClientEnd]
  | _ => []
  end.

(** *** Client disconnect *)

Lemma onEvent_keeps_abort ctx st ev :
  aborted st = true -> aborted (onEvent ctx st ev).1 = true.
Proof.
  intros H. destruct ev, (phase st) eqn:Ep; cbn; rewrite ?Ep; cbn; auto.
Qed.

Lemma onEvent_keeps_piping ctx st ev result :
  phase st = Piping result -> phase (onEvent ctx st ev).1 = Piping result.
Proof.
  intros H. destruct ev; cbn; rewrite ?H; cbn; auto.
Qed.

Lemma onEnd_quiet ctx result now :
  List.filter is_client_write (onEnd ctx result now true) = [].
Proof.
  unfold onEnd. destruct (usage result) as [[i o]|];
    destruct (RLEngine.tenantKey (tenantId ctx)); reflexivity.
Qed.

Lemma onEnd_writes ctx result now :
  List.filter is_client_write (onEnd ctx result now false) = [ClientEnd] /\
  List.filter is_destroy (onEnd ctx result now false) = [].
Proof.
  unfold onEnd. destruct (usage result) as [[i o]|];
    destruct (RLEngine.tenantKey (tenantId ctx)); split; reflexivity.
Qed.

Lemma onEnd_logs ctx result now isAborted :
  List.filter is_log (onEnd ctx result now isAborted) <> [] /\
  length (List.filter is_log (onEnd ctx result now isAborted)) = 1%nat /\
  forall row, In (LogRequest row) (onEnd ctx result now isAborted) ->
    log_latencyMs row = (now - startTime ctx)%Z /\
    log_status row = status result /\
    log_requestId row = requestId ctx.
Proof.
  unfold onEnd. destruct (usage result) as [[i o]|];
    destruct (RLEngine.tenantKey (tenantId ctx)), isAborted; cbn;
    (split; [discriminate|]); (split; [reflexivity|]);
    intros row H;
    repeat (destruct H as [H|H]; [try discriminate; injection H as <-; auto|]);
    destruct H.
Qed.

(** Once [aborted] is set the client receives nothing more. *)
Lemma run_quiet ctx events : forall st,
  aborted st = true ->
  List.filter is_client_write (run ctx st events).2 = [].
Proof.
  induction events as [|ev rest IH]; intros st Hab; [reflexivity|].
  cbn [run].
  pose proof (onEvent_keeps_abort ctx st ev Hab) as Hab1.
  assert (Hq : List.filter is_client_write (onEvent ctx st ev).2 = []).
  { destruct ev, (phase st) eqn:Ep; cbn; rewrite ?Ep, ?Hab; cbn;
      try reflexivity; try apply onEnd_quiet.
    destruct (hasDestroy result); reflexivity. }
  destruct (onEvent ctx st ev) as [st1 out1]. cbn [fst snd] in *.
  specialize (IH st1 Hab1).
  destruct (run ctx st1 rest) as [st2 out2]. cbn [snd] in *.
  rewrite List.filter_app, Hq, IH. reflexivity.
Qed.

(** While the stream is piped, log rows come from its [end] events and
    from nothing else. *)
Lemma run_logs ctx result events : forall st,
  phase st = Piping result ->
  length (List.filter is_log (run ctx st events).2)
    = length (List.filter is_end events) /\
  forall row, In (LogRequest row) (run ctx st events).2 ->
    exists now, In (StreamEnd now) events /\
      log_latencyMs row = (now - startTime ctx)%Z /\
      log_status row = status result.
Proof.
  induction events as [|ev rest IH]; intros st Hp.
  { cbn. split; [reflexivity | intros row []]. }
  cbn [run].
  pose proof (onEvent_keeps_piping ctx st ev result Hp) as Hp1.
  assert (Hev : length (List.filter is_log (onEvent ctx st ev).2)
                = (if is_end ev then 1 else 0)%nat /\
                forall row, In (LogRequest row) (onEvent ctx st ev).2 ->
                  exists now, ev = StreamEnd now /\
                    log_latencyMs row = (now - startTime ctx)%Z /\
                    log_status row = status result).
  { destruct ev; cbn; rewrite ?Hp; cbn;
      try (split; [reflexivity | intros row []]);
      try (split; [destruct (hasDestroy result); reflexivity|];
           intros row H; destruct (hasDestroy result); cbn in H;
           intuition discriminate);
      try (split; [destruct (aborted st); reflexivity|];
           intros row H; destruct (aborted st); cbn in H;
           intuition discriminate).
    destruct (onEnd_logs ctx result now (aborted st)) as (_ & Hlen & Hrow).
    split; [exact Hlen|]. intros row H. exists now.
    destruct (Hrow row H) as (H1 & H2 & _). auto. }
  destruct (onEvent ctx st ev) as [st1 out1]. cbn [fst snd] in *.
  destruct (IH st1 Hp1) as [IHlen IHrow].
  destruct (run ctx st1 rest) as [st2 out2]. cbn [snd] in *.
  destruct Hev as [Hlen Hrow]. split.
  - rewrite List.filter_app, length_app, Hlen, IHlen.
    cbn [List.filter]. destruct (is_end ev); reflexivity.
  - intros row H. apply in_app_iff in H as [H|H].
    + destruct (Hrow row H) as (now & -> & H1 & H2).
      exists now. split; [left; reflexivity | auto].
    + destruct (IHrow row H) as (now & Hin & H1 & H2).
      exists now. split; [right; exact Hin | auto].
Qed.

(** What the listener of the request's [close] would do if it were called
    while the provider stream is being piped: destroy the upstream stream
    and set [aborted], after which nothing more is written to the client;
    it logs nothing. *)
Lemma close_listener_stops_writes ctx st result (post : list Event) :
  phase st = Piping result -> hasDestroy result = true ->
  (onEvent ctx st ReqClose).2 = [DestroyUpstream] /\
  aborted (onEvent ctx st ReqClose).1 = true /\
  List.filter is_client_write (run ctx (onEvent ctx st ReqClose).1 post).2
  = [].
Proof.
  intros Hp Hd. cbn [onEvent]. rewrite Hp, Hd. cbn [fst snd].
  split; [reflexivity|]. split; [reflexivity|].
  apply run_quiet. reflexivity.
Qed.

(** While the stream is piped and the listener of [close] is not called,
    the handler keeps its state, destroys nothing and goes on writing. *)
Lemma run_unnoticed ctx result events : forall st,
  phase st = Piping result -> aborted st = false -> delivered events ->
  (run ctx st events).1 = st /\
  List.filter is_destroy (run ctx st events).2 = [] /\
  List.filter is_client_write (run ctx st events).2
  = concat (map writesOf events).
Proof.
  induction events as [|ev rest IH]; intros st Hp Hab Hdel.
  { cbn. auto. }
  apply List.Forall_cons_iff in Hdel as [Hev Hdel]. cbn [run].
  assert (Hstep : (onEvent ctx st ev).1 = st /\
                  List.filter is_destroy (onEvent ctx st ev).2 = [] /\
                  List.filter is_client_write (onEvent ctx st ev).2
                  = writesOf ev).
  { destruct ev; try congruence; cbn; rewrite ?Hp, ?Hab; cbn;
      try (split; [reflexivity|split; reflexivity]).
    destruct (onEnd_writes ctx result now) as [Hw Hd]. auto. }
  destruct Hstep as (Hst & Hd & Hw).
  destruct (onEvent ctx st ev) as [st1 out1]. cbn [fst snd] in *. subst st1.
  destruct (IH st Hp Hab Hdel) as (IHst & IHd & IHw).
  destruct (run ctx st rest) as [st2 out2]. cbn [fst snd] in *.
  split; [exact IHst|]. cbn [map concat].
  rewrite !List.filter_app, Hd, IHd, Hw, IHw. auto.
Qed.

(** C7: a client that goes away while the provider stream is being piped.
    On the runtime the gateway asks for, the listener that the handler put
    on the request is not called: the handler neither sets [aborted] nor
    destroys the upstream stream, whatever follows; every chunk that the
    provider still sends is written to the response; and the log row of
    the request is emitted by the [end] of the provider stream, with the
    latency at that [end], not at the disconnect. *)
Theorem C7_disconnect_goes_unnoticed ctx st result gone (post : list Event) :
  phase st = Piping result -> aborted st = false -> delivered post ->
  let out := (run ctx st (ClientGone gone :: post)).2 in
  (run ctx st (ClientGone gone :: post)).1 = st /\
  ~ In DestroyUpstream out /\
  (forall chunk, In (StreamData chunk) post -> In (ClientWrite chunk) out) /\
  length (List.filter is_log out) = length (List.filter is_end post) /\
  (forall row, In (LogRequest row) out ->
     exists now, In (StreamEnd now) post /\
       log_latencyMs row = (now - startTime ctx)%Z /\
       log_status row = status result).
Proof.
  intros Hp Hab Hdel.
  assert (Hdel' : delivered (ClientGone gone :: post)).
  { apply List.Forall_cons; [discriminate | exact Hdel]. }
  destruct (run_unnoticed ctx result _ st Hp Hab Hdel') as (Hst & Hd & Hw).
  destruct (run_logs ctx result (ClientGone gone :: post) st Hp)
    as [Hlen Hrow].
  cbv zeta. split; [exact Hst|]. split; [|split; [|split]].
  - intros Hin.
    assert (H : In DestroyUpstream
                  (List.filter is_destroy
                     (run ctx st (ClientGone gone :: post)).2))
      by (apply filter_In; split; [exact Hin | reflexivity]).
    rewrite Hd in H. destruct H.
  - intros chunk Hin.
    assert (H : In (ClientWrite chunk)
                  (List.filter is_client_write
                     (run ctx st (ClientGone gone :: post)).2)).
    { rewrite Hw. apply in_concat. exists [ClientWrite chunk].
      split; [|left; reflexivity].
      apply in_map_iff. exists (StreamData chunk). split; [reflexivity|].
      right. exact Hin. }
    apply filter_In in H. tauto.
  - exact Hlen.
  - intros row Hin. destruct (Hrow row Hin) as (now & [Hn|Hn] & H1 & H2).
    + discriminate.
    + eauto.
Qed.

(** A streamed request: two chunks reach the client, then it goes away,
    500 ms after the start; the provider sends one more chunk and ends 900
    ms later. *)
Definition sample_context : Context :=
  {| requestId := "req-1"; selectedModel := Router.small_model;
     classification := Router.trivial_prompt; strategy := "cost-first";
     startTime := 1000; prompt := "Hi"; tenantId := None |}.

Definition sample_result : StreamResult :=
  {| latencyMs := 180; status := 200; usage := Some (12, 40)%Z;
     hasDestroy := true |}.

Definition disconnect_trace : list Event :=
  [ Resolved sample_result; StreamData "Hel"; StreamData "lo";
    ClientGone 1500; StreamData "!"; StreamEnd 2400 ].

Lemma C7_disconnect_goes_unnoticed_witness :
  let st := mkState false (Piping sample_result) in
  let post := [StreamData "!"; StreamEnd 2400] in
  let out := (run sample_context st (ClientGone 1500 :: post)).2 in
  (run sample_context st (ClientGone 1500 :: post)).1 = st /\
  ~ In DestroyUpstream out /\
  (forall chunk, In (StreamData chunk) post -> In (ClientWrite chunk) out) /\
  length (List.filter is_log out) = length (List.filter is_end post) /\
  (forall row, In (LogRequest row) out ->
     exists now, In (StreamEnd now) post /\
       log_latencyMs row = (now - startTime sample_context)%Z /\
       log_status row = status sample_result).
Proof.
  intros st post.
  apply (C7_disconnect_goes_unnoticed sample_context st sample_result 1500
           post eq_refl eq_refl).
  repeat (apply List.Forall_cons; [discriminate|]). apply List.Forall_nil.
Defined.

(** On that run the upstream stream is never destroyed, the chunk that
    arrives after the disconnect is written like the others, the response
    is ended, and the one log row carries the latency of the [end] (1400
    ms), not the 500 ms accrued at the disconnect. *)
Example disconnect_run :
  let out := (run sample_context (mkState false Awaiting) disconnect_trace).2
  in
  List.filter is_destroy out = [] /\
  List.filter is_client_write out
  = [ClientWrite "Hel"; ClientWrite "lo"; ClientWrite "!"; ClientEnd] /\
  map (fun e => match e with
                | LogRequest row => log_latencyMs row
                | _ => 0%Z
                end) (List.filter is_log out) = [1400%Z].
Proof. vm_compute. auto. Qed.

(** A stream that ends normally logs its one row. *)
Example normal_end_logs_once :
  length (List.filter is_log
            (run sample_context (mkState false Awaiting)
               [Resolved sample_result; StreamData "Hello"; StreamEnd 1900]).2)
  = 1%nat.
Proof. reflexivity. Qed.

End Streaming.

(** * Further properties of the pipeline

    The modules below extend the embedding to the parts of the sources that
    the development above leaves aside, and state what the code guarantees
    across sequences of calls. *)

(** ** Arithmetic of the JavaScript primitives *)

Module JSFacts.

Lemma round_bounds (x : Q) (lo hi : Z) :
  inject_Z lo <= x -> x <= inject_Z hi ->
  (lo <= JS.round x <= hi)%Z.
Proof.
  intros Hlo Hhi. unfold JS.round. split.
  - apply Qfloor_resp_le in Hlo. rewrite Qfloor_Z in Hlo.
    etransitivity; [exact Hlo|]. apply Qfloor_resp_le. lra.
  - assert (H : x + (1 # 2) < inject_Z (hi + 1)).
    { rewrite inject_Z_plus. change (inject_Z 1) with 1. lra. }
    pose proof (Qfloor_le (x + (1 # 2))) as Hf.
    assert (Hlt : inject_Z (Qfloor (x + (1 # 2))) < inject_Z (hi + 1))
      by lra.
    rewrite <- Zlt_Qlt in Hlt. lia.
Qed.

(** Rounding to three decimals keeps a number of the unit interval in it. *)
Lemma round3_unit (x : Q) : 0 <= x -> x <= 1 -> 0 <= JS.round3 x <= 1.
Proof.
  intros H0 H1. unfold JS.round3.
  destruct (round_bounds (x * 1000) 0 1000) as [Hlo Hhi].
  - change (inject_Z 0) with 0. lra.
  - change (inject_Z 1000) with 1000. lra.
  - rewrite Zle_Qle in Hlo, Hhi.
    change (inject_Z 0) with 0 in Hlo.
    change (inject_Z 1000) with 1000 in Hhi.
    split.
    + apply Qle_shift_div_l; lra.
    + apply Qle_shift_div_r; lra.
Qed.

End JSFacts.

(** ** Circuit breaker: backoff, probe cycle, metrics and registry
    ([services/circuitBreaker.js]) *)

Module BreakerLifecycle.

Import CircuitBreaker.

(** A call made on a breaker, with the clock readings it takes. *)
Inductive Op :=
| CanExecute (nowPrune nowCheck : Z)
| RecordResult (nowEvent nowPrune nowOpen : Z)
               (succeeded : bool) (latency : Q) (timeout : bool).

Definition step (b : Breaker) (op : Op) : Breaker :=
  match op with
  | CanExecute p c => (canExecute p c b).2
  | RecordResult e p o s l t => recordResult e p o s l t b
  end.

(** A sequence of calls: the answers of the [canExecute] calls, in order,
    and the breaker at the end. *)
Fixpoint run (ops : list Op) (b : Breaker) : list bool * Breaker :=
  match ops with
  | [] => ([], b)
  | op :: rest =>
      let '(answers, b') := run rest (step b op) in
      (match op with
       | CanExecute p c => (canExecute p c b).1.1 :: answers
       | RecordResult _ _ _ _ _ _ => answers
       end, b')
  end.

(** What [getMetrics()] returns. *)
Record Metrics := mkMetrics {
  m_name : string;
  m_state : State;
  totalEvents : Z;
  m_errorRate : Q;
  m_timeoutRate : Q;
  avgLatencyMs : Q;
  p95LatencyMs : Q;
  m_consecutiveFailures : Z;
  m_cooldownMs : Q;
  cooldownRemainingMs : Q;
  m_lastOpenReason : option OpenReason
}.

Definition sum (l : list Q) : Q := foldl Qplus 0 l.

(** [getMetrics()]: the clock is read by the pruning and, in the OPEN
    state, for the remaining cooldown. *)
Definition getMetrics (nowPrune nowRemaining : Z) (b : Breaker)
  : Metrics * Breaker :=
  let b1 := _pruneOldEvents nowPrune b in
  let evs := events b1 in
  let latencies := sort_numeric (map latencyMs evs) in
  let remaining :=
    match state b1, openedAt b1 with
    | OPEN, Some t =>
        if (t =? 0)%Z then 0
        else Qmax 0 (cooldownMs b1 - inject_Z (nowRemaining - t))
    | _, _ => 0
    end in
  ({| m_name := name b1;
      m_state := state b1;
      totalEvents := total evs;
      m_errorRate :=
        if (0 <? total evs)%Z then JS.round3 (errorRate evs) else 0;
      m_timeoutRate :=
        if (0 <? total evs)%Z then JS.round3 (timeoutRate evs) else 0;
      avgLatencyMs :=
        if (0 <? total evs)%Z
        then inject_Z (JS.round (sum latencies / inject_Z (total evs)))
        else 0;
      p95LatencyMs :=
        if (0 <? total evs)%Z
        then nth (Z.to_nat (JS.ceil (inject_Z (total evs) * (95 # 100)) - 1))
                 latencies 0
        else 0;
      m_consecutiveFailures := consecutiveFailures b1;
      m_cooldownMs := match state b1 with OPEN => cooldownMs b1 | _ => 0 end;
      cooldownRemainingMs := remaining;
      m_lastOpenReason := lastOpenReason b1 |}, b1).

(** The registry [breakers], a [Map] from provider names. *)
Definition Registry := gmap string Breaker.

(** [getBreaker(providerName, options)]. *)
Definition getBreaker (providerName : string) (options : Options)
  (breakers : Registry) : Breaker * Registry :=
  match breakers !! providerName with
  | Some b => (b, breakers)
  | None =>
      let b := new providerName options in
      (b, <[providerName := b]> breakers)
  end.

(** [initializeBreakers(providerNames)]. *)
Definition initializeBreakers (providerNames : list string)
  (breakers : Registry) : Registry :=
  foldl (fun reg name =>
           match reg !! name with
           | Some _ => reg
           | None => <[name := new name no_options]> reg
           end) breakers providerNames.

(** [getAllBreakerMetrics()]: every breaker is visited once; [clock] gives
    the two readings taken while the breaker of a name is visited. *)
Definition getAllBreakerMetrics (clock : string -> Z * Z)
  (breakers : Registry) : gmap string Metrics * Registry :=
  (map_imap (fun name b =>
               Some (getMetrics (clock name).1 (clock name).2 b).1) breakers,
   map_imap (fun name b =>
               Some (getMetrics (clock name).1 (clock name).2 b).2) breakers).

(** The [breakerStates] option the orchestrator hands to the router: of
    each metrics object the router reads the [state] field. *)
Definition breakerStatesOf (metrics : gmap string Metrics)
  : gmap string State := m_state <$> metrics.

(** *** Invariants of the state machine *)

Lemma _evaluate_cases p o b :
  _evaluate p o b = _pruneOldEvents p b \/
  exists r, _evaluate p o b = open_at o (Some r) (_pruneOldEvents p b).
Proof.
  unfold _evaluate. cbv zeta.
  destruct (JS.Qltb _ _); [left; reflexivity|].
  destruct (events (_pruneOldEvents p b)); [left; reflexivity|].
  destruct (breachReason _ _) as [r|];
    [right; exists r; reflexivity | left; reflexivity].
Qed.

(** The configured bounds are kept and the cooldown lies between them. *)
Definition cooldown_ok (base max : Q) (b : Breaker) : Prop :=
  baseCooldownMs b = base /\ maxCooldownMs b = max /\
  base <= cooldownMs b /\ cooldownMs b <= max.

Lemma step_cooldown_ok base max b op :
  0 <= base -> cooldown_ok base max b -> cooldown_ok base max (step b op).
Proof.
  intros Hbase (Hb & Hm & Hlo & Hhi). destruct op as [p c | e p o s l t].
  - cbn [step]. unfold canExecute. cbv zeta.
    destruct (state (_pruneOldEvents p b)); [| case_match |];
      unfold cooldown_ok; cbn; repeat split; assumption.
  - cbn [step]. unfold recordResult. cbv zeta. cbn [state with_events].
    destruct (state b).
    + destruct (_evaluate_cases p o
                  (if s then with_failures 0
                                 (with_events (events b ++ [mkEvent e s l t]) b)
                   else with_failures
                          (consecutiveFailures
                             (with_events (events b ++ [mkEvent e s l t]) b) + 1)
                          (with_events (events b ++ [mkEvent e s l t]) b)))
        as [-> | [r ->]]; destruct s; unfold cooldown_ok; cbn;
          repeat split; assumption.
    + destruct (_evaluate_cases p o
                  (if s then with_failures 0
                                 (with_events (events b ++ [mkEvent e s l t]) b)
                   else with_failures
                          (consecutiveFailures
                             (with_events (events b ++ [mkEvent e s l t]) b) + 1)
                          (with_events (events b ++ [mkEvent e s l t]) b)))
        as [-> | [r ->]]; destruct s; unfold cooldown_ok; cbn;
          repeat split; assumption.
    + destruct s; unfold cooldown_ok; cbn.
      * rewrite Hb. repeat split; try reflexivity; try assumption; lra.
      * repeat split; try assumption.
        -- rewrite Hm. apply Q.min_glb; lra.
        -- rewrite Hm. apply Q.le_min_r.
Qed.

Lemma run_cons op ops b :
  run (op :: ops) b =
  (match op with
   | CanExecute p c => (canExecute p c b).1.1 :: (run ops (step b op)).1
   | RecordResult _ _ _ _ _ _ => (run ops (step b op)).1
   end, (run ops (step b op)).2).
Proof.
  cbn [run]. destruct (run ops (step b op)). reflexivity.
Qed.

Lemma run_cooldown_ok base max ops b :
  0 <= base -> cooldown_ok base max b -> cooldown_ok base max (run ops b).2.
Proof.
  intros Hbase. revert b. induction ops as [|op ops IH]; intros b Hb.
  - exact Hb.
  - rewrite run_cons. cbn [snd]. apply IH.
    apply step_cooldown_ok; assumption.
Qed.

(** X1.  Exponential backoff stays within its bounds: on a breaker built
    with a non-negative base cooldown not above the maximum, whatever calls
    are made and whenever, the cooldown is at least the base cooldown and
    at most the maximum. *)
Theorem cooldown_within_bounds name options ops :
  0 <= baseCooldownMs (new name options) ->
  baseCooldownMs (new name options) <= maxCooldownMs (new name options) ->
  baseCooldownMs (new name options)
    <= cooldownMs (run ops (new name options)).2 /\
  cooldownMs (run ops (new name options)).2
    <= maxCooldownMs (new name options).
Proof.
  intros H0 Hle.
  destruct (run_cooldown_ok (baseCooldownMs (new name options))
              (maxCooldownMs (new name options)) ops (new name options) H0)
    as (_ & _ & Hlo & Hhi).
  - unfold cooldown_ok. repeat split; try assumption. cbn. lra.
  - split; assumption.
Qed.

(** A breaker with the default options, a failed probe behind it. *)
Definition failing_probe : list Op :=
  [ RecordResult 1000 1000 1000 false 120 false;
    RecordResult 1100 1100 1100 false 120 false;
    RecordResult 1200 1200 1200 false 120 false;
    RecordResult 1300 1300 1300 false 120 false;
    RecordResult 1400 1400 1400 false 120 false;
    CanExecute 20000 20000;
    RecordResult 20500 20500 20500 false 300 false ].

Lemma cooldown_within_bounds_witness :
  10000 <= cooldownMs (run failing_probe (new "openai" no_options)).2 /\
  cooldownMs (run failing_probe (new "openai" no_options)).2 <= 120000.
Proof.
  apply (cooldown_within_bounds "openai" no_options failing_probe);
    vm_compute; discriminate.
Defined.

Example failed_probe_doubles_cooldown :
  let b := (run failing_probe (new "openai" no_options)).2 in
  state b = OPEN /\ cooldownMs b == 20000 /\ openedAt b = Some 20500%Z.
Proof. vm_compute. auto. Qed.

(** *** The OPEN state and the probe *)

(** The readings a call may take during the cooldown that started at
    [t0]: a [canExecute] call checks before the cooldown has elapsed, and
    the clock does not run backwards behind [t0]. *)
Definition within_cooldown (t0 : Z) (cooldown : Q) (op : Op) : Prop :=
  match op with
  | CanExecute _ c => inject_Z (c - t0) < cooldown
  | RecordResult _ _ o _ _ _ => (t0 <= o)%Z
  end.

Lemma open_step t0 b t op :
  state b = OPEN -> openedAt b = Some t -> (t0 <= t)%Z ->
  within_cooldown t0 (cooldownMs b) op ->
  state (step b op) = OPEN /\ cooldownMs (step b op) = cooldownMs b /\
  (exists t', openedAt (step b op) = Some t' /\ (t0 <= t')%Z) /\
  match op with
  | CanExecute p c => (canExecute p c b).1.1 = false
  | _ => True
  end.
Proof.
  intros Hs Ho Ht Hop. destruct op as [p c | e p o s l tm]; cbn [step].
  - unfold canExecute. cbv zeta. cbn [state openedAt with_events
      _pruneOldEvents cooldownMs]. rewrite Hs, Ho.
    cbn in Hop.
    assert (Hlt : inject_Z (c - t) < cooldownMs b).
    { eapply Qle_lt_trans; [|exact Hop]. rewrite <- Zle_Qle. lia. }
    apply JS.Qgeb_lt in Hlt. rewrite Hlt. cbn.
    repeat split; try assumption. exists t. auto.
  - unfold recordResult. cbv zeta. cbn [state with_events]. rewrite Hs.
    cbn in Hop.
    match goal with
    | |- context [_evaluate p o ?x] =>
        destruct (_evaluate_cases p o x) as [-> | [r ->]]
    end; destruct s; cbn; repeat split; try assumption; eauto.
Qed.

(** X2.  An OPEN circuit holds for its whole cooldown: while every
    [canExecute] call checks before the cooldown has elapsed since the
    breaker opened, each of them is refused, whatever results are recorded
    in between, and the breaker stays OPEN with the same cooldown. *)
Theorem open_until_cooldown_elapsed b t0 ops :
  state b = OPEN -> openedAt b = Some t0 ->
  List.Forall (within_cooldown t0 (cooldownMs b)) ops ->
  List.Forall (fun allowed => allowed = false) (run ops b).1 /\
  state (run ops b).2 = OPEN /\
  cooldownMs (run ops b).2 = cooldownMs b.
Proof.
  intros Hs Ho Hops.
  assert (Ht : exists t, openedAt b = Some t /\ (t0 <= t)%Z)
    by (exists t0; split; [assumption | lia]).
  clear Ho. revert b Hs Ht Hops.
  induction ops as [|op ops IH]; intros b Hs (t & Ho & Ht) Hops.
  - cbn. auto.
  - apply List.Forall_cons_iff in Hops as [Hop Hops].
    destruct (open_step t0 b t op Hs Ho Ht Hop) as (Hs' & Hc' & Ht' & Hans).
    rewrite <- Hc' in Hops.
    destruct (IH (step b op) Hs' Ht' Hops) as (Hall & Hst & Hcd).
    rewrite run_cons. cbn [fst snd].
    split; [|split; [exact Hst | congruence]].
    destruct op; [|exact Hall].
    apply List.Forall_cons; assumption.
Qed.

(** A breaker that opened at 1400 with the default cooldown of 10 s. *)
Definition opened_breaker : Breaker :=
  (run [ RecordResult 1000 1000 1000 false 120 false;
         RecordResult 1100 1100 1100 false 120 false;
         RecordResult 1200 1200 1200 false 120 false;
         RecordResult 1300 1300 1300 false 120 false;
         RecordResult 1400 1400 1400 false 120 false ]
       (new "openai" no_options)).2.

Definition calls_during_cooldown : list Op :=
  [ CanExecute 2000 2000;
    RecordResult 2500 2500 2500 true 80 false;
    CanExecute 11399 11399 ].

Lemma open_until_cooldown_elapsed_witness :
  List.Forall (fun allowed => allowed = false)
    (run calls_during_cooldown opened_breaker).1 /\
  state (run calls_during_cooldown opened_breaker).2 = OPEN /\
  cooldownMs (run calls_during_cooldown opened_breaker).2
    = cooldownMs opened_breaker.
Proof.
  apply (open_until_cooldown_elapsed opened_breaker 1400 calls_during_cooldown).
  - reflexivity.
  - reflexivity.
  - repeat apply List.Forall_cons; try apply List.Forall_nil;
      vm_compute; try reflexivity; discriminate.
Defined.

Definition probe_calls (calls : list (Z * Z)) : list Op :=
  map (fun pc => CanExecute pc.1 pc.2) calls.

(** X3.  One probe at a time: once the cooldown has elapsed the next
    [canExecute] call on an OPEN breaker is let through as the probe and the
    breaker becomes HALF_OPEN; every further [canExecute] call is refused,
    however many are made and whenever, until a result is recorded. *)
Theorem half_open_lets_one_probe_through b p c calls :
  state b = OPEN ->
  cooldownMs b
    <= inject_Z (c - match openedAt b with Some t => t | None => 0 end) ->
  canExecute p c b
    = (true, "half-open probe"%string,
       with_state HALF_OPEN (_pruneOldEvents p b)) /\
  List.Forall (fun allowed => allowed = false)
    (run (probe_calls calls) (canExecute p c b).2).1 /\
  state (run (probe_calls calls) (canExecute p c b).2).2 = HALF_OPEN.
Proof.
  intros Hs Hel.
  assert (Hfirst : canExecute p c b
                   = (true, "half-open probe"%string,
                      with_state HALF_OPEN (_pruneOldEvents p b))).
  { unfold canExecute. cbv zeta. cbn [state openedAt with_events
      _pruneOldEvents cooldownMs]. rewrite Hs.
    apply JS.Qgeb_ge in Hel. rewrite Hel. reflexivity. }
  split; [exact Hfirst|]. rewrite Hfirst. cbn [snd].
  assert (Hh : state (with_state HALF_OPEN (_pruneOldEvents p b)) = HALF_OPEN)
    by reflexivity.
  revert Hh. generalize (with_state HALF_OPEN (_pruneOldEvents p b)).
  induction calls as [|[p' c'] calls IH]; intros b' Hh.
  - cbn. auto.
  - unfold probe_calls. cbn [map]. rewrite run_cons. cbn [fst snd step].
    assert (Hc : canExecute p' c' b'
                 = (false, "half-open — waiting for probe result"%string,
                    _pruneOldEvents p' b')).
    { unfold canExecute. cbv zeta. cbn [state with_events _pruneOldEvents].
      rewrite Hh. reflexivity. }
    rewrite Hc. cbn [fst snd].
    destruct (IH (_pruneOldEvents p' b') Hh) as [Hall Hst].
    split; [|exact Hst]. apply List.Forall_cons; [reflexivity | exact Hall].
Qed.

Lemma half_open_lets_one_probe_through_witness :
  canExecute 11400 11400 opened_breaker
    = (true, "half-open probe"%string,
       with_state HALF_OPEN (_pruneOldEvents 11400 opened_breaker)) /\
  List.Forall (fun allowed => allowed = false)
    (run (probe_calls [(11401, 11401); (90000, 90000)]%Z)
         (canExecute 11400 11400 opened_breaker).2).1 /\
  state (run (probe_calls [(11401, 11401); (90000, 90000)]%Z)
             (canExecute 11400 11400 opened_breaker).2).2 = HALF_OPEN.
Proof.
  apply (half_open_lets_one_probe_through opened_breaker 11400 11400
           [(11401, 11401); (90000, 90000)]%Z).
  - reflexivity.
  - vm_compute. discriminate.
Defined.

(** X4.  Only a successful probe closes the circuit: a call turns a breaker
    that is not CLOSED into a CLOSED one exactly when the breaker is
    HALF_OPEN and the call records a success.  In particular no result
    recorded while OPEN closes the circuit, and [canExecute] never does. *)
Theorem closes_only_on_successful_probe b op :
  state b <> CLOSED ->
  (state (step b op) = CLOSED <->
   state b = HALF_OPEN /\
   exists e p o l t, op = RecordResult e p o true l t).
Proof.
  intros Hn. destruct op as [p c | e p o s l t]; cbn [step].
  - unfold canExecute. cbv zeta. cbn [state with_events _pruneOldEvents].
    split.
    + destruct (state b) eqn:Es; [congruence | | cbn; rewrite Es; discriminate].
      case_match; cbn; [discriminate | rewrite Es; discriminate].
    + intros (_ & ? & ? & ? & ? & ? & [=]).
  - unfold recordResult. cbv zeta. cbn [state with_events].
    destruct (state b) eqn:Es; [congruence | |].
    + split; [|intros ([=] & _)].
      match goal with
      | |- context [_evaluate p o ?x] =>
          destruct (_evaluate_cases p o x) as [-> | [r ->]]
      end; destruct s; cbn; rewrite ?Es; discriminate.
    + destruct s; cbn; split.
      * intros _. split; [reflexivity|]. exists e, p, o, l, t. reflexivity.
      * reflexivity.
      * discriminate.
      * intros (_ & ? & ? & ? & ? & ? & [=]).
Qed.

Lemma closes_only_on_successful_probe_witness :
  state (step (canExecute 11400 11400 opened_breaker).2
              (RecordResult 11900 11900 11900 true 95 false)) = CLOSED <->
  state (canExecute 11400 11400 opened_breaker).2 = HALF_OPEN /\
  exists e p o l t,
    RecordResult 11900 11900 11900 true 95 false = RecordResult e p o true l t.
Proof.
  apply (closes_only_on_successful_probe
           (canExecute 11400 11400 opened_breaker).2
           (RecordResult 11900 11900 11900 true 95 false)).
  vm_compute. discriminate.
Defined.

Example successful_probe_resets_cooldown :
  let b := step (canExecute 11400 11400 opened_breaker).2
                (RecordResult 11900 11900 11900 true 95 false) in
  state b = CLOSED /\ cooldownMs b == 10000 /\ consecutiveFailures b = 0%Z.
Proof. vm_compute. auto. Qed.

(** *** Metrics *)

Lemma rate_unit (f : Event -> bool) (evs : list Event) :
  (0 < total evs)%Z ->
  0 <= inject_Z (Z.of_nat (length (List.filter f evs))) / inject_Z (total evs)
  /\ inject_Z (Z.of_nat (length (List.filter f evs))) / inject_Z (total evs)
     <= 1.
Proof.
  intros Hpos. unfold total in *.
  pose proof (List.filter_length_le f evs) as Hle.
  assert (H1 : 0 <= inject_Z (Z.of_nat (length (List.filter f evs)))).
  { change 0 with (inject_Z 0). rewrite <- Zle_Qle. lia. }
  assert (H2 : inject_Z (Z.of_nat (length (List.filter f evs)))
               <= inject_Z (Z.of_nat (length evs))).
  { rewrite <- Zle_Qle. lia. }
  assert (H3 : 0 < inject_Z (Z.of_nat (length evs))).
  { change 0 with (inject_Z 0). rewrite <- Zlt_Qlt. lia. }
  split.
  - apply Qle_shift_div_l; lra.
  - apply Qle_shift_div_r; lra.
Qed.

(** [getMetrics] observes and prunes, nothing else: the state, the
    cooldown and the opening time of the breaker are those of before, at
    any clock reading (an OPEN breaker is reported OPEN also after its
    cooldown has elapsed); the event count is the size of the pruned
    window; the reported error and timeout rates lie between 0 and 1 and
    the remaining cooldown is never negative. *)
Lemma getMetrics_observes nowPrune nowRemaining b :
  let m := (getMetrics nowPrune nowRemaining b).1 in
  let b' := (getMetrics nowPrune nowRemaining b).2 in
  m_state m = state b /\
  state b' = state b /\ cooldownMs b' = cooldownMs b /\
  openedAt b' = openedAt b /\
  events b' = pruned nowPrune (windowMs b) (events b) /\
  totalEvents m = Z.of_nat (length (events b')) /\
  0 <= m_errorRate m /\ m_errorRate m <= 1 /\
  0 <= m_timeoutRate m /\ m_timeoutRate m <= 1 /\
  0 <= cooldownRemainingMs m.
Proof.
  cbv zeta. unfold getMetrics. cbv zeta.
  cbn [fst snd m_state state cooldownMs openedAt events _pruneOldEvents
       with_events totalEvents m_errorRate m_timeoutRate cooldownRemainingMs].
  set (evs := pruned nowPrune (windowMs b) (events b)).
  repeat (split; [reflexivity|]).
  assert (Hrates :
    forall f, 0 <= (if (0 <? total evs)%Z
                    then JS.round3 (inject_Z (Z.of_nat (length (List.filter f evs)))
                                    / inject_Z (total evs))
                    else 0) /\
              (if (0 <? total evs)%Z
               then JS.round3 (inject_Z (Z.of_nat (length (List.filter f evs)))
                               / inject_Z (total evs))
               else 0) <= 1).
  { intros f. destruct (0 <? total evs)%Z eqn:E; [|split; lra].
    apply Z.ltb_lt in E. destruct (rate_unit f evs E) as [H0 H1].
    apply JSFacts.round3_unit; assumption. }
  destruct (Hrates (fun e => negb (success e))) as [He0 He1].
  destruct (Hrates (fun e => timedOut e)) as [Ht0 Ht1].
  split; [exact He0|]. split; [exact He1|].
  split; [exact Ht0|]. split; [exact Ht1|].
  destruct (state b); try lra.
  destruct (openedAt b) as [t|]; try lra.
  destruct (t =? 0)%Z; [lra|]. apply Q.le_max_l.
Qed.
End BreakerLifecycle.

(** ** Token bucket and admission ([middleware/rateLimit.js]) *)

Module TokenBucketProps.

Import RateLimit.

(** [bucket.consume()] called at each of the clock readings in turn: the
    answers and the bucket at the end. *)
Fixpoint consumeAll (times : list Z) (b : TokenBucket)
  : list bool * TokenBucket :=
  match times with
  | [] => ([], b)
  | now :: rest =>
      let '(ok, b1) := consume now 1 b in
      let '(answers, b') := consumeAll rest b1 in
      (ok :: answers, b')
  end.

Definition successes (answers : list bool) : nat :=
  length (List.filter (fun ok => ok) answers).

(** The clock does not run backwards from [t0] on. *)
Fixpoint monotone (t0 : Z) (times : list Z) : Prop :=
  match times with
  | [] => True
  | t :: rest => (t0 <= t)%Z /\ monotone t rest
  end.

Lemma consumeAll_cons now rest b :
  consumeAll (now :: rest) b =
  ((consume now 1 b).1 :: (consumeAll rest (consume now 1 b).2).1,
   (consumeAll rest (consume now 1 b).2).2).
Proof.
  cbn [consumeAll]. destruct (consume now 1 b) as [ok b1]. cbn [fst snd].
  destruct (consumeAll rest b1). reflexivity.
Qed.

(** One call: the configuration is kept, the clock reading is stored, the
    level stays within the bucket and an admission costs one token out of
    what the elapsed time refilled. *)
Lemma consume_step now b :
  0 <= rate b -> 0 <= tokens b -> tokens b <= capacity b ->
  (lastRefill b <= now)%Z ->
  let ok := (consume now 1 b).1 in
  let b' := (consume now 1 b).2 in
  rate b' = rate b /\ capacity b' = capacity b /\ lastRefill b' = now /\
  0 <= tokens b' /\ tokens b' <= capacity b /\
  (if ok then 1 else 0) + tokens b'
    <= tokens b + rate b * (inject_Z (now - lastRefill b) / 1000).
Proof.
  intros Hr H0 Hc Ht. cbv zeta. unfold consume, _refill. cbv zeta.
  cbn [tokens rate capacity lastRefill].
  set (el := inject_Z (now - lastRefill b) / 1000).
  assert (Hel : 0 <= el).
  { subst el. apply Qle_shift_div_l; [lra|].
    assert (0 <= inject_Z (now - lastRefill b)).
    { change 0 with (inject_Z 0). rewrite <- Zle_Qle. lia. }
    lra. }
  assert (Hprod : 0 <= el * rate b) by (apply Qmult_le_0_compat; assumption).
  pose proof (Q.le_min_l (capacity b) (tokens b + el * rate b)) as Hml.
  pose proof (Q.le_min_r (capacity b) (tokens b + el * rate b)) as Hmr.
  assert (Hm0 : 0 <= Qmin (capacity b) (tokens b + el * rate b))
    by (apply Q.min_glb; lra).
  destruct (JS.Qgeb _ 1) eqn:E; cbn [fst snd tokens rate capacity lastRefill].
  - apply JS.Qgeb_ge in E. repeat split; try reflexivity; lra.
  - repeat split; try reflexivity; lra.
Qed.

Lemma consumeAll_bound times b :
  0 <= rate b -> 0 <= tokens b -> tokens b <= capacity b ->
  monotone (lastRefill b) times ->
  let answers := (consumeAll times b).1 in
  let b' := (consumeAll times b).2 in
  rate b' = rate b /\ capacity b' = capacity b /\
  (lastRefill b <= lastRefill b')%Z /\
  0 <= tokens b' /\ tokens b' <= capacity b /\
  JS.qnat (successes answers) + tokens b'
    <= tokens b + rate b * (inject_Z (lastRefill b' - lastRefill b) / 1000).
Proof.
  revert b. induction times as [|now rest IH]; intros b Hr H0 Hc Hm.
  - cbn. repeat split; try reflexivity; try assumption; try lia.
    rewrite Z.sub_diag. change (JS.qnat 0) with 0.
    change (inject_Z 0) with 0.
    assert (E : rate b * (0 / 1000) == 0) by (unfold Qdiv; ring).
    rewrite E. lra.
  - destruct Hm as [Hnow Hm]. cbv zeta. rewrite consumeAll_cons.
    cbn [fst snd].
    destruct (consume_step now b Hr H0 Hc Hnow)
      as (Er & Ec & El & H0' & Hc' & Hstep).
    set (b1 := (consume now 1 b).2) in *.
    set (ok := (consume now 1 b).1) in *.
    destruct (IH b1) as (Er2 & Ec2 & El2 & H02 & Hc2 & Hrest).
    { rewrite Er. exact Hr. }
    { exact H0'. }
    { rewrite Ec. exact Hc'. }
    { rewrite El. exact Hm. }
    rewrite Er2, Ec2, Er, Ec. rewrite Er, Ec, El in *.
    repeat split; try reflexivity; try assumption; try lia.
    assert (Hcount : JS.qnat (successes (ok :: (consumeAll rest b1).1))
                     == (if ok then 1 else 0)
                        + JS.qnat (successes (consumeAll rest b1).1)).
    { unfold successes, JS.qnat. cbn [List.filter]. destruct ok; cbn [length].
      - rewrite Nat2Z.inj_succ, <- Z.add_1_l, inject_Z_plus. reflexivity.
      - ring. }
    rewrite Hcount.
    assert (Hsplit : inject_Z (lastRefill (consumeAll rest b1).2 - lastRefill b)
                     == inject_Z (lastRefill (consumeAll rest b1).2 - now)
                        + inject_Z (now - lastRefill b)).
    { rewrite <- inject_Z_plus. f_equiv. lia. }
    rewrite Hsplit. 
    set (d1 := inject_Z (lastRefill (consumeAll rest b1).2 - now)) in *.
    set (d0 := inject_Z (now - lastRefill b)) in *.
    assert (Hdist : rate b * ((d1 + d0) / 1000)
                    == rate b * (d1 / 1000) + rate b * (d0 / 1000))
      by (field).
    rewrite Hdist. lra.
Qed.

(** X5.  The token bucket bounds the admissions: on a bucket with a
    non-negative rate whose level is between 0 and the capacity, and with a
    clock that does not run backwards, the number of calls of [consume]
    that succeed is at most the level at the start plus what the rate
    refills over the time spanned by the calls; the level stays between 0
    and the capacity. *)
Theorem token_bucket_bounds_successes times b :
  0 <= rate b -> 0 <= tokens b -> tokens b <= capacity b ->
  monotone (lastRefill b) times ->
  JS.qnat (successes (consumeAll times b).1)
    <= tokens b
       + rate b * (inject_Z (lastRefill (consumeAll times b).2 - lastRefill b)
                   / 1000) /\
  0 <= tokens (consumeAll times b).2 /\
  tokens (consumeAll times b).2 <= capacity b.
Proof.
  intros Hr H0 Hc Hm.
  destruct (consumeAll_bound times b Hr H0 Hc Hm)
    as (_ & _ & _ & H0' & Hc' & Hsum).
  repeat split; try assumption. lra.
Qed.

(** Two requests per minute: the bucket of a tenant with [rate_limit_rpm]
    2, as [getBucket] builds it. *)
Definition two_per_minute : TokenBucket := newBucket 0 (2 / 60) 2.

Lemma token_bucket_bounds_successes_witness :
  JS.qnat (successes (consumeAll [10; 20; 30; 31000]%Z two_per_minute).1)
    <= tokens two_per_minute
       + rate two_per_minute
         * (inject_Z (lastRefill (consumeAll [10; 20; 30; 31000]%Z
                                    two_per_minute).2
                      - lastRefill two_per_minute) / 1000) /\
  0 <= tokens (consumeAll [10; 20; 30; 31000]%Z two_per_minute).2 /\
  tokens (consumeAll [10; 20; 30; 31000]%Z two_per_minute).2
    <= capacity two_per_minute.
Proof.
  apply (token_bucket_bounds_successes [10; 20; 30; 31000]%Z two_per_minute).
  - vm_compute. discriminate.
  - vm_compute. discriminate.
  - vm_compute. discriminate.
  - cbn. lia.
Defined.

Example third_request_refused :
  (consumeAll [10; 20; 30; 31000]%Z two_per_minute).1
  = [true; true; false; true].
Proof. vm_compute. reflexivity. Qed.

(** *** A burst *)

Lemma consume_same_instant now b m :
  lastRefill b = now -> tokens b == JS.qnat m -> tokens b <= capacity b ->
  let ok := (consume now 1 b).1 in
  let b' := (consume now 1 b).2 in
  lastRefill b' = now /\ capacity b' = capacity b /\
  tokens b' <= capacity b /\
  match m with
  | O => ok = false /\ tokens b' == JS.qnat 0
  | S m' => ok = true /\ tokens b' == JS.qnat m'
  end.
Proof.
  intros Hl Ht Hc. cbv zeta. unfold consume, _refill. cbv zeta.
  cbn [tokens rate capacity lastRefill]. rewrite Hl, Z.sub_diag.
  change (inject_Z 0) with 0.
  assert (E : tokens b + 0 / 1000 * rate b == tokens b)
    by (unfold Qdiv; ring).
  assert (Em : Qmin (capacity b) (tokens b + 0 / 1000 * rate b) == tokens b).
  { rewrite E. apply Q.min_r. exact Hc. }
  destruct m as [|m'].
  - assert (Hlt : Qmin (capacity b) (tokens b + 0 / 1000 * rate b) < 1).
    { rewrite Em, Ht. reflexivity. }
    apply JS.Qgeb_lt in Hlt. rewrite Hlt. cbn [fst snd tokens capacity lastRefill].
    repeat split; try reflexivity.
    + rewrite Em. exact Hc.
    + rewrite Em. exact Ht.
  - assert (Hq : JS.qnat (S m') == 1 + JS.qnat m').
    { unfold JS.qnat. rewrite Nat2Z.inj_succ, <- Z.add_1_l, inject_Z_plus.
      reflexivity. }
    assert (Hm' : 0 <= JS.qnat m').
    { unfold JS.qnat. change 0 with (inject_Z 0). rewrite <- Zle_Qle. lia. }
    assert (Hge : 1 <= Qmin (capacity b) (tokens b + 0 / 1000 * rate b)).
    { rewrite Em, Ht, Hq. lra. }
    apply JS.Qgeb_ge in Hge. rewrite Hge.
    cbn [fst snd tokens capacity lastRefill].
    repeat split; try reflexivity.
    + rewrite Em. lra.
    + rewrite Em, Ht, Hq. ring.
Qed.

Lemma burst_answers now k : forall b m,
  lastRefill b = now -> tokens b == JS.qnat m -> tokens b <= capacity b ->
  (consumeAll (repeat now k) b).1
  = repeat true (Nat.min k m) ++ repeat false (k - m).
Proof.
  induction k as [|k IH]; intros b m Hl Ht Hc; [reflexivity|].
  cbn [repeat]. rewrite consumeAll_cons. cbn [fst].
  destruct (consume_same_instant now b m Hl Ht Hc) as (Hl' & Hc' & Hle & Hm).
  destruct m as [|m'].
  - destruct Hm as [-> Ht'].
    rewrite (IH _ 0%nat Hl' Ht') by (rewrite Hc'; exact Hle).
    rewrite Nat.min_0_r, Nat.sub_0_r. reflexivity.
  - destruct Hm as [-> Ht'].
    rewrite (IH _ m' Hl' Ht') by (rewrite Hc'; exact Hle).
    reflexivity.
Qed.

(** X6.  A burst drains exactly the capacity: of [k] calls of [consume] at
    the instant a bucket of capacity [n] was created, the first [n]
    succeed and all the others fail, whatever the refill rate. *)
Theorem burst_drains_capacity now rate n k :
  (consumeAll (repeat now k) (newBucket now rate (JS.qnat n))).1
  = repeat true (Nat.min k n) ++ repeat false (k - n).
Proof.
  apply burst_answers; cbn; [reflexivity | reflexivity | lra].
Qed.

(** *** Admission by the middleware *)

(** X7.  A refused request leaves no trace on the concurrency accounting:
    whenever the middleware answers with a rejection, the status is 429,
    the in-flight counter is unchanged and nothing was registered on the
    response; a rejection for concurrency happens exactly at 100 requests
    in flight or more and then also leaves every token bucket untouched,
    and a rejection for the rate needs a tenant and fewer than 100 requests
    in flight. *)
Theorem rejection_leaves_no_trace nowNew nowConsume nowRemaining tenant l res
        status code l' res' :
  createRateLimitMiddleware nowNew nowConsume nowRemaining tenant l res
    = (Rejected status code, l', res') ->
  status = 429%Z /\ activeRequests l' = activeRequests l /\ res' = res /\
  ((MAX_CONCURRENT <= activeRequests l)%Z /\
   code = "concurrency_limit"%string /\ l' = l
   \/
   (activeRequests l < MAX_CONCURRENT)%Z /\
   code = "rpm_exceeded"%string /\ tenant <> None).
Proof.
  unfold createRateLimitMiddleware.
  destruct (MAX_CONCURRENT <=? activeRequests l)%Z eqn:Emax.
  - apply Z.leb_le in Emax. intros [= <- <- <- <-].
    repeat split; try reflexivity. left. auto.
  - apply Z.leb_gt in Emax. destruct tenant as [t|]; [|discriminate].
    unfold getBucket.
    destruct (buckets l !! Tenant.id t) as [b|];
      match goal with
      | |- context [consume ?n ?c ?b] => destruct (consume n c b) as [[|] b1]
      end;
      try (match goal with
           | |- context [remaining ?n ?b] => destruct (remaining n b) as [rem b2]
           end; discriminate);
      intros [= <- <- <- <-]; cbn; repeat split; try reflexivity;
      right; repeat split; try assumption; discriminate.
Qed.

(** A server with a hundred requests in flight. *)
Definition at_capacity : Limiter := mkLimiter ∅ 100.

Definition some_tenant : Tenant.Tenant :=
  {| Tenant.id := "t1"; Tenant.name := "acme"; Tenant.strategy := "balanced";
     Tenant.allowedModels := None; Tenant.budget_limit_monthly := None;
     Tenant.rate_limit_rpm := 60; Tenant.usage_this_month := None |}.

Lemma rejection_leaves_no_trace_witness :
  429%Z = 429%Z /\ activeRequests at_capacity = activeRequests at_capacity /\
  freshResponse = freshResponse /\
  ((MAX_CONCURRENT <= activeRequests at_capacity)%Z /\
   "concurrency_limit"%string = "concurrency_limit"%string /\
   at_capacity = at_capacity
   \/
   (activeRequests at_capacity < MAX_CONCURRENT)%Z /\
   "concurrency_limit"%string = "rpm_exceeded"%string /\
   Some some_tenant <> None).
Proof.
  apply (rejection_leaves_no_trace 0 0 0 (Some some_tenant) at_capacity
           freshResponse 429 "concurrency_limit" at_capacity freshResponse).
  reflexivity.
Defined.
End TokenBucketProps.

(** ** Tenant manager: the cache and the usage counter
    ([services/tenantManager.js], [middleware/auth.js]) *)

Module TenantProps.

Import Tenant.

(** [UPDATE tenants SET usage_this_month = usage_this_month + @cost] on one
    row; the sum with a NULL usage is NULL. *)
Definition add_usage (cost : Q) (t : Tenant) : Tenant :=
  {| id := id t; name := name t; strategy := strategy t;
     allowedModels := allowedModels t;
     budget_limit_monthly := budget_limit_monthly t;
     rate_limit_rpm := rate_limit_rpm t;
     usage_this_month :=
       match usage_this_month t with
       | Some u => Some (u + cost)
       | None => None
       end |}.

(** [trackUsage(tenantId, cost)]: the update of the rows [WHERE id =
    @id], then the loop that deletes the first cache entry of that tenant
    and stops.  The loop visits the [Map] in insertion order, which the
    [gmap] does not record; the order followed here is that of
    [map_to_list]. *)
Definition trackUsage (tenantId : option string) (cost : Q)
  (tm : TenantManager) : TenantManager :=
  match tenantId with
  | None => tm
  | Some tid =>
      if negb (JS.truthy_string tid) then tm
      else
        {| db_tenants :=
             (fun t => if String.eqb (id t) tid then add_usage cost t else t)
               <$> db_tenants tm;
           tenantCache :=
             match List.find (fun p => String.eqb (id p.2) tid)
                             (map_to_list (tenantCache tm)) with
             | Some (hash, _) => delete hash (tenantCache tm)
             | None => tenantCache tm
             end |}
  end.

(** [clearCache()]. *)
Definition clearCache (tm : TenantManager) : TenantManager :=
  {| db_tenants := db_tenants tm; tenantCache := ∅ |}.

(** Every cached tenant is the row of the table under the same hash. *)
Definition coherent (tm : TenantManager) : Prop :=
  forall hash t, tenantCache tm !! hash = Some t ->
                 db_tenants tm !! hash = Some t.

(** [id] is the primary key of the table. *)
Definition unique_ids (tm : TenantManager) : Prop :=
  forall h1 h2 t1 t2,
    db_tenants tm !! h1 = Some t1 -> db_tenants tm !! h2 = Some t2 ->
    id t1 = id t2 -> h1 = h2.

Section WithHash.

Variable hashKey : string -> string.

Lemma authenticate_spec tm apiKey :
  coherent tm -> JS.truthy_string apiKey = true ->
  (authenticate hashKey tm apiKey).1 = db_tenants tm !! hashKey apiKey /\
  db_tenants (authenticate hashKey tm apiKey).2 = db_tenants tm /\
  coherent (authenticate hashKey tm apiKey).2 /\
  (forall t, (authenticate hashKey tm apiKey).1 = Some t ->
             tenantCache (authenticate hashKey tm apiKey).2
               !! hashKey apiKey = Some t) /\
  ((authenticate hashKey tm apiKey).1 = None ->
   (authenticate hashKey tm apiKey).2 = tm).
Proof.
  intros Hco Hk. unfold authenticate. rewrite Hk. cbn [negb].
  destruct (tenantCache tm !! hashKey apiKey) as [t|] eqn:Ec.
  - cbn [fst snd]. rewrite (Hco _ _ Ec).
    repeat split; try assumption; try discriminate. congruence.
  - destruct (db_tenants tm !! hashKey apiKey) as [t|] eqn:Ed; cbn [fst snd].
    + repeat split; try discriminate.
      * intros h t' Hh. cbn in Hh |- *.
        destruct (decide (h = hashKey apiKey)) as [->|Hne].
        -- rewrite lookup_insert_eq in Hh. congruence.
        -- rewrite lookup_insert_ne in Hh by congruence. apply Hco, Hh.
      * intros t' [= <-]. cbn. apply lookup_insert_eq.
    + repeat split; try assumption; discriminate.
Qed.

(** X8.  [authenticate] is a read-through cache of the table: when every
    cached tenant is the row stored under its hash, a non-empty key
    authenticates to exactly the row stored under the hash of the key (to
    nothing when there is none), the table is not written, the cache stays
    coherent, and an immediate second call gives the same answer and
    changes nothing. *)
Theorem authenticate_reads_through tm apiKey :
  coherent tm -> JS.truthy_string apiKey = true ->
  (authenticate hashKey tm apiKey).1 = db_tenants tm !! hashKey apiKey /\
  db_tenants (authenticate hashKey tm apiKey).2 = db_tenants tm /\
  coherent (authenticate hashKey tm apiKey).2 /\
  authenticate hashKey (authenticate hashKey tm apiKey).2 apiKey
    = authenticate hashKey tm apiKey.
Proof.
  intros Hco Hk.
  destruct (authenticate_spec tm apiKey Hco Hk) as (Hr & Hdb & Hco' & Hc & Hn).
  repeat split; try assumption.
  destruct (authenticate hashKey tm apiKey) as [[t|] tm'] eqn:Ea;
    cbn [fst snd] in *.
  - unfold authenticate at 1. rewrite Hk. cbn [negb].
    rewrite (Hc t eq_refl). reflexivity.
  - pose proof (Hn eq_refl) as ->. exact Ea.
Qed.

Lemma trackUsage_cache tid cost tm :
  JS.truthy_string tid = true -> coherent tm -> unique_ids tm ->
  forall h t,
    tenantCache (trackUsage (Some tid) cost tm) !! h = Some t <->
    tenantCache tm !! h = Some t /\ id t <> tid.
Proof.
  intros Htid Hco Hu h t. unfold trackUsage. rewrite Htid. cbn [negb tenantCache].
  destruct (List.find _ _) as [[h0 t0]|] eqn:Ef.
  - apply List.find_some in Ef as [Hin Hid]. cbn [snd] in Hid.
    apply String.eqb_eq in Hid.
    apply list_elem_of_In, elem_of_map_to_list in Hin.
    destruct (decide (h = h0)) as [->|Hne].
    + rewrite lookup_delete_eq. split; [discriminate|].
      intros [Hh Hn]. rewrite Hin in Hh. congruence.
    + rewrite lookup_delete_ne by congruence. split.
      * intros Hh. split; [exact Hh|]. intros Hidt. apply Hne.
        apply (Hu h h0 t t0); [apply Hco, Hh | apply Hco, Hin | congruence].
      * tauto.
  - split; [|tauto]. intros Hh. split; [exact Hh|]. intros Hidt.
    pose proof (List.find_none _ _ Ef (h, t)) as Hnone. cbn [snd] in Hnone.
    rewrite Hidt, String.eqb_refl in Hnone.
    assert (Hin : In (h, t) (map_to_list (tenantCache tm))).
    { apply list_elem_of_In, elem_of_map_to_list. exact Hh. }
    specialize (Hnone Hin). discriminate.
Qed.

Lemma trackUsage_db tid cost tm h :
  JS.truthy_string tid = true ->
  db_tenants (trackUsage (Some tid) cost tm) !! h
  = (fun t => if String.eqb (id t) tid then add_usage cost t else t)
      <$> db_tenants tm !! h.
Proof.
  intros Htid. unfold trackUsage. rewrite Htid. cbn [negb db_tenants].
  apply lookup_fmap.
Qed.

Lemma trackUsage_invariants tid cost tm :
  JS.truthy_string tid = true -> coherent tm -> unique_ids tm ->
  coherent (trackUsage (Some tid) cost tm) /\
  unique_ids (trackUsage (Some tid) cost tm).
Proof.
  intros Htid Hco Hu. split.
  - intros h t Hh. apply (trackUsage_cache tid cost tm Htid Hco Hu) in Hh
      as [Hh Hn].
    rewrite trackUsage_db by exact Htid. rewrite (Hco _ _ Hh). cbn.
    destruct (String.eqb (id t) tid) eqn:E; [|reflexivity].
    apply String.eqb_eq in E. contradiction.
  - intros h1 h2 t1 t2 H1 H2 Hid.
    rewrite trackUsage_db in H1, H2 by exact Htid.
    destruct (db_tenants tm !! h1) as [r1|] eqn:E1; [|discriminate].
    destruct (db_tenants tm !! h2) as [r2|] eqn:E2; [|discriminate].
    cbn in H1, H2. injection H1 as <-. injection H2 as <-.
    apply (Hu h1 h2 r1 r2 E1 E2).
    destruct (String.eqb (id r1) tid), (String.eqb (id r2) tid);
      exact Hid.
Qed.

(** X9.  Tracked usage reaches the budget check: with a coherent cache
    over a table where [id] is a key, after [trackUsage] for the tenant of
    a key, whether or not that tenant was cached, the next request with the
    key authenticates to the row with the cost added to its usage, and the
    auth middleware refuses it with 429 [budget_exceeded] exactly when that
    updated row is over its budget; the cache stays coherent. *)
Theorem tracked_usage_is_seen tm h apiKey t cost :
  coherent tm -> unique_ids tm ->
  extractApiKey h = Some apiKey -> JS.startsWith apiKey "fra_" = true ->
  JS.truthy_string (id t) = true ->
  db_tenants tm !! hashKey apiKey = Some t ->
  let tm1 := trackUsage (Some (id t)) cost tm in
  (authenticate hashKey tm1 apiKey).1 = Some (add_usage cost t) /\
  (createAuthMiddleware hashKey tm1 h).1
    = (if isWithinBudget (Some (add_usage cost t))
       then Next (Some (add_usage cost t))
       else Reject 429%Z "budget_exceeded") /\
  coherent (authenticate hashKey tm1 apiKey).2.
Proof.
  intros Hco Hu Hk Hfra Hid Hdb tm1.
  assert (Hkey : JS.truthy_string apiKey = true /\
                 JS.startsWith apiKey "sk-" || JS.startsWith apiKey "ant-"
                 = false).
  { apply JS.startsWith_head in Hfra as Hf. destruct Hf as [k' ->].
    split; reflexivity. }
  destruct Hkey as [Htr Hvend].
  destruct (trackUsage_invariants (id t) cost tm Hid Hco Hu) as [Hco1 Hu1].
  fold tm1 in Hco1, Hu1.
  destruct (authenticate_spec tm1 apiKey Hco1 Htr) as (Hr & _ & Hco2 & _ & _).
  assert (Hrow : db_tenants tm1 !! hashKey apiKey = Some (add_usage cost t)).
  { subst tm1. rewrite trackUsage_db by exact Hid. rewrite Hdb. cbn.
    rewrite String.eqb_refl. reflexivity. }
  rewrite Hrow in Hr. split; [exact Hr|]. split; [|exact Hco2].
  unfold createAuthMiddleware. rewrite Hk, Htr. cbn [negb].
  rewrite Hvend, Hfra.
  destruct (authenticate hashKey tm1 apiKey) as [r tm2]. cbn [fst] in Hr.
  subst r. destruct (isWithinBudget (Some (add_usage cost t))); reflexivity.
Qed.


End WithHash.

(** A table of two tenants, the first with a budget of 1 and a usage of
    0.4; the digest is taken to be the identity. *)
Definition budgeted : Tenant :=
  {| id := "t-1"; name := "acme"; strategy := "balanced";
     allowedModels := None; budget_limit_monthly := Some 1;
     rate_limit_rpm := 60%Z; usage_this_month := Some (4 # 10) |}.

Definition unbudgeted : Tenant :=
  {| id := "t-2"; name := "labs"; strategy := "cost-first";
     allowedModels := None; budget_limit_monthly := None;
     rate_limit_rpm := 60%Z; usage_this_month := Some 0 |}.

Definition two_tenants : TenantManager :=
  {| db_tenants := {[ "fra_one"%string := budgeted;
                      "fra_two"%string := unbudgeted ]};
     tenantCache := {[ "fra_one"%string := budgeted ]} |}.

Definition bearer_one : Headers :=
  {| authorization := Some "Bearer fra_one"%string; x_api_key := None |}.


Lemma two_tenants_coherent : coherent two_tenants.
Proof.
  intros h t. cbn. intros H.
  apply lookup_singleton_Some in H as [<- <-]. reflexivity.
Qed.

Lemma two_tenants_unique : unique_ids two_tenants.
Proof.
  intros h1 h2 t1 t2. cbn. intros H1 H2.
  apply lookup_insert_Some in H1 as [[<- <-] | [_ H1]];
    [|apply lookup_singleton_Some in H1 as [<- <-]];
    (apply lookup_insert_Some in H2 as [[<- <-] | [_ H2]];
     [|apply lookup_singleton_Some in H2 as [<- <-]]);
    cbn; intros Hid; try reflexivity; discriminate.
Qed.

Lemma authenticate_reads_through_witness :
  (authenticate (fun k => k) two_tenants "fra_two").1
    = db_tenants two_tenants !! "fra_two"%string /\
  db_tenants (authenticate (fun k => k) two_tenants "fra_two").2
    = db_tenants two_tenants /\
  coherent (authenticate (fun k => k) two_tenants "fra_two").2 /\
  authenticate (fun k => k)
    (authenticate (fun k => k) two_tenants "fra_two").2 "fra_two"
    = authenticate (fun k => k) two_tenants "fra_two".
Proof.
  apply (authenticate_reads_through (fun k => k) two_tenants "fra_two").
  - exact two_tenants_coherent.
  - reflexivity.
Defined.

Lemma tracked_usage_is_seen_witness :
  (authenticate (fun k => k)
     (trackUsage (Some "t-1"%string) (7 # 10) two_tenants) "fra_one").1
    = Some (add_usage (7 # 10) budgeted) /\
  (createAuthMiddleware (fun k => k)
     (trackUsage (Some "t-1"%string) (7 # 10) two_tenants) bearer_one).1
    = (if isWithinBudget (Some (add_usage (7 # 10) budgeted))
       then Next (Some (add_usage (7 # 10) budgeted))
       else Reject 429%Z "budget_exceeded") /\
  coherent (authenticate (fun k => k)
              (trackUsage (Some "t-1"%string) (7 # 10) two_tenants)
              "fra_one").2.
Proof.
  apply (tracked_usage_is_seen (fun k => k) two_tenants bearer_one "fra_one"
           budgeted (7 # 10)).
  - exact two_tenants_coherent.
  - exact two_tenants_unique.
  - reflexivity.
  - reflexivity.
  - reflexivity.
  - reflexivity.
Defined.

Example over_budget_after_tracking :
  (createAuthMiddleware (fun k => k) two_tenants bearer_one).1
    = Next (Some budgeted) /\
  (createAuthMiddleware (fun k => k)
     (trackUsage (Some "t-1"%string) (7 # 10) two_tenants) bearer_one).1
    = Reject 429%Z "budget_exceeded".
Proof. split; vm_compute; reflexivity. Qed.


End TenantProps.

(** ** Bandit engine: rewards, isolation of the tables, recomputation
    ([services/rlEngine.js]) *)

Module BanditProps.

Import RLEngine.

(** The table a call works on: the global one, or that of a tenant. *)
Definition tableOf (t : option string) (e : Engine)
  : option (gmap string Posterior) :=
  match t with
  | None => Some (globalWeights e)
  | Some k => tenantWeights e !! k
  end.

(** The call works on the table of [t]. *)
Definition call_for (t : option string) (c : Call) : bool :=
  bool_decide (tenantKey (call_tenant c) = t).

(** The rows [recomputeFromDB] uses for a model. *)
Definition rows_used (e : Engine) (feedbackRows : list Feedback)
  (modelId : string) : list Feedback :=
  slice_last (maxWindowSize e)
    (List.filter (fun row => String.eqb (model_id row) modelId) feedbackRows).

(** *** The range of the reward *)

Lemma rewardTerms_nonneg fb :
  nonnegative (quality_score fb) -> 0 <= rewardTerms fb.
Proof.
  unfold rewardTerms, successTerm, qualityTerm, latencyTerm, costTerm,
    nonnegative.
  intros Hq.
  assert (H1 : 0 <= (if flag_present (success fb)
                     then (if flag_truthy (success fb) then 1 else 0) * (4 # 10)
                     else 0))
    by (destruct (flag_present (success fb)), (flag_truthy (success fb));
        lra).
  assert (H2 : 0 <= match quality_score fb with
                    | Some q => Qmin (q / 10) 1 * (3 # 10)
                    | None => 0
                    end).
  { destruct (quality_score fb) as [q|]; [|lra].
    assert (0 <= Qmin (q / 10) 1).
    { apply Q.min_glb; [|lra]. apply Qle_shift_div_l; lra. }
    lra. }
  assert (H3 : 0 <= match latency_ms fb with
                    | Some l => Qmax 0 (1 - l / 30000) * (2 # 10)
                    | None => 0
                    end).
  { destruct (latency_ms fb) as [l|]; [|lra].
    pose proof (Q.le_max_l 0 (1 - l / 30000)). lra. }
  assert (H4 : 0 <= match cost fb with
                    | Some c => Qmax 0 (1 - c / (1 # 100)) * (1 # 10)
                    | None => 0
                    end).
  { destruct (cost fb) as [c|]; [|lra].
    pose proof (Q.le_max_l 0 (1 - c / (1 # 100))). lra. }
  lra.
Qed.

Lemma _computeReward_range fb :
  nonnegative (quality_score fb) ->
  0 <= _computeReward fb /\ _computeReward fb <= 1.
Proof.
  intros Hq. rewrite _computeReward_unfold.
  destruct (anyFactor fb); [|split; lra]. split.
  - apply Q.min_glb; [apply rewardTerms_nonneg, Hq | lra].
  - apply Q.le_min_r.
Qed.

(** X11.  The reward of a stored feedback row is a number of [0, 1] as
    soon as its quality score is not negative (or absent), whatever the
    latency and the cost, negative ones included; it is never above 1. *)
Theorem stored_reward_in_unit_interval fb :
  nonnegative (quality_score fb) ->
  0 <= _computeReward fb /\ _computeReward fb <= 1.
Proof. apply _computeReward_range. Qed.

Lemma stored_reward_in_unit_interval_witness :
  0 <= _computeReward negative_latency_feedback /\
  _computeReward negative_latency_feedback <= 1.
Proof.
  apply (stored_reward_in_unit_interval negative_latency_feedback).
  vm_compute. discriminate.
Defined.

(** A negative quality score gives a negative reward. *)
Example negative_quality_reward :
  _computeReward (mkFeedback "gpt-4o" FlagUndefined (Some (-20)) None None)
  == - (6 # 10).
Proof. reflexivity. Qed.

(** *** Isolation of the tables *)

(** Two engines with the same configuration and the same table of [t]. *)
Definition agree (t : option string) (e1 e2 : Engine) : Prop :=
  modelIds e1 = modelIds e2 /\ dampeningFactor e1 = dampeningFactor e2 /\
  maxWindowSize e1 = maxWindowSize e2 /\ tableOf t e1 = tableOf t e2.

Lemma recordFeedback_config modelId reward tenantId e :
  modelIds (recordFeedback modelId reward tenantId e) = modelIds e /\
  dampeningFactor (recordFeedback modelId reward tenantId e)
    = dampeningFactor e /\
  maxWindowSize (recordFeedback modelId reward tenantId e) = maxWindowSize e.
Proof.
  unfold recordFeedback, _getTenantWeights, putWeights.
  destruct (tenantKey tenantId) as [k|].
  - destruct (tenantWeights e !! k) as [w|];
      match goal with
      | |- context [?m !! modelId] => destruct (m !! modelId)
      end; cbn; auto.
  - destruct (globalWeights e !! modelId); cbn; auto.
Qed.

Lemma recordFeedback_other t modelId reward tenantId e :
  tenantKey tenantId <> t ->
  tableOf t (recordFeedback modelId reward tenantId e) = tableOf t e.
Proof.
  intros Hne. unfold recordFeedback, _getTenantWeights, putWeights.
  destruct (tenantKey tenantId) as [k|].
  - assert (Hk : forall m : gmap string (gmap string Posterior),
              forall v, tableOf t
                {| modelIds := modelIds e;
                   explorationFloor := explorationFloor e;
                   dampeningFactor := dampeningFactor e;
                   recomputeIntervalMs := recomputeIntervalMs e;
                   maxWindowSize := maxWindowSize e;
                   tenantWeights := <[k := v]> m;
                   globalWeights := globalWeights e |}
              = tableOf t
                {| modelIds := modelIds e;
                   explorationFloor := explorationFloor e;
                   dampeningFactor := dampeningFactor e;
                   recomputeIntervalMs := recomputeIntervalMs e;
                   maxWindowSize := maxWindowSize e;
                   tenantWeights := m;
                   globalWeights := globalWeights e |}).
    { intros m v. destruct t as [k'|]; cbn; [|reflexivity].
      apply lookup_insert_ne. congruence. }
    destruct (tenantWeights e !! k) as [w|];
      match goal with
      | |- context [?m !! modelId] => destruct (m !! modelId)
      end; cbn [modelIds explorationFloor dampeningFactor recomputeIntervalMs
                maxWindowSize tenantWeights globalWeights];
      rewrite ?Hk, ?insert_insert_eq, ?Hk; destruct e; reflexivity.
  - destruct t as [k'|]; [|congruence].
    destruct (globalWeights e !! modelId); reflexivity.
Qed.

Lemma recordFeedback_same t modelId reward tenantId e1 e2 :
  tenantKey tenantId = t -> agree t e1 e2 ->
  tableOf t (recordFeedback modelId reward tenantId e1)
  = tableOf t (recordFeedback modelId reward tenantId e2).
Proof.
  intros Ht (Hm & Hd & Hw & Htab).
  unfold recordFeedback, _getTenantWeights, putWeights. rewrite Ht.
  destruct t as [k|]; cbn [tableOf] in Htab.
  - rewrite <- Htab, <- Hm.
    destruct (tenantWeights e1 !! k) as [w|] eqn:E1.
    + destruct (w !! modelId) as [p|]; cbn.
      * rewrite !lookup_insert_eq, Hd, Hw. reflexivity.
      * rewrite E1, <- Htab. reflexivity.
    + destruct (_initWeights (modelIds e1) !! modelId) as [p|]; cbn.
      * rewrite !lookup_insert_eq, Hd, Hw. reflexivity.
      * rewrite !lookup_insert_eq. reflexivity.
  - injection Htab as Htab. rewrite <- Htab.
    destruct (globalWeights e1 !! modelId) as [p|]; cbn.
    + rewrite Hd, Hw. reflexivity.
    + rewrite Htab. reflexivity.
Qed.

Lemma runCalls_agree t calls : forall e1 e2,
  agree t e1 e2 ->
  agree t (runCalls calls e1) (runCalls (List.filter (call_for t) calls) e2).
Proof.
  induction calls as [|c calls IH]; intros e1 e2 Hag; [exact Hag|].
  cbn [List.filter]. unfold runCalls in *. cbn [foldl].
  destruct (recordFeedback_config (call_model c) (call_reward c)
              (call_tenant c) e1) as (Hm1 & Hd1 & Hw1).
  destruct Hag as (Hm & Hd & Hw & Htab).
  unfold call_for at 1. case_bool_decide as Hc.
  - cbn [foldl]. apply IH.
    destruct (recordFeedback_config (call_model c) (call_reward c)
                (call_tenant c) e2) as (Hm2 & Hd2 & Hw2).
    repeat split; try congruence.
    apply recordFeedback_same; [exact Hc|]. repeat split; assumption.
  - apply IH. repeat split; try congruence.
    rewrite recordFeedback_other by exact Hc. exact Htab.
Qed.

(** X12.  The tables are isolated from one another: after any run of
    [recordFeedback] calls, the posteriors of a tenant are what the calls
    made for that tenant alone would have produced, and the global
    posteriors are what the calls without a tenant alone would have
    produced.  Feedback given under one tenant never moves the posteriors
    of another tenant or the global ones. *)
Theorem posteriors_depend_on_own_calls calls e t :
  tableOf t (runCalls calls e)
  = tableOf t (runCalls (List.filter (call_for t) calls) e).
Proof.
  destruct (runCalls_agree t calls e e) as (_ & _ & _ & H).
  - repeat split; reflexivity.
  - exact H.
Qed.

Example tenant_feedback_leaves_global_prior :
  globalWeights
    (runCalls [ mkCall "gpt-4o" 1 (Some "tenant-a"%string);
                mkCall "gpt-4o" 0 (Some "tenant-b"%string) ]
              (new ["gpt-4o"%string] no_options))
  = _initWeights ["gpt-4o"%string].
Proof. vm_compute. reflexivity. Qed.

(** *** Recomputation from the stored rows *)

Lemma _initWeights_lookup ids modelId :
  _initWeights ids !! modelId
  = if decide (modelId ∈ ids) then Some (mkPosterior 1 1) else None.
Proof.
  unfold _initWeights.
  assert (Hgen : forall acc : gmap string Posterior,
            foldl (fun w m => <[m := mkPosterior 1 1]> w) acc ids !! modelId
            = if decide (modelId ∈ ids) then Some (mkPosterior 1 1)
              else acc !! modelId).
  { induction ids as [|i ids IH]; intros acc.
    - cbn. rewrite decide_False by (apply not_elem_of_nil). reflexivity.
    - cbn [foldl]. rewrite IH.
      destruct (decide (modelId ∈ ids)) as [Hin|Hnin].
      + rewrite decide_True by (right; exact Hin). reflexivity.
      + destruct (decide (modelId = i)) as [->|Hne].
        * rewrite decide_True by left. apply lookup_insert_eq.
        * rewrite decide_False.
          -- apply lookup_insert_ne. congruence.
          -- intros H. apply elem_of_cons in H as [?|?]; contradiction. }
  rewrite Hgen. rewrite lookup_empty. reflexivity.
Qed.

Lemma In_skipn {A} (x : A) n l : In x (skipn n l) -> In x l.
Proof.
  intros H. rewrite <- (firstn_skipn n l). apply in_or_app. right. exact H.
Qed.

Lemma In_slice_last {A} (x : A) n l : In x (slice_last n l) -> In x l.
Proof.
  unfold slice_last. destruct (_ =? 0)%Z; [auto|].
  destruct (0 <? _)%Z; apply In_skipn.
Qed.

(** The fold of [recomputeFromDB] over the rows of one model. *)
Lemma recompute_fold damp rows : forall w,
  let w' :=
    foldl (fun w fb =>
             mkPosterior (alpha w + _computeReward fb * damp)
                         (beta w + (1 - _computeReward fb) * damp)) w rows in
  alpha w' + beta w' == alpha w + beta w + damp * JS.qnat (length rows) /\
  (0 <= damp ->
   (forall fb, In fb rows -> nonnegative (quality_score fb)) ->
   alpha w <= alpha w' /\ beta w <= beta w').
Proof.
  induction rows as [|fb rows IH]; intros w; cbv zeta.
  - cbn. change (JS.qnat 0) with 0. split; [ring | intros; lra].
  - cbn [foldl length].
    destruct (IH (mkPosterior (alpha w + _computeReward fb * damp)
                              (beta w + (1 - _computeReward fb) * damp)))
      as [Hsum Hmono]. cbv zeta in Hsum, Hmono. cbn [alpha beta] in Hsum, Hmono.
    split.
    + rewrite Hsum. unfold JS.qnat.
      rewrite Nat2Z.inj_succ, <- Z.add_1_l, inject_Z_plus.
      change (inject_Z 1) with 1. ring.
    + intros Hd Hq.
      destruct (_computeReward_range fb (Hq fb (or_introl eq_refl)))
        as [H0 H1].
      destruct (Hmono Hd (fun fb' Hin => Hq fb' (or_intror Hin)))
        as [Ha Hb].
      split; nra.
Qed.

Lemma slice_last_nil {A} n : slice_last n (@nil A) = [].
Proof.
  unfold slice_last. destruct (_ =? 0)%Z; [reflexivity|].
  destruct (0 <? _)%Z; destruct (Z.to_nat _); reflexivity.
Qed.

Definition rows_of (modelId : string) (rows : list Feedback) : list Feedback :=
  List.filter (fun row => String.eqb (model_id row) modelId) rows.

(** No own property of [grouped] bears an inherited name. *)
Definition own_keys_ok (grouped : gmap string (list Feedback)) : Prop :=
  forall k, is_Some (grouped !! k) -> JS.inherited k = false.

(** The grouping loop on rows none of which names a member of
    [Object.prototype]: every group holds the rows of its model, in their
    order. *)
Lemma groupByModel_ok rows : forall grouped,
  List.Forall (fun fb => JS.inherited (model_id fb) = false) rows ->
  exists grouped',
    groupByModel rows grouped = Some grouped' /\
    forall k,
      grouped' !! k
      = match grouped !! k with
        | Some l => Some (l ++ rows_of k rows)
        | None =>
            match rows_of k rows with
            | [] => None
            | r :: rs => Some (r :: rs)
            end
        end.
Proof.
  induction rows as [|row rows IH]; intros grouped Hall.
  - exists grouped. split; [reflexivity|]. intros k. cbn.
    destruct (grouped !! k); [rewrite app_nil_r|]; reflexivity.
  - apply List.Forall_cons_iff in Hall as [Hrow Hall]. cbn [groupByModel].
    rewrite Hrow.
    assert (Hrows : forall k,
      rows_of k (row :: rows)
      = if String.eqb (model_id row) k then row :: rows_of k rows
        else rows_of k rows) by reflexivity.
    destruct (grouped !! model_id row) as [l|] eqn:El.
    + destruct (IH (<[model_id row := l ++ [row]]> grouped) Hall)
        as (g' & Hg & Hlook).
      exists g'. split; [exact Hg|]. intros k. rewrite Hlook, Hrows.
      destruct (String.eqb (model_id row) k) eqn:Ek.
      * apply String.eqb_eq in Ek. subst k. rewrite lookup_insert_eq, El.
        rewrite <- app_assoc. reflexivity.
      * apply String.eqb_neq in Ek. rewrite lookup_insert_ne by exact Ek.
        reflexivity.
    + destruct (IH (<[model_id row := [row]]> grouped) Hall)
        as (g' & Hg & Hlook).
      exists g'. split; [exact Hg|]. intros k. rewrite Hlook, Hrows.
      destruct (String.eqb (model_id row) k) eqn:Ek.
      * apply String.eqb_eq in Ek. subst k. rewrite lookup_insert_eq, El.
        reflexivity.
      * apply String.eqb_neq in Ek. rewrite lookup_insert_ne by exact Ek.
        reflexivity.
Qed.

(** The grouping loop throws as soon as a row names a member of
    [Object.prototype]. *)
Lemma groupByModel_throws rows : forall grouped,
  own_keys_ok grouped ->
  List.Exists (fun fb => JS.inherited (model_id fb) = true) rows ->
  groupByModel rows grouped = None.
Proof.
  induction rows as [|row rows IH]; intros grouped Hown Hex.
  - inversion Hex.
  - cbn [groupByModel].
    destruct (JS.inherited (model_id row)) eqn:Ei.
    + destruct (grouped !! model_id row) as [l|] eqn:El; [|reflexivity].
      rewrite (Hown (model_id row)) in Ei by (rewrite El; eauto).
      discriminate.
    + assert (Hrest : List.Exists
                        (fun fb => JS.inherited (model_id fb) = true) rows).
      { inversion Hex as [? ? H|? ? H]; subst; [congruence | exact H]. }
      assert (Hown' : forall l, own_keys_ok (<[model_id row := l]> grouped)).
      { intros l k Hk. destruct (decide (k = model_id row)) as [->|Hne];
          [exact Ei|].
        rewrite lookup_insert_ne in Hk by congruence. apply Hown, Hk. }
      destruct (grouped !! model_id row); apply IH; auto.
Qed.

Lemma recomputeFromDB_nonempty feedbackRows e :
  feedbackRows <> [] ->
  List.Forall (fun fb => JS.inherited (model_id fb) = false) feedbackRows ->
  recomputeFromDB feedbackRows e
  = Some {| modelIds := modelIds e;
            explorationFloor := explorationFloor e;
            dampeningFactor := dampeningFactor e;
            recomputeIntervalMs := recomputeIntervalMs e;
            maxWindowSize := maxWindowSize e;
            tenantWeights := tenantWeights e;
            globalWeights :=
              map_imap
                (fun modelId prior =>
                   Some (foldl (fun w fb =>
                                  mkPosterior
                                    (alpha w
                                     + _computeReward fb * dampeningFactor e)
                                    (beta w
                                     + (1 - _computeReward fb)
                                       * dampeningFactor e))
                               prior (rows_used e feedbackRows modelId)))
                (_initWeights (modelIds e)) |}.
Proof.
  intros Hne Hall. destruct feedbackRows as [|row rows]; [congruence|].
  unfold recomputeFromDB.
  destruct (groupByModel_ok (row :: rows) ∅ Hall) as (grouped & -> & Hlook).
  f_equal. f_equal. apply map_eq. intros k.
  rewrite !map_lookup_imap.
  destruct (_initWeights (modelIds e) !! k) as [prior|]; [|reflexivity].
  cbn [option_bind mbind]. cbn. f_equal.
  rewrite Hlook, lookup_empty. unfold rows_used. fold (rows_of k (row :: rows)).
  destruct (rows_of k (row :: rows)); [|reflexivity].
  rewrite slice_last_nil. reflexivity.
Qed.

(** X13.  Recomputing rebuilds the global table from the prior.  A batch in
    which some row names a member of [Object.prototype] as its model (a
    row the feedback endpoint stores as it is posted) makes the call throw,
    and nothing is rebuilt.  On a non-empty batch without such a row the
    call returns, the tenants' tables are untouched, the global table has a
    posterior for exactly the model ids of the engine, and for each of
    them [alpha + beta] is 2 plus the dampening factor times the number of
    rows used for the model (its newest [maxWindowSize] rows), no rescaling
    taking place; with a non-negative dampening factor and quality scores
    that are not negative, [alpha] and [beta] are at least 1.  An empty
    batch leaves the engine as it is. *)
Theorem recompute_rebuilds_from_prior feedbackRows e modelId :
  feedbackRows <> [] ->
  (List.Exists (fun fb => JS.inherited (model_id fb) = true) feedbackRows ->
   recomputeFromDB feedbackRows e = None) /\
  (List.Forall (fun fb => JS.inherited (model_id fb) = false) feedbackRows ->
   exists e',
     recomputeFromDB feedbackRows e = Some e' /\
     tenantWeights e' = tenantWeights e /\
     (is_Some (globalWeights e' !! modelId) <-> modelId ∈ modelIds e) /\
     (forall w, globalWeights e' !! modelId = Some w ->
        alpha w + beta w
          == 2 + dampeningFactor e
                 * JS.qnat (length (rows_used e feedbackRows modelId)) /\
        (0 <= dampeningFactor e ->
         (forall fb, In fb feedbackRows -> nonnegative (quality_score fb)) ->
         1 <= alpha w /\ 1 <= beta w))) /\
  recomputeFromDB [] e = Some e.
Proof.
  intros Hne. split; [|split; [|reflexivity]].
  { intros Hex. destruct feedbackRows as [|row rows]; [congruence|].
    unfold recomputeFromDB.
    rewrite (groupByModel_throws (row :: rows) ∅); [reflexivity | | exact Hex].
    intros k [l Hl]. rewrite lookup_empty in Hl. discriminate. }
  intros Hall. eexists. split; [apply (recomputeFromDB_nonempty _ _ Hne Hall)|].
  cbn [tenantWeights globalWeights].
  split; [reflexivity|]. rewrite map_lookup_imap, _initWeights_lookup.
  split.
  - destruct (decide (modelId ∈ modelIds e)) as [Hin|Hnin]; cbn.
    + split; [intros _; exact Hin | intros _; eexists; reflexivity].
    + split; [intros [? [=]] | contradiction].
  - intros w. destruct (decide (modelId ∈ modelIds e)) as [Hin|Hnin]; cbn;
      [|discriminate].
    intros [= <-].
    destruct (recompute_fold (dampeningFactor e)
                (rows_used e feedbackRows modelId)
                (mkPosterior 1 1)) as [Hsum Hmono].
    cbv zeta in Hsum, Hmono. cbn [alpha beta] in Hsum, Hmono. split.
    + rewrite Hsum. ring.
    + intros Hd Hq. apply Hmono; [exact Hd|].
      intros fb Hfb. apply Hq. unfold rows_used in Hfb.
      apply In_slice_last, filter_In in Hfb. tauto.
Qed.

Lemma recompute_rebuilds_from_prior_witness :
  let e := recordFeedback "gpt-4o" 1 (Some "tenant-a"%string)
             (new ["gpt-4o"%string] no_options) in
  let rows := [sample_feedback; negative_latency_feedback] in
  (List.Exists (fun fb => JS.inherited (model_id fb) = true) rows ->
   recomputeFromDB rows e = None) /\
  (List.Forall (fun fb => JS.inherited (model_id fb) = false) rows ->
   exists e',
     recomputeFromDB rows e = Some e' /\
     tenantWeights e' = tenantWeights e /\
     (is_Some (globalWeights e' !! "gpt-4o"%string)
      <-> "gpt-4o"%string ∈ modelIds e) /\
     (forall w, globalWeights e' !! "gpt-4o"%string = Some w ->
        alpha w + beta w
          == 2 + dampeningFactor e
                 * JS.qnat (length (rows_used e rows "gpt-4o")) /\
        (0 <= dampeningFactor e ->
         (forall fb, In fb rows -> nonnegative (quality_score fb)) ->
         1 <= alpha w /\ 1 <= beta w))) /\
  recomputeFromDB [] e = Some e.
Proof.
  intros e rows.
  apply (recompute_rebuilds_from_prior rows e "gpt-4o").
  discriminate.
Defined.

(** A stored row whose model is named [constructor]: the periodic
    recomputation throws on the batch and the posteriors keep their old
    values, whatever the other rows say. *)
Definition prototype_named_feedback : Feedback :=
  {| model_id := "constructor"; success := FlagNumber 1;
     quality_score := None; latency_ms := None; cost := None |}.

Example prototype_named_row_stops_recompute :
  recomputeFromDB [sample_feedback; prototype_named_feedback]
    (new ["gpt-4o"%string] no_options) = None.
Proof. vm_compute. reflexivity. Qed.
End BanditProps.

(** ** The rewards the orchestrator feeds to the bandit engine
    ([server.js]) *)

Module RewardProps.

Import RLEngine.

(** The reward computed by [POST /api/feedback] from the body of the
    request: [success !== false ? (qualityScore ? qualityScore / 10 : 0.7)
    : 0].  [qualityScore] is a number or absent. *)
Definition feedbackReward (success : Flag) (qualityScore : option Q) : Q :=
  match success with
  | FlagBoolean false => 0
  | _ =>
      match qualityScore with
      | Some q => if JS.truthy_num q then q / 10 else 7 # 10
      | None => 7 # 10
      end
  end.

Lemma computeAutoReward_range latency cost success :
  0 <= latency -> 0 <= cost ->
  0 <= Streaming.computeAutoReward latency cost success /\
  Streaming.computeAutoReward latency cost success <= 1 /\
  (success = true ->
   4 # 10 <= Streaming.computeAutoReward latency cost success).
Proof.
  intros Hl Hc. unfold Streaming.computeAutoReward.
  destruct success; cbn [negb]; [|repeat split; try lra; discriminate].
  assert (H1 : 0 <= latency / 30000) by (apply Qle_shift_div_l; lra).
  assert (H2 : 0 <= cost / (1 # 100)) by (apply Qle_shift_div_l; lra).
  pose proof (Q.le_max_l 0 (1 - latency / 30000)).
  pose proof (Q.le_max_l 0 (1 - cost / (1 # 100))).
  pose proof (Qmax0_le_1 _ H1). pose proof (Qmax0_le_1 _ H2).
  repeat split; try lra.
Qed.

(** X14.  The automatic reward is a legal reward: for a latency and a cost
    that are not negative, [computeAutoReward] is 0 on a failure and a
    number between 0.4 and 1 on a success, and feeding it to
    [recordFeedback] keeps every posterior of the engine positive and
    within the window. *)
Theorem auto_reward_is_legal latency cost success modelId tenantId e :
  0 <= latency -> 0 <= cost ->
  0 <= dampeningFactor e -> 2 <= maxWindowSize e -> engine_ok e ->
  let reward := Streaming.computeAutoReward latency cost success in
  (if success then 4 # 10 <= reward /\ reward <= 1 else reward = 0) /\
  engine_ok (recordFeedback modelId reward tenantId e).
Proof.
  intros Hl Hc Hd HW Hok reward.
  destruct (computeAutoReward_range latency cost success Hl Hc)
    as (H0 & H1 & H4).
  fold reward in H0, H1, H4. split.
  - destruct success; [split; [apply H4; reflexivity | exact H1]|].
    reflexivity.
  - apply recordFeedback_ok; auto.
Qed.

Lemma auto_reward_is_legal_witness :
  let reward := Streaming.computeAutoReward 1500 (2 # 1000) true in
  (4 # 10 <= reward /\ reward <= 1) /\
  engine_ok (recordFeedback "gpt-4o" reward None
               (new ["gpt-4o"%string] no_options)).
Proof.
  apply (auto_reward_is_legal 1500 (2 # 1000) true "gpt-4o" None
           (new ["gpt-4o"%string] no_options)).
  - vm_compute. discriminate.
  - vm_compute. discriminate.
  - vm_compute. discriminate.
  - vm_compute. discriminate.
  - apply new_ok. vm_compute. discriminate.
Defined.

(** The reward of the feedback endpoint is a legal reward exactly
    when the posted quality score is absent, zero or between 0 and 10, or
    the posted [success] is [false]: the score is divided by 10 without
    being clamped. *)
Lemma feedback_reward_legal_iff success qualityScore :
  0 <= feedbackReward success qualityScore /\
  feedbackReward success qualityScore <= 1
  <->
  success = FlagBoolean false \/
  match qualityScore with
  | Some q => 0 <= q /\ q <= 10
  | None => True
  end.
Proof.
  unfold feedbackReward.
  assert (Hq : (0 <= match qualityScore with
                     | Some q => if JS.truthy_num q then q / 10 else 7 # 10
                     | None => 7 # 10
                     end /\
                match qualityScore with
                | Some q => if JS.truthy_num q then q / 10 else 7 # 10
                | None => 7 # 10
                end <= 1)
               <-> match qualityScore with
                   | Some q => 0 <= q /\ q <= 10
                   | None => True
                   end).
  { destruct qualityScore as [q|]; [|split; [auto | intros _; split; lra]].
    destruct (JS.truthy_num q) eqn:E.
    - split.
      + intros [H0 H1]. split.
        * destruct (Qlt_le_dec q 0) as [Hneg|]; [|assumption].
          exfalso. assert (q / 10 < 0).
          { apply Qlt_shift_div_r; lra. }
          lra.
        * destruct (Qlt_le_dec 10 q) as [Hbig|]; [|assumption].
          exfalso. assert (1 < q / 10).
          { apply Qlt_shift_div_l; lra. }
          lra.
      + intros [H0 H1]. split.
        * apply Qle_shift_div_l; lra.
        * apply Qle_shift_div_r; lra.
    - apply JS.truthy_num_false in E. split; [|intros _; split; lra].
      intros _. rewrite E. split; lra. }
  destruct success as [| |n|[|]]; try (rewrite Hq; split; [auto|]);
    try (intros [[=]|H]; exact H).
  split; [auto | intros _; split; lra].
Qed.

(** Two posts with a quality score of 100 drive [beta] below zero. *)
Example unclamped_feedback_breaks_posterior :
  match globalWeights
          (recordFeedback "gpt-4o" (feedbackReward FlagUndefined (Some 100)) None
             (recordFeedback "gpt-4o"
                (feedbackReward FlagUndefined (Some 100)) None
                (new ["gpt-4o"%string] no_options)))
        !! "gpt-4o"%string with
  | Some w => beta w == - (8 # 10)
  | None => False
  end.
Proof. vm_compute. reflexivity. Qed.

End RewardProps.

(** ** The descending sort *)

Module SortFacts.

(** No element is followed by one of a larger key. *)
Fixpoint descending {A} (key : A -> Q) (l : list A) : Prop :=
  match l with
  | [] => True
  | x :: rest => (forall y, In y rest -> key y <= key x) /\ descending key rest
  end.

Lemma insert_desc_descending {A} (key : A -> Q) x l :
  descending key l -> descending key (JS.insert_desc key x l).
Proof.
  induction l as [|y l IH]; intros Hd.
  - cbn. split; [intros ? [] | exact I].
  - cbn [JS.insert_desc]. destruct Hd as [Hy Hl].
    destruct (JS.Qltb (key x) (key y)) eqn:E.
    + apply JS.Qltb_lt in E. split; [|apply IH, Hl].
      intros z Hz. apply Router.insert_desc_In in Hz as [-> | Hz];
        [lra | apply Hy, Hz].
    + apply JS.Qltb_ge in E. split; [|split; assumption].
      intros z [<- | Hz]; [exact E|].
      specialize (Hy z Hz). lra.
Qed.

Lemma sort_desc_descending {A} (key : A -> Q) l :
  descending key (JS.sort_desc key l).
Proof.
  unfold JS.sort_desc. induction l as [|x l IH]; cbn [foldr].
  - exact I.
  - apply insert_desc_descending, IH.
Qed.

Lemma insert_desc_perm {A} (key : A -> Q) x l :
  Permutation (JS.insert_desc key x l) (x :: l).
Proof.
  induction l as [|y l IH]; cbn [JS.insert_desc]; [reflexivity|].
  destruct (JS.Qltb (key x) (key y)); [|reflexivity].
  rewrite IH. apply perm_swap.
Qed.

Lemma sort_desc_perm {A} (key : A -> Q) l :
  Permutation (JS.sort_desc key l) l.
Proof.
  unfold JS.sort_desc. induction l as [|x l IH]; cbn [foldr]; [reflexivity|].
  rewrite insert_desc_perm. apply perm_skip, IH.
Qed.

(** The head of the sorted list is the first element of the input whose
    key is maximal. *)
Lemma sort_desc_head {A} (key : A -> Q) l best rest :
  JS.sort_desc key l = best :: rest ->
  exists pre post,
    l = pre ++ best :: post /\
    (forall x, In x pre -> key x < key best) /\
    (forall x, In x post -> key x <= key best).
Proof.
  revert best rest. induction l as [|x l IH]; intros best rest Hs.
  - discriminate.
  - unfold JS.sort_desc in Hs. cbn [foldr] in Hs.
    fold (JS.sort_desc key l) in Hs.
    destruct (JS.sort_desc key l) as [|y s'] eqn:Es.
    + cbn in Hs. injection Hs as <- <-.
      destruct l as [|z l].
      * exists [], []. repeat split; intros ? [].
      * exfalso. assert (Hz : In z (JS.sort_desc key (z :: l)))
          by (apply Router.sort_desc_In; left; reflexivity).
        rewrite Es in Hz. destruct Hz.
    + destruct (IH y s' eq_refl) as (pre & post & -> & Hpre & Hpost).
      cbn [JS.insert_desc] in Hs.
      destruct (JS.Qltb (key x) (key y)) eqn:E.
      * apply JS.Qltb_lt in E. injection Hs as <- <-.
        exists (x :: pre), post. repeat split.
        -- intros z [<- | Hz]; [exact E | apply Hpre, Hz].
        -- exact Hpost.
      * apply JS.Qltb_ge in E. injection Hs as <- <-.
        exists [], (pre ++ y :: post). repeat split.
        -- intros ? [].
        -- intros z Hz. apply in_app_iff in Hz as [Hz | [<- | Hz]].
           ++ specialize (Hpre z Hz). lra.
           ++ exact E.
           ++ specialize (Hpost z Hz). lra.
Qed.

End SortFacts.

(** ** Router: scores, order of the candidates, quality floor
    ([services/router.js]) *)

Module RoutingProps.

Import Router.

(** The value of a total score that is a number. *)
Definition totalOf (sc : Scored) : Q :=
  match totalScore sc with Some s => s | None => 0 end.

(** [confidence < confidenceThreshold], with a confidence that is a
    number. *)
Definition lowConfidence (classification : Classification)
  (options : Options) : bool :=
  match confidence classification with
  | Some c => JS.Qltb c (confidenceThreshold options)
  | None => false
  end.

(** The quality asked of the candidates when the confidence is low. *)
Definition adjustedMinQuality (classification : Classification) : Q :=
  Qmin (TIER_MIN_QUALITY (tier classification) + 15) 95.

(** A catalog entry and the router's inputs as the rest of the gateway
    produces them: reliabilities, error rates and bandit scores are
    numbers of [0, 1], quality scores are on the scale 0 to 100 and sample
    counts are not negative. *)
Definition model_ok (m : Model) : Prop :=
  0 <= reliability m /\ reliability m <= 1 /\
  0 <= quality_score m /\ quality_score m <= 100.

Definition unit_opt (x : option Q) : Prop :=
  match x with Some v => 0 <= v /\ v <= 1 | None => True end.

Definition options_ok (options : Options) : Prop :=
  (forall k s, rlScores options !! k = Some s -> 0 <= s /\ s <= 1) /\
  (forall k b, benchmarkMetrics options !! k = Some b ->
     unit_opt (errorRate b) /\
     match sampleCount b with Some n => 0 <= n | None => True end).

Section WithCatalog.

Variable models : list Model.

(** The candidates of a request, and the scoring function that
    [routeRequest] maps over them. *)
Definition candidatesOf (classification : Classification)
  (options : Options) : list Model :=
  (selectCandidates models classification options).1.

Definition scoreIn (classification : Classification) (strategy : string)
  (options : Options) : Model -> Scored :=
  let candidates := candidatesOf classification options in
  let costValues := map avgCostOf candidates in
  let latencyValues :=
    map (fun m => match benchmarkMetrics options !! id m with
                  | Some b => null_as_zero (avgLatencyMs b)
                  | None => avg_latency_ms m
                  end) candidates in
  let energyValues := map energy_intensity candidates in
  scoreCandidate classification (weightsFor strategy) options
    (minimum costValues) (maximum costValues)
    (minimum latencyValues) (maximum latencyValues)
    (minimum energyValues) (maximum energyValues).

Lemma routeRequest_unfold classification strategy options :
  routeRequest models classification strategy options
  = match JS.sort_by scoredAfter
            (map (scoreIn classification strategy options)
                 (candidatesOf classification options)) with
    | [] => (None, (selectCandidates models classification options).2)
    | best :: rest =>
        (Some {| selectedModel := modelData best;
                 selectedModelId := s_id best;
                 score := totalScore best;
                 scoreBreakdown := breakdown best;
                 allCandidates := best :: rest;
                 r_classification := classification;
                 r_strategy := strategy |},
         (selectCandidates models classification options).2
           ++ [(info, "Routing decision"%string)])
    end.
Proof.
  unfold routeRequest, scoreIn, candidatesOf.
  destruct (selectCandidates models classification options)
    as [candidates logs].
  cbn [fst snd]. destruct (JS.sort_by scoredAfter _); reflexivity.
Qed.

Lemma modelData_scoreIn classification strategy options m :
  modelData (scoreIn classification strategy options m) = m.
Proof. reflexivity. Qed.

(** What a successful routing returns, in terms of the candidates. *)
Lemma routeRequest_Some classification strategy options r logs :
  routeRequest models classification strategy options = (Some r, logs) ->
  allCandidates r
    = JS.sort_by scoredAfter
        (map (scoreIn classification strategy options)
             (candidatesOf classification options)) /\
  exists best rest,
    allCandidates r = best :: rest /\ selectedModel r = modelData best /\
    selectedModelId r = s_id best /\ score r = totalScore best.
Proof.
  rewrite routeRequest_unfold.
  destruct (JS.sort_by scoredAfter _) as [|best rest] eqn:Es;
    [discriminate|].
  intros [= <- _]. cbn. split; [reflexivity|].
  exists best, rest. auto.
Qed.

(** Whether the total scores are numbers is decided by the strategy
    alone. *)
Lemma totalScore_scoreIn classification strategy options m :
  totalScore (scoreIn classification strategy options m)
  = match weightsFor strategy with
    | Some _ => Some (totalOf (scoreIn classification strategy options m))
    | None => None
    end.
Proof.
  unfold totalOf, scoreIn, scoreCandidate. cbv zeta. cbn [totalScore].
  destruct (weightsFor strategy); reflexivity.
Qed.

(** On total scores that are numbers the comparator sorts in descending
    order. *)
Lemma insert_by_numbers x (s : list Scored) :
  totalScore x = Some (totalOf x) ->
  (forall sc, In sc s -> totalScore sc = Some (totalOf sc)) ->
  JS.insert_by scoredAfter x s = JS.insert_desc totalOf x s.
Proof.
  intros Hx. induction s as [|y s IHs]; intros Hs; [reflexivity|].
  cbn [JS.insert_by JS.insert_desc]. unfold scoredAfter at 1.
  rewrite Hx, (Hs y (or_introl eq_refl)).
  rewrite IHs by (intros sc Hsc; apply Hs; right; exact Hsc).
  reflexivity.
Qed.

Lemma sort_by_numbers (l : list Scored) :
  (forall sc, In sc l -> totalScore sc = Some (totalOf sc)) ->
  JS.sort_by scoredAfter l = JS.sort_desc totalOf l.
Proof.
  unfold JS.sort_by, JS.sort_desc.
  induction l as [|x l IH]; intros Hnum; [reflexivity|]. cbn [foldr].
  rewrite IH by (intros sc Hsc; apply Hnum; right; exact Hsc).
  apply insert_by_numbers; [apply Hnum; left; reflexivity|].
  intros sc Hsc. apply Hnum. right.
  apply (Router.sort_desc_In totalOf sc l). exact Hsc.
Qed.

(** On total scores that are all [NaN] the sort leaves the order as it
    is. *)
Lemma sort_by_nan (l : list Scored) :
  (forall sc, In sc l -> totalScore sc = None) ->
  JS.sort_by scoredAfter l = l.
Proof.
  unfold JS.sort_by. induction l as [|x l IH]; intros Hnan; [reflexivity|].
  cbn [foldr]. rewrite IH by (intros sc Hsc; apply Hnan; right; exact Hsc).
  destruct l as [|y l]; [reflexivity|]. cbn [JS.insert_by].
  unfold scoredAfter. rewrite (Hnan x (or_introl eq_refl)). reflexivity.
Qed.

Lemma candidatesOf_models classification options m :
  In m (candidatesOf classification options) -> In m models.
Proof.
  unfold candidatesOf.
  pose proof (selectCandidates_spec models classification options) as H.
  destruct (selectCandidates models classification options)
    as [candidates logs]. cbn [fst]. destruct H as [Hv Hn].
  destruct (viable models options) as [|v vs] eqn:Ev.
  - destruct (Hn eq_refl) as [-> _]. auto.
  - destruct Hv as (_ & Hsub & _); [discriminate|].
    intros Hm. specialize (Hsub m Hm). rewrite <- Ev in Hsub.
    apply viable_closed in Hsub. tauto.
Qed.

(** X15.  The best candidate comes first.  In a routing, [allCandidates]
    holds every candidate exactly once.  Under a strategy that names no
    member of [Object.prototype] every total score is a number, the
    candidates stand in descending order of total score, the selected model
    has the highest total score, and among the candidates that reach that
    score it is the first in catalog order: every candidate before it
    scores strictly less.  Under a strategy that names a member of
    [Object.prototype] (the strategy is taken from the request as it is)
    every total score is [NaN], the candidates keep their catalog order and
    the first of them is selected. *)
Theorem best_candidate_first classification strategy options r logs :
  routeRequest models classification strategy options = (Some r, logs) ->
  Permutation (map modelData (allCandidates r))
              (candidatesOf classification options) /\
  (JS.inherited strategy = false ->
   (forall sc, In sc (allCandidates r) -> totalScore sc = Some (totalOf sc)) /\
   SortFacts.descending totalOf (allCandidates r) /\
   (exists best,
      score r = Some best /\
      (forall sc, In sc (allCandidates r) -> totalOf sc <= best) /\
      exists pre post,
        candidatesOf classification options = pre ++ selectedModel r :: post /\
        (forall m, In m pre ->
           totalOf (scoreIn classification strategy options m) < best) /\
        (forall m, In m post ->
           totalOf (scoreIn classification strategy options m) <= best))) /\
  (weightsFor strategy = None ->
   score r = None /\
   (forall sc, In sc (allCandidates r) -> totalScore sc = None) /\
   map modelData (allCandidates r) = candidatesOf classification options /\
   exists rest, candidatesOf classification options = selectedModel r :: rest).
Proof.
  intros Hr. apply routeRequest_Some in Hr as (Hall & best & rest & Hbr & Hsel
                                               & _ & Hscore).
  set (scored := map (scoreIn classification strategy options)
                     (candidatesOf classification options)) in *.
  assert (Hmd : map modelData scored = candidatesOf classification options).
  { unfold scored. rewrite map_map.
    rewrite (map_ext _ (fun m => m)) by (intros; reflexivity).
    apply map_id. }
  split; [|split].
  { rewrite Hall.
    assert (Hp : forall l : list Scored,
               Permutation (JS.sort_by scoredAfter l) l).
    { unfold JS.sort_by. induction l as [|x l IH]; cbn [foldr]; [reflexivity|].
      etransitivity; [|apply perm_skip, IH].
      generalize (foldr (JS.insert_by scoredAfter) [] l). intros s.
      induction s as [|y s IHs]; cbn [JS.insert_by]; [reflexivity|].
      destruct (scoredAfter x y); [|reflexivity].
      rewrite IHs. apply perm_swap. }
    rewrite (Hp scored), Hmd. reflexivity. }
  - intros Hown.
    assert (Hw : exists w, weightsFor strategy = Some w).
    { unfold weightsFor. rewrite Hown.
      destruct (assoc strategy STRATEGY_WEIGHTS); eauto. }
    destruct Hw as [w Hw].
    assert (Hnum : forall sc, In sc scored ->
                     totalScore sc = Some (totalOf sc)).
    { intros sc Hsc. apply in_map_iff in Hsc as (m & <- & _).
      rewrite totalScore_scoreIn, Hw. reflexivity. }
    rewrite (sort_by_numbers scored Hnum) in Hall.
    assert (Hnum' : forall sc, In sc (allCandidates r) ->
                      totalScore sc = Some (totalOf sc)).
    { intros sc Hsc. apply Hnum. rewrite Hall in Hsc.
      apply (Router.sort_desc_In totalOf sc scored). exact Hsc. }
    split; [exact Hnum'|].
    split; [rewrite Hall; apply SortFacts.sort_desc_descending|].
    exists (totalOf best).
    split; [rewrite Hscore; apply Hnum'; rewrite Hbr; left; reflexivity|].
    split.
    { pose proof (SortFacts.sort_desc_descending totalOf scored) as Hd.
      rewrite <- Hall, Hbr in Hd. destruct Hd as [Hd _].
      rewrite Hbr. intros sc [<- | Hsc]; [lra | apply Hd, Hsc]. }
    rewrite Hbr in Hall. symmetry in Hall.
    apply SortFacts.sort_desc_head in Hall
      as (spre & spost & Hsplit & Hpre & Hpost).
    apply List.map_eq_app in Hsplit as (pre & tl & Hc & Hmpre & Hmtl).
    apply List.map_eq_cons in Hmtl as (m & post & -> & Hm & Hmpost).
    exists pre, post. rewrite Hsel, <- Hm. split; [exact Hc|]. split.
    + intros m' Hm'. rewrite Hm. apply Hpre. rewrite <- Hmpre.
      apply in_map, Hm'.
    + intros m' Hm'. rewrite Hm. apply Hpost. rewrite <- Hmpost.
      apply in_map, Hm'.
  - intros Hw.
    assert (Hnan : forall sc, In sc scored -> totalScore sc = None).
    { intros sc Hsc. apply in_map_iff in Hsc as (m & <- & _).
      rewrite totalScore_scoreIn, Hw. reflexivity. }
    rewrite (sort_by_nan scored Hnan) in Hall.
    split; [rewrite Hscore; apply Hnan; rewrite <- Hall, Hbr; left;
            reflexivity|].
    split; [rewrite Hall; exact Hnan|].
    split; [rewrite Hall; exact Hmd|].
    rewrite <- Hmd, <- Hall, Hbr, Hsel. cbn [map]. eauto.
Qed.

(** *** The range of the scores *)

Lemma normalizeMinMax_unit value min max :
  0 <= normalizeMinMax value min max /\ normalizeMinMax value min max <= 1.
Proof.
  unfold normalizeMinMax. destruct (Qeq_bool max min); [split; lra|].
  split; [apply Q.le_max_l|].
  apply Q.max_lub; [lra | apply Q.le_min_l].
Qed.

Lemma invertNormalize_unit value min max :
  0 <= invertNormalize value min max /\ invertNormalize value min max <= 1.
Proof.
  unfold invertNormalize.
  destruct (normalizeMinMax_unit value min max). split; lra.
Qed.

Lemma blendWithBaseline_unit observed baseline sampleCount :
  0 <= sampleCount -> 0 <= observed -> observed <= 1 ->
  0 <= baseline -> baseline <= 1 ->
  0 <= blendWithBaseline observed baseline sampleCount /\
  blendWithBaseline observed baseline sampleCount <= 1.
Proof.
  intros Hn Ho0 Ho1 Hb0 Hb1. unfold blendWithBaseline, MIN_BENCHMARK_SAMPLES.
  set (coeff := Qmin (sampleCount / 20) 1).
  assert (Hc0 : 0 <= coeff).
  { apply Q.min_glb; [|lra]. apply Qle_shift_div_l; lra. }
  assert (Hc1 : coeff <= 1) by apply Q.le_min_r.
  split; nra.
Qed.

Lemma qualityMatchScore_unit intent modelStrengths baseQuality :
  0 <= baseQuality -> baseQuality <= 100 ->
  0 <= qualityMatchScore intent modelStrengths baseQuality /\
  qualityMatchScore intent modelStrengths baseQuality <= 1.
Proof.
  intros H0 H1.
  assert (Hb : 0 <= baseQuality / 100 /\ baseQuality / 100 <= 1).
  { split; [apply Qle_shift_div_l | apply Qle_shift_div_r]; lra. }
  unfold qualityMatchScore. destruct modelStrengths as [have|]; [|exact Hb].
  destruct (negb (JS.truthy_string intent)); [exact Hb|].
  split; [|apply Q.le_min_l]. apply Q.min_glb; [lra|].
  match goal with
  | |- 0 <= _ + ?bonus => assert (Hbonus : 0 <= bonus)
  end.
  { destruct (0 <? _)%nat eqn:E; [|lra].
    apply Nat.ltb_lt in E.
    match goal with
    | |- 0 <= JS.qnat ?a / JS.qnat ?b * _ =>
        assert (Ha : 0 <= JS.qnat a)
          by (unfold JS.qnat; change 0 with (inject_Z 0);
              rewrite <- Zle_Qle; lia);
        assert (Hlen : 0 < JS.qnat b)
          by (unfold JS.qnat; change 0 with (inject_Z 0);
              rewrite <- Zlt_Qlt; lia);
        assert (Hdiv : 0 <= JS.qnat a / JS.qnat b)
          by (apply Qle_shift_div_l; lra)
    end.
    lra. }
  lra.
Qed.

Definition weights_ok (w : Weights) : Prop :=
  0 <= w_cost w /\ 0 <= w_quality w /\ 0 <= w_latency w /\
  0 <= w_energy w /\ 0 <= w_reliability w /\ 0 <= w_rl w /\
  w_cost w + w_quality w + w_latency w + w_energy w + w_reliability w
  + w_rl w == 1.

(** The weights found for a strategy, whenever weights are found, are not
    negative and add up to 1. *)
Lemma weightsFor_ok strategy w :
  weightsFor strategy = Some w -> weights_ok w.
Proof.
  unfold weightsFor, STRATEGY_WEIGHTS. cbn [assoc].
  repeat (destruct (String.eqb _ strategy);
          [intros [= <-]; unfold weights_ok; cbn; repeat split; lra|]).
  destruct (JS.inherited strategy); [discriminate|].
  intros [= <-]. unfold weights_ok; cbn; repeat split; lra.
Qed.

Lemma weighted_term w s :
  0 <= w -> 0 <= s -> s <= 1 -> 0 <= w * s /\ w * s <= w.
Proof. intros. split; nra. Qed.

Lemma scoreCandidate_unit classification weights options
      cmin cmax lmin lmax emin emax m :
  weights_ok weights -> options_ok options -> model_ok m ->
  exists s,
    totalScore (scoreCandidate classification (Some weights) options
                  cmin cmax lmin lmax emin emax m) = Some s /\
    0 <= s /\ s <= 1.
Proof.
  intros (W1 & W2 & W3 & W4 & W5 & W6 & Wsum) [Hrl Hbm]
         (Hr0 & Hr1 & Hq0 & Hq1).
  unfold scoreCandidate. cbv zeta. cbn [totalScore option_map].
  eexists. split; [reflexivity|].
  apply JSFacts.round3_unit.
  - pose proof (invertNormalize_unit (avgCostOf m) cmin cmax) as [? ?].
    pose proof (qualityMatchScore_unit (intent classification) (strengths m)
                  (quality_score m) Hq0 Hq1) as [? ?].
    match goal with
    | |- context [w_latency weights * invertNormalize ?v lmin lmax] =>
        pose proof (invertNormalize_unit v lmin lmax) as [? ?]
    end.
    pose proof (invertNormalize_unit (energy_intensity m) emin emax) as [? ?].
    match goal with
    | |- context [w_reliability weights * ?rel] =>
        assert (Hrel : 0 <= rel /\ rel <= 1)
    end.
    { destruct (benchmarkMetrics options !! id m) as [b|] eqn:Eb;
        [|split; assumption].
      destruct (Hbm _ _ Eb) as [He Hn].
      destruct (errorRate b) as [e|]; [|split; assumption].
      cbn in He. destruct He as [He0 He1].
      apply blendWithBaseline_unit; try assumption; try lra.
      unfold JS.num_or. destruct (sampleCount b) as [n|]; [|lra].
      destruct (JS.truthy_num n); [exact Hn | lra]. }
    match goal with
    | |- context [w_rl weights * ?rl] =>
        assert (Hrlv : 0 <= rl /\ rl <= 1)
    end.
    { unfold JS.num_or.
      destruct (rlScores options !! id m) as [s|] eqn:Es; [|split; lra].
      destruct (JS.truthy_num s); [apply (Hrl _ _ Es) | split; lra]. }
    destruct Hrel, Hrlv.
    repeat match goal with
           | |- context [?w * ?s] =>
               lazymatch goal with
               | _ : 0 <= w * s |- _ => fail
               | _ => pose proof (proj1 (weighted_term w s ltac:(assumption)
                                           ltac:(assumption) ltac:(assumption)))
               end
           end.
    lra.
  - pose proof (invertNormalize_unit (avgCostOf m) cmin cmax) as [? ?].
    pose proof (qualityMatchScore_unit (intent classification) (strengths m)
                  (quality_score m) Hq0 Hq1) as [? ?].
    match goal with
    | |- context [w_latency weights * invertNormalize ?v lmin lmax] =>
        pose proof (invertNormalize_unit v lmin lmax) as [? ?]
    end.
    pose proof (invertNormalize_unit (energy_intensity m) emin emax) as [? ?].
    match goal with
    | |- context [w_reliability weights * ?rel] =>
        assert (Hrel : 0 <= rel /\ rel <= 1)
    end.
    { destruct (benchmarkMetrics options !! id m) as [b|] eqn:Eb;
        [|split; assumption].
      destruct (Hbm _ _ Eb) as [He Hn].
      destruct (errorRate b) as [e|]; [|split; assumption].
      cbn in He. destruct He as [He0 He1].
      apply blendWithBaseline_unit; try assumption; try lra.
      unfold JS.num_or. destruct (sampleCount b) as [n|]; [|lra].
      destruct (JS.truthy_num n); [exact Hn | lra]. }
    match goal with
    | |- context [w_rl weights * ?rl] =>
        assert (Hrlv : 0 <= rl /\ rl <= 1)
    end.
    { unfold JS.num_or.
      destruct (rlScores options !! id m) as [s|] eqn:Es; [|split; lra].
      destruct (JS.truthy_num s); [apply (Hrl _ _ Es) | split; lra]. }
    destruct Hrel, Hrlv.
    nra.
Qed.

(** X16.  Every score is a number of [0, 1]: for a catalog whose
    reliabilities are in [0, 1] and whose quality scores are between 0 and
    100, bandit scores and benchmark error rates in [0, 1] and sample
    counts that are not negative, the total score of the selected model and
    of every candidate of a routing is a number between 0 and 1, under
    every strategy name, known or not, that is not the name of a member of
    [Object.prototype]. *)
Theorem scores_in_unit_interval classification strategy options r logs :
  JS.inherited strategy = false ->
  (forall m, In m models -> model_ok m) -> options_ok options ->
  routeRequest models classification strategy options = (Some r, logs) ->
  (exists s, score r = Some s /\ 0 <= s /\ s <= 1) /\
  forall sc, In sc (allCandidates r) ->
             exists s, totalScore sc = Some s /\ 0 <= s /\ s <= 1.
Proof.
  intros Hown Hmodels Hopt Hr.
  assert (Hw : exists w, weightsFor strategy = Some w).
  { unfold weightsFor. rewrite Hown.
    destruct (assoc strategy STRATEGY_WEIGHTS); eauto. }
  destruct Hw as [w Hw].
  apply routeRequest_Some in Hr as (Hall & best & rest & Hbr & _ & _ & Hscore).
  assert (Hcand : forall sc, In sc (allCandidates r) ->
                    exists s, totalScore sc = Some s /\ 0 <= s /\ s <= 1).
  { intros sc Hsc. rewrite Hall in Hsc.
    apply sort_by_In, in_map_iff in Hsc as (m & <- & Hm).
    unfold scoreIn. cbv zeta. rewrite Hw. apply scoreCandidate_unit.
    - apply (weightsFor_ok strategy), Hw.
    - exact Hopt.
    - apply Hmodels. eapply candidatesOf_models, Hm. }
  split; [|exact Hcand].
  rewrite Hscore. apply Hcand. rewrite Hbr. left. reflexivity.
Qed.

(** *** The quality floor *)

Lemma adjusted_above_minimum classification :
  TIER_MIN_QUALITY (tier classification) <= adjustedMinQuality classification.
Proof.
  unfold adjustedMinQuality.
  destruct (tier classification) as [[| | | |]|]; cbn; apply Q.min_glb; lra.
Qed.

Lemma candidatesOf_quality classification options m0 :
  In m0 (viable models options) ->
  TIER_MIN_QUALITY (tier classification) <= quality_score m0 ->
  candidatesOf classification options <> [] /\
  (forall m, In m (candidatesOf classification options) ->
     In m (viable models options) /\
     TIER_MIN_QUALITY (tier classification) <= quality_score m) /\
  (lowConfidence classification options = true ->
   adjustedMinQuality classification <= quality_score m0 ->
   forall m, In m (candidatesOf classification options) ->
     adjustedMinQuality classification <= quality_score m).
Proof.
  intros Hv Hq. unfold candidatesOf, selectCandidates.
  fold (viable models options).
  change (match confidence classification with
          | Some c => JS.Qltb c (confidenceThreshold options)
          | None => false
          end) with (lowConfidence classification options).
  change (Qmin (TIER_MIN_QUALITY (tier classification) + 15) 95)
    with (adjustedMinQuality classification).
  set (minQuality := TIER_MIN_QUALITY (tier classification)) in *.
  set (qualityCandidates :=
         List.filter (fun m => JS.Qgeb (quality_score m) minQuality)
                     (viable models options)).
  assert (Hq0 : In m0 qualityCandidates).
  { apply filter_In. split; [exact Hv | apply JS.Qgeb_ge, Hq]. }
  assert (Hqc : forall m, In m qualityCandidates ->
                  In m (viable models options) /\ minQuality <= quality_score m).
  { intros m Hm. apply filter_In in Hm as [? Hm].
    apply JS.Qgeb_ge in Hm. auto. }
  assert (E : (0 <? length qualityCandidates)%nat = true).
  { destruct qualityCandidates; [destruct Hq0 | reflexivity]. }
  rewrite E.
  set (safe := List.filter
                 (fun m => JS.Qgeb (quality_score m)
                                   (adjustedMinQuality classification))
                 qualityCandidates).
  assert (Hsafe : forall m, In m safe ->
                    In m qualityCandidates /\
                    adjustedMinQuality classification <= quality_score m).
  { intros m Hm. apply filter_In in Hm as [? Hm].
    apply JS.Qgeb_ge in Hm. auto. }
  destruct (lowConfidence classification options) eqn:Elow.
  - destruct (0 <? length safe)%nat eqn:Es.
    + assert (Hne : safe <> []) by (destruct safe; [discriminate | congruence]).
      assert (El : (length safe =? 0)%nat = false)
        by (destruct safe; [congruence | reflexivity]).
      rewrite El. cbn [fst]. split; [exact Hne|]. split.
      * intros m Hm. apply Hqc, Hsafe, Hm.
      * intros _ _ m Hm. apply Hsafe, Hm.
    + assert (Hnil : safe = []) by (destruct safe; [reflexivity | discriminate]).
      assert (El : (length qualityCandidates =? 0)%nat = false)
        by (destruct qualityCandidates; [destruct Hq0 | reflexivity]).
      rewrite El. cbn [fst].
      split; [intros Hc; rewrite Hc in Hq0; destruct Hq0|].
      split; [exact Hqc|].
      intros _ Hadj. exfalso.
      assert (Hin : In m0 safe).
      { apply filter_In. split; [exact Hq0 | apply JS.Qgeb_ge, Hadj]. }
      rewrite Hnil in Hin. destruct Hin.
  - assert (El : (length qualityCandidates =? 0)%nat = false)
      by (destruct qualityCandidates; [destruct Hq0 | reflexivity]).
    rewrite El. cbn [fst].
    split; [intros Hc; rewrite Hc in Hq0; destruct Hq0|].
    split; [exact Hqc | discriminate].
Qed.

(** X17.  The quality floor of the tier: when some model that passes the
    allowlist and the circuit filter has the minimum quality of the tier
    (0, 0, 60, 80, 90 from trivial to expert), the routing succeeds and
    every candidate, the selected model included, passes both filters and
    has at least that quality; if moreover the confidence is below the
    threshold and that model has the raised minimum (15 more, at most 95),
    every candidate has at least the raised minimum. *)
Theorem quality_floor_respected classification strategy options m0 :
  In m0 (viable models options) ->
  TIER_MIN_QUALITY (tier classification) <= quality_score m0 ->
  exists r logs,
    routeRequest models classification strategy options = (Some r, logs) /\
    In (selectedModel r) (map modelData (allCandidates r)) /\
    (forall sc, In sc (allCandidates r) ->
       In (modelData sc) (viable models options) /\
       TIER_MIN_QUALITY (tier classification)
         <= quality_score (modelData sc)) /\
    (lowConfidence classification options = true ->
     adjustedMinQuality classification <= quality_score m0 ->
     forall sc, In sc (allCandidates r) ->
       adjustedMinQuality classification <= quality_score (modelData sc)).
Proof.
  intros Hv Hq.
  destruct (candidatesOf_quality classification options m0 Hv Hq)
    as (Hne & Hmin & Hadj).
  pose proof (routeRequest_selects models classification strategy options)
    as Hsel.
  unfold candidatesOf in Hne.
  destruct (selectCandidates models classification options)
    as [candidates lg] eqn:Ec. cbn [fst] in Hne.
  destruct (Hsel Hne) as (r & Hr & _).
  exists r, (lg ++ [(info, "Routing decision"%string)]).
  split; [exact Hr|].
  apply routeRequest_Some in Hr as (Hall & best & rest & Hbr & Hsm & _).
  assert (Hin : forall sc, In sc (allCandidates r) ->
                  In (modelData sc) (candidatesOf classification options)).
  { intros sc Hsc. rewrite Hall in Hsc.
    apply sort_by_In, in_map_iff in Hsc as (m & <- & Hm). exact Hm. }
  split; [|split].
  - rewrite Hsm, Hbr. left. reflexivity.
  - intros sc Hsc. apply Hmin, Hin, Hsc.
  - intros Hlow Ha sc Hsc. apply (Hadj Hlow Ha), Hin, Hsc.
Qed.

End WithCatalog.

(** The two-model catalog with every circuit closed. *)
Lemma two_models_ok m : In m two_models -> model_ok m.
Proof.
  intros [<- | [<- | []]]; unfold model_ok; cbn; repeat split; lra.
Qed.

Lemma default_options_ok : options_ok default_options.
Proof.
  split; intros k v; cbn; rewrite lookup_empty; discriminate.
Qed.

Lemma best_candidate_first_witness :
  exists r logs,
    routeRequest two_models trivial_prompt "cost-first" default_options
      = (Some r, logs) /\
    Permutation (map modelData (allCandidates r))
                (candidatesOf two_models trivial_prompt default_options) /\
    (JS.inherited "cost-first" = false ->
     (forall sc, In sc (allCandidates r) ->
        totalScore sc = Some (totalOf sc)) /\
     SortFacts.descending totalOf (allCandidates r) /\
     (exists best,
        score r = Some best /\
        (forall sc, In sc (allCandidates r) -> totalOf sc <= best) /\
        exists pre post,
          candidatesOf two_models trivial_prompt default_options
            = pre ++ selectedModel r :: post /\
          (forall m, In m pre ->
             totalOf (scoreIn two_models trivial_prompt "cost-first"
                        default_options m) < best) /\
          (forall m, In m post ->
             totalOf (scoreIn two_models trivial_prompt "cost-first"
                        default_options m) <= best))) /\
    (weightsFor "cost-first" = None ->
     score r = None /\
     (forall sc, In sc (allCandidates r) -> totalScore sc = None) /\
     map modelData (allCandidates r)
     = candidatesOf two_models trivial_prompt default_options /\
     exists rest,
       candidatesOf two_models trivial_prompt default_options
       = selectedModel r :: rest).
Proof.
  eexists. eexists. split; [vm_compute; reflexivity|].
  eapply (best_candidate_first two_models trivial_prompt "cost-first"
            default_options).
  vm_compute. reflexivity.
Defined.

(** A request that names [constructor] as its strategy: the weights are
    those of the inherited member, every total score is [NaN], and the
    first model of the catalog is selected, where an unknown strategy of
    any other name weighs with the balanced weights and selects the other
    model. *)
Example prototype_named_strategy :
  (fun o => match o with
            | Some r => (selectedModelId r, score r,
                         map totalScore (allCandidates r))
            | None => (""%string, None, [])
            end)
    (routeRequest [large_model; small_model] trivial_prompt "constructor"
       default_options).1
  = ("claude-3-opus"%string, None, [None; None]) /\
  (fun o => match o with Some r => selectedModelId r | None => ""%string end)
    (routeRequest [large_model; small_model] trivial_prompt
       "no-such-strategy" default_options).1
  = "gpt-4o-mini"%string.
Proof. vm_compute. split; reflexivity. Qed.

Lemma scores_in_unit_interval_witness :
  exists r logs,
    routeRequest two_models trivial_prompt "green-first" default_options
      = (Some r, logs) /\
    (exists s, score r = Some s /\ 0 <= s /\ s <= 1) /\
    forall sc, In sc (allCandidates r) ->
               exists s, totalScore sc = Some s /\ 0 <= s /\ s <= 1.
Proof.
  eexists. eexists. split; [vm_compute; reflexivity|].
  eapply (scores_in_unit_interval two_models trivial_prompt "green-first"
            default_options).
  - reflexivity.
  - exact two_models_ok.
  - exact default_options_ok.
  - vm_compute. reflexivity.
Defined.

(** An expert prompt classified with little confidence. *)
Definition unsure_expert_prompt : Classification :=
  mkClassification (Some Classifier.expert) (Some (3 # 10)) "code".

Lemma quality_floor_respected_witness :
  exists r logs,
    routeRequest two_models unsure_expert_prompt "cost-first" default_options
      = (Some r, logs) /\
    In (selectedModel r) (map modelData (allCandidates r)) /\
    (forall sc, In sc (allCandidates r) ->
       In (modelData sc) (viable two_models default_options) /\
       TIER_MIN_QUALITY (tier unsure_expert_prompt)
         <= quality_score (modelData sc)) /\
    (lowConfidence unsure_expert_prompt default_options = true ->
     adjustedMinQuality unsure_expert_prompt <= quality_score large_model ->
     forall sc, In sc (allCandidates r) ->
       adjustedMinQuality unsure_expert_prompt
         <= quality_score (modelData sc)).
Proof.
  apply (quality_floor_respected two_models unsure_expert_prompt "cost-first"
           default_options large_model).
  - right. left. reflexivity.
  - vm_compute. discriminate.
Defined.

Example expert_prompt_goes_to_large_model :
  (fun o => match o with Some r => map s_id (allCandidates r) | None => [] end)
    (routeRequest two_models unsure_expert_prompt "cost-first"
       default_options).1
  = ["claude-3-opus"%string].
Proof. vm_compute. reflexivity. Qed.

(** *** The router behind the breaker registry *)

(** The options of a request, with the circuit states read off the
    registry as the orchestrator does. *)
Definition with_breakers (clock : string -> Z * Z)
  (breakers : BreakerLifecycle.Registry) (options : Options) : Options :=
  {| rlScores := rlScores options;
     benchmarkMetrics := benchmarkMetrics options;
     breakerStates :=
       BreakerLifecycle.breakerStatesOf
         (BreakerLifecycle.getAllBreakerMetrics clock breakers).1;
     tenantAllowedModels := tenantAllowedModels options;
     confidenceThreshold := confidenceThreshold options |}.

Lemma with_breakers_lookup clock breakers options k :
  breakerStates (with_breakers clock breakers options) !! k
  = CircuitBreaker.state <$> breakers !! k.
Proof.
  unfold with_breakers, BreakerLifecycle.breakerStatesOf,
    BreakerLifecycle.getAllBreakerMetrics. cbn [breakerStates fst].
  rewrite lookup_fmap, map_lookup_imap.
  unfold BreakerLifecycle.Registry in *.
  destruct (breakers !! k) as [b|]; reflexivity.
Qed.

(** X18.  An OPEN breaker keeps its provider out of the routing for as long
    as it is OPEN, whatever the clock says: when the registry holds an
    OPEN breaker under a provider name (and no breaker under a model id),
    and some model passes the filters, no candidate of the routing and in
    particular not the selected model belongs to that provider.  The
    metrics report the stored state, so that an elapsed cooldown alone
    does not bring the provider back. *)
Theorem open_breaker_excludes_provider models classification strategy options
        clock breakers p b :
  breakers !! p = Some b -> CircuitBreaker.state b = CircuitBreaker.OPEN ->
  (forall m, In m models -> breakers !! id m = None) ->
  viable models (with_breakers clock breakers options) <> [] ->
  exists r logs,
    routeRequest models classification strategy
      (with_breakers clock breakers options) = (Some r, logs) /\
    provider (selectedModel r) <> p /\
    forall sc, In sc (allCandidates r) -> provider (modelData sc) <> p.
Proof.
  intros Hb Hopen Hids Hv.
  set (options' := with_breakers clock breakers options) in *.
  pose proof (selectCandidates_spec models classification options') as Hspec.
  pose proof (routeRequest_selects models classification strategy options')
    as Hsel.
  pose proof (routeRequest_Some models classification strategy options')
    as Hsome.
  unfold candidatesOf in Hsome.
  destruct (selectCandidates models classification options')
    as [candidates lg] eqn:Ec.
  destruct Hspec as [Hspec _]. destruct (Hspec Hv) as (Hne & Hsub & _).
  destruct (Hsel Hne) as (r & Hr & Hin).
  assert (Hprov : forall m, In m candidates -> provider m <> p).
  { intros m Hm Hp. specialize (Hsub m Hm).
    apply viable_closed in Hsub as (Hmod & _ & Hclosed).
    unfold circuitOpen, breakerStateOf in Hclosed.
    subst options'. rewrite !with_breakers_lookup in Hclosed.
    rewrite (Hids m Hmod), Hp, Hb in Hclosed. cbn in Hclosed.
    rewrite Hopen in Hclosed. discriminate. }
  exists r, (lg ++ [(info, "Routing decision"%string)]).
  split; [exact Hr|]. split; [apply Hprov, Hin|].
  destruct (Hsome r (lg ++ [(info, "Routing decision"%string)]) Hr)
    as (Hall & _). cbn [fst] in Hall.
  intros sc Hsc. rewrite Hall in Hsc.
  apply sort_by_In, in_map_iff in Hsc as (m & <- & Hm).
  apply Hprov, Hm.
Qed.

(** The registry after the provider of the small model has opened; the
    clock reads a day later. *)
Definition registry_openai_open : BreakerLifecycle.Registry :=
  {[ "openai"%string := BreakerLifecycle.opened_breaker;
     "anthropic"%string := CircuitBreaker.new "anthropic" CircuitBreaker.no_options ]}.

Definition a_day_later (name : string) : Z * Z := (86400000, 86400000)%Z.

Lemma open_breaker_excludes_provider_witness :
  exists r logs,
    routeRequest two_models trivial_prompt "cost-first"
      (with_breakers a_day_later registry_openai_open default_options)
      = (Some r, logs) /\
    provider (selectedModel r) <> "openai"%string /\
    forall sc, In sc (allCandidates r) ->
               provider (modelData sc) <> "openai"%string.
Proof.
  apply (open_breaker_excludes_provider two_models trivial_prompt "cost-first"
           default_options a_day_later registry_openai_open "openai"
           BreakerLifecycle.opened_breaker).
  - reflexivity.
  - reflexivity.
  - intros m [<- | [<- | []]]; reflexivity.
  - vm_compute. discriminate.
Defined.

End RoutingProps.

(** ** Benchmarker: the rolling window and its metrics
    ([services/benchmarker.js]) *)

Module Benchmarker.

(** A value of [errorHistory]. *)
Record Errors := mkErrors {
  success : Z;
  failure : Z;
  timeout : Z
}.

(** The two [Map]s of the benchmarker. *)
Record Benchmarker := mkBenchmarker {
  latencyHistory : gmap string (list Q);
  errorHistory : gmap string Errors
}.

Definition new : Benchmarker := mkBenchmarker ∅ ∅.

Definition windowSize : nat := 100.

(** [latencies.shift()]. *)
Definition shift {A} (l : list A) : list A :=
  match l with [] => [] | _ :: rest => rest end.

(** [record(modelId, latencyMs, success, timedOut)]. *)
Definition record (modelId : string) (latencyMs : Q) (succeeded timedOut : bool)
  (bm : Benchmarker) : Benchmarker :=
  let latencies :=
    match latencyHistory bm !! modelId with
    | Some l => l
    | None => []
    end ++ [latencyMs] in
  let latencies' :=
    if (windowSize <? length latencies)%nat then shift latencies
    else latencies in
  let errors :=
    match errorHistory bm !! modelId with
    | Some e => e
    | None => mkErrors 0 0 0
    end in
  let errors' :=
    if succeeded then mkErrors (success errors + 1) (failure errors)
                               (timeout errors)
    else if timedOut then mkErrors (success errors) (failure errors)
                                   (timeout errors + 1)
    else mkErrors (success errors) (failure errors + 1) (timeout errors) in
  {| latencyHistory := <[modelId := latencies']> (latencyHistory bm);
     errorHistory := <[modelId := errors']> (errorHistory bm) |}.

(** What [getMetrics] returns; the latency fields are [null] without
    samples. *)
Record Metrics := mkMetrics {
  modelId : string;
  avgLatencyMs : option Q;
  p50LatencyMs : option Q;
  p95LatencyMs : option Q;
  p99LatencyMs : option Q;
  errorRate : Q;
  timeoutRate : Q;
  sampleCount : nat
}.

(** [a || b] on numbers. *)
Definition or_else (a b : Q) : Q := if JS.truthy_num a then a else b.

(** [sorted[i]] for an index within the array. *)
Definition at_index (sorted : list Q) (i : Z) : Q := nth (Z.to_nat i) sorted 0.

(** [getMetrics(modelId)].  The products of the length by 0.95 and 0.99
    are taken exactly; on the lengths of a window the floating-point
    products have the same ceiling. *)
Definition getMetrics (id : string) (bm : Benchmarker) : Metrics :=
  let latencies :=
    match latencyHistory bm !! id with Some l => l | None => [] end in
  let errors :=
    match errorHistory bm !! id with
    | Some e => e
    | None => mkErrors 0 0 0
    end in
  let total := (success errors + failure errors + timeout errors)%Z in
  match latencies with
  | [] => mkMetrics id None None None None 0 0 0
  | _ :: _ =>
      let sorted := CircuitBreaker.sort_numeric latencies in
      let n := JS.qnat (length sorted) in
      let avg := foldl Qplus 0 sorted / n in
      let last := at_index sorted (Z.of_nat (length sorted) - 1) in
      {| modelId := id;
         avgLatencyMs := Some (inject_Z (JS.round avg));
         p50LatencyMs := Some (at_index sorted (Qfloor (n * (5 # 10))));
         p95LatencyMs :=
           Some (or_else (at_index sorted (JS.ceil (n * (95 # 100)) - 1)) last);
         p99LatencyMs :=
           Some (or_else (at_index sorted (JS.ceil (n * (99 # 100)) - 1)) last);
         errorRate :=
           if (0 <? total)%Z
           then JS.round3 (inject_Z (failure errors) / inject_Z total) else 0;
         timeoutRate :=
           if (0 <? total)%Z
           then JS.round3 (inject_Z (timeout errors) / inject_Z total) else 0;
         sampleCount := length sorted |}
  end.

(** [getAllMetrics()]: one entry per key of [latencyHistory]. *)
Definition getAllMetrics (bm : Benchmarker) : gmap string Metrics :=
  map_imap (fun id _ => Some (getMetrics id bm)) (latencyHistory bm).

(** The fields of an entry that the router reads. *)
Definition toRouter (m : Metrics) : Router.Benchmark :=
  Router.mkBenchmark (avgLatencyMs m) (Some (errorRate m))
    (Some (JS.qnat (sampleCount m))).

(** A call of [record], and a run of calls. *)
Record Sample := mkSample {
  s_model : string;
  s_latency : Q;
  s_success : bool;
  s_timedOut : bool
}.

Definition recordAll (samples : list Sample) (bm : Benchmarker) : Benchmarker :=
  foldl (fun bm s => record (s_model s) (s_latency s) (s_success s)
                            (s_timedOut s) bm) bm samples.

(** The samples of a model, and their counts by outcome. *)
Definition samplesOf (id : string) (samples : list Sample) : list Sample :=
  List.filter (fun s => String.eqb (s_model s) id) samples.

Definition countOf (f : Sample -> bool) (samples : list Sample) : Z :=
  Z.of_nat (length (List.filter f samples)).

(** [l.slice(-n)] for a positive integer [n]. *)
Definition lastN {A} (n : nat) (l : list A) : list A :=
  skipn (length l - n) l.

(** *** The window and the counters *)

Lemma skipn_S_shift {A} k (l : list A) : skipn (S k) l = shift (skipn k l).
Proof.
  revert l. induction k as [|k IH]; intros l.
  - destruct l; reflexivity.
  - destruct l as [|x l]; [reflexivity|]. cbn [skipn] in *. apply IH.
Qed.

Lemma lastN_length {A} n (l : list A) :
  length (lastN n l) = Nat.min n (length l).
Proof. unfold lastN. rewrite length_skipn. lia. Qed.

(** Pushing on the window and shifting when it overflows keeps the last
    [n] elements. *)
Lemma lastN_push {A} n (l : list A) x :
  (if (n <? length (lastN n l ++ [x]))%nat then shift (lastN n l ++ [x])
   else lastN n l ++ [x])
  = lastN n (l ++ [x]).
Proof.
  rewrite length_app, lastN_length. cbn [length]. unfold lastN.
  rewrite length_app. cbn [length].
  destruct (Nat.ltb_spec n (Nat.min n (length l) + 1)) as [Hlt|Hge].
  - assert (Hn : (n <= length l)%nat) by lia.
    replace (length l + 1 - n)%nat with (S (length l - n)) by lia.
    rewrite skipn_S_shift, skipn_app.
    replace (length l - n - length l)%nat with 0%nat by lia.
    cbn [skipn]. reflexivity.
  - replace (length l - n)%nat with 0%nat by lia.
    replace (length l + 1 - n)%nat with 0%nat by lia. reflexivity.
Qed.

Definition is_failure (s : Sample) : bool :=
  negb (s_success s) && negb (s_timedOut s).

Definition is_timeout (s : Sample) : bool :=
  negb (s_success s) && s_timedOut s.

(** The state the benchmarker holds for a model after a run. *)
Definition windowOf (id : string) (samples : list Sample) : list Q :=
  lastN windowSize (map s_latency (samplesOf id samples)).

Definition countersOf (id : string) (samples : list Sample) : Errors :=
  mkErrors (countOf s_success (samplesOf id samples))
           (countOf is_failure (samplesOf id samples))
           (countOf is_timeout (samplesOf id samples)).

Lemma countOf_snoc f l s :
  countOf f (l ++ [s]) = (countOf f l + (if f s then 1 else 0))%Z.
Proof.
  unfold countOf. rewrite List.filter_app, length_app. cbn [List.filter].
  destruct (f s); cbn [length]; lia.
Qed.

Lemma recordAll_state samples id :
  latencyHistory (recordAll samples new) !! id
  = match samplesOf id samples with
    | [] => None
    | _ :: _ => Some (windowOf id samples)
    end /\
  errorHistory (recordAll samples new) !! id
  = match samplesOf id samples with
    | [] => None
    | _ :: _ => Some (countersOf id samples)
    end.
Proof.
  induction samples as [|s samples IH] using rev_ind.
  - cbn. rewrite !lookup_empty. auto.
  - unfold recordAll in *. rewrite foldl_app. cbn [foldl].
    set (bm := foldl _ new samples) in *. destruct IH as [IHl IHe].
    unfold windowOf, countersOf, samplesOf in *.
    rewrite List.filter_app. cbn [List.filter].
    destruct (String.eqb (s_model s) id) eqn:E.
    + apply String.eqb_eq in E. subst id. unfold record.
      cbn [latencyHistory errorHistory]. rewrite !lookup_insert_eq.
      set (own := List.filter _ samples) in *.
      assert (Hne : exists o rest, own ++ [s] = o :: rest).
      { destruct own; cbn; eauto. }
      destruct Hne as (o & rest & Hne). rewrite Hne. rewrite <- Hne.
      rewrite map_app. cbn [map]. split.
      * f_equal. rewrite <- lastN_push. rewrite IHl.
        destruct own; reflexivity.
      * f_equal. rewrite !countOf_snoc. rewrite IHe.
        unfold is_failure, is_timeout.
        destruct own eqn:Eo; cbn [success failure timeout];
          destruct (s_success s), (s_timedOut s); cbn [negb andb];
          f_equal; unfold countOf; cbn; lia.
    + apply String.eqb_neq in E. rewrite app_nil_r. unfold record.
      cbn [latencyHistory errorHistory].
      rewrite !lookup_insert_ne by congruence. auto.
Qed.

(** X19.  The latencies are windowed, the counters are not: after any run
    of [record] calls on a new benchmarker, the latency list of a model is
    the last 100 latencies recorded for it, in order, and its counters
    hold the number of all its successes, failures and timeouts since the
    start; a model that was never recorded has neither. *)
Theorem window_and_counters samples id :
  latencyHistory (recordAll samples new) !! id
  = match samplesOf id samples with
    | [] => None
    | _ :: _ => Some (lastN 100 (map s_latency (samplesOf id samples)))
    end /\
  errorHistory (recordAll samples new) !! id
  = match samplesOf id samples with
    | [] => None
    | _ :: _ =>
        Some (mkErrors (countOf s_success (samplesOf id samples))
                       (countOf is_failure (samplesOf id samples))
                       (countOf is_timeout (samplesOf id samples)))
    end.
Proof. exact (recordAll_state samples id). Qed.

(** *** The metrics *)

Lemma insert_sorted_length x l :
  length (CircuitBreaker.insert_sorted x l) = S (length l).
Proof.
  induction l as [|y l IH]; [reflexivity|]. cbn [CircuitBreaker.insert_sorted].
  destruct (Qle_bool x y); cbn [length]; [reflexivity | rewrite IH; reflexivity].
Qed.

Lemma sort_numeric_length l :
  length (CircuitBreaker.sort_numeric l) = length l.
Proof.
  unfold CircuitBreaker.sort_numeric. induction l as [|x l IH]; [reflexivity|].
  cbn [foldr]. rewrite insert_sorted_length, IH. reflexivity.
Qed.

Lemma insert_sorted_In x y l :
  In y (CircuitBreaker.insert_sorted x l) <-> y = x \/ In y l.
Proof.
  induction l as [|z l IH]; cbn [CircuitBreaker.insert_sorted].
  - cbn. intuition congruence.
  - destruct (Qle_bool x z); cbn [In]; rewrite ?IH; intuition congruence.
Qed.

Lemma sort_numeric_In y l :
  In y (CircuitBreaker.sort_numeric l) <-> In y l.
Proof.
  unfold CircuitBreaker.sort_numeric. induction l as [|x l IH]; [reflexivity|].
  cbn [foldr]. rewrite insert_sorted_In, IH. cbn. intuition congruence.
Qed.

(** No element is followed by a smaller one. *)
Fixpoint ascending (l : list Q) : Prop :=
  match l with
  | [] => True
  | x :: rest => (forall y, In y rest -> x <= y) /\ ascending rest
  end.

Lemma insert_sorted_ascending x l :
  ascending l -> ascending (CircuitBreaker.insert_sorted x l).
Proof.
  induction l as [|y l IH]; intros Hl.
  - cbn. split; [intros ? [] | exact I].
  - cbn [CircuitBreaker.insert_sorted]. destruct Hl as [Hy Hl].
    destruct (Qle_bool x y) eqn:E.
    + apply Qle_bool_iff in E. split; [|split; assumption].
      intros z [<- | Hz]; [exact E|]. specialize (Hy z Hz). lra.
    + assert (Hlt : y < x).
      { apply Qnot_le_lt. intros H. apply Qle_bool_iff in H. congruence. }
      split; [|apply IH, Hl].
      intros z Hz. apply insert_sorted_In in Hz as [-> | Hz];
        [lra | apply Hy, Hz].
Qed.

Lemma sort_numeric_ascending l : ascending (CircuitBreaker.sort_numeric l).
Proof.
  unfold CircuitBreaker.sort_numeric. induction l as [|x l IH]; [exact I|].
  cbn [foldr]. apply insert_sorted_ascending, IH.
Qed.

Lemma ascending_nth l : forall i j,
  ascending l -> (i <= j)%nat -> (j < length l)%nat ->
  nth i l 0 <= nth j l 0.
Proof.
  induction l as [|x l IH]; intros i j Hl Hij Hj; [cbn in Hj; lia|].
  destruct Hl as [Hx Hl]. destruct i as [|i], j as [|j]; cbn [nth].
  - lra.
  - apply Hx, nth_In. cbn in Hj. lia.
  - lia.
  - apply IH; [exact Hl | lia | cbn in Hj; lia].
Qed.

(** The three percentile indices of a window of [n] samples are in range
    and in order. *)
Lemma percentile_indices (n : nat) :
  (1 <= n)%nat ->
  (0 <= Qfloor (JS.qnat n * (5 # 10))
   <= JS.ceil (JS.qnat n * (95 # 100)) - 1)%Z /\
  (JS.ceil (JS.qnat n * (95 # 100)) - 1
   <= JS.ceil (JS.qnat n * (99 # 100)) - 1)%Z /\
  (JS.ceil (JS.qnat n * (99 # 100)) - 1 <= Z.of_nat n - 1)%Z.
Proof.
  intros Hn. unfold JS.ceil.
  assert (Hq : 1 <= JS.qnat n).
  { unfold JS.qnat. change 1 with (inject_Z 1). rewrite <- Zle_Qle. lia. }
  split; [split|split].
  - change 0%Z with (Qfloor 0). apply Qfloor_resp_le. lra.
  - pose proof (Qfloor_le (JS.qnat n * (5 # 10))) as Hf.
    pose proof (Qle_ceiling (JS.qnat n * (95 # 100))) as Hc.
    assert (Hlt : inject_Z (Qfloor (JS.qnat n * (5 # 10)))
                  < inject_Z (Qceiling (JS.qnat n * (95 # 100)))) by lra.
    rewrite <- Zlt_Qlt in Hlt. lia.
  - assert (H : (Qceiling (JS.qnat n * (95 # 100))
                 <= Qceiling (JS.qnat n * (99 # 100)))%Z)
      by (apply Qceiling_resp_le; lra).
    lia.
  - assert (H : (Qceiling (JS.qnat n * (99 # 100))
                 <= Qceiling (JS.qnat n))%Z)
      by (apply Qceiling_resp_le; lra).
    unfold JS.qnat in H at 2. rewrite Qceiling_Z in H. lia.
Qed.

Lemma fraction_unit (a b : Z) :
  (0 <= a)%Z -> (a <= b)%Z -> (0 < b)%Z ->
  0 <= inject_Z a / inject_Z b /\ inject_Z a / inject_Z b <= 1.
Proof.
  intros Ha Hab Hb.
  assert (H1 : 0 <= inject_Z a)
    by (change 0 with (inject_Z 0); rewrite <- Zle_Qle; lia).
  assert (H2 : inject_Z a <= inject_Z b) by (rewrite <- Zle_Qle; lia).
  assert (H3 : 0 < inject_Z b)
    by (change 0 with (inject_Z 0); rewrite <- Zlt_Qlt; lia).
  split; [apply Qle_shift_div_l | apply Qle_shift_div_r]; lra.
Qed.

Lemma countOf_nonneg f l : (0 <= countOf f l)%Z.
Proof. unfold countOf. lia. Qed.

Lemma getAllMetrics_lookup samples id m :
  getAllMetrics (recordAll samples new) !! id = Some m ->
  samplesOf id samples <> [] /\ m = getMetrics id (recordAll samples new).
Proof.
  unfold getAllMetrics. rewrite map_lookup_imap.
  destruct (recordAll_state samples id) as [Hl _]. rewrite Hl.
  destruct (samplesOf id samples); cbn; [discriminate|].
  intros [= <-]. split; [discriminate | reflexivity].
Qed.

(** X20.  The benchmarks handed to the router are well formed: after any
    run of [record] calls, every entry of [getAllMetrics] belongs to a
    model that was recorded, counts between 1 and 100 samples, has an
    average latency that is not [null], and error and timeout rates
    between 0 and 1; the fields the router reads meet the assumptions
    under which its scores stay in [0, 1]. *)
Theorem benchmarks_are_well_formed samples id m :
  getAllMetrics (recordAll samples new) !! id = Some m ->
  modelId m = id /\
  (1 <= sampleCount m <= 100)%nat /\
  sampleCount m = Nat.min 100 (length (samplesOf id samples)) /\
  is_Some (avgLatencyMs m) /\
  0 <= errorRate m /\ errorRate m <= 1 /\
  0 <= timeoutRate m /\ timeoutRate m <= 1 /\
  RoutingProps.unit_opt (Router.errorRate (toRouter m)) /\
  match Router.sampleCount (toRouter m) with
  | Some n => 0 <= n
  | None => True
  end.
Proof.
  intros Hm. apply getAllMetrics_lookup in Hm as [Hne ->].
  destruct (recordAll_state samples id) as [Hl He].
  unfold getMetrics. rewrite Hl, He.
  destruct (samplesOf id samples) as [|s own] eqn:Eown; [congruence|].
  clear Hne. rewrite <- Eown in *.
  assert (Hlen : length (windowOf id samples)
                 = Nat.min 100 (length (samplesOf id samples))).
  { unfold windowOf. rewrite lastN_length, length_map. reflexivity. }
  assert (Hpos : (1 <= length (samplesOf id samples))%nat)
    by (rewrite Eown; cbn; lia).
  destruct (windowOf id samples) as [|x w] eqn:Ew;
    [cbn [length] in Hlen; lia|].
  rewrite <- Ew in *. cbv zeta.
  cbn [modelId sampleCount avgLatencyMs errorRate timeoutRate toRouter
       Router.errorRate Router.sampleCount RoutingProps.unit_opt].
  rewrite sort_numeric_length, Hlen.
  set (total := (success (countersOf id samples)
                 + failure (countersOf id samples)
                 + timeout (countersOf id samples))%Z).
  assert (Hs : (0 <= success (countersOf id samples))%Z)
    by apply countOf_nonneg.
  assert (Hf : (0 <= failure (countersOf id samples))%Z)
    by apply countOf_nonneg.
  assert (Ht : (0 <= timeout (countersOf id samples))%Z)
    by apply countOf_nonneg.
  assert (Her : 0 <= (if (0 <? total)%Z
                      then JS.round3 (inject_Z (failure (countersOf id samples))
                                      / inject_Z total)
                      else 0) /\
                (if (0 <? total)%Z
                 then JS.round3 (inject_Z (failure (countersOf id samples))
                                 / inject_Z total)
                 else 0) <= 1).
  { destruct (0 <? total)%Z eqn:E; [|split; lra]. apply Z.ltb_lt in E.
    apply JSFacts.round3_unit; apply fraction_unit; subst total; lia. }
  assert (Htr : 0 <= (if (0 <? total)%Z
                      then JS.round3 (inject_Z (timeout (countersOf id samples))
                                      / inject_Z total)
                      else 0) /\
                (if (0 <? total)%Z
                 then JS.round3 (inject_Z (timeout (countersOf id samples))
                                 / inject_Z total)
                 else 0) <= 1).
  { destruct (0 <? total)%Z eqn:E; [|split; lra]. apply Z.ltb_lt in E.
    apply JSFacts.round3_unit; apply fraction_unit; subst total; lia. }
  destruct Her, Htr.
  repeat split; try assumption; try lia; try (eexists; reflexivity).
  unfold JS.qnat. change 0 with (inject_Z 0). rewrite <- Zle_Qle. lia.
Qed.

(** X21.  The percentiles of positive latencies are in order: for a model
    whose window is not empty and holds positive latencies only, the
    reported P50, P95 and P99 are latencies of the window and
    P50 <= P95 <= P99.  (A latency of 0 at the place of a percentile is
    replaced by the largest latency of the window, which may break the
    order.) *)
Theorem percentiles_in_order id bm l :
  latencyHistory bm !! id = Some l -> l <> [] ->
  (forall x, In x l -> 0 < x) ->
  exists p50 p95 p99,
    p50LatencyMs (getMetrics id bm) = Some p50 /\
    p95LatencyMs (getMetrics id bm) = Some p95 /\
    p99LatencyMs (getMetrics id bm) = Some p99 /\
    In p50 l /\ In p95 l /\ In p99 l /\ p50 <= p95 /\ p95 <= p99.
Proof.
  intros Hl Hne Hpos. unfold getMetrics. rewrite Hl.
  destruct l as [|x0 l0] eqn:El; [congruence|]. rewrite <- El in *.
  cbv zeta. cbn [p50LatencyMs p95LatencyMs p99LatencyMs].
  set (sorted := CircuitBreaker.sort_numeric l).
  assert (Hlen : length sorted = length l) by apply sort_numeric_length.
  assert (Hn : (1 <= length sorted)%nat).
  { rewrite Hlen, El. cbn [length]. lia. }
  destruct (percentile_indices (length sorted) Hn) as ([H0 H1] & H2 & H3).
  set (i50 := Qfloor (JS.qnat (length sorted) * (5 # 10))) in *.
  set (i95 := (JS.ceil (JS.qnat (length sorted) * (95 # 100)) - 1)%Z) in *.
  set (i99 := (JS.ceil (JS.qnat (length sorted) * (99 # 100)) - 1)%Z) in *.
  assert (Hin : forall i, (0 <= i <= Z.of_nat (length sorted) - 1)%Z ->
                  In (at_index sorted i) l /\ 0 < at_index sorted i).
  { intros i Hi.
    assert (H : In (at_index sorted i) sorted).
    { unfold at_index. apply nth_In. lia. }
    assert (H' : In (at_index sorted i) l)
      by (apply (sort_numeric_In _ l); exact H).
    split; [exact H' | apply Hpos, H']. }
  assert (Hor : forall i b, (0 <= i <= Z.of_nat (length sorted) - 1)%Z ->
                  or_else (at_index sorted i) b = at_index sorted i).
  { intros i b Hi. unfold or_else.
    destruct (JS.truthy_num (at_index sorted i)) eqn:E; [reflexivity|].
    apply JS.truthy_num_false in E. destruct (Hin i Hi) as [_ Hp]. lra. }
  rewrite (Hor i95) by lia. rewrite (Hor i99) by lia.
  exists (at_index sorted i50), (at_index sorted i95), (at_index sorted i99).
  repeat split; try reflexivity; try (apply Hin; lia).
  - unfold at_index. apply ascending_nth;
      [apply sort_numeric_ascending | lia | lia].
  - unfold at_index. apply ascending_nth;
      [apply sort_numeric_ascending | lia | lia].
Qed.

Definition three_samples : list Sample :=
  [ mkSample "gpt-4o" 120 true false;
    mkSample "gpt-4o" 80 true false;
    mkSample "gpt-4o" 200 false true ].

Lemma percentiles_in_order_witness :
  exists p50 p95 p99,
    p50LatencyMs (getMetrics "gpt-4o" (recordAll three_samples new))
      = Some p50 /\
    p95LatencyMs (getMetrics "gpt-4o" (recordAll three_samples new))
      = Some p95 /\
    p99LatencyMs (getMetrics "gpt-4o" (recordAll three_samples new))
      = Some p99 /\
    In p50 [120; 80; 200] /\ In p95 [120; 80; 200] /\ In p99 [120; 80; 200] /\
    p50 <= p95 /\ p95 <= p99.
Proof.
  apply (percentiles_in_order "gpt-4o" (recordAll three_samples new)
           [120; 80; 200]).
  - reflexivity.
  - discriminate.
  - intros x [<- | [<- | [<- | []]]]; reflexivity.
Defined.

Lemma benchmarks_are_well_formed_witness :
  modelId (getMetrics "gpt-4o" (recordAll three_samples new))
    = "gpt-4o"%string /\
  (1 <= sampleCount (getMetrics "gpt-4o" (recordAll three_samples new))
   <= 100)%nat /\
  sampleCount (getMetrics "gpt-4o" (recordAll three_samples new))
    = Nat.min 100 (length (samplesOf "gpt-4o" three_samples)) /\
  is_Some (avgLatencyMs (getMetrics "gpt-4o" (recordAll three_samples new))) /\
  0 <= errorRate (getMetrics "gpt-4o" (recordAll three_samples new)) /\
  errorRate (getMetrics "gpt-4o" (recordAll three_samples new)) <= 1 /\
  0 <= timeoutRate (getMetrics "gpt-4o" (recordAll three_samples new)) /\
  timeoutRate (getMetrics "gpt-4o" (recordAll three_samples new)) <= 1 /\
  RoutingProps.unit_opt
    (Router.errorRate
       (toRouter (getMetrics "gpt-4o" (recordAll three_samples new)))) /\
  match Router.sampleCount
          (toRouter (getMetrics "gpt-4o" (recordAll three_samples new))) with
  | Some n => 0 <= n
  | None => True
  end.
Proof.
  apply (benchmarks_are_well_formed three_samples "gpt-4o"
           (getMetrics "gpt-4o" (recordAll three_samples new))).
  reflexivity.
Defined.

(** A window of a hundred latencies, ninety-five of them 0: the P95 place
    holds a 0, the largest latency is reported instead, and P95 exceeds
    P99. *)
Definition mostly_zero : Benchmarker :=
  {| latencyHistory :=
       {[ "mock"%string := repeat 0 95 ++ [5; 5; 5; 5; 9] ]};
     errorHistory := {[ "mock"%string := mkErrors 100 0 0 ]} |}.

Example zero_latency_breaks_order :
  match p95LatencyMs (getMetrics "mock" mostly_zero),
        p99LatencyMs (getMetrics "mock" mostly_zero) with
  | Some p95, Some p99 => p95 == 9 /\ p99 == 5
  | _, _ => False
  end.
Proof. vm_compute. split; reflexivity. Qed.

End Benchmarker.

(** ** The batched request log of the orchestrator ([server.js]) *)

Module WriteQueue.

Import Streaming.

(** The module state of the log: the queue, the degraded flag and whether
    the flush timer is armed. *)
Record Queue := mkQueue {
  writeQueue : list LogRow;
  isDegraded : bool;
  flushTimer : bool
}.

Definition empty : Queue := mkQueue [] false false.

Definition MAX_WRITE_QUEUE : nat := 1000.

(** [logRequest(data)]. *)
Definition logRequest (data : LogRow) (q : Queue) : Queue :=
  if isDegraded q && log_cacheHit data then q
  else
    let queue := writeQueue q ++ [data] in
    {| writeQueue := queue;
       isDegraded :=
         if (MAX_WRITE_QUEUE <? length queue)%nat && negb (isDegraded q)
         then true else isDegraded q;
       flushTimer := true |}.

(** [flushWriteQueue()]: the batch handed to the insert transaction, and
    the state left behind.  The queue is emptied by [splice], so that the
    depth compared with [MAX_WRITE_QUEUE / 2] is 0. *)
Definition flushWriteQueue (q : Queue) : list LogRow * Queue :=
  let batch := writeQueue q in
  let depth := 0%nat in
  (batch,
   {| writeQueue := [];
      isDegraded :=
        if isDegraded q && JS.Qltb (JS.qnat depth) (JS.qnat MAX_WRITE_QUEUE / 2)
        then false else isDegraded q;
      flushTimer := false |}).

(** What happens to the log: a row is logged, or the queue is flushed (by
    the timer or at shutdown). *)
Inductive Op :=
| Log (data : LogRow)
| Flush.

(** A run: the batches flushed, in order, and the state at the end. *)
Fixpoint run (ops : list Op) (q : Queue) : list (list LogRow) * Queue :=
  match ops with
  | [] => ([], q)
  | Log data :: rest => run rest (logRequest data q)
  | Flush :: rest =>
      let '(batch, q1) := flushWriteQueue q in
      let '(batches, q2) := run rest q1 in
      (batch :: batches, q2)
  end.

(** The rows passed to [logRequest] during a run. *)
Definition logged (ops : list Op) : list LogRow :=
  omap (fun op => match op with Log d => Some d | Flush => None end) ops.

Definition critical (rows : list LogRow) : list LogRow :=
  List.filter (fun d => negb (log_cacheHit d)) rows.

(** The invariants of the state. *)
Definition queue_ok (q : Queue) : Prop :=
  (isDegraded q = true <-> (MAX_WRITE_QUEUE < length (writeQueue q))%nat) /\
  (writeQueue q <> [] -> flushTimer q = true).

Lemma logRequest_ok data q : queue_ok q -> queue_ok (logRequest data q).
Proof.
  intros [Hd Ht]. unfold logRequest.
  destruct (isDegraded q) eqn:Ed; cbn [andb].
  - destruct (log_cacheHit data).
    + split; [rewrite Ed; exact Hd | exact Ht].
    + split; cbn [isDegraded writeQueue flushTimer]; [|auto].
      rewrite andb_false_r, length_app. cbn [length].
      split; [intros _|reflexivity]. pose proof (proj1 Hd eq_refl). lia.
  - split; cbn [isDegraded writeQueue flushTimer]; [|auto].
    rewrite andb_true_r.
    destruct (Nat.ltb_spec MAX_WRITE_QUEUE (length (writeQueue q ++ [data]))).
    + tauto.
    + split; [discriminate | lia].
Qed.

Lemma flushWriteQueue_ok q :
  queue_ok (flushWriteQueue q).2 /\ isDegraded (flushWriteQueue q).2 = false /\
  writeQueue (flushWriteQueue q).2 = [] /\ (flushWriteQueue q).1 = writeQueue q.
Proof.
  unfold flushWriteQueue. cbn [fst snd writeQueue isDegraded flushTimer].
  assert (E : JS.Qltb (JS.qnat 0) (JS.qnat MAX_WRITE_QUEUE / 2) = true)
    by reflexivity.
  rewrite E, andb_true_r.
  assert (Ed : (if isDegraded q then false else isDegraded q) = false)
    by (destruct (isDegraded q); reflexivity).
  rewrite Ed. repeat split; try reflexivity.
  - discriminate.
  - cbn. unfold MAX_WRITE_QUEUE. lia.
  - cbn. congruence.
Qed.

Lemma run_invariants ops : forall q,
  queue_ok q ->
  queue_ok (run ops q).2 /\
  sublist (concat (run ops q).1 ++ writeQueue (run ops q).2)
          (writeQueue q ++ logged ops) /\
  critical (concat (run ops q).1 ++ writeQueue (run ops q).2)
  = critical (writeQueue q ++ logged ops).
Proof.
  induction ops as [|[data|] ops IH]; intros q Hq.
  - cbn. rewrite app_nil_r. auto.
  - cbn [run].
    assert (Hlog : logged (Log data :: ops) = data :: logged ops)
      by reflexivity.
    rewrite Hlog.
    destruct (isDegraded q && log_cacheHit data) eqn:Edrop.
    + assert (Heq : logRequest data q = q)
        by (unfold logRequest; rewrite Edrop; reflexivity).
      rewrite Heq. destruct (IH q Hq) as (Hok & Hsub & Hcrit).
      apply andb_true_iff in Edrop as [_ Hhit].
      split; [exact Hok|]. split.
      * etransitivity; [exact Hsub|]. apply sublist_app; [reflexivity|].
        apply sublist_cons. reflexivity.
      * rewrite Hcrit. unfold critical. rewrite !List.filter_app.
        cbn [List.filter]. rewrite Hhit. reflexivity.
    + assert (Hwq : writeQueue (logRequest data q) = writeQueue q ++ [data])
        by (unfold logRequest; rewrite Edrop; reflexivity).
      destruct (IH (logRequest data q) (logRequest_ok data q Hq))
        as (Hok & Hsub & Hcrit).
      rewrite Hwq, <- app_assoc in Hsub, Hcrit. auto.
  - cbn [run]. destruct (flushWriteQueue_ok q) as (Hok1 & _ & Hempty & Hbatch).
    destruct (flushWriteQueue q) as [batch q1]. cbn [fst snd] in *.
    destruct (IH q1 Hok1) as (Hok & Hsub & Hcrit).
    destruct (run ops q1) as [batches q2]. cbn [fst snd] in *.
    rewrite Hempty in Hsub, Hcrit. cbn [app] in Hsub, Hcrit.
    assert (Hlog : logged (Flush :: ops) = logged ops) by reflexivity.
    rewrite Hlog. subst batch. cbn [concat]. rewrite <- !app_assoc.
    split; [exact Hok|]. split.
    + apply sublist_app; [reflexivity | exact Hsub].
    + unfold critical in *. rewrite (List.filter_app _ (writeQueue q)).
      rewrite Hcrit. rewrite <- List.filter_app. reflexivity.
Qed.

(** X22.  The request log never loses a completion row: over any run of
    [logRequest] calls and flushes that starts with an empty queue, the
    rows flushed so far followed by the rows still queued are a
    subsequence of the rows logged, in their order, that contains every
    row which is not a cache hit.  Degraded mode is on exactly while the
    queue holds more than 1000 rows, only cache-hit rows are dropped in
    it, a flush always ends it, and the timer is armed whenever the queue
    is not empty. *)
Theorem completion_rows_are_never_dropped ops :
  sublist (concat (run ops empty).1 ++ writeQueue (run ops empty).2)
          (logged ops) /\
  critical (concat (run ops empty).1 ++ writeQueue (run ops empty).2)
  = critical (logged ops) /\
  (isDegraded (run ops empty).2 = true
   <-> (1000 < length (writeQueue (run ops empty).2))%nat) /\
  (writeQueue (run ops empty).2 <> [] -> flushTimer (run ops empty).2 = true) /\
  isDegraded (flushWriteQueue (run ops empty).2).2 = false.
Proof.
  assert (H0 : queue_ok empty).
  { split; cbn; [|congruence]. split; [discriminate|].
    unfold MAX_WRITE_QUEUE. lia. }
  destruct (run_invariants ops empty H0) as ([Hd Ht] & Hsub & Hcrit).
  cbn [writeQueue empty app] in Hsub, Hcrit.
  destruct (flushWriteQueue_ok (run ops empty).2) as (_ & Hf & _).
  auto.
Qed.
End WriteQueue.

(** ** The provider fallback loop of the orchestrator ([server.js],
    non-streaming requests) *)

Module Fallback.

Import Router.

(** An element of [fallbackCandidates]: [{ model, id }]. *)
Record Candidate := mkCandidate {
  c_model : Model;
  c_id : string
}.

(** The error a provider adapter throws; [e_status] is 0 when the error
    carries no status. *)
Record ProviderError := mkProviderError {
  e_status : Z;
  e_message : string;
  e_timedOut : bool;
  e_provider : string
}.

(** The clock readings of one turn of the loop: those of [canExecute],
    those of [recordResult], and the two readings from which the failure
    path computes its latencies. *)
Record Ticks := mkTicks {
  t_prune : Z;
  t_check : Z;
  t_event : Z;
  t_evalPrune : Z;
  t_open : Z;
  t_failedBreaker : Z;
  t_failedBenchmark : Z
}.

Section WithProviders.

(** The body of a provider's answer. *)
Variable Payload : Type.

(** What [provider.chatCompletion] resolves to. *)
Record ProviderResult := mkProviderResult {
  r_data : Payload;
  r_inputTokens : Z;
  r_outputTokens : Z;
  r_latencyMs : Q;
  r_status : Z
}.

(** [providers[name]] is defined. *)
Variable configured : string -> bool.

(** The awaited [provider.chatCompletion({...cleanBody, model:
    candidate.id})] of the candidate's provider: a result, or the error
    thrown. *)
Variable chatCompletion : Candidate -> ProviderResult + ProviderError.

(** The readings of the turn with a given index, and [startTime]. *)
Variable ticks : nat -> Ticks.
Variable startTime : Z.

(** The local variables of the loop, the breaker registry, and the calls
    made and the samples recorded so far. *)
Record LoopState := mkLoopState {
  triedProviders : list string;
  lastError : option ProviderError;
  served : option (Candidate * ProviderResult);
  breakers : BreakerLifecycle.Registry;
  calls : list Candidate;
  samples : list Benchmarker.Sample
}.

Definition start (registry : BreakerLifecycle.Registry) : LoopState :=
  mkLoopState [] None None registry [] [].

(** The ordered fallback list: the selected model, then the other
    candidates in score order. *)
Definition fallbackCandidates (routing : Routing) : list Candidate :=
  mkCandidate (selectedModel routing) (selectedModelId routing)
  :: map (fun c => mkCandidate (modelData c) (s_id c))
         (List.filter
            (fun c => negb (String.eqb (s_id c) (selectedModelId routing)))
            (allCandidates routing)).

(** The [for] loop over the candidates, from the turn of index [i] on. *)
Fixpoint tryCandidates (i : nat) (candidates : list Candidate)
  (st : LoopState) : LoopState :=
  match candidates with
  | [] => st
  | candidate :: rest =>
      let p := provider (c_model candidate) in
      if negb (configured p) then tryCandidates (S i) rest st
      else if bool_decide (p ∈ triedProviders st)
      then tryCandidates (S i) rest st
      else
        let tried := triedProviders st ++ [p] in
        let '(breaker, registry) :=
          BreakerLifecycle.getBreaker p CircuitBreaker.no_options
            (breakers st) in
        let '(allowed, _, breaker1) :=
          CircuitBreaker.canExecute (t_prune (ticks i)) (t_check (ticks i))
            breaker in
        if negb allowed then
          tryCandidates (S i) rest
            (mkLoopState tried (lastError st) (served st)
               (<[p := breaker1]> registry) (calls st) (samples st))
        else
          match chatCompletion candidate with
          | inl result =>
              mkLoopState tried None (Some (candidate, result))
                (<[p := CircuitBreaker.recordResult
                          (t_event (ticks i)) (t_evalPrune (ticks i))
                          (t_open (ticks i)) true (r_latencyMs result) false
                          breaker1]> registry)
                (calls st ++ [candidate])
                (samples st
                 ++ [Benchmarker.mkSample (c_id candidate)
                       (r_latencyMs result) true false])
          | inr err =>
              tryCandidates (S i) rest
                (mkLoopState tried (Some err) (served st)
                   (<[p := CircuitBreaker.recordResult
                             (t_event (ticks i)) (t_evalPrune (ticks i))
                             (t_open (ticks i)) false
                             (inject_Z (t_failedBreaker (ticks i) - startTime))
                             (e_timedOut err) breaker1]> registry)
                   (calls st ++ [candidate])
                   (samples st
                    ++ [Benchmarker.mkSample (c_id candidate)
                          (inject_Z (t_failedBenchmark (ticks i) - startTime))
                          false (e_timedOut err)]))
          end
  end.

(** What the handler does after the loop. *)
Inductive Outcome :=
| Served (candidate : Candidate) (result : ProviderResult)
| ErrorResponse (status : Z) (err : ProviderError)
| NothingAttempted.

(** [if (lastError) return res.status(lastError.status || 502)...]; without
    an error the handler goes on with the variables the loop has set,
    which are [undefined] when no call succeeded. *)
Definition outcome (st : LoopState) : Outcome :=
  match lastError st with
  | Some err =>
      ErrorResponse (if (e_status err =? 0)%Z then 502 else e_status err) err
  | None =>
      match served st with
      | Some (candidate, result) => Served candidate result
      | None => NothingAttempted
      end
  end.

(** *** What the loop guarantees *)

Definition providerOf (c : Candidate) : string := provider (c_model c).

Definition failed (c : Candidate) : Prop :=
  exists err, chatCompletion c = inr err.

(** The error of the last call, when there is one and it failed. *)
Definition errorOfLast (cs : list Candidate) : option ProviderError :=
  match last cs with
  | Some c =>
      match chatCompletion c with
      | inr err => Some err
      | inl _ => None
      end
  | None => None
  end.

(** While the loop runs: no call has succeeded, every call was made to a
    configured provider that is now marked as tried, no provider was
    called twice, one sample was recorded per call and [lastError] is the
    error of the last call. *)
Definition running (st : LoopState) : Prop :=
  served st = None /\
  (forall c, In c (calls st) ->
     In (providerOf c) (triedProviders st) /\
     configured (providerOf c) = true /\ failed c) /\
  NoDup (map providerOf (calls st)) /\
  map Benchmarker.s_model (samples st) = map c_id (calls st) /\
  lastError st = errorOfLast (calls st).

(** When the loop is over. *)
Definition finished (st : LoopState) : Prop :=
  (forall c, In c (calls st) -> configured (providerOf c) = true) /\
  NoDup (map providerOf (calls st)) /\
  map Benchmarker.s_model (samples st) = map c_id (calls st) /\
  match served st with
  | Some (c, result) =>
      chatCompletion c = inl result /\ lastError st = None /\
      exists pre, calls st = pre ++ [c] /\ forall c', In c' pre -> failed c'
  | None =>
      (forall c, In c (calls st) -> failed c) /\
      lastError st = errorOfLast (calls st)
  end.

Lemma errorOfLast_snoc cs c :
  errorOfLast (cs ++ [c])
  = match chatCompletion c with inr err => Some err | inl _ => None end.
Proof. unfold errorOfLast. rewrite last_snoc. reflexivity. Qed.

Lemma running_finished st : running st -> finished st.
Proof.
  intros (Hs & Hc & Hnd & Hsm & He). unfold finished. rewrite Hs.
  repeat split; try assumption; intros c Hin; apply (Hc c Hin).
Qed.

Lemma tryCandidates_spec candidates : forall i st,
  running st ->
  finished (tryCandidates i candidates st) /\
  exists new, calls (tryCandidates i candidates st) = calls st ++ new /\
              sublist new candidates.
Proof.
  induction candidates as [|candidate rest IH]; intros i st Hrun.
  - cbn. split; [apply running_finished, Hrun|].
    exists []. rewrite app_nil_r. split; [reflexivity | constructor].
  - cbn [tryCandidates]. fold (providerOf candidate).
    assert (Hskip : forall st1, running st1 -> calls st1 = calls st ->
              finished (tryCandidates (S i) rest st1) /\
              exists new, calls (tryCandidates (S i) rest st1) = calls st ++ new
                          /\ sublist new (candidate :: rest)).
    { intros st1 Hrun1 Hcalls. destruct (IH (S i) st1 Hrun1)
        as (Hfin & new & Hnew & Hsub).
      split; [exact Hfin|]. exists new. rewrite Hnew, Hcalls.
      split; [reflexivity | apply sublist_cons, Hsub]. }
    destruct (configured (providerOf candidate)) eqn:Econf; cbn [negb];
      [|apply Hskip; [exact Hrun | reflexivity]].
    case_bool_decide as Htried; [apply Hskip; [exact Hrun | reflexivity]|].
    destruct (BreakerLifecycle.getBreaker (providerOf candidate)
                CircuitBreaker.no_options (breakers st))
      as [breaker registry].
    destruct (CircuitBreaker.canExecute (t_prune (ticks i))
                (t_check (ticks i)) breaker) as [[allowed reason] breaker1].
    destruct Hrun as (Hs & Hc & Hnd & Hsm & He).
    assert (Hfresh : ~ In (providerOf candidate) (map providerOf (calls st))).
    { intros Hin. apply in_map_iff in Hin as (c & Hp & Hin).
      apply Htried. rewrite <- Hp. apply list_elem_of_In.
      apply (Hc c Hin). }
    destruct allowed; cbn [negb].
    + destruct (chatCompletion candidate) as [result|err] eqn:Ecall.
      * split.
        -- unfold finished.
           cbn [calls served lastError samples triedProviders].
           split; [|split; [|split]].
           ++ intros c Hin. apply in_app_iff in Hin as [Hin | [<- | []]];
                [apply (Hc c Hin) | exact Econf].
           ++ rewrite map_app. cbn [map]. apply NoDup_app. split; [exact Hnd|].
              split; [|apply NoDup_singleton].
              intros x Hx Hx'. apply list_elem_of_In in Hx.
              apply list_elem_of_singleton in Hx'. subst x. contradiction.
           ++ rewrite !map_app, Hsm. reflexivity.
           ++ split; [exact Ecall|]. split; [reflexivity|].
              exists (calls st). split; [reflexivity|].
              intros c' Hin. apply (Hc c' Hin).
        -- exists [candidate]. split; [reflexivity|].
           apply sublist_skip, sublist_nil_l.
      * match goal with
        | |- context [tryCandidates (S i) rest ?s] => set (st1 := s)
        end.
        assert (Hrun1 : running st1).
        { subst st1. unfold running.
          cbn [calls served lastError samples triedProviders].
          split; [exact Hs|]. split; [|split; [|split]].
          - intros c Hin. apply in_app_iff in Hin as [Hin | [<- | []]].
            + destruct (Hc c Hin) as (H1 & H2 & H3).
              split; [apply in_or_app; left; exact H1 | auto].
            + split; [apply in_or_app; right; left; reflexivity|].
              split; [exact Econf | exists err; exact Ecall].
          - rewrite map_app. cbn [map]. apply NoDup_app. split; [exact Hnd|].
            split; [|apply NoDup_singleton].
            intros x Hx Hx'. apply list_elem_of_In in Hx.
            apply list_elem_of_singleton in Hx'. subst x. contradiction.
          - rewrite !map_app, Hsm. reflexivity.
          - rewrite errorOfLast_snoc, Ecall. reflexivity. }
        destruct (IH (S i) st1 Hrun1) as (Hfin & new & Hnew & Hsub).
        split; [exact Hfin|]. exists (candidate :: new).
        rewrite Hnew. subst st1. cbn [calls]. rewrite <- app_assoc.
        split; [reflexivity | apply sublist_skip, Hsub].
    + apply Hskip; [|reflexivity]. unfold running.
      cbn [calls served lastError samples triedProviders].
      split; [exact Hs|]. split; [|auto].
      intros c Hin. destruct (Hc c Hin) as (H1 & H2 & H3).
      split; [apply in_or_app; left; exact H1 | auto].
Qed.

Lemma start_running registry : running (start registry).
Proof.
  unfold running, start. cbn. split; [reflexivity|].
  split; [intros c []|]. split; [constructor|]. split; reflexivity.
Qed.

(** X23.  The fallback loop calls every provider at most once: the calls
    made for a request go to configured providers that differ from one
    another, in the order of the fallback list; every call but the last
    has failed, so that the loop stops at the first success; and one
    benchmark sample is recorded per call, under the id of the candidate
    called. *)
Theorem each_provider_called_once registry candidates :
  let st := tryCandidates 0 candidates (start registry) in
  NoDup (map providerOf (calls st)) /\
  sublist (calls st) candidates /\
  (forall c, In c (calls st) -> configured (providerOf c) = true) /\
  (forall pre c post, calls st = pre ++ c :: post -> post <> [] -> failed c) /\
  map Benchmarker.s_model (samples st) = map c_id (calls st).
Proof.
  intros st.
  destruct (tryCandidates_spec candidates 0 (start registry)
              (start_running registry))
    as ((Hconf & Hnd & Hsm & Hserved) & new & Hnew & Hsub).
  fold st in Hconf, Hnd, Hsm, Hserved, Hnew. cbn [start calls app] in Hnew.
  split; [exact Hnd|]. split; [rewrite Hnew; exact Hsub|].
  split; [exact Hconf|]. split; [|exact Hsm].
  intros pre c post Hcalls Hpost.
  destruct (served st) as [[c0 result]|].
  - destruct Hserved as (_ & _ & pre0 & Hpre0 & Hfail).
    apply Hfail. rewrite Hcalls in Hpre0.
    destruct post as [|c1 post] using rev_ind; [congruence|].
    rewrite app_comm_cons, app_assoc in Hpre0.
    apply app_inj_tail in Hpre0 as [<- _].
    apply in_or_app. right. left. reflexivity.
  - destruct Hserved as [Hfail _]. apply Hfail. rewrite Hcalls.
    apply in_or_app. right. left. reflexivity.
Qed.

(** X24.  The answer of the fallback loop: the request is served with the
    result of the last call exactly when that call succeeded, all calls
    before it having failed; it is answered with an error when at least
    one call was made and the last one failed, the status being that of
    the last error, or 502 when the error carries none; and when no call
    could be made at all (no candidate with a configured provider whose
    breaker lets the request through) the loop sets neither a result nor an
    error. *)
Theorem answer_of_the_fallback_loop registry candidates :
  let st := tryCandidates 0 candidates (start registry) in
  match outcome st with
  | Served c result =>
      chatCompletion c = inl result /\
      exists pre, calls st = pre ++ [c] /\ forall c', In c' pre -> failed c'
  | ErrorResponse status err =>
      status <> 0%Z /\
      status = (if (e_status err =? 0)%Z then 502%Z else e_status err) /\
      (forall c, In c (calls st) -> failed c) /\
      exists pre c, calls st = pre ++ [c] /\ chatCompletion c = inr err
  | NothingAttempted => calls st = [] /\ served st = None
  end.
Proof.
  intros st.
  destruct (tryCandidates_spec candidates 0 (start registry)
              (start_running registry))
    as ((_ & _ & _ & Hserved) & _).
  fold st in Hserved. unfold outcome.
  destruct (served st) as [[c0 result]|].
  - destruct Hserved as (Hcall & -> & Hpre). auto.
  - destruct Hserved as [Hfail Herr]. rewrite Herr. unfold errorOfLast.
    destruct (calls st) as [|c cs] eqn:Ecalls using rev_ind.
    + cbn. auto.
    + clear IHcs. rewrite last_snoc.
      destruct (chatCompletion c) as [result|err] eqn:Ecall.
      * exfalso. destruct (Hfail c) as [err Herr'];
          [apply in_or_app; right; left; reflexivity | congruence].
      * split; [destruct (e_status err =? 0)%Z eqn:E;
                [discriminate | apply Z.eqb_neq, E]|].
        split; [reflexivity|]. split; [exact Hfail|].
        exists cs, c. auto.
Qed.

End WithProviders.

End Fallback.

(** ** Provider adapters: the shared request loop
    ([providers/base.js], in the dump under [providers/openai.js]) *)

Module BaseProvider.

(** The body of an error response as [_wrapError] reads it: an array whose
    first element may hold [error.message], an object that may hold
    [error.message], or nothing. *)
Inductive ErrorData :=
| NoData
| ArrayData (firstMessage : option string)
| ObjectData (message : option string).

(** An error thrown by the HTTP client: [err.response?.status],
    [err.response?.data], [err.message] and [err.code]. *)
Record HttpError := mkHttpError {
  h_status : option Z;
  h_data : ErrorData;
  h_message : string;
  h_code : string
}.

(** [_wrapError(err, attempt)] for the provider [name]. *)
Definition _wrapError (name : string) (err : HttpError)
  : Fallback.ProviderError :=
  let status := match h_status err with Some s => s | None => 0%Z end in
  let message :=
    match h_data err with
    | ArrayData m | ObjectData m => m
    | NoData => None
    end in
  let message :=
    match message with
    | Some m => if JS.truthy_string m then m else h_message err
    | None => h_message err
    end in
  let timedOut :=
    String.eqb (h_code err) "ECONNABORTED" || String.eqb (h_code err) "ETIMEDOUT"
  in
  {| Fallback.e_status := status;
     Fallback.e_message := ("[" ++ name ++ "] " ++ message)%string;
     Fallback.e_timedOut := timedOut;
     Fallback.e_provider := name |}.

(** [status && status >= 400 && status < 500 && status !== 429]. *)
Definition clientError (err : HttpError) : bool :=
  match h_status err with
  | Some s =>
      negb (s =? 0)%Z && (400 <=? s)%Z && (s <? 500)%Z && negb (s =? 429)%Z
  | None => false
  end.

(** [Math.min(1000 * Math.pow(2, attempt), 10000)]. *)
Definition backoff (attempt : nat) : Q :=
  Qmin (1000 * inject_Z (2 ^ Z.of_nat attempt)) 10000.

Section WithClient.

(** The answer of the server. *)
Variable Response : Type.

(** The provider's name, the HTTP call of each attempt, the two clock
    readings around it and the draw of [Math.random()] after it. *)
Variable name : string.
Variable http : nat -> Response + HttpError.
Variable clock : nat -> Z * Z.
Variable random : nat -> Q.

(** How [request] ends: it returns [{ response, latencyMs, attempt }], or
    throws a wrapped error with its [attempt] field, or throws the
    [TypeError] of reading [err.response] on [undefined]. *)
Inductive Result :=
| Returned (response : Response) (latencyMs : Z) (attempt : nat)
| Thrown (err : Fallback.ProviderError) (attempt : nat)
| TypeErrorThrown.

(** The [for] loop of [request] from [attempt] on, with [remaining] turns
    to go; the delays slept so far are threaded along. *)
Fixpoint requestFrom (maxRetries remaining attempt : nat)
  (lastError : option HttpError) (delays : list Q) : Result * list Q :=
  match remaining with
  | O =>
      (match lastError with
       | Some err => Thrown (_wrapError name err) maxRetries
       | None => TypeErrorThrown
       end, delays)
  | S k =>
      match http attempt with
      | inl response =>
          (Returned response ((clock attempt).2 - (clock attempt).1) attempt,
           delays)
      | inr err =>
          if clientError err
          then (Thrown (_wrapError name err) attempt, delays)
          else
            requestFrom maxRetries k (S attempt) (Some err)
              (if (attempt <? maxRetries)%nat
               then delays
                    ++ [backoff attempt
                        + random attempt * backoff attempt * (5 # 10)]
               else delays)
      end
  end.

(** [request(...)] with [maxRetries] a natural number. *)
Definition request (maxRetries : nat) : Result * list Q :=
  requestFrom maxRetries (S maxRetries) 0 None [].

(** *** The retry policy *)

(** The attempt failed with an error that is retried. *)
Definition retried (attempt : nat) : Prop :=
  exists err, http attempt = inr err /\ clientError err = false.

(** The delay slept after the failed attempt of a given index. *)
Definition delay_ok (attempt : nat) (delay : Q) : Prop :=
  backoff attempt <= delay /\ delay < backoff attempt * (15 # 10) /\
  delay < 15000.

Lemma backoff_range attempt : 0 < backoff attempt /\ backoff attempt <= 10000.
Proof.
  unfold backoff. split; [|apply Q.le_min_r].
  apply Q.min_glb_lt; [|reflexivity].
  assert (H : (0 < 2 ^ Z.of_nat attempt)%Z) by (apply Z.pow_pos_nonneg; lia).
  assert (Hq : 0 < inject_Z (2 ^ Z.of_nat attempt)).
  { change 0 with (inject_Z 0). rewrite <- Zlt_Qlt. exact H. }
  lra.
Qed.

Lemma delay_in_range attempt :
  0 <= random attempt -> random attempt < 1 ->
  delay_ok attempt
    (backoff attempt + random attempt * backoff attempt * (5 # 10)).
Proof.
  intros H0 H1. destruct (backoff_range attempt) as [Hb0 Hb1].
  unfold delay_ok. repeat split; nra.
Qed.

(** How a run of the loop may end, given where its delays stand. *)
Definition ends_well (maxRetries : nat) (out : Result * list Q) : Prop :=
  (length out.2 <= maxRetries)%nat /\
  (forall i d, out.2 !! i = Some d -> delay_ok i d) /\
  match out.1 with
  | Returned response latencyMs attempt =>
      (attempt <= maxRetries)%nat /\ http attempt = inl response /\
      latencyMs = ((clock attempt).2 - (clock attempt).1)%Z /\
      length out.2 = attempt /\
      forall j, (j < attempt)%nat -> retried j
  | Thrown err attempt =>
      (attempt <= maxRetries)%nat /\
      (forall j, (j < attempt)%nat -> retried j) /\
      exists e, http attempt = inr e /\ err = _wrapError name e /\
                (clientError e = true /\ length out.2 = attempt \/
                 clientError e = false /\ attempt = maxRetries /\
                 length out.2 = maxRetries)
  | TypeErrorThrown => False
  end.

Lemma requestFrom_spec maxRetries :
  (forall i, 0 <= random i /\ random i < 1) ->
  forall remaining attempt lastError delays,
    (remaining + attempt = S maxRetries)%nat ->
    length delays = Nat.min attempt maxRetries ->
    (forall i d, delays !! i = Some d -> delay_ok i d) ->
    (forall j, (j < attempt)%nat -> retried j) ->
    (attempt = 0%nat \/
     exists e, lastError = Some e /\ http (attempt - 1) = inr e /\
               clientError e = false) ->
    ends_well maxRetries
      (requestFrom maxRetries remaining attempt lastError delays).
Proof.
  intros Hrand remaining.
  induction remaining as [|k IH]; intros attempt lastError delays
    Hsum Hlen Hdelays Hretried Hlast.
  - cbn [requestFrom]. unfold ends_well. cbn [fst snd].
    assert (Ha : attempt = S maxRetries) by lia. subst attempt.
    split; [lia|]. split; [exact Hdelays|].
    destruct Hlast as [? | (e & -> & He & Hc)]; [lia|].
    split; [lia|]. split; [intros j Hj; apply Hretried; lia|].
    exists e. replace (S maxRetries - 1)%nat with maxRetries in He by lia.
    split; [exact He|]. split; [reflexivity|]. right.
    split; [exact Hc|]. split; [reflexivity | lia].
  - cbn [requestFrom].
    assert (Ha : (attempt <= maxRetries)%nat) by lia.
    destruct (http attempt) as [response|err] eqn:Ehttp.
    + unfold ends_well. cbn [fst snd].
      split; [lia|]. split; [exact Hdelays|].
      split; [exact Ha|]. split; [exact Ehttp|]. split; [reflexivity|].
      split; [lia | exact Hretried].
    + destruct (clientError err) eqn:Eclient.
      * unfold ends_well. cbn [fst snd].
        split; [lia|]. split; [exact Hdelays|].
        split; [exact Ha|]. split; [exact Hretried|].
        exists err. split; [exact Ehttp|]. split; [reflexivity|].
        left. split; [exact Eclient | lia].
      * apply IH.
        -- lia.
        -- destruct (Nat.ltb_spec attempt maxRetries).
           ++ rewrite length_app. cbn [length]. lia.
           ++ lia.
        -- intros i d Hi. destruct (attempt <? maxRetries)%nat;
             [|apply Hdelays, Hi].
           apply lookup_app_Some in Hi as [Hi | [Hge Hi]];
             [apply Hdelays, Hi|].
           apply list_lookup_singleton_Some in Hi as [Hidx <-].
           replace i with attempt by lia.
           apply delay_in_range; apply Hrand.
        -- intros j Hj. destruct (decide (j = attempt)) as [->|Hne].
           ++ exists err. auto.
           ++ apply Hretried. lia.
        -- right. exists err. replace (S attempt - 1)%nat with attempt by lia.
           auto.
Qed.

(** X25.  The retry policy of the shared request loop: with draws of
    [Math.random()] in [0, 1), a request makes at most [maxRetries + 1]
    attempts and sleeps at most [maxRetries] times, the delay after the
    failed attempt [i] lying between the backoff min(1000 * 2^i, 10000)
    and one and a half times it, hence under 15 s; it returns the first
    success, with the index of that attempt; an error with a 4xx status
    other than 429 is thrown at once, without a further attempt; any
    other error is thrown only after the attempt of index [maxRetries];
    and the [TypeError] of wrapping an absent error cannot occur. *)
Theorem retry_policy maxRetries :
  (forall i, 0 <= random i /\ random i < 1) ->
  (length (request maxRetries).2 <= maxRetries)%nat /\
  (forall i d, (request maxRetries).2 !! i = Some d ->
     backoff i <= d /\ d < backoff i * (15 # 10) /\ d < 15000) /\
  match (request maxRetries).1 with
  | Returned response latencyMs attempt =>
      (attempt <= maxRetries)%nat /\ http attempt = inl response /\
      latencyMs = ((clock attempt).2 - (clock attempt).1)%Z /\
      length (request maxRetries).2 = attempt /\
      forall j, (j < attempt)%nat -> retried j
  | Thrown err attempt =>
      (attempt <= maxRetries)%nat /\
      (forall j, (j < attempt)%nat -> retried j) /\
      exists e, http attempt = inr e /\ err = _wrapError name e /\
                (clientError e = true /\
                 length (request maxRetries).2 = attempt \/
                 clientError e = false /\ attempt = maxRetries /\
                 length (request maxRetries).2 = maxRetries)
  | TypeErrorThrown => False
  end.
Proof.
  intros Hrand. unfold request.
  apply (requestFrom_spec maxRetries Hrand (S maxRetries) 0 None []).
  - lia.
  - reflexivity.
  - intros i d Hi. rewrite lookup_nil in Hi. discriminate.
  - intros j Hj. lia.
  - left. reflexivity.
Qed.

End WithClient.

(** A server that answers 503 twice and then 200. *)
Definition flaky (attempt : nat) : string + HttpError :=
  match attempt with
  | 0%nat | 1%nat =>
      inr (mkHttpError (Some 503%Z) (ObjectData (Some "overloaded")) "" "")
  | _ => inl "ok"%string
  end.

Lemma retry_policy_witness :
  (length (request string "groq" flaky (fun _ => (0, 40)%Z)
             (fun _ => 1 # 2) 2).2 <= 2)%nat /\
  (forall i d,
     (request string "groq" flaky (fun _ => (0, 40)%Z) (fun _ => 1 # 2) 2).2
       !! i = Some d ->
     backoff i <= d /\ d < backoff i * (15 # 10) /\ d < 15000) /\
  match (request string "groq" flaky (fun _ => (0, 40)%Z)
           (fun _ => 1 # 2) 2).1 with
  | Returned _ response latencyMs attempt =>
      (attempt <= 2)%nat /\ flaky attempt = inl response /\
      latencyMs = 40%Z /\
      length (request string "groq" flaky (fun _ => (0, 40)%Z)
                (fun _ => 1 # 2) 2).2 = attempt /\
      forall j, (j < attempt)%nat -> retried string flaky j
  | Thrown _ err attempt =>
      (attempt <= 2)%nat /\
      (forall j, (j < attempt)%nat -> retried string flaky j) /\
      exists e, flaky attempt = inr e /\ err = _wrapError "groq" e /\
                (clientError e = true /\
                 length (request string "groq" flaky (fun _ => (0, 40)%Z)
                           (fun _ => 1 # 2) 2).2 = attempt \/
                 clientError e = false /\ attempt = 2%nat /\
                 length (request string "groq" flaky (fun _ => (0, 40)%Z)
                           (fun _ => 1 # 2) 2).2 = 2%nat)
  | TypeErrorThrown _ => False
  end.
Proof.
  apply (retry_policy string "groq" flaky (fun _ => (0, 40)%Z)
           (fun _ => 1 # 2) 2).
  intros i. split; [vm_compute; discriminate | reflexivity].
Defined.

Example flaky_server_is_retried_twice :
  (request string "groq" flaky (fun _ => (0, 40)%Z) (fun _ => 1 # 2) 2).1
  = Returned string "ok" 40%Z 2 /\
  length (request string "groq" flaky (fun _ => (0, 40)%Z)
            (fun _ => 1 # 2) 2).2 = 2%nat.
Proof. split; reflexivity. Qed.

(** A 404 is thrown at the first attempt, with the status and the message
    of the response. *)
Example not_found_is_not_retried :
  (request string "groq"
     (fun _ => inr (mkHttpError (Some 404%Z)
                      (ArrayData (Some "no such model")) "Request failed" ""))
     (fun _ => (0, 40)%Z) (fun _ => 1 # 2) 2)
  = (Thrown string
       {| Fallback.e_status := 404%Z;
          Fallback.e_message := "[groq] no such model";
          Fallback.e_timedOut := false;
          Fallback.e_provider := "groq" |} 0, []).
Proof. reflexivity. Qed.

End BaseProvider.

(** ** The Anthropic adapter: request conversion and stream translation
    ([providers/anthropic.js], in the dump under [providers/openai.js]) *)

Module Anthropic.

(** A chat message with a textual content. *)
Record Message := mkMessage {
  role : string;
  content : string
}.

(** The fields of an OpenAI-format request body that the conversion
    reads; an absent field is [None]. *)
Record Body := mkBody {
  model : string;
  messages : option (list Message);
  max_tokens : option Q;
  temperature : option Q;
  top_p : option Q
}.

Record AnthropicBody := mkAnthropicBody {
  a_model : string;
  a_messages : list Message;
  a_max_tokens : Q;
  a_system : option string;
  a_temperature : option Q;
  a_top_p : option Q
}.

(** The line break ['\n']. *)
Definition newline : string := String (ascii_of_nat 10) EmptyString.

(** One turn of the loop over the messages, on the pair of [system] and
    [anthropicMessages]. *)
Definition convertMessage (acc : string * list Message) (msg : Message)
  : string * list Message :=
  let '(system, anthropicMessages) := acc in
  if String.eqb (role msg) "system"
  then ((system ++ (if JS.truthy_string system then newline else "")
          ++ content msg)%string, anthropicMessages)
  else (system,
        anthropicMessages
        ++ [mkMessage (if String.eqb (role msg) "assistant"
                       then "assistant" else "user")
                      (content msg)]).

(** [_convertToAnthropicFormat(body)]. *)
Definition _convertToAnthropicFormat (body : Body) : AnthropicBody :=
  let msgs := match messages body with Some l => l | None => [] end in
  let '(system, anthropicMessages) :=
    foldl convertMessage (""%string, []) msgs in
  {| a_model := model body;
     a_messages := anthropicMessages;
     a_max_tokens := JS.num_or (max_tokens body) 4096;
     a_system := if JS.truthy_string system then Some system else None;
     a_temperature := temperature body;
     a_top_p := top_p body |}.

(** *** The request conversion *)

Definition is_system (msg : Message) : bool := String.eqb (role msg) "system".

Definition toAnthropic (msg : Message) : Message :=
  mkMessage (if String.eqb (role msg) "assistant" then "assistant" else "user")
            (content msg).

(** The system prompts, without the empty ones at the head. *)
Fixpoint dropEmpty (l : list string) : list string :=
  match l with
  | s :: rest => if JS.truthy_string s then l else dropEmpty rest
  | [] => []
  end.

Lemma foldl_convertMessage msgs : forall system anthropicMessages,
  foldl convertMessage (system, anthropicMessages) msgs
  = (foldl (fun sys c =>
              (sys ++ (if JS.truthy_string sys then newline else "") ++ c)%string)
           system (map content (List.filter is_system msgs)),
     anthropicMessages
     ++ map toAnthropic (List.filter (fun m => negb (is_system m)) msgs)).
Proof.
  induction msgs as [|msg msgs IH]; intros system anthropicMessages.
  - cbn. rewrite app_nil_r. reflexivity.
  - cbn [foldl].
    assert (Hstep : convertMessage (system, anthropicMessages) msg
                    = if is_system msg
                      then ((system
                             ++ (if JS.truthy_string system then newline else "")
                             ++ content msg)%string, anthropicMessages)
                      else (system, anthropicMessages ++ [toAnthropic msg]))
      by reflexivity.
    rewrite Hstep. cbn [List.filter].
    destruct (is_system msg); cbn [negb]; rewrite IH; [reflexivity|].
    cbn [map]. rewrite <- app_assoc. reflexivity.
Qed.

Lemma append_nil_r (s : string) : (s ++ "")%string = s.
Proof.
  induction s as [|c s IH]; [reflexivity|].
  change (String c (s ++ "")%string = String c s). f_equal. exact IH.
Qed.

Lemma append_assoc (a b c : string) :
  ((a ++ b) ++ c)%string = (a ++ (b ++ c))%string.
Proof.
  induction a as [|x a IH]; [reflexivity|].
  change (String x ((a ++ b) ++ c)%string = String x (a ++ (b ++ c))%string).
  f_equal. exact IH.
Qed.

Lemma truthy_append_l (a b : string) :
  JS.truthy_string a = true -> JS.truthy_string (a ++ b) = true.
Proof. destruct a; [discriminate | reflexivity]. Qed.

(** From a non-empty [system] on, every prompt is appended behind a line
    break. *)
Lemma foldl_system_truthy contents : forall system,
  JS.truthy_string system = true ->
  foldl (fun sys c =>
           (sys ++ (if JS.truthy_string sys then newline else "") ++ c)%string)
        system contents
  = String.concat newline (system :: contents).
Proof.
  induction contents as [|c contents IH]; intros system Hs.
  - reflexivity.
  - cbn [foldl]. rewrite Hs. rewrite IH by (apply truthy_append_l, Hs).
    cbn [String.concat]. destruct contents as [|c' contents].
    + reflexivity.
    + rewrite append_assoc. reflexivity.
Qed.

Lemma foldl_system contents :
  foldl (fun sys c =>
           (sys ++ (if JS.truthy_string sys then newline else "") ++ c)%string)
        ""%string contents
  = String.concat newline (dropEmpty contents).
Proof.
  induction contents as [|c contents IH]; [reflexivity|].
  cbn [foldl dropEmpty JS.truthy_string]. cbn [append].
  destruct (JS.truthy_string c) eqn:Ec.
  - apply foldl_system_truthy, Ec.
  - destruct c; [|discriminate]. exact IH.
Qed.

(** X26.  The conversion of a request to the Anthropic format keeps the
    conversation: the converted messages are the messages whose role is
    not [system], in their order and with their contents, each with the
    role [assistant] if it had it and [user] otherwise; the [system] field
    is the contents of the system messages joined by line breaks, empty
    ones at the head left out, and is absent when that text is empty;
    [max_tokens] is 4096 when the request gives none (or 0). *)
Theorem conversion_keeps_the_conversation body :
  let msgs := match messages body with Some l => l | None => [] end in
  let system :=
    String.concat newline
      (dropEmpty (map content (List.filter is_system msgs))) in
  a_messages (_convertToAnthropicFormat body)
  = map toAnthropic (List.filter (fun m => negb (is_system m)) msgs) /\
  (forall m, In m (a_messages (_convertToAnthropicFormat body)) ->
     role m = "assistant"%string \/ role m = "user"%string) /\
  a_system (_convertToAnthropicFormat body)
  = (if JS.truthy_string system then Some system else None) /\
  a_max_tokens (_convertToAnthropicFormat body)
  = JS.num_or (max_tokens body) 4096 /\
  a_model (_convertToAnthropicFormat body) = model body.
Proof.
  cbv zeta. unfold _convertToAnthropicFormat.
  rewrite foldl_convertMessage, foldl_system. cbn [app].
  cbn [a_messages a_system a_max_tokens a_model].
  repeat split; try reflexivity.
  intros m Hm. apply in_map_iff in Hm as (m0 & <- & _).
  unfold toAnthropic. cbn [role].
  destruct (String.eqb (role m0) "assistant"); auto.
Qed.

Example system_prompts_are_joined :
  _convertToAnthropicFormat
    (mkBody "claude-3-haiku"
       (Some [ mkMessage "system" "Be brief.";
               mkMessage "user" "Hi";
               mkMessage "system" "Answer in French.";
               mkMessage "tool" "42";
               mkMessage "assistant" "Bonjour" ])
       None (Some (7 # 10)) None)
  = {| a_model := "claude-3-haiku";
       a_messages := [ mkMessage "user" "Hi"; mkMessage "user" "42";
                       mkMessage "assistant" "Bonjour" ];
       a_max_tokens := 4096;
       a_system := Some ("Be brief." ++ newline ++ "Answer in French.")%string;
       a_temperature := Some (7 # 10);
       a_top_p := None |}.
Proof. reflexivity. Qed.

(** *** The stream translation *)

(** What [JSON.parse] makes of the payload of a [data:] line, as far as
    the translation reads it: [event.type], [input_tokens || 0] of
    [event.message.usage] when that object is there, [event.delta.text]
    when it is there, and [output_tokens || 0] of [event.usage] when that
    object is there. *)
Record SseEvent := mkSseEvent {
  ev_type : string;
  ev_message_usage : option Z;
  ev_delta_text : option string;
  ev_usage : option Z
}.

(** A chunk pushed downstream.  The two clock readings are those of the
    [id] and of [created]. *)
Inductive Push :=
| ContentChunk (idTime createdTime : Z) (model text : string)
| FinalChunk (idTime createdTime : Z) (model : string)
             (prompt_tokens completion_tokens total_tokens : Z)
| Done.

(** A chunk without its clock readings. *)
Inductive Payload :=
| Content (model text : string)
| Final (model : string) (prompt_tokens completion_tokens total_tokens : Z)
| DoneMarker.

Definition payload (p : Push) : Payload :=
  match p with
  | ContentChunk _ _ m t => Content m t
  | FinalChunk _ _ m p c t => Final m p c t
  | Done => DoneMarker
  end.

(** The closure variables of the transformer. *)
Record Transformer := mkTransformer {
  buffer : string;
  inputTokens : Z;
  outputTokens : Z
}.

Definition fresh : Transformer := mkTransformer "" 0 0.

(** [s.split('\n')] as the pair of the pieces before the last one and the
    last piece, which [lines.pop()] takes off. *)
Fixpoint splitLines (s : string) : list string * string :=
  match s with
  | EmptyString => ([], EmptyString)
  | String c rest =>
      let '(lines, last) := splitLines rest in
      if Ascii.eqb c (ascii_of_nat 10) then (EmptyString :: lines, last)
      else
        match lines with
        | [] => ([], String c last)
        | first :: others => (String c first :: others, last)
        end
  end.

(** *** Decoding a chunk

    A text is held by its UTF-8 encoding.  [chunk.toString()] decodes the
    bytes of one Buffer as UTF-8: a well-formed sequence is kept, and every
    maximal part of an ill-formed one, such as a multi-byte character whose
    bytes are not all in the Buffer, becomes U+FFFD. *)

(** U+FFFD in UTF-8. *)
Definition replacement : string :=
  String (ascii_of_nat 239)
    (String (ascii_of_nat 191) (String (ascii_of_nat 189) EmptyString)).

(** What a byte is at the start of a sequence: a character of its own, the
    lead of a sequence with [need] more bytes of which the first lies
    between [lo] and [hi], or no start at all. *)
Inductive Utf8Class :=
| Single
| Lead (need lo hi : nat)
| Malformed.

Definition utf8Class (c : ascii) : Utf8Class :=
  let n := nat_of_ascii c in
  if (n <? 128)%nat then Single
  else if ((194 <=? n) && (n <=? 223))%nat then Lead 1 128 191
  else if (n =? 224)%nat then Lead 2 160 191
  else if ((225 <=? n) && (n <=? 236))%nat || (n =? 238)%nat || (n =? 239)%nat
  then Lead 2 128 191
  else if (n =? 237)%nat then Lead 2 128 159
  else if (n =? 240)%nat then Lead 3 144 191
  else if ((241 <=? n) && (n <=? 243))%nat then Lead 3 128 191
  else if (n =? 244)%nat then Lead 3 128 143
  else Malformed.

(** Where the decoder stands: between two characters, or inside a sequence
    of which [seen] was read and [need] bytes are missing. *)
Inductive Utf8State :=
| Between
| Inside (seen : string) (need lo hi : nat).

Fixpoint decodeFrom (st : Utf8State) (bytes : string) : string :=
  match bytes with
  | EmptyString =>
      match st with
      | Between => EmptyString
      | Inside _ _ _ _ => replacement
      end
  | String c rest =>
      let restart :=
        match utf8Class c with
        | Single => String c (decodeFrom Between rest)
        | Lead need lo hi =>
            decodeFrom (Inside (String c EmptyString) need lo hi) rest
        | Malformed => (replacement ++ decodeFrom Between rest)%string
        end in
      match st with
      | Between => restart
      | Inside seen need lo hi =>
          let n := nat_of_ascii c in
          if ((lo <=? n) && (n <=? hi))%nat then
            match need with
            | 1%nat => (seen ++ String c (decodeFrom Between rest))%string
            | _ =>
                decodeFrom
                  (Inside (seen ++ String c EmptyString) (pred need) 128 191)
                  rest
            end
          else (replacement ++ restart)%string
      end
  end.

(** [chunk.toString()]. *)
Definition toString (chunk : string) : string := decodeFrom Between chunk.

Section WithParser.

(** [JSON.parse], [None] when it throws or yields no object. *)
Variable parse : string -> option SseEvent.

(** The model name of the request. *)
Variable model : string.

(** The body of the loop over the lines, with the two clock readings a
    pushed chunk takes. *)
Definition processLine (now : Z * Z) (line : string)
  (acc : list Push * (Z * Z)) : list Push * (Z * Z) :=
  let '(out, (input, output)) := acc in
  if negb (JS.startsWith line "data: ") then acc
  else
    let jsonStr := JS.trim (JS.slice_from 6 line) in
    if negb (JS.truthy_string jsonStr) || String.eqb jsonStr "[DONE]" then acc
    else
      match parse jsonStr with
      | None => acc
      | Some event =>
          let input1 :=
            match ev_message_usage event with
            | Some n =>
                if String.eqb (ev_type event) "message_start" then n else input
            | None => input
            end in
          let out1 :=
            match ev_delta_text event with
            | Some text =>
                if String.eqb (ev_type event) "content_block_delta"
                   && JS.truthy_string text
                then out ++ [ContentChunk now.1 now.2 model text]
                else out
            | None => out
            end in
          let '(out2, output1) :=
            match ev_usage event with
            | Some n =>
                if String.eqb (ev_type event) "message_delta"
                then (out1 ++ [FinalChunk now.1 now.2 model input1 n
                                 (input1 + n)%Z], n)
                else (out1, output)
            | None => (out1, output)
            end in
          let out3 :=
            if String.eqb (ev_type event) "message_stop"
            then out2 ++ [Done] else out2 in
          (out3, (input1, output1))
      end.

(** The lines of one call, each with the readings of its turn. *)
Fixpoint processLines (clock : nat -> Z * Z) (i : nat) (lines : list string)
  (acc : list Push * (Z * Z)) : list Push * (Z * Z) :=
  match lines with
  | [] => acc
  | line :: rest =>
      processLines clock (S i) rest (processLine (clock i) line acc)
  end.

(** The body of [transform(chunk, encoding, callback)] from the text of the
    chunk on: [chunk] is the text that [chunk.toString()] returned.  The
    chunks pushed and the new state. *)
Definition transform (clock : nat -> Z * Z) (chunk : string)
  (t : Transformer) : list Push * Transformer :=
  let '(lines, last) := splitLines (buffer t ++ chunk) in
  let '(out, (input, output)) :=
    processLines clock 0 lines ([], (inputTokens t, outputTokens t)) in
  (out, mkTransformer last input output).

(** [transform(chunk, encoding, callback)] on a Buffer as the response
    stream delivers it: the Buffer is decoded on its own. *)
Definition transformBuffer (clock : nat -> Z * Z) (chunk : string)
  (t : Transformer) : list Push * Transformer :=
  transform clock (toString chunk) t.

(** The Buffers of a response, fed one after the other, each call with its
    own clock. *)
Fixpoint feed (clocks : nat -> nat -> Z * Z) (k : nat) (chunks : list string)
  (t : Transformer) : list Push * Transformer :=
  match chunks with
  | [] => ([], t)
  | chunk :: rest =>
      let '(out, t1) := transformBuffer (clocks k) chunk t in
      let '(outs, t2) := feed clocks (S k) rest t1 in
      (out ++ outs, t2)
  end.

(** [getUsage()]. *)
Definition getUsage (t : Transformer) : Z * Z :=
  (inputTokens t, outputTokens t).

(** *** Translation of the lines, without the clock *)

(** What a line contributes, given the token counts so far. *)
Definition translate (line : string) (tokens : Z * Z)
  : list Payload * (Z * Z) :=
  let '(out, tokens') := processLine (0, 0)%Z line ([], tokens) in
  (map payload out, tokens').

Fixpoint translateAll (lines : list string) (tokens : Z * Z)
  : list Payload * (Z * Z) :=
  match lines with
  | [] => ([], tokens)
  | line :: rest =>
      let '(ps, tokens1) := translate line tokens in
      let '(qs, tokens2) := translateAll rest tokens1 in
      (ps ++ qs, tokens2)
  end.

Lemma processLine_payload now line out tokens :
  map payload (processLine now line (out, tokens)).1
  = map payload out ++ (translate line tokens).1 /\
  (processLine now line (out, tokens)).2 = (translate line tokens).2.
Proof.
  unfold translate, processLine. destruct tokens as [input output].
  destruct (negb (JS.startsWith line "data: "));
    [cbn; rewrite app_nil_r; auto|].
  destruct (negb (JS.truthy_string (JS.trim (JS.slice_from 6 line)))
            || String.eqb (JS.trim (JS.slice_from 6 line)) "[DONE]");
    [cbn; rewrite app_nil_r; auto|].
  destruct (parse (JS.trim (JS.slice_from 6 line))) as [event|];
    [|cbn; rewrite app_nil_r; auto].
  destruct (ev_message_usage event), (ev_delta_text event) as [text|],
    (ev_usage event);
    destruct (String.eqb (ev_type event) "message_start"),
      (String.eqb (ev_type event) "content_block_delta"),
      (String.eqb (ev_type event) "message_delta"),
      (String.eqb (ev_type event) "message_stop");
    try destruct (JS.truthy_string text);
    cbn; rewrite ?map_app, ?app_nil_r, <- ?app_assoc; cbn; auto.
Qed.

Lemma processLines_payload clock lines : forall i out tokens,
  map payload (processLines clock i lines (out, tokens)).1
  = map payload out ++ (translateAll lines tokens).1 /\
  (processLines clock i lines (out, tokens)).2 = (translateAll lines tokens).2.
Proof.
  induction lines as [|line lines IH]; intros i out tokens.
  - cbn. rewrite app_nil_r. auto.
  - cbn [processLines translateAll].
    destruct (processLine_payload (clock i) line out tokens) as [Hp Ht].
    destruct (processLine (clock i) line (out, tokens)) as [out1 tokens1].
    cbn [fst snd] in Hp, Ht.
    destruct (translate line tokens) as [ps tokens1'] eqn:Etr.
    cbn [fst snd] in Hp, Ht. subst tokens1'.
    destruct (IH (S i) out1 tokens1) as [Hp2 Ht2].
    destruct (translateAll lines tokens1) as [qs tokens2].
    cbn [fst snd] in *. rewrite Hp2, Hp, <- app_assoc. auto.
Qed.

Lemma translateAll_app l1 l2 tokens :
  translateAll (l1 ++ l2) tokens
  = ((translateAll l1 tokens).1
     ++ (translateAll l2 (translateAll l1 tokens).2).1,
     (translateAll l2 (translateAll l1 tokens).2).2).
Proof.
  revert tokens. induction l1 as [|line l1 IH]; intros tokens.
  - cbn. destruct (translateAll l2 tokens). reflexivity.
  - cbn [app translateAll]. destruct (translate line tokens) as [ps tokens1].
    rewrite IH. destruct (translateAll l1 tokens1) as [qs tokens2].
    cbn [fst snd]. rewrite <- app_assoc. reflexivity.
Qed.

(** The payloads and the state of one call, in terms of the lines. *)
Lemma transform_payload clock chunk t :
  map payload (transform clock chunk t).1
  = (translateAll (splitLines (buffer t ++ chunk)).1
       (inputTokens t, outputTokens t)).1 /\
  (transform clock chunk t).2
  = mkTransformer (splitLines (buffer t ++ chunk)).2
      (translateAll (splitLines (buffer t ++ chunk)).1
         (inputTokens t, outputTokens t)).2.1
      (translateAll (splitLines (buffer t ++ chunk)).1
         (inputTokens t, outputTokens t)).2.2.
Proof.
  unfold transform.
  destruct (splitLines (buffer t ++ chunk)) as [lines last].
  destruct (processLines_payload clock lines 0 []
              (inputTokens t, outputTokens t)) as [Hp Ht].
  destruct (processLines clock 0 lines ([], (inputTokens t, outputTokens t)))
    as [out [input output]].
  cbn [fst snd] in *. cbn [map app] in Hp. rewrite Hp, <- Ht. auto.
Qed.

(** *** Chunk boundaries *)

Lemma splitLines_app a b :
  splitLines (a ++ b)
  = ((splitLines a).1 ++ (splitLines ((splitLines a).2 ++ b)).1,
     (splitLines ((splitLines a).2 ++ b)).2).
Proof.
  induction a as [|c a IH].
  - change (splitLines "") with (@nil string, ""%string). cbn [fst snd app].
    change ("" ++ b)%string with b. destruct (splitLines b). reflexivity.
  - change (String c a ++ b)%string with (String c (a ++ b)%string).
    cbn [splitLines]. rewrite IH.
    destruct (splitLines a) as [la ra]. cbn [fst snd].
    destruct (Ascii.eqb c (ascii_of_nat 10)) eqn:Ec.
    + cbn [fst snd]. reflexivity.
    + destruct la as [|first others]; cbn [fst snd app].
      * change (String c ra ++ b)%string with (String c (ra ++ b)%string).
        cbn [splitLines]. rewrite Ec.
        destruct (splitLines (ra ++ b)) as [lb rb]. cbn [fst snd].
        destruct lb; reflexivity.
      * reflexivity.
Qed.

(** What is left in the buffer holds no line break. *)
Lemma splitLines_last s :
  splitLines (splitLines s).2 = ([], (splitLines s).2).
Proof.
  induction s as [|c s IH]; [reflexivity|].
  cbn [splitLines]. destruct (splitLines s) as [lines last].
  cbn [snd] in IH.
  destruct (Ascii.eqb c (ascii_of_nat 10)) eqn:Ec; [exact IH|].
  destruct lines as [|first others]; cbn [snd]; [|exact IH].
  cbn [splitLines]. rewrite IH, Ec. reflexivity.
Qed.

Definition unbroken (s : string) : Prop := splitLines s = ([], s).

Lemma transform_unbroken clock chunk t :
  unbroken (buffer (transform clock chunk t).2).
Proof.
  destruct (transform_payload clock chunk t) as [_ ->]. cbn [buffer].
  apply splitLines_last.
Qed.

Lemma append_assoc_buffer (a b c : string) :
  (a ++ (b ++ c))%string = ((a ++ b) ++ c)%string.
Proof. symmetry. apply append_assoc. Qed.

(** Two calls in a row, against one call on the two chunks put
    together. *)
Lemma transform_two clock1 clock2 clock c1 c2 t :
  map payload (transform clock1 c1 t).1
  ++ map payload (transform clock2 c2 (transform clock1 c1 t).2).1
  = map payload (transform clock (c1 ++ c2) t).1 /\
  (transform clock2 c2 (transform clock1 c1 t).2).2
  = (transform clock (c1 ++ c2) t).2.
Proof.
  destruct (transform_payload clock1 c1 t) as [Hp1 Ht1].
  destruct (transform_payload clock2 c2 (transform clock1 c1 t).2)
    as [Hp2 Ht2].
  destruct (transform_payload clock (c1 ++ c2) t) as [Hp Ht].
  rewrite Hp1, Hp2, Hp, Ht2, Ht, Ht1. cbn [buffer inputTokens outputTokens].
  rewrite append_assoc_buffer,
    (splitLines_app (buffer t ++ c1)%string c2). cbn [fst snd].
  rewrite translateAll_app. cbn [fst snd].
  rewrite <- !surjective_pairing. auto.
Qed.

(** The chunks of a response put together. *)
Definition joinChunks (chunks : list string) : string :=
  foldr String.append ""%string chunks.

Lemma transform_empty clock t :
  unbroken (buffer t) -> transform clock "" t = ([], t).
Proof.
  intros Hb. unfold transform. rewrite append_nil_r, Hb. cbn.
  destruct t. reflexivity.
Qed.

(** The Buffers of a response are translated as the text made of their
    decodings, each decoded on its own. *)
Lemma feed_joined clocks clock chunks : forall k t,
  unbroken (buffer t) ->
  map payload (feed clocks k chunks t).1
  = map payload (transform clock (joinChunks (map toString chunks)) t).1 /\
  (feed clocks k chunks t).2
  = (transform clock (joinChunks (map toString chunks)) t).2.
Proof.
  induction chunks as [|chunk chunks IH]; intros k t Hb.
  - cbn [feed joinChunks foldr map]. rewrite transform_empty by exact Hb. auto.
  - cbn [feed joinChunks foldr map]. fold (joinChunks (map toString chunks)).
    unfold transformBuffer.
    destruct (transform_two (clocks k) clock clock (toString chunk)
                (joinChunks (map toString chunks)) t)
      as [Hp Ht].
    destruct (IH (S k) (transform (clocks k) (toString chunk) t).2
                (transform_unbroken (clocks k) (toString chunk) t))
      as [Hp2 Ht2].
    destruct (transform (clocks k) (toString chunk) t) as [out t1].
    cbn [fst snd] in *.
    destruct (feed clocks (S k) chunks t1) as [outs t2]. cbn [fst snd] in *.
    rewrite map_app, Hp2, Hp, Ht2, Ht. auto.
Qed.

(** Buffers of ASCII bytes cut no character. *)
Fixpoint all_ascii (s : string) : bool :=
  match s with
  | EmptyString => true
  | String c rest => (nat_of_ascii c <? 128)%nat && all_ascii rest
  end.

Lemma toString_ascii s : all_ascii s = true -> toString s = s.
Proof.
  unfold toString. induction s as [|c s IH]; [reflexivity|].
  cbn [all_ascii decodeFrom]. intros H. apply andb_true_iff in H as [Hc Hs].
  unfold utf8Class. rewrite Hc, (IH Hs). reflexivity.
Qed.

Lemma all_ascii_app a b :
  all_ascii (a ++ b) = all_ascii a && all_ascii b.
Proof.
  induction a as [|c a IH]; [reflexivity|].
  change (String c a ++ b)%string with (String c (a ++ b)%string).
  cbn [all_ascii]. rewrite IH, andb_assoc. reflexivity.
Qed.

Lemma ascii_chunks_cut_no_character chunks :
  forallb all_ascii chunks = true ->
  toString (joinChunks chunks) = joinChunks (map toString chunks).
Proof.
  intros H.
  assert (Hall : all_ascii (joinChunks chunks) = true
                 /\ map toString chunks = chunks).
  { induction chunks as [|c chunks IH]; [split; reflexivity|].
    cbn [forallb] in H. apply andb_true_iff in H as [Hc Hs].
    destruct (IH Hs) as [Hj Hm]. cbn [joinChunks foldr map].
    fold (joinChunks chunks). rewrite all_ascii_app, Hc, Hj, Hm.
    rewrite (toString_ascii c Hc). split; reflexivity. }
  destruct Hall as [Hj Hm]. rewrite Hm. apply toString_ascii, Hj.
Qed.

(** X27.  Chunk boundaries do not matter to the stream translation as long
    as they cut no character: when the Buffers of an Anthropic event stream
    decode, each on its own, to the pieces of the decoding of the whole
    (which is the case when no multi-byte character has its bytes in two
    Buffers), the chunks pushed downstream, read without their timestamps,
    and the state left at the end (the unfinished line and the token
    counts) are those of a single call on the whole stream.  An event cut
    in two by such a boundary is therefore translated exactly once. *)
Theorem chunk_boundaries_do_not_matter clocks clock chunks :
  toString (joinChunks chunks) = joinChunks (map toString chunks) ->
  map payload (feed clocks 0 chunks fresh).1
  = map payload (transformBuffer clock (joinChunks chunks) fresh).1 /\
  (feed clocks 0 chunks fresh).2
  = (transformBuffer clock (joinChunks chunks) fresh).2.
Proof.
  intros Hcut. unfold transformBuffer. rewrite Hcut.
  apply feed_joined. reflexivity.
Qed.

(** *** A well-formed event stream *)

Definition dataLine (body : string) : string := ("data: " ++ body)%string.

(** The text of a stream from its lines. *)
Definition joinLines (lines : list string) : string :=
  foldr (fun line rest => (line ++ newline ++ rest)%string) ""%string lines.

(** What a line holds: nothing for the translation ([None]: it does not
    start with [data: ]), or an event. *)
Definition carries (line : string) (ev : option SseEvent) : Prop :=
  unbroken line /\
  match ev with
  | None => JS.startsWith line "data: " = false
  | Some event =>
      exists body,
        line = dataLine body /\ JS.truthy_string (JS.trim body) = true /\
        String.eqb (JS.trim body) "[DONE]" = false /\
        parse (JS.trim body) = Some event
  end.

(** The four kinds of events the translation acts on. *)
Definition is_start (input : Z) (ev : SseEvent) : Prop :=
  ev_type ev = "message_start"%string /\ ev_message_usage ev = Some input.

Definition is_text (text : string) (ev : SseEvent) : Prop :=
  ev_type ev = "content_block_delta"%string /\ ev_delta_text ev = Some text /\
  JS.truthy_string text = true.

Definition is_usage (output : Z) (ev : SseEvent) : Prop :=
  ev_type ev = "message_delta"%string /\ ev_usage ev = Some output.

Definition is_stop (ev : SseEvent) : Prop :=
  ev_type ev = "message_stop"%string.

(** The events of the lines, in order. *)
Definition eventsOf (evs : list (option SseEvent)) : list SseEvent :=
  omap (fun e => e) evs.

Lemma unbroken_cons c s :
  unbroken (String c s) -> Ascii.eqb c (ascii_of_nat 10) = false /\ unbroken s.
Proof.
  unfold unbroken. cbn [splitLines].
  destruct (splitLines s) as [lines last].
  destruct (Ascii.eqb c (ascii_of_nat 10)); [discriminate|].
  destruct lines; [|discriminate]. intros [= ->]. auto.
Qed.

Lemma splitLines_line line rest :
  unbroken line ->
  splitLines (line ++ newline ++ rest)
  = (line :: (splitLines rest).1, (splitLines rest).2).
Proof.
  induction line as [|c line IH]; intros Hl.
  - change ("" ++ newline ++ rest)%string
      with (String (ascii_of_nat 10) rest).
    cbn [splitLines]. destruct (splitLines rest). reflexivity.
  - apply unbroken_cons in Hl as [Hc Hl].
    change (String c line ++ newline ++ rest)%string
      with (String c (line ++ newline ++ rest)%string).
    cbn [splitLines]. rewrite (IH Hl), Hc. reflexivity.
Qed.

Lemma splitLines_joinLines lines :
  List.Forall unbroken lines ->
  splitLines (joinLines lines) = (lines, ""%string).
Proof.
  induction 1 as [|line lines Hl _ IH]; [reflexivity|].
  cbn [joinLines foldr]. fold (joinLines lines).
  rewrite (splitLines_line _ _ Hl), IH. reflexivity.
Qed.

(** The contribution of an event to the output. *)
Definition translateEvent (event : SseEvent) (tokens : Z * Z)
  : list Payload * (Z * Z) :=
  let '(input, output) := tokens in
  let input1 :=
    match ev_message_usage event with
    | Some n =>
        if String.eqb (ev_type event) "message_start" then n else input
    | None => input
    end in
  let out1 :=
    match ev_delta_text event with
    | Some text =>
        if String.eqb (ev_type event) "content_block_delta"
           && JS.truthy_string text
        then [Content model text] else []
    | None => []
    end in
  let '(out2, output1) :=
    match ev_usage event with
    | Some n =>
        if String.eqb (ev_type event) "message_delta"
        then (out1 ++ [Final model input1 n (input1 + n)%Z], n)
        else (out1, output)
    | None => (out1, output)
    end in
  (if String.eqb (ev_type event) "message_stop"
   then out2 ++ [DoneMarker] else out2,
   (input1, output1)).

Fixpoint translateEvents (events : list SseEvent) (tokens : Z * Z)
  : list Payload * (Z * Z) :=
  match events with
  | [] => ([], tokens)
  | event :: rest =>
      let '(ps, tokens1) := translateEvent event tokens in
      let '(qs, tokens2) := translateEvents rest tokens1 in
      (ps ++ qs, tokens2)
  end.

Lemma translate_carries line ev tokens :
  carries line ev ->
  translate line tokens
  = match ev with
    | Some event => translateEvent event tokens
    | None => ([], tokens)
    end.
Proof.
  intros [_ Hc]. unfold translate, processLine. destruct tokens as [input output].
  destruct ev as [event|].
  - destruct Hc as (body & -> & Htr & Hdone & Hparse).
    assert (Hsw : JS.startsWith (dataLine body) "data: " = true)
      by (unfold dataLine; cbn; destruct body; reflexivity).
    rewrite Hsw. change (JS.slice_from 6 (dataLine body)) with body.
    cbn [negb]. rewrite Htr, Hdone, Hparse. cbn [negb orb].
    unfold translateEvent.
    destruct (ev_message_usage event), (ev_delta_text event) as [text|],
      (ev_usage event);
      destruct (String.eqb (ev_type event) "message_start"),
        (String.eqb (ev_type event) "content_block_delta"),
        (String.eqb (ev_type event) "message_delta"),
        (String.eqb (ev_type event) "message_stop");
      try destruct (JS.truthy_string text);
      cbn; rewrite ?map_app; reflexivity.
  - rewrite Hc. reflexivity.
Qed.

Lemma translateAll_carries lines evs :
  Forall2 carries lines evs ->
  forall tokens,
    translateAll lines tokens = translateEvents (eventsOf evs) tokens.
Proof.
  induction 1 as [|line ev lines evs Hc _ IH]; intros tokens; [reflexivity|].
  cbn [translateAll]. rewrite (translate_carries line ev tokens Hc).
  destruct ev as [event|].
  - change (eventsOf (Some event :: evs)) with (event :: eventsOf evs).
    cbn [translateEvents]. destruct (translateEvent event tokens) as [ps t1].
    rewrite IH. reflexivity.
  - change (eventsOf (None :: evs)) with (eventsOf evs).
    rewrite IH. destruct (translateEvents _ tokens). reflexivity.
Qed.

Lemma translateEvent_start input ev tokens :
  is_start input ev -> translateEvent ev tokens = ([], (input, tokens.2)).
Proof.
  intros [Ht Hu]. unfold translateEvent. destruct tokens as [i o].
  rewrite Ht, Hu. destruct (ev_delta_text ev), (ev_usage ev); reflexivity.
Qed.

Lemma translateEvent_text text ev tokens :
  is_text text ev -> translateEvent ev tokens = ([Content model text], tokens).
Proof.
  intros (Ht & Hd & Htr). unfold translateEvent. destruct tokens as [i o].
  rewrite Ht, Hd. cbn [String.eqb Ascii.eqb Bool.eqb andb]. rewrite Htr.
  destruct (ev_message_usage ev), (ev_usage ev); reflexivity.
Qed.

Lemma translateEvent_usage output ev tokens :
  is_usage output ev ->
  translateEvent ev tokens
  = ([Final model tokens.1 output (tokens.1 + output)%Z], (tokens.1, output)).
Proof.
  intros [Ht Hu]. unfold translateEvent. destruct tokens as [i o].
  rewrite Ht, Hu. destruct (ev_message_usage ev), (ev_delta_text ev);
    reflexivity.
Qed.

Lemma translateEvent_stop ev tokens :
  is_stop ev -> translateEvent ev tokens = ([DoneMarker], tokens).
Proof.
  intros Ht. unfold is_stop in Ht. unfold translateEvent.
  destruct tokens as [i o]. rewrite Ht.
  destruct (ev_message_usage ev), (ev_delta_text ev), (ev_usage ev);
    reflexivity.
Qed.

Lemma translateEvents_texts texts textEvs rest tokens :
  Forall2 is_text texts textEvs ->
  translateEvents (textEvs ++ rest) tokens
  = (map (Content model) texts ++ (translateEvents rest tokens).1,
     (translateEvents rest tokens).2).
Proof.
  induction 1 as [|text ev texts textEvs Htext _ IH].
  - cbn. destruct (translateEvents rest tokens). reflexivity.
  - cbn [app translateEvents map]. rewrite (translateEvent_text _ _ _ Htext).
    rewrite IH. reflexivity.
Qed.

(** X28.  A well-formed event stream is translated event by event: when
    the lines of the stream carry, in this order, a [message_start] event
    with a usage, any number of [content_block_delta] events with a
    non-empty text, a [message_delta] event with a usage and a
    [message_stop] event (lines that do not start with [data: ] may stand
    anywhere in between), the translation pushes one content chunk per
    text, in order, then a single final chunk whose usage has the input
    tokens of the first event, the output tokens of the third and their
    sum, then the [DONE] marker; the reported usage is that pair of
    counts and nothing is left in the buffer. *)
Theorem stream_is_translated_event_by_event clock lines evs
        input texts output startEv textEvs usageEv stopEv :
  Forall2 carries lines evs ->
  eventsOf evs = startEv :: textEvs ++ [usageEv; stopEv] ->
  is_start input startEv -> Forall2 is_text texts textEvs ->
  is_usage output usageEv -> is_stop stopEv ->
  map payload (transform clock (joinLines lines) fresh).1
  = map (Content model) texts
    ++ [Final model input output (input + output)%Z; DoneMarker] /\
  getUsage (transform clock (joinLines lines) fresh).2 = (input, output) /\
  buffer (transform clock (joinLines lines) fresh).2 = ""%string.
Proof.
  intros Hlines Hevs Hstart Htexts Husage Hstop.
  assert (Hunbroken : List.Forall unbroken lines).
  { clear -Hlines. induction Hlines as [|line ev lines evs [Hu _] _ IH];
      constructor; assumption. }
  destruct (transform_payload clock (joinLines lines) fresh) as [Hp Ht].
  cbn [fresh buffer inputTokens outputTokens] in Hp, Ht.
  change ("" ++ joinLines lines)%string with (joinLines lines) in Hp, Ht.
  rewrite (splitLines_joinLines lines Hunbroken) in Hp, Ht.
  cbn [fst snd] in Hp, Ht.
  rewrite (translateAll_carries lines evs Hlines), Hevs in Hp, Ht.
  cbn [translateEvents] in Hp, Ht.
  rewrite (translateEvent_start input startEv _ Hstart) in Hp, Ht.
  rewrite (translateEvents_texts texts textEvs _ _ Htexts) in Hp, Ht.
  cbn [translateEvents fst snd] in Hp, Ht.
  rewrite (translateEvent_usage output usageEv _ Husage) in Hp, Ht.
  rewrite (translateEvent_stop stopEv _ Hstop) in Hp, Ht.
  cbn [fst snd app] in Hp, Ht. rewrite Hp, Ht. cbn. auto.
Qed.

End WithParser.

(** A parser for the four payloads of a small stream. *)
Definition sampleParse (payloadText : string) : option SseEvent :=
  if String.eqb payloadText "start"
  then Some (mkSseEvent "message_start" (Some 12%Z) None None)
  else if String.eqb payloadText "hello"
  then Some (mkSseEvent "content_block_delta" None (Some "Hello"%string) None)
  else if String.eqb payloadText "world"
  then Some (mkSseEvent "content_block_delta" None (Some " world"%string) None)
  else if String.eqb payloadText "usage"
  then Some (mkSseEvent "message_delta" None None (Some 2%Z))
  else if String.eqb payloadText "stop"
  then Some (mkSseEvent "message_stop" None None None)
  else None.

Definition sampleLines : list string :=
  [ "event: message_start"; "data: start"; "";
    "data: hello"; "data: world "; "data: usage"; "data: stop" ]%string.

Definition sampleEvents : list (option SseEvent) :=
  [ None; sampleParse "start"; None; sampleParse "hello"; sampleParse "world";
    sampleParse "usage"; sampleParse "stop" ].

Lemma stream_is_translated_event_by_event_witness :
  map payload (transform sampleParse "claude-3-haiku" (fun _ => (0, 0)%Z)
                 (joinLines sampleLines) fresh).1
  = map (Content "claude-3-haiku") ["Hello"; " world"]%string
    ++ [Final "claude-3-haiku" 12 2 (12 + 2)%Z; DoneMarker] /\
  getUsage (transform sampleParse "claude-3-haiku" (fun _ => (0, 0)%Z)
              (joinLines sampleLines) fresh).2 = (12, 2)%Z /\
  buffer (transform sampleParse "claude-3-haiku" (fun _ => (0, 0)%Z)
            (joinLines sampleLines) fresh).2 = ""%string.
Proof.
  apply (stream_is_translated_event_by_event sampleParse "claude-3-haiku"
           (fun _ => (0, 0)%Z) sampleLines sampleEvents 12 ["Hello"; " world"]%string 2
           (mkSseEvent "message_start" (Some 12%Z) None None)
           [ mkSseEvent "content_block_delta" None (Some "Hello"%string) None;
             mkSseEvent "content_block_delta" None (Some " world"%string) None ]
           (mkSseEvent "message_delta" None None (Some 2%Z))
           (mkSseEvent "message_stop" None None None)).
  - repeat (apply List.Forall2_cons;
            [split; [reflexivity |
                     first [reflexivity
                           | eexists; repeat split; reflexivity]]|]).
    apply List.Forall2_nil.
  - reflexivity.
  - split; reflexivity.
  - repeat (apply List.Forall2_cons; [repeat split; reflexivity|]).
    apply List.Forall2_nil.
  - split; reflexivity.
  - reflexivity.
Defined.

(** A stream whose text holds a two-byte character, cut inside an event
    but not inside the character. *)
Definition e_acute : string :=
  String (ascii_of_nat 195) (String (ascii_of_nat 169) EmptyString).

Definition accentParse (payloadText : string) : option SseEvent :=
  if String.eqb payloadText ("caf" ++ e_acute)
  then Some (mkSseEvent "content_block_delta" None
               (Some ("caf" ++ e_acute)%string) None)
  else sampleParse payloadText.

Definition cutBetweenCharacters : list string :=
  [ "data: ca"; "f" ++ e_acute ++ newline ++ "data: stop" ++ newline ]%string.

Definition cutInsideCharacter : list string :=
  [ "data: caf" ++ String (ascii_of_nat 195) EmptyString;
    String (ascii_of_nat 169) EmptyString ++ newline ++ "data: stop"
    ++ newline ]%string.

Lemma chunk_boundaries_do_not_matter_witness :
  map payload
    (feed accentParse "claude-3-haiku" (fun _ _ => (0, 0)%Z) 0
       cutBetweenCharacters fresh).1
  = map payload
      (transformBuffer accentParse "claude-3-haiku" (fun _ => (0, 0)%Z)
         (joinChunks cutBetweenCharacters) fresh).1 /\
  (feed accentParse "claude-3-haiku" (fun _ _ => (0, 0)%Z) 0
     cutBetweenCharacters fresh).2
  = (transformBuffer accentParse "claude-3-haiku" (fun _ => (0, 0)%Z)
       (joinChunks cutBetweenCharacters) fresh).2.
Proof.
  apply (chunk_boundaries_do_not_matter accentParse "claude-3-haiku"
           (fun _ _ => (0, 0)%Z) (fun _ => (0, 0)%Z) cutBetweenCharacters).
  vm_compute. reflexivity.
Defined.

(** The same two Buffers hold the same bytes when the boundary falls inside
    the character, but each half of the character decodes to U+FFFD: the
    line that reaches [JSON.parse] is no longer the one that was sent, and
    the text of the event is lost, where a single call on the whole stream
    translates it. *)
Example character_cut_in_two :
  joinChunks cutInsideCharacter = joinChunks cutBetweenCharacters /\
  joinChunks (map toString cutInsideCharacter)
  = ("data: caf" ++ replacement ++ replacement ++ newline ++ "data: stop"
     ++ newline)%string /\
  map payload
    (feed accentParse "claude-3-haiku" (fun _ _ => (0, 0)%Z) 0
       cutInsideCharacter fresh).1
  = [DoneMarker] /\
  map payload
    (transformBuffer accentParse "claude-3-haiku" (fun _ => (0, 0)%Z)
       (joinChunks cutInsideCharacter) fresh).1
  = [Content "claude-3-haiku" ("caf" ++ e_acute); DoneMarker].
Proof. vm_compute. auto. Qed.

(** The same stream cut inside its second event. *)
Example event_cut_in_two :
  map payload
    (feed sampleParse "claude-3-haiku" (fun _ _ => (0, 0)%Z) 0
       [ "event: message_start" ++ newline ++ "data: start" ++ newline
         ++ "data: he";
         "llo" ++ newline ++ "data: stop" ++ newline ]%string fresh).1
  = [Content "claude-3-haiku" "Hello"; DoneMarker].
Proof. vm_compute. reflexivity. Qed.

End Anthropic.

(** ** Intent detection ([classifier], [detectIntent]) *)

Module IntentProps.

Import Classifier.

Section WithRuntime.

Variable regex_test : Regex -> JS.str -> bool.
Variable toLowerCase : JS.str -> JS.str.

(** The score table of a prompt, in the order of [INTENT_PATTERNS]. *)
Definition scoresOf (prompt : JS.str) : list (string * Z) :=
  map (fun ic => (fst ic,
                  intentScore regex_test prompt (toLowerCase prompt) (snd ic)))
      INTENT_PATTERNS.

Lemma scoresOf_nonneg prompt name s :
  In (name, s) (scoresOf prompt) -> (0 <= s)%Z.
Proof.
  unfold scoresOf. intros H. apply in_map_iff in H as (ic & [= _ <-] & _).
  unfold intentScore. lia.
Qed.

Lemma foldl_sum_shift (l : list (string * Z)) : forall a,
  foldl (fun s e => (s + snd e)%Z) a l
  = (a + foldl (fun s e => (s + snd e)%Z) 0%Z l)%Z.
Proof.
  induction l as [|e l IH]; intros a; cbn [foldl]; [lia|].
  rewrite IH, (IH (0 + snd e)%Z). lia.
Qed.

Lemma foldl_sum_nonneg (l : list (string * Z)) :
  (forall e, In e l -> (0 <= snd e)%Z) ->
  (0 <= foldl (fun s e => (s + snd e)%Z) 0%Z l)%Z.
Proof.
  induction l as [|e l IH]; intros H; cbn [foldl]; [lia|].
  rewrite foldl_sum_shift.
  assert (0 <= snd e)%Z by (apply H; left; reflexivity).
  assert (0 <= foldl (fun s e => (s + snd e)%Z) 0%Z l)%Z
    by (apply IH; intros; apply H; right; assumption).
  lia.
Qed.

Lemma known_intents name :
  In name ("general"%string :: map fst INTENT_PATTERNS) ->
  is_Some (Router.assoc name Router.intentStrengthMap).
Proof.
  cbn. intros H.
  repeat (destruct H as [<- | H]; [eexists; reflexivity|]). destruct H.
Qed.

(** X29.  The detected intent is the best-scoring one: the scores returned
    are the score table of the prompt (whose entries are not negative,
    [scoresOf_nonneg]); when every score is 0 the intent is [general];
    otherwise the intent is the first intent of the table, in its order,
    whose score is the highest, and that score is positive.  The confidence
    lies between 0 and 1, and the intent always has an entry in the
    strength table of the router. *)
Theorem detected_intent_is_the_best prompt :
  let scores := scoresOf prompt in
  let intent := (detectIntent regex_test toLowerCase prompt).1.1 in
  let confidence := (detectIntent regex_test toLowerCase prompt).1.2 in
  (detectIntent regex_test toLowerCase prompt).2 = scores /\
  0 <= confidence /\ confidence <= 1 /\
  is_Some (Router.assoc intent Router.intentStrengthMap) /\
  ((forall name s, In (name, s) scores -> s = 0%Z) ->
   intent = "general"%string) /\
  ((exists name s, In (name, s) scores /\ (0 < s)%Z) ->
   exists best pre post,
     scores = pre ++ (intent, best) :: post /\ (0 < best)%Z /\
     (forall name s, In (name, s) pre -> (s < best)%Z) /\
     (forall name s, In (name, s) post -> (s <= best)%Z)).
Proof.
  cbv zeta. unfold detectIntent. fold (scoresOf prompt).
  destruct (JS.sort_desc (fun e => inject_Z (snd e)) (scoresOf prompt))
    as [|[bestIntent bestScore] rest] eqn:Es.
  { exfalso.
    assert (H : In ("code"%string,
                    intentScore regex_test prompt (toLowerCase prompt)
                      (snd (hd ("code"%string, mkIntent [] []) INTENT_PATTERNS)))
                   (JS.sort_desc (fun e => inject_Z (snd e)) (scoresOf prompt))).
    { apply Router.sort_desc_In. left. reflexivity. }
    rewrite Es in H. destruct H. }
  cbn [fst snd].
  destruct (SortFacts.sort_desc_head _ _ _ _ Es)
    as (pre & post & Hsplit & Hpre & Hpost).
  assert (Hin : forall e, In e ((bestIntent, bestScore) :: rest) ->
                          In e (scoresOf prompt)).
  { intros e He. rewrite <- Es in He. apply Router.sort_desc_In in He.
    exact He. }
  assert (Hbest : (0 <= bestScore)%Z).
  { apply (scoresOf_nonneg prompt bestIntent), Hin. left. reflexivity. }
  assert (Hrest : (0 <= foldl (fun s e => (s + snd e)%Z) 0%Z rest)%Z).
  { apply foldl_sum_nonneg. intros [n s] He. cbn.
    apply (scoresOf_nonneg prompt n), Hin. right. exact He. }
  split; [reflexivity|].
  assert (Hconf : 0 <= (if (0 <? foldl (fun s e => (s + snd e)%Z) 0%Z
                                    ((bestIntent, bestScore) :: rest))%Z
                        then inject_Z bestScore
                             / inject_Z (foldl (fun s e => (s + snd e)%Z) 0%Z
                                           ((bestIntent, bestScore) :: rest))
                        else 0) /\
                 (if (0 <? foldl (fun s e => (s + snd e)%Z) 0%Z
                              ((bestIntent, bestScore) :: rest))%Z
                  then inject_Z bestScore
                       / inject_Z (foldl (fun s e => (s + snd e)%Z) 0%Z
                                     ((bestIntent, bestScore) :: rest))
                  else 0) <= 1).
  { cbn [foldl]. rewrite foldl_sum_shift. cbn [snd].
    destruct (0 <? _)%Z eqn:E; [|split; lra]. apply Z.ltb_lt in E.
    apply Benchmarker.fraction_unit; lia. }
  destruct Hconf as [Hc0 Hc1].
  match type of Hc0 with
  | 0 <= ?c => set (conf := c) in *
  end.
  destruct (JSFacts.round_bounds (conf * 100) 0 100) as [Hr0 Hr1].
  { change (inject_Z 0) with 0. lra. }
  { change (inject_Z 100) with 100. lra. }
  rewrite Zle_Qle in Hr0, Hr1.
  change (inject_Z 0) with 0 in Hr0. change (inject_Z 100) with 100 in Hr1.
  split; [apply Qle_shift_div_l; lra|].
  split; [apply Qle_shift_div_r; lra|].
  split; [|split].
  - apply known_intents. destruct (0 <? bestScore)%Z; [|left; reflexivity].
    right. change (map fst INTENT_PATTERNS) with (map fst (scoresOf prompt)).
    apply (in_map fst (scoresOf prompt) (bestIntent, bestScore)), Hin.
    left. reflexivity.
  - intros Hzero. rewrite (Hzero bestIntent bestScore); [reflexivity|].
    apply Hin. left. reflexivity.
  - intros (name & s & Hs & Hpos).
    assert (Hle : (s <= bestScore)%Z).
    { rewrite Hsplit in Hs.
      apply in_app_iff in Hs as [Hs | [[= _ <-] | Hs]].
      - specialize (Hpre _ Hs). cbn in Hpre. rewrite <- Zlt_Qlt in Hpre. lia.
      - lia.
      - specialize (Hpost _ Hs). cbn in Hpost. rewrite <- Zle_Qle in Hpost.
        exact Hpost. }
    assert (Hb : (0 <? bestScore)%Z = true) by (apply Z.ltb_lt; lia).
    rewrite Hb. exists bestScore, pre, post.
    split; [exact Hsplit|]. split; [lia|]. split.
    + intros n s' Hn. specialize (Hpre _ Hn). cbn in Hpre.
      rewrite <- Zlt_Qlt in Hpre. exact Hpre.
    + intros n s' Hn. specialize (Hpost _ Hn). cbn in Hpost.
      rewrite <- Zle_Qle in Hpost. exact Hpost.
Qed.

End WithRuntime.

End IntentProps.

(** ** Semantic cache: capacity and statistics ([services/cache.js]) *)

Module CacheProps.

Import SemanticCache.

Section WithPayload.

Variable Response : Type.

(** A call made on the cache, with its clock readings. *)
Inductive Op :=
| Store (now : Z) (promptHash : string) (r : Response) (mdl : string)
        (embedding : option (list Q))
| Lookup (nowEvict nowExact : Z) (nowScan : nat -> Z) (promptHash : string)
         (embedding : option (list Q)).

Definition is_hit (a : LookupResult Response) : bool :=
  match a with Hit _ _ _ => true | Miss => false end.

(** A run of calls: the answers of the lookups, in order, and the cache
    at the end; [None] when a [store] does not return. *)
Fixpoint run (ops : list Op) (c : Cache Response)
  : option (list (LookupResult Response) * Cache Response) :=
  match ops with
  | [] => Some ([], c)
  | Store now h r mdl embedding :: rest =>
      match store now h r mdl embedding c with
      | Some c1 => run rest c1
      | None => None
      end
  | Lookup nowEvict nowExact nowScan h embedding :: rest =>
      let '(answer, c1) := lookup nowEvict nowExact nowScan h embedding c in
      match run rest c1 with
      | Some (answers, c2) => Some (answer :: answers, c2)
      | None => None
      end
  end.

(** No [store] of the run uses the empty string as its key. *)
Definition keyed (op : Op) : Prop :=
  match op with
  | Store _ h _ _ _ => h <> ""%string
  | Lookup _ _ _ _ _ => True
  end.

(** The map is within the capacity and every lookup was counted once, as
    a hit or as a miss. *)
Definition accounted (limit : Q) (c : Cache Response) : Prop :=
  maxSize Response c = limit /\
  inject_Z (Z.of_nat (size (exactMatchMap c))) < limit + 1 /\
  totalLookups (stats Response c)
  = (exactHits (stats Response c) + semanticHits (stats Response c)
     + misses (stats Response c))%Z.

Lemma evictLRU_size limit order : forall m embs order' m' embs',
  evictLRU Response limit order m embs = Some (order', m', embs') ->
  inject_Z (Z.of_nat (size m')) < limit.
Proof.
  induction order as [|oldest rest IH]; intros m embs order' m' embs';
    cbn [evictLRU].
  - destruct (JS.Qgeb (inject_Z (Z.of_nat (size m))) limit) eqn:E;
      [discriminate|].
    intros [= _ <- _]. apply JS.Qgeb_lt, E.
  - destruct (JS.Qgeb (inject_Z (Z.of_nat (size m))) limit) eqn:E.
    + destruct (JS.truthy_string oldest); apply IH.
    + intros [= _ <- _]. apply JS.Qgeb_lt, E.
Qed.

Lemma size_insert_le (m : gmap string (Entry Response)) h e :
  (size (<[h := e]> m) <= S (size m))%nat.
Proof.
  destruct (m !! h) eqn:E.
  - rewrite map_size_insert_Some by eauto. lia.
  - rewrite map_size_insert_None by exact E. lia.
Qed.

Lemma store_accounted limit now h r mdl embedding c c' :
  accounted limit c -> store now h r mdl embedding c = Some c' ->
  accounted limit c' /\
  stats Response c' = match embedding with
                      | Some _ => count_computed (stats Response c)
                      | None => stats Response c
                      end.
Proof.
  intros (Hmax & _ & Hstats). unfold store.
  destruct (evictLRU Response (maxSize Response c) (accessOrder Response c)
              (exactMatchMap c) (embeddingEntries c)) as [[[order m] embs]|] eqn:Ee;
    [|discriminate].
  apply evictLRU_size in Ee. rewrite Hmax in Ee.
  pose proof (size_insert_le m h (mkEntry Response r mdl now 0)) as Hle.
  assert (Hsize : inject_Z (Z.of_nat
                              (size (<[h := mkEntry Response r mdl now 0]> m)))
                  < limit + 1).
  { eapply Qle_lt_trans with (inject_Z (Z.of_nat (S (size m)))).
    - rewrite <- Zle_Qle. lia.
    - rewrite Nat2Z.inj_succ, <- Z.add_1_r, inject_Z_plus.
      change (inject_Z 1) with 1. lra. }
  destruct embedding; intros [= <-]; (split; [|reflexivity]);
    unfold accounted; cbn; auto.
Qed.

Lemma _shouldUseEmbedding_keeps (c : Cache Response) :
  let c' := (_shouldUseEmbedding Response c).2 in
  maxSize Response c' = maxSize Response c /\
  exactMatchMap c' = exactMatchMap c /\
  totalLookups (stats Response c') = totalLookups (stats Response c) /\
  exactHits (stats Response c') = exactHits (stats Response c) /\
  semanticHits (stats Response c') = semanticHits (stats Response c) /\
  misses (stats Response c') = misses (stats Response c).
Proof.
  cbv zeta. unfold _shouldUseEmbedding. repeat JS.case_if; cbn; auto 10.
Qed.

Lemma lookup_accounted limit nowEvict nowExact nowScan h embedding c :
  accounted limit c ->
  let answer := (lookup nowEvict nowExact nowScan h embedding c).1 in
  let c' := (lookup nowEvict nowExact nowScan h embedding c).2 in
  accounted limit c' /\
  totalLookups (stats Response c') = (totalLookups (stats Response c) + 1)%Z /\
  (exactHits (stats Response c') + semanticHits (stats Response c'))%Z
  = (exactHits (stats Response c) + semanticHits (stats Response c)
     + (if is_hit answer then 1 else 0))%Z.
Proof.
  intros (Hmax & Hsize & Hstats). cbv zeta. unfold lookup.
  set (c0 := with_store Response (exactMatchMap c) (embeddingEntries c)
               (accessOrder Response c) (count_lookup (stats Response c)) c).
  set (c1 := _evictExpired Response nowEvict c0).
  assert (Hsize1 : inject_Z (Z.of_nat (size (exactMatchMap c1))) < limit + 1).
  { eapply Qle_lt_trans; [|exact Hsize]. rewrite <- Zle_Qle.
    apply inj_le. subst c1. cbn [_evictExpired exactMatchMap with_store].
    apply map_subseteq_size, map_filter_subseteq. }
  assert (Hst1 : stats Response c1 = count_lookup (stats Response c))
    by reflexivity.
  assert (Hmax1 : maxSize Response c1 = limit) by exact Hmax.
  destruct (exactCandidate Response nowExact h c1) as [e|] eqn:Ex.
  - apply exactCandidate_fresh in Ex as [He _].
    cbn [fst snd is_hit]. unfold accounted.
    cbn [maxSize exactMatchMap stats with_store totalLookups exactHits
         semanticHits misses count_exact].
    rewrite map_size_insert_Some by eauto. rewrite Hst1.
    cbn [totalLookups exactHits semanticHits misses count_lookup].
    repeat split; try assumption; lia.
  - assert (Hmiss : forall c2 : Cache Response,
              maxSize Response c2 = limit ->
              exactMatchMap c2 = exactMatchMap c1 ->
              totalLookups (stats Response c2)
                = totalLookups (stats Response c1) ->
              exactHits (stats Response c2) = exactHits (stats Response c1) ->
              semanticHits (stats Response c2)
                = semanticHits (stats Response c1) ->
              misses (stats Response c2) = misses (stats Response c1) ->
              let c' := with_store Response (exactMatchMap c2)
                          (embeddingEntries c2) (accessOrder Response c2)
                          (count_miss (stats Response c2)) c2 in
              accounted limit c' /\
              totalLookups (stats Response c')
                = (totalLookups (stats Response c) + 1)%Z /\
              (exactHits (stats Response c')
               + semanticHits (stats Response c'))%Z
              = (exactHits (stats Response c)
                 + semanticHits (stats Response c) + 0)%Z).
    { intros c2 H1 H2 H3 H4 H5 H6. cbv zeta. unfold accounted.
      cbn [maxSize exactMatchMap stats with_store totalLookups exactHits
           semanticHits misses count_miss].
      rewrite H2, H3, H4, H5, H6, Hst1.
      cbn [totalLookups exactHits semanticHits misses count_lookup].
      repeat split; try assumption; lia. }
    destruct embedding as [emb|]; [|cbn [fst snd is_hit]; apply Hmiss; auto].
    destruct (_shouldUseEmbedding_keeps c1) as (K1 & K2 & K3 & K4 & K5 & K6).
    destruct (_shouldUseEmbedding Response c1) as [use c2].
    cbn [snd] in K1, K2, K3, K4, K5, K6.
    assert (Hmax2 : maxSize Response c2 = limit) by congruence.
    destruct use; [|cbn [fst snd is_hit]; apply Hmiss; auto].
    destruct (semanticCandidate Response nowScan emb c2) as [[i best]|];
      [|cbn [fst snd is_hit]; apply Hmiss; auto].
    cbn [fst snd is_hit]. unfold accounted.
    cbn [maxSize exactMatchMap stats with_store totalLookups exactHits
         semanticHits misses count_semantic].
    rewrite K2, K3, K4, K5, K6, Hst1.
    cbn [totalLookups exactHits semanticHits misses count_lookup].
    repeat split; try assumption; lia.
Qed.

Definition lookups (ops : list Op) : nat :=
  length (List.filter (fun op => match op with
                                 | Lookup _ _ _ _ _ => true
                                 | Store _ _ _ _ _ => false
                                 end) ops).

Definition hits (answers : list (LookupResult Response)) : nat :=
  length (List.filter is_hit answers).

Lemma run_accounted limit ops : forall c,
  1 <= limit -> List.Forall keyed ops ->
  cache_inv Response c -> accounted limit c ->
  exists answers c',
    run ops c = Some (answers, c') /\
    cache_inv Response c' /\ accounted limit c' /\
    length answers = lookups ops /\
    totalLookups (stats Response c')
    = (totalLookups (stats Response c) + Z.of_nat (lookups ops))%Z /\
    (exactHits (stats Response c') + semanticHits (stats Response c'))%Z
    = (exactHits (stats Response c) + semanticHits (stats Response c)
       + Z.of_nat (hits answers))%Z.
Proof.
  induction ops as [|op ops IH]; intros c Hlim Hkeys Hinv Hacc.
  - exists [], c. cbn. repeat split; try apply Hinv; try apply Hacc; lia.
  - apply List.Forall_cons_iff in Hkeys as [Hkey Hkeys].
    destruct op as [now h r mdl embedding
                   | nowEvict nowExact nowScan h embedding].
    + cbn [run]. cbn in Hkey.
      destruct Hacc as (Hmax & Hsz & Hst).
      assert (Hlim' : 1 <= maxSize Response c) by (rewrite Hmax; exact Hlim).
      destruct (evictLRU_Some Response (maxSize Response c)
                  (accessOrder Response c) (exactMatchMap c)
                  (embeddingEntries c) Hlim' (proj1 Hinv) (proj2 Hinv))
        as (order & m & embs & Hev & _).
      assert (Hret : exists c1, store now h r mdl embedding c = Some c1).
      { unfold store. rewrite Hev. destruct embedding; eauto. }
      destruct Hret as [c1 Hc1]. rewrite Hc1.
      destruct (store_inv Response now h r mdl embedding c c1 Hinv Hlim' Hkey
                  Hc1) as [Hinv1 _].
      destruct (store_accounted limit now h r mdl embedding c c1
                  (conj Hmax (conj Hsz Hst)) Hc1) as [Hacc1 Hst1].
      destruct (IH c1 Hlim Hkeys Hinv1 Hacc1)
        as (answers & c' & Hrun & Hinv' & Hacc' & Hlen & Htot & Hhits).
      exists answers, c'. split; [exact Hrun|].
      split; [exact Hinv'|]. split; [exact Hacc'|].
      split; [exact Hlen|]. rewrite Htot, Hhits, Hst1.
      destruct embedding; cbn; auto.
    + cbn [run].
      pose proof (lookup_inv Response nowEvict nowExact nowScan h embedding c
                    Hinv) as Hinv1.
      destruct (lookup_accounted limit nowEvict nowExact nowScan h embedding c
                  Hacc) as (Hacc1 & Htot1 & Hhit1).
      destruct (lookup nowEvict nowExact nowScan h embedding c)
        as [answer c1]. cbn [fst snd] in *.
      destruct (IH c1 Hlim Hkeys Hinv1 Hacc1)
        as (answers & c' & Hrun & Hinv' & Hacc' & Hlen & Htot & Hhits).
      rewrite Hrun. exists (answer :: answers), c'.
      split; [reflexivity|]. split; [exact Hinv'|]. split; [exact Hacc'|].
      unfold lookups, hits in *. cbn [List.filter length].
      split; [cbn [length]; lia|]. rewrite Htot, Hhits, Htot1, Hhit1.
      destruct (is_hit answer); cbn [length]; split; lia.
Qed.

(** X30.  The cache stays within its capacity and counts every lookup
    once: on a cache built with a capacity of at least 1, any run of
    [store] and [lookup] calls whose stores use non-empty keys returns
    (the eviction loop always ends), the number of entries stays below the
    capacity plus one, so that it never exceeds an integer capacity, and
    at the end [totalLookups] is the number of lookups
    made, which is the sum of the exact hits, the semantic hits and the
    misses, the hits counted being the lookups answered with a hit. *)
Theorem cache_within_capacity_and_accounted options ops :
  1 <= maxSize Response (new options) -> List.Forall keyed ops ->
  exists answers c,
    run ops (new options) = Some (answers, c) /\
    inject_Z (Z.of_nat (size (exactMatchMap c)))
      < maxSize Response (new options) + 1 /\
    length answers = lookups ops /\
    totalLookups (stats Response c) = Z.of_nat (lookups ops) /\
    totalLookups (stats Response c)
    = (exactHits (stats Response c) + semanticHits (stats Response c)
       + misses (stats Response c))%Z /\
    (exactHits (stats Response c) + semanticHits (stats Response c))%Z
    = Z.of_nat (hits answers).
Proof.
  intros Hlim Hkeys.
  destruct (run_accounted (maxSize Response (new options)) ops (new options)
              Hlim Hkeys (new_inv Response options))
    as (answers & c & Hrun & _ & (_ & Hsz & Hst) & Hlen & Htot & Hhits).
  - unfold accounted. cbn [new exactMatchMap stats totalLookups exactHits
                           semanticHits misses].
    split; [reflexivity|]. split; [|reflexivity].
    rewrite map_size_empty. change (inject_Z (Z.of_nat 0)) with 0. lra.
  - exists answers, c. cbn [new stats totalLookups exactHits semanticHits]
      in Htot, Hhits.
    repeat split; try assumption; lia.
Qed.

End WithPayload.

(** A cache of two entries, filled beyond its capacity and read back. *)
Definition small_run : list (Op string) :=
  [ Store string 0 "h1" "one" "gpt-4o-mini" None;
    Store string 1 "h2" "two" "gpt-4o-mini" None;
    Store string 2 "h3" "three" "gpt-4o-mini" None;
    Lookup string 3 3 (fun _ => 3%Z) "h1" None;
    Lookup string 4 4 (fun _ => 4%Z) "h3" None ].

Definition two_slots : SemanticCache.Options :=
  SemanticCache.mkOptions (Some 2) None None None None.

Lemma cache_within_capacity_and_accounted_witness :
  exists answers c,
    run string small_run (SemanticCache.new two_slots) = Some (answers, c) /\
    inject_Z (Z.of_nat (size (SemanticCache.exactMatchMap c)))
      < SemanticCache.maxSize string (SemanticCache.new two_slots) + 1 /\
    length answers = lookups string small_run /\
    SemanticCache.totalLookups (SemanticCache.stats string c)
    = Z.of_nat (lookups string small_run) /\
    SemanticCache.totalLookups (SemanticCache.stats string c)
    = (SemanticCache.exactHits (SemanticCache.stats string c)
       + SemanticCache.semanticHits (SemanticCache.stats string c)
       + SemanticCache.misses (SemanticCache.stats string c))%Z /\
    (SemanticCache.exactHits (SemanticCache.stats string c)
     + SemanticCache.semanticHits (SemanticCache.stats string c))%Z
    = Z.of_nat (hits string answers).
Proof.
  apply (cache_within_capacity_and_accounted string two_slots small_run).
  - vm_compute. discriminate.
  - repeat apply List.Forall_cons; try apply List.Forall_nil;
      cbn; try exact I; discriminate.
Defined.

Example oldest_entry_was_evicted :
  match run string small_run (SemanticCache.new two_slots) with
  | Some (answers, c) =>
      map (is_hit string) answers = [false; true] /\
      size (SemanticCache.exactMatchMap c) = 2%nat
  | None => False
  end.
Proof. vm_compute. auto. Qed.

End CacheProps.
